(* ===== verification/_CoqProject ===== *)
-Q . S2P
Prelude.v
Json.v
GoTime.v
Database.v
Hex.v
PaymentRepo.v
OutboxRepo.v
PaymentService.v
OutboxWorker.v
UserRepo.v
Ledger.v
Concurrent.v
Pollers.v
Lifecycle.v
Redis.v
Lock.v
Http.v
Idempotency.v
RateLimit.v
ClientLimiter.v
PaymentHandler.v
Endpoints.v
UserLock.v
SameKey.v
Text.v
Jwt.v
Breaker.v
Dispute.v
EventLog.v
Keys.v
Webhook.v
Float.v
Currency.v
Subscription.v
SubscriptionRepo.v
Config.v
Tools.v
Middleware.v
Server.v
System.v
Boot.v
