(* ===== verification/Prelude.v ===== *)
(** * VaultPay: a verification development of the payment engine under src/

    VaultPay is an HTTP server in Go.  A merchant's wallet is a row of PostgreSQL; a charge debits
    it, records a payment and stages an event in one transaction (the outbox); a worker moves the
    events to a task queue on Redis, and a second worker delivers them to the merchant.  Around
    this stand a lock, an idempotency cache and two rate limiters, access tokens and API keys,
    disputes, subscriptions, an audit trail, metrics and logging, put together in cmd/api/main.go.

    This development translates that code to Rocq definitions with the names of the source, and
    proves what they do.  Every file models the source file its first line names.

    ** How the code is modelled

    A Go function that reads and writes a state and may fail is a function [M S T := S -> res T * S]
    (below); an error keeps the state reached so far, as Go does.  The state of one process towards
    the outside is [World] (Database.v): the tables of the master and of the replica, the open
    transaction, the state of Redis, the task queue, and the number of external calls made.  What
    the outside decides (clocks, UUIDs, random bytes, rows locked by others, failures) is an
    environment [Env] indexed by that number.  A call may be lost before the other side acted, or
    after it with only the answer missing ([fault]); a theorem over every [Env] covers every
    pattern of failures, and [calm] says that there are none.

    An HTTP handler is a function from a request and a state to the calls it makes on the response
    writer (Http.v); [respond] says what these calls mean on the wire.  A handler works on any state
    that has the part it needs (class [Has]), so the theorems about one endpoint hold for the whole
    server.  int64, the column types of the migrations, binary64 and time.Time keep their ranges.

    What is not under src/ is an interface: the SQL driver and the key files ([SqlDriver],
    [KeyFiles]), golang-migrate ([Migrate]), Redis ([Redis], with the documented behaviour of each
    command), the task queue and its server asynq ([TaskQueue], [asynq_step]), the network
    ([Internet]), bcrypt, golang-jwt, x/time/rate, chi, the metrics page of Prometheus and the
    number formats of PostgreSQL.  Each class of laws has an instance, so its hypotheses can hold, and
    every theorem with hypotheses is followed by a lemma [.._witness] that applies it at a concrete
    input.  The SQL statements of the source are functions on the tables ([stmt]), each next to the
    text it translates.

    ** The files

    - Generic: this file (errors, results, the state monad and its weakest preconditions, int64,
      maps, tactics), Json.v (encoding/json), GoTime.v (package time and the calendar), Text.v
      (package strings), Hex.v (encoding/hex, UUID texts, the reference environment of the
      witnesses), Float.v (binary64 by its error bounds), Http.v (net/http and
      internal/handler/errors.go).
    - Money: Database.v (migrations/, transactions), PaymentRepo.v
      (internal/repository/payment_repo.go), OutboxRepo.v (outbox_repository.go), UserRepo.v
      (user_repo.go, key_repo.go), PaymentService.v (internal/service/payment_service.go),
      OutboxWorker.v (outbox_worker.go), Ledger.v (the abstract ledger), Concurrent.v (charges and
      refunds at once), Pollers.v (polls of the outbox among them), Webhook.v (webhook_worker.go,
      internal/tasks).
    - Redis: Redis.v (the server), Lock.v (internal/database/redis_lock.go), Idempotency.v and
      RateLimit.v (internal/middleware), and ClientLimiter.v (internal/handler/middleware.go, in memory).
    - Endpoints: PaymentHandler.v, Jwt.v, Keys.v, Dispute.v, Subscription.v (internal/handler with
      their services), Endpoints.v (charge and refund requests at once, call by call), UserLock.v and
      SameKey.v (the lock of the user and the idempotency key among them), EventLog.v (the two event
      repositories), SubscriptionRepo.v, Currency.v.
    - The process: Config.v (internal/config, pools of internal/database/cluster.go), Breaker.v (its
      circuit breaker and RetryQuery), Middleware.v (metrics, logging), Server.v (state, routes,
      chain of middlewares, events), System.v (theorems about the whole server), Boot.v (the start),
      Lifecycle.v (the goroutines of requests and poller, the signal, the shutdown), Tools.v
      (get_merchant_id.go, internal/logger).

    A client is proved against the interface of what it calls: PaymentService.v against the classes
    [PaymentRepository] and [OutboxRepository] and their laws, which the SQL repositories satisfy;
    the users of Redis against [RedisLaws], which the server [mem_redis] satisfies.

    ** The theorems

    - Money.  The abstract ledger (Ledger.v) has wallets, charges and three steps: open, charge,
      refund.  Every operation refines at most one step ([operations_refine_ledger]), so money is
      conserved, no wallet is overdrawn, a payment is refunded once and has one event.
      [server_refines_ledger] (System.v) carries this to any sequence of requests on any routes, polls
      and foreign traffic; [boot_then_serve] starts it at [main]; [tables_well_typed] adds the
      constraints of the schema.
    - Each operation.  [charge_matches_reference], [refund_matches_reference]: equal to a flat
      reference on every branch, errors included; [charge_atomic]: all or nothing when calls are
      lost; the endpoints answer truthfully; pages of payments are complete.
    - Concurrency.  Concurrent.v runs the statements of charges and refunds interleaved over row
      locks: the outcome is serial, refunds are not doubled, nothing deadlocks.  Pollers.v adds any
      number of polls with [SKIP LOCKED]: no event is handed over twice unless a call is lost, no poll
      waits, and the runs of charges and refunds are those of Concurrent.v ([polls_refine]).
      Lifecycle.v runs them from the first request to the exit: [process_serializable],
      [graceful_shutdown], and what a shutdown may cut off ([stop_does_not_wait]).  Endpoints.v
      interleaves the calls of whole requests, those to Redis and those to the database:
      [endpoints_serializable], [endpoints_conserve_money], [endpoints_progress].  In these runs a
      charge is alone with its user while its lock lives ([charges_exclusive], UserLock.v), an answer
      once stored is replayed, and two requests with one key before the first store may both charge
      (SameKey.v).  Lock.v has the lock under any traffic, Dispute.v the race between check and mark
      ([dispute_race]), Breaker.v any interleaving of the breaker's critical sections.
    - Events.  A poll never drops an event silently, a queued task stays until a 2xx or the retry
      limit, and without lost calls every event is delivered; an event marked FAILED is not retried.
    - The guards.  Replay of answers, quota per address, revocation and round trip of tokens, keys
      issued once, and what the Redis limiter does not do: [limiter_never_blocks], [limiter_scope].
    - Numbers.  Currency conversion and proration in binary64 against exact arithmetic.
    - The edge.  One counter and one log line per request, with the status on the wire.

    ** Bounds and fuel

    Loops are recursive on the rows, the batch or the attempts they range over.  [polls n] is the
    poller after [n] ticks.  Two definitions count down: [month_from] (GoTime.v) searches the twelve
    months and is proved to find the right one, and [fetch_pages] (PaymentRepo.v), a client that
    follows cursors, is proved to end with all rows when it may fetch more pages than there are
    rows.  A run of Lifecycle.v has as many polls as one likes ([n] of [started]), and a
    request of Endpoints.v ends after at most five stages of its own and eight calls to the database
    ([Handle_staged], [endpoints_progress]).  Float.v models the binary64 operations
    of SpecFloat as amd64 executes them at the baseline GOAMD64=v1, without fused multiplications.
    Strings are valid UTF-8, times are UTC with the ranges stated in GoTime.v.

    ** Not modelled

    The profiler's listener and the log lines of the start in main.go; what zap does with its
    set-up (Tools.v has the set-up); tracing spans; [Recoverer] (no modelled handler panics) and the
    headers net/http adds by itself; the constructors that only store their arguments; tests,
    documentation and deployment files.  Requests are whole steps in Server.v: what their calls do
    when they interleave is Concurrent.v, Pollers.v and Endpoints.v. *)

From stdpp Require Export base gmap strings list fin_maps numbers pretty sorting relations.
From Stdlib Require Export ZArith Lia.

#[global] Set Default Goal Selector "!".
#[global] Open Scope Z_scope.

(** ** Go errors

    A Go [error] is compared by identity ([errors.Is], [==]) and printed by
    [Error()].  [Sentinel] is a package-level [errors.New] value, [Errorf] a
    formatted error that wraps nothing, [Wrapf pre e post] a [fmt.Errorf] whose
    [%w] verb stands between [pre] and [post]. *)
Inductive error :=
  | Sentinel (msg : string)
  | Errorf (msg : string)
  | Wrapf (pre : string) (inner : error) (post : string).

#[export] Instance error_eq_dec : EqDecision error.
Proof. solve_decision. Defined.

Fixpoint Error (e : error) : string :=
  match e with
  | Sentinel msg | Errorf msg => msg
  | Wrapf pre e post => pre +:+ Error e +:+ post
  end.

(** [errors.Is]: walks the chain of wrapped errors. *)
Fixpoint errors_Is (e target : error) : bool :=
  bool_decide (e = target) ||
  match e with Wrapf _ inner _ => errors_Is inner target | _ => false end.

(** ** Results and the state monad of the modelled Go code

    A Go function returning [(T, error)] that reads and writes a state [S] is a
    [M S T].  An [Err] keeps the state reached so far: Go does not undo the
    effects of a function that returns an error. *)
Inductive res (A : Type) :=
  | Ok (a : A)
  | Err (e : error).
Arguments Ok {A} a.
Arguments Err {A} e.

#[export] Instance res_inhabited {A} `{Inhabited A} : Inhabited (res A) :=
  populate (Ok inhabitant).

Definition is_ok {A} (r : res A) : bool :=
  match r with Ok _ => true | Err _ => false end.

Definition M (S A : Type) : Type := S -> res A * S.

#[export] Instance M_ret {S} : MRet (M S) := fun A a s => (Ok a, s).
#[export] Instance M_bind {S} : MBind (M S) := fun A B k m s =>
  match m s with
  | (Ok a, s') => k a s'
  | (Err e, s') => (Err e, s')
  end.

Definition throw {S A} (e : error) : M S A := fun s => (Err e, s).
Definition gets {S A} (f : S -> A) : M S A := fun s => (Ok (f s), s).
Definition modify {S} (f : S -> S) : M S unit := fun s => (Ok tt, f s).
Definition lift {S A} (r : res A) : M S A := fun s => (r, s).

(** [if err != nil { return nil, fmt.Errorf("pre: %w", err) }] *)
Definition wrap_err {S A} (pre : string) (m : M S A) : M S A := fun s =>
  match m s with
  | (Err e, s') => (Err (Wrapf pre e ""), s')
  | r => r
  end.

(** The call whose error the caller inspects instead of returning. *)
Definition observe {S A} (m : M S A) : M S (res A) := fun s =>
  let '(r, s') := m s in (Ok r, s').

(** [defer]: [d] runs when [m] returns, on every path; it sees the outcome. *)
Definition deferring {S A} (d : res A -> S -> S) (m : M S A) : M S A := fun s =>
  let '(r, s') := m s in (r, d r s').

Lemma run_split {A B} (p : A * B) a : p.1 = a -> p = (a, p.2).
Proof. destruct p. simpl. congruence. Qed.

(** ** Weakest preconditions for [M] *)
Definition wp {S A} (m : M S A) (Q : res A -> S -> Prop) (s : S) : Prop :=
  Q (m s).1 (m s).2.

Section wp.
Context {S A B : Type}.
Implicit Types (s : S).

Lemma wp_ret (a : A) (Q : res A -> S -> Prop) s :
  Q (Ok a) s -> wp (mret a) Q s.
Proof. done. Qed.

Lemma wp_throw e (Q : res A -> S -> Prop) s : Q (Err e) s -> wp (throw e) Q s.
Proof. done. Qed.

Lemma wp_mono (m : M S A) (P Q : res A -> S -> Prop) s :
  wp m P s -> (forall r s', P r s' -> Q r s') -> wp m Q s.
Proof. unfold wp. auto. Qed.

Lemma wp_bind (m : M S A) (k : A -> M S B) (Q : res B -> S -> Prop) s :
  wp m (fun r s' => match r with
                    | Ok a => wp (k a) Q s'
                    | Err e => Q (Err e) s'
                    end) s ->
  wp (m ≫= k) Q s.
Proof.
  unfold wp, mbind, M_bind. destruct (m s) as [[a|e] s']; simpl; auto.
Qed.

Lemma wp_wrap_err pre (m : M S A) (Q : res A -> S -> Prop) s :
  wp m (fun r s' => match r with
                    | Ok a => Q (Ok a) s'
                    | Err e => Q (Err (Wrapf pre e "")) s'
                    end) s ->
  wp (wrap_err pre m) Q s.
Proof. unfold wp, wrap_err. destruct (m s) as [[a|e] s']; simpl; auto. Qed.

Lemma wp_deferring d (m : M S A) (Q : res A -> S -> Prop) s :
  wp m (fun r s' => Q r (d r s')) s -> wp (deferring d m) Q s.
Proof. unfold wp, deferring. destruct (m s) as [r s']; simpl; auto. Qed.

Lemma wp_observe (m : M S A) (Q : res (res A) -> S -> Prop) s :
  wp m (fun r s' => Q (Ok r) s') s -> wp (observe m) Q s.
Proof. unfold wp, observe. destruct (m s) as [r s']; simpl; auto. Qed.

Lemma wp_run (m : M S A) (Q : res A -> S -> Prop) s r s' :
  wp m Q s -> m s = (r, s') -> Q r s'.
Proof. unfold wp. intros H E. by rewrite E in H. Qed.

Lemma wp_intro (m : M S A) (Q : res A -> S -> Prop) s :
  (forall r s', m s = (r, s') -> Q r s') -> wp m Q s.
Proof. unfold wp. intros H. apply H. by destruct (m s). Qed.

Lemma mbind_ok (m : M S A) (k : A -> M S B) s a s' :
  m s = (Ok a, s') -> (m ≫= k) s = k a s'.
Proof. unfold mbind, M_bind. by intros ->. Qed.

Lemma mbind_err (m : M S A) (k : A -> M S B) s e s' :
  m s = (Err e, s') -> (m ≫= k) s = (Err e, s').
Proof. unfold mbind, M_bind. by intros ->. Qed.
End wp.

(** ** Machine integers: Go's [int64] and [int] on a 64-bit target *)
Definition int64_min : Z := - 2 ^ 63.
Definition int64_max : Z := 2 ^ 63 - 1.
Definition in_int64 (z : Z) : bool := (int64_min <=? z) && (z <=? int64_max).

(** Two's-complement wrap-around of [int64] arithmetic. *)
Definition wrap64 (z : Z) : Z := (z + 2 ^ 63) mod 2 ^ 64 - 2 ^ 63.

Lemma in_int64_spec z : in_int64 z = true <-> int64_min <= z <= int64_max.
Proof. unfold in_int64. rewrite andb_true_iff, !Z.leb_le. done. Qed.

Lemma wrap64_range z : int64_min <= wrap64 z <= int64_max.
Proof.
  unfold wrap64, int64_min, int64_max.
  pose proof (Z.mod_pos_bound (z + 2 ^ 63) (2 ^ 64) ltac:(lia)). lia.
Qed.

Lemma wrap64_id z : int64_min <= z <= int64_max -> wrap64 z = z.
Proof.
  unfold wrap64, int64_min, int64_max. intros H. rewrite Z.mod_small by lia. lia.
Qed.

(** ** Sums over the rows of a table *)
Section msum.
Context {K V : Type} `{Countable K}.
Implicit Types (f : V -> Z) (m : gmap K V).

Definition msum f m : Z := map_fold (fun _ v acc => f v + acc) 0 m.

Lemma msum_empty f : msum f ∅ = 0.
Proof. unfold msum. apply map_fold_empty. Qed.

Lemma msum_insert_new f m k v :
  m !! k = None -> msum f (<[k := v]> m) = f v + msum f m.
Proof.
  intros Hk. unfold msum. rewrite map_fold_insert_L; [done| |done].
  intros. lia.
Qed.

Lemma msum_insert_upd f m k v v' :
  m !! k = Some v -> msum f (<[k := v']> m) = msum f m - f v + f v'.
Proof.
  intros Hk. rewrite <-(insert_delete_eq m k v').
  rewrite <-(insert_delete_id m k v Hk) at 2.
  rewrite !msum_insert_new by apply lookup_delete_eq. lia.
Qed.

Lemma msum_ext f g m :
  (forall k v, m !! k = Some v -> f v = g v) -> msum f m = msum g m.
Proof.
  induction m as [|k v m Hk IH] using map_ind; intros Hfg; [done|].
  rewrite !msum_insert_new by done. rewrite (Hfg k v) by apply lookup_insert_eq.
  rewrite IH; [done|]. intros j w Hj. apply (Hfg j w).
  rewrite lookup_insert_ne; [done|]. congruence.
Qed.

Lemma msum_nonneg f m :
  (forall k v, m !! k = Some v -> 0 <= f v) -> 0 <= msum f m.
Proof.
  induction m as [|k v m Hk IH] using map_ind; intros Hf; [by rewrite msum_empty|].
  rewrite msum_insert_new by done.
  pose proof (Hf k v (lookup_insert_eq _ _ _)).
  enough (0 <= msum f m) by lia. apply IH. intros j w Hj. apply (Hf j w).
  rewrite lookup_insert_ne; [done|]. congruence.
Qed.
End msum.

(** ** Lists *)
Section filters.
Context {A : Type} (f : A -> bool).

Lemma filter_all l : Forall (fun x => f x = true) l -> List.filter f l = l.
Proof. induction 1 as [|x l Hx _ IH]; simpl; [done|]. by rewrite Hx, IH. Qed.

Lemma filter_perm l l' : l ≡ₚ l' -> List.filter f l ≡ₚ List.filter f l'.
Proof.
  induction 1 as [|x l l' _ IH|x y l|l1 l2 l3 _ IH1 _ IH2]; simpl; [done| | |by etrans].
  - by destruct (f x); rewrite IH.
  - destruct (f x), (f y); try done. apply perm_swap.
Qed.

Lemma filter_none l : Forall (fun x => f x = false) l -> List.filter f l = [].
Proof. induction 1 as [|x l Hx _ IH]; simpl; [done|]. by rewrite Hx. Qed.

(** When not all pass, one does not. *)
Lemma forallb_exists_false l : forallb f l = false -> exists i x, l !! i = Some x /\ f x = false.
Proof.
  induction l as [|x l IH]; [done|]. cbn. intros [H|H]%andb_false_iff.
  - by exists 0%nat, x.
  - destruct (IH H) as (i & y & ? & ?). by exists (S i), y.
Qed.
End filters.

(** ** Strings *)

(** The double quote, written by its code. *)
Definition dquote : string := String (Ascii.ascii_of_nat 34) EmptyString.
Definition newline : string := String (Ascii.ascii_of_nat 10) EmptyString.

(** Decimal rendering of an integer ([strconv.Itoa], [%d], Lua's [tostring]). *)
Definition itoa (z : Z) : string := pretty z.

Lemma string_app_nil_r a : a +:+ "" = a.
Proof.
  induction a as [|x a IH]; [done|]. change (String x (a +:+ "") = String x a). by rewrite IH.
Qed.

Lemma string_app_assoc a b c : a +:+ (b +:+ c) = (a +:+ b) +:+ c.
Proof.
  induction a as [|x a IH]; [done|].
  change (String x (a +:+ (b +:+ c)) = String x ((a +:+ b) +:+ c)). by rewrite IH.
Qed.

Lemma string_app_inj a a' b b' :
  String.length a = String.length a' -> a +:+ b = a' +:+ b' -> a = a' /\ b = b'.
Proof.
  revert a'. induction a as [|c a IH]; intros [|c' a'] Hlen Heq; try done.
  simpl in *. injection Heq as <- Heq. destruct (IH a' ltac:(lia) Heq) as [<- <-]. done.
Qed.

Lemma string_app_length a b : String.length (a +:+ b) = (String.length a + String.length b)%nat.
Proof. induction a as [|c a IH]; simpl; [done|by rewrite IH]. Qed.

Lemma string_app_inj_r a a' b : a +:+ b = a' +:+ b -> a = a'.
Proof.
  intros Heq. apply (string_app_inj a a' b b); [|done].
  apply (f_equal String.length) in Heq. rewrite !string_app_length in Heq. lia.
Qed.

(** ** Automation *)
Create HintDb vaultpay.

#[export] Hint Resolve wp_ret wp_throw : vaultpay.

(** One step of a [wp] proof: decompose the head construct of the program. *)
Ltac wp_step :=
  lazymatch goal with
  | |- wp (mret _) _ _ => apply wp_ret
  | |- wp (throw _) _ _ => apply wp_throw
  | |- wp (_ ≫= _) _ _ => apply wp_bind
  | |- wp (wrap_err _ _) _ _ => apply wp_wrap_err
  | |- wp (deferring _ _) _ _ => apply wp_deferring
  | |- wp (observe _) _ _ => apply wp_observe
  | |- wp (if ?b then _ else _) _ _ => let E := fresh "Hif" in destruct b eqn:E
  | |- wp (match ?x with _ => _ end) _ _ => let E := fresh "Hm" in destruct x eqn:E
  end; cbv beta iota.

(** Case analysis on the scrutinee of a hypothesis about a [match]. *)
Ltac case_in H :=
  match type of H with
  | context [match ?x with _ => _ end] =>
      lazymatch x with
      | context [match _ with _ => _ end] => fail
      | _ => let E := fresh "Heq" in destruct x eqn:E
      end
  end.
