(* ===== verification/Json.v ===== *)
(** * JSON values as encoding/json produces and consumes them

    The handlers decode request bodies into structs with [json.NewDecoder(r.Body).Decode(&req)]
    and write responses with [json.NewEncoder(w).Encode(v)]; the outbox and the task package use
    [json.Marshal].  A body is modelled by its first JSON value ([None] for text that is not
    JSON): [Decode] reads one value and leaves the rest of the stream alone.

    Bounds of the model: keys are matched case-insensitively over ASCII (encoding/json also folds
    two non-ASCII letters), and strings are taken to be valid UTF-8. *)
From S2P Require Import Prelude.

(** ** Values *)

#[local] Set Warnings "-register-all".

(** [JInt] is a number literal without fraction or exponent, [JNumber] any other literal. *)
Inductive json :=
  | JNull
  | JBool (b : bool)
  | JInt (z : Z)
  | JNumber (lit : string)
  | JStr (s : string)
  | JArr (l : list json)
  | JObj (members : list (string * json)).

(** ** Text *)
Module Print.

Definition hexdigit (n : nat) : Ascii.ascii :=
  Ascii.ascii_of_nat (if (n <? 10)%nat then 48 + n else 87 + n).

(** The six characters backslash, u, 0, 0 and two hexadecimal digits. *)
Definition unicode_escape (n : nat) : string :=
  String (Ascii.ascii_of_nat 92) ("u00" +:+
    String (hexdigit (n / 16)) (String (hexdigit (n mod 16)) EmptyString)).

Definition backslash (c : nat) : string :=
  String (Ascii.ascii_of_nat 92) (String (Ascii.ascii_of_nat c) EmptyString).

(** The escapes of encoding/json with HTML escaping on, its default. *)
Definition escape_char (a : Ascii.ascii) : string :=
  let n := Ascii.nat_of_ascii a in
  if (n =? 34)%nat then backslash 34
  else if (n =? 92)%nat then backslash 92
  else if (n =? 8)%nat then backslash 98
  else if (n =? 12)%nat then backslash 102
  else if (n =? 10)%nat then backslash 110
  else if (n =? 13)%nat then backslash 114
  else if (n =? 9)%nat then backslash 116
  else if (n <? 32)%nat || (n =? 60)%nat || (n =? 62)%nat || (n =? 38)%nat
  then unicode_escape n
  else String a EmptyString.

Fixpoint escape (s : string) : string :=
  match s with
  | EmptyString => EmptyString
  | String a s' => escape_char a +:+ escape s'
  end.

Definition quote (s : string) : string := dquote +:+ escape s +:+ dquote.

Fixpoint join (sep : string) (l : list string) : string :=
  match l with
  | [] => ""
  | [s] => s
  | s :: l' => s +:+ sep +:+ join sep l'
  end.

(** [json.Marshal] of a value. *)
Fixpoint marshal (j : json) : string :=
  match j with
  | JNull => "null"
  | JBool true => "true"
  | JBool false => "false"
  | JInt z => itoa z
  | JNumber lit => lit
  | JStr s => quote s
  | JArr l => "[" +:+ join "," (map marshal l) +:+ "]"
  | JObj ms =>
      "{" +:+ join "," (map (fun '(k, v) => quote k +:+ ":" +:+ marshal v) ms) +:+ "}"
  end.

(** [json.NewEncoder(w).Encode] ends the value with a newline. *)
Definition encode (j : json) : string := marshal j +:+ newline.
End Print.

(** ** Decoding into a struct *)
Section decode.
Context {T : Type}.

(** A struct field with its JSON name and its setter. *)
Inductive field :=
  | StringField (name : string) (set : string -> T -> T)
  | Int64Field (name : string) (set : Z -> T -> T).

Definition field_name (f : field) : string :=
  match f with StringField n _ | Int64Field n _ => n end.

Definition ascii_fold (a : Ascii.ascii) : Ascii.ascii :=
  let n := Ascii.nat_of_ascii a in
  if (97 <=? n)%nat && (n <=? 122)%nat then Ascii.ascii_of_nat (n - 32) else a.

Fixpoint fold_name (s : string) : string :=
  match s with
  | EmptyString => EmptyString
  | String a s' => String (ascii_fold a) (fold_name s')
  end.

Definition matches (key : string) (f : field) : bool :=
  bool_decide (fold_name key = fold_name (field_name f)).

Fixpoint find_field (key : string) (fs : list field) : option field :=
  match fs with
  | [] => None
  | f :: fs' => if matches key f then Some f else find_field key fs'
  end.

(** Storing one JSON value in a field: the new struct, and whether the types
    agreed.  [null] leaves the field alone. *)
Definition assign (f : field) (v : json) (t : T) : T * bool :=
  match f, v with
  | _, JNull => (t, true)
  | StringField _ set, JStr s => (set s t, true)
  | Int64Field _ set, JInt z => if in_int64 z then (set z t, true) else (t, false)
  | _, _ => (t, false)
  end.

(** The members in order; a type error is remembered and decoding goes on. *)
Fixpoint decode_members (fs : list field) (ms : list (string * json)) (t : T) : T * bool :=
  match ms with
  | [] => (t, true)
  | (k, v) :: ms' =>
      let '(t1, ok) := match find_field k fs with
                       | Some f => assign f v t
                       | None => (t, true)
                       end in
      let '(t2, ok') := decode_members fs ms' t1 in
      (t2, ok && ok')
  end.

Definition ErrSyntax : error := Errorf "unexpected end of JSON input".
Definition ErrUnmarshalType : error := Errorf "json: cannot unmarshal value into Go struct".

(** [Decode(&req)] with [req] at its zero value. *)
Definition Decode (fs : list field) (zero : T) (body : option json) : res T :=
  match body with
  | None => Err ErrSyntax
  | Some JNull => Ok zero
  | Some (JObj ms) =>
      let '(t, ok) := decode_members fs ms zero in
      if ok then Ok t else Err ErrUnmarshalType
  | Some _ => Err ErrUnmarshalType
  end.
End decode.
Arguments field T : clear implicits.

(** ** Tests of the text form *)
Example marshal_object :
  Print.marshal (JObj [("a", JInt (-5)); ("b", JStr "x<y"); ("c", JArr [JNull; JBool true])]) =
  "{" +:+ dquote +:+ "a" +:+ dquote +:+ ":-5," +:+ dquote +:+ "b" +:+ dquote +:+ ":" +:+ dquote
  +:+ "x\u003cy" +:+ dquote +:+ "," +:+ dquote +:+ "c" +:+ dquote +:+ ":[null,true]}".
Proof. vm_compute. reflexivity. Qed.
