(* ===== verification/GoTime.v ===== *)
(** * The part of package time the program uses

    A [time.Time] is a number of nanoseconds since 1970 in UTC, the zone of the containers.  The
    proleptic Gregorian calendar, [Date], [AddDate], [Sub] and the layout [RFC3339Nano], with
    the facts that make them trustworthy: the calendar is a bijection between days and valid
    dates, and the layout loses nothing on four-digit years. *)
From S2P Require Import Prelude Json.

(** ** Durations, in nanoseconds *)
Definition Second : Z := 10 ^ 9.
Definition Minute : Z := 60 * Second.
Definition Hour : Z := 60 * Minute.
Definition day_ns : Z := 24 * Hour.

(** [t.Sub(u)] saturates at the bounds of a [Duration]. *)
Definition Sub (t u : Z) : Z := Z.max int64_min (Z.min int64_max (t - u)).

(** [t.Unix()] *)
Definition Unix (t : Z) : Z := t / Second.

(** ** Days and years, counted from 1 January of year 1 *)
Definition isLeap (year : Z) : bool :=
  (year mod 4 =? 0) && (negb (year mod 100 =? 0) || (year mod 400 =? 0)).

(** Days before the first of January of year [y + 1]. *)
Definition days_of_year (y : Z) : Z := 365 * y + y / 4 - y / 100 + y / 400.

(** The year (minus one) of a day and the day's position in it: 400-year cycles,
    centuries, 4-year cycles and years. *)
Definition year_of_day (d : Z) : Z * Z :=
  let n400 := d / 146097 in
  let d := d - 146097 * n400 in
  let n100 := Z.min 3 (d / 36524) in
  let d := d - 36524 * n100 in
  let n4 := d / 1461 in
  let d := d - 1461 * n4 in
  let n1 := Z.min 3 (d / 365) in
  (400 * n400 + 100 * n100 + 4 * n4 + n1, d - 365 * n1).

Definition year_length (year : Z) : Z := if isLeap year then 366 else 365.

(** Days of a year before the end of its month [m]. *)
Definition cumulative (leap : bool) (m : Z) : Z :=
  nth (Z.to_nat m) [0; 31; 59; 90; 120; 151; 181; 212; 243; 273; 304; 334; 365] 365
  + if leap && (2 <=? m) then 1 else 0.

(** The month of a day of the year: the first whose end lies after it. *)
Fixpoint month_from (leap : bool) (yday : Z) (fuel : nat) (m : Z) : Z :=
  match fuel with
  | O => m
  | S fuel' => if yday <? cumulative leap m then m else month_from leap yday fuel' (m + 1)
  end.

Definition civil_of_day (d : Z) : Z * Z * Z :=
  let '(y, yday) := year_of_day d in
  let leap := isLeap (y + 1) in
  let m := month_from leap yday 11 1 in
  (y + 1, m, yday - cumulative leap (m - 1) + 1).

Definition day_of_civil (year month day : Z) : Z :=
  days_of_year (year - 1) + cumulative (isLeap year) (month - 1) + (day - 1).

Definition valid_date (year month day : Z) : Prop :=
  1 <= month <= 12 /\
  1 <= day <= cumulative (isLeap year) month - cumulative (isLeap year) (month - 1).

(** ** Instants *)

(** The day of 1 January 1970. *)
Definition unix_day : Z := 719162.

Definition day_of (t : Z) : Z := t / day_ns + unix_day.

(** [t.Date()] *)
Definition Date (t : Z) : Z * Z * Z := civil_of_day (day_of t).

(** [time.Date]: months outside 1 to 12 carry into the year, days outside the
    month carry into the next or previous ones. *)
Definition date_day (year month day : Z) : Z :=
  day_of_civil (year + (month - 1) / 12) ((month - 1) mod 12 + 1) day.

(** [t.AddDate(years, months, days)] *)
Definition AddDate (years months days : Z) (t : Z) : Z :=
  let '(y, m, d) := Date t in
  (date_day (y + years) (m + months) (d + days) - unix_day) * day_ns + t mod day_ns.

(** ** Layout RFC3339Nano *)
Definition decdigit (n : N) : Ascii.ascii := Ascii.ascii_of_N (48 + n).

Fixpoint dec_fixed (k : nat) (n : N) : string :=
  match k with
  | O => EmptyString
  | S k' => String (decdigit ((n / 10 ^ N.of_nat k') mod 10)) (dec_fixed k' n)
  end.

(** [appendInt(n, width)] on four-digit years and two-digit fields. *)
Definition pad (k : nat) (z : Z) : string := dec_fixed k (Z.to_N z).

(** Drops the zeros at the end of a text. *)
Fixpoint trim_zeros (s : string) : string :=
  match s with
  | EmptyString => EmptyString
  | String a s' =>
      match trim_zeros s' with
      | EmptyString => if Ascii.eqb a (decdigit 0) then EmptyString else String a EmptyString
      | r => String a r
      end
  end.

Definition fraction (ns : Z) : string :=
  if ns =? 0 then "" else "." +:+ trim_zeros (pad 9 ns).

(** [t.Format(time.RFC3339Nano)] on years 0 to 9999. *)
Definition RFC3339Nano (t : Z) : string :=
  let '(y, m, d) := Date t in
  let s := t mod day_ns in
  pad 4 y +:+ "-" +:+ pad 2 m +:+ "-" +:+ pad 2 d +:+ "T" +:+
  pad 2 (s / Hour) +:+ ":" +:+ pad 2 (s / Minute mod 60) +:+ ":" +:+ pad 2 (s / Second mod 60)
  +:+ fraction (s mod Second) +:+ "Z".

#[global] Arguments RFC3339Nano : simpl never.

(** [Time.MarshalJSON]: an error outside the four-digit years. *)
Definition year_ok (t : Z) : bool :=
  let '(y, _, _) := Date t in (0 <=? y) && (y <=? 9999).

Definition time_json (t : Z) : option json :=
  if year_ok t then Some (JStr (RFC3339Nano t)) else None.

Example date_epoch : Date 0 = (1970, 1, 1).
Proof. vm_compute. reflexivity. Qed.
Example format_ex : RFC3339Nano (1709210096 * 10 ^ 9 + 120000000) = "2024-02-29T12:34:56.12Z".
Proof. vm_compute. reflexivity. Qed.
Example format_zero : RFC3339Nano (-62135596800 * 10 ^ 9) = "0001-01-01T00:00:00Z".
Proof. vm_compute. reflexivity. Qed.
Example add_month : Date (AddDate 0 1 0 (1706659200 * 10 ^ 9)) = (2024, 3, 2).
Proof. vm_compute. reflexivity. Qed.

(** ** The calendar is a bijection *)
Lemma year_of_day_spec d :
  let '(y, yday) := year_of_day d in
  days_of_year y + yday = d /\ 0 <= yday < year_length (y + 1).
Proof.
  unfold year_of_day. cbv zeta.
  pose proof (Z.div_mod d 146097 ltac:(lia)) as Hd.
  pose proof (Z.mod_pos_bound d 146097 ltac:(lia)) as Hb.
  set (n := d / 146097) in *. set (r := d mod 146097) in *.
  replace (d - 146097 * n) with r by lia. clearbody n r.
  set (a := Z.min 3 (r / 36524)).
  assert (0 <= a <= 3 /\ 0 <= r - 36524 * a <= 36524 /\
          (r - 36524 * a = 36524 -> a = 3)) as (Ha & Hr & Hr3).
  { subst a. clear Hd. pose proof (Z.div_mod r 36524 ltac:(lia)).
    pose proof (Z.mod_pos_bound r 36524 ltac:(lia)).
    assert (0 <= r / 36524 <= 4) by lia. lia. }
  set (r4 := r - 36524 * a) in *. assert (r = 36524 * a + r4) as Hr4 by lia. clearbody a r4.
  pose proof (Z.div_mod r4 1461 ltac:(lia)) as H4.
  pose proof (Z.mod_pos_bound r4 1461 ltac:(lia)) as Hb4.
  set (b := r4 / 1461) in *. assert (0 <= b <= 24) as Hb24 by lia.
  set (q := r4 mod 1461) in *. replace (r4 - 1461 * b) with q by lia. clearbody b q.
  set (c := Z.min 3 (q / 365)).
  assert (0 <= c <= 3 /\ 0 <= q - 365 * c <= 365 /\ (q - 365 * c = 365 -> c = 3))
    as (Hc & Hq & Hq3).
  { subst c. pose proof (Z.div_mod q 365 ltac:(lia)).
    pose proof (Z.mod_pos_bound q 365 ltac:(lia)).
    assert (0 <= q / 365 <= 4) by lia. lia. }
  clearbody c.
  set (y := 400 * n + 100 * a + 4 * b + c).
  assert (y / 4 = 100 * n + 25 * a + b) as E4 by (symmetry; apply (Z.div_unique _ _ _ c); subst y; lia).
  assert (y / 100 = 4 * n + a) as E100
    by (symmetry; apply (Z.div_unique _ _ _ (4 * b + c)); subst y; lia).
  assert (y / 400 = n) as E400
    by (symmetry; apply (Z.div_unique _ _ _ (100 * a + 4 * b + c)); subst y; lia).
  split; [unfold days_of_year; rewrite E4, E100, E400; subst y; lia|].
  split; [lia|]. unfold year_length.
  destruct (decide (q - 365 * c = 365)) as [Heq|Hne].
  2:{ destruct (isLeap (y + 1)); lia. }
  replace (isLeap (y + 1)) with true; [lia|]. symmetry. unfold isLeap.
  assert (c = 3) as -> by auto.
  assert ((y + 1) mod 4 = 0) as ->.
  { symmetry. apply (Z.mod_unique _ _ (100 * n + 25 * a + b + 1)); lia. }
  simpl. destruct (decide (b = 24)) as [->|Hb'].
  - assert (a = 3) as -> by lia. rewrite orb_true_iff. right.
    apply Z.eqb_eq. symmetry. apply (Z.mod_unique _ _ (n + 1)); lia.
  - assert ((y + 1) mod 100 = 4 * b + 4) as ->.
    { symmetry. apply (Z.mod_unique _ _ (4 * n + a)); lia. }
    rewrite orb_true_iff. left. apply negb_true_iff, Z.eqb_neq. lia.
Qed.

Lemma days_of_year_step y : days_of_year (y + 1) = days_of_year y + year_length (y + 1).
Proof.
  unfold days_of_year, year_length, isLeap.
  assert (forall k, 0 < k -> (y + 1) / k = y / k + if (y + 1) mod k =? 0 then 1 else 0) as Hk.
  { intros k Hk. pose proof (Z.div_mod y k ltac:(lia)). pose proof (Z.mod_pos_bound y k Hk).
    destruct (Z.eqb_spec ((y + 1) mod k) 0) as [Hz|Hz].
    - pose proof (Z.div_mod (y + 1) k ltac:(lia)). nia.
    - destruct (decide (y mod k = k - 1)) as [Hl|Hl].
      + exfalso. apply Hz. symmetry. apply (Z.mod_unique _ _ (y / k + 1)); lia.
      + rewrite Z.add_0_r. symmetry. apply (Z.div_unique _ _ _ (y mod k + 1)); lia. }
  rewrite !Hk by lia.
  assert ((y + 1) mod 100 = 0 -> (y + 1) mod 4 = 0) as H1.
  { intros [k ->]%Z.mod_divide; [|lia]. replace (k * 100) with (k * 25 * 4) by lia.
    apply Z.mod_mul. lia. }
  assert ((y + 1) mod 400 = 0 -> (y + 1) mod 100 = 0) as H2.
  { intros [k ->]%Z.mod_divide; [|lia]. replace (k * 400) with (k * 4 * 100) by lia.
    apply Z.mod_mul. lia. }
  destruct (Z.eqb_spec ((y + 1) mod 4) 0), (Z.eqb_spec ((y + 1) mod 100) 0),
    (Z.eqb_spec ((y + 1) mod 400) 0); simpl; lia.
Qed.

Lemma days_of_year_mono y y' : y < y' -> days_of_year y + year_length (y + 1) <= days_of_year y'.
Proof.
  intros H. rewrite <-days_of_year_step.
  replace y' with (y + 1 + (y' - y - 1)) by lia.
  assert (0 <= y' - y - 1) as Hk by lia. revert Hk. generalize (y' - y - 1).
  apply natlike_ind.
  - rewrite Z.add_0_r. lia.
  - intros k Hk IH. replace (y + 1 + Z.succ k) with (y + 1 + k + 1) by lia.
    rewrite (days_of_year_step (y + 1 + k)). unfold year_length. destruct (isLeap _); lia.
Qed.

(** The year of a day is the only one whose days contain it. *)
Lemma year_of_day_unique y yday :
  0 <= yday < year_length (y + 1) -> year_of_day (days_of_year y + yday) = (y, yday).
Proof.
  intros Hy. pose proof (year_of_day_spec (days_of_year y + yday)) as Hs.
  destruct (year_of_day _) as [y' yday']. destruct Hs as [Heq Hr].
  destruct (Z.lt_trichotomy y y') as [H|[->|H]].
  - pose proof (days_of_year_mono y y' H). lia.
  - f_equal. lia.
  - pose proof (days_of_year_mono y' y H). lia.
Qed.

(** Case analysis on a number between two literals. *)
Ltac cases_upto z n :=
  lazymatch n with
  | O => exfalso; lia
  | S ?n' =>
      let v := eval vm_compute in (Z.of_nat n') in
      destruct (decide (z = v)) as [->|]; [|cases_upto z n']
  end.

Lemma cumulative_step leap m : 0 <= m < 12 -> cumulative leap m < cumulative leap (m + 1).
Proof. intros H. cases_upto m 12%nat; by destruct leap. Qed.

Lemma month_from_spec leap yday :
  0 <= yday < cumulative leap 12 ->
  let m := month_from leap yday 11 1 in
  1 <= m <= 12 /\ cumulative leap (m - 1) <= yday < cumulative leap m.
Proof.
  intros H m.
  assert (forall fuel k, 1 <= k -> k + Z.of_nat fuel = 12 -> cumulative leap (k - 1) <= yday ->
    let m := month_from leap yday fuel k in
    1 <= m <= 12 /\ cumulative leap (m - 1) <= yday < cumulative leap m) as Hf;
    [|apply (Hf 11%nat 1); [done|done|by destruct leap; apply H]].
  induction fuel as [|fuel IH]; intros k Hk Hs Hc; simpl.
  - replace k with 12 in * by lia. lia.
  - destruct (Z.ltb_spec yday (cumulative leap k)); [lia|]. apply IH; [lia|lia|].
    by replace (k + 1 - 1) with k by lia.
Qed.

Lemma cumulative_mono leap m m' :
  0 <= m -> m' <= 12 -> m < m' -> cumulative leap m < cumulative leap m'.
Proof.
  intros Hm Hm' Hlt. destruct (Z_of_nat_complete (m' - m - 1) ltac:(lia)) as [k Hk].
  assert (m' = m + Z.of_nat k + 1) as -> by lia. clear Hk Hlt.
  induction k as [|k IH].
  - rewrite Z.add_0_r. apply cumulative_step. lia.
  - etrans; [apply IH; lia|].
    replace (m + Z.of_nat (S k) + 1) with (m + Z.of_nat k + 1 + 1) by lia.
    apply cumulative_step. lia.
Qed.

Lemma year_cumulative y : cumulative (isLeap y) 12 = year_length y.
Proof. unfold year_length. by destruct (isLeap y). Qed.

Lemma civil_of_day_spec d :
  let '(y, m, day) := civil_of_day d in valid_date y m day /\ day_of_civil y m day = d.
Proof.
  unfold civil_of_day, valid_date, day_of_civil. pose proof (year_of_day_spec d) as Hs.
  destruct (year_of_day d) as [y yday]. destruct Hs as [Hd Hy].
  rewrite <-year_cumulative in Hy. pose proof (month_from_spec _ _ Hy) as Hm.
  cbv zeta in *. replace (y + 1 - 1) with y by lia. lia.
Qed.

(** Every valid date is the date of its day. *)
Lemma civil_of_day_of_civil y m day :
  valid_date y m day -> civil_of_day (day_of_civil y m day) = (y, m, day).
Proof.
  unfold valid_date, civil_of_day, day_of_civil. intros [Hm Hday].
  set (c := cumulative (isLeap y)) in *.
  assert (0 <= c (m - 1) + (day - 1) < c 12) as Hr.
  { assert (0 <= c (m - 1)) by
      (unfold c, cumulative; cases_upto m 13%nat; by destruct (isLeap y)).
    destruct (decide (m = 12)) as [->|Hne]; [lia|].
    pose proof (cumulative_mono (isLeap y) m 12 ltac:(lia) ltac:(lia) ltac:(lia)) as Hx.
    fold c in Hx. lia. }
  rewrite <-Z.add_assoc, year_of_day_unique.
  2:{ replace (y - 1 + 1) with y by lia. by rewrite <-year_cumulative. }
  replace (y - 1 + 1) with y by lia. fold c.
  pose proof (month_from_spec (isLeap y) _ Hr) as Hs. cbv zeta in Hs.
  set (k := month_from _ _ _ _) in *. fold c in Hs. clearbody k. destruct Hs as [Hk Hc].
  assert (k = m) as ->; [|do 2 f_equal; lia].
  destruct (Z.lt_trichotomy k m) as [Hlt|[?|Hlt]]; [|done|].
  - destruct (decide (k = m - 1)) as [->|Hne]; [lia|].
    pose proof (cumulative_mono (isLeap y) k (m - 1) ltac:(lia) ltac:(lia) ltac:(lia)) as Hx.
    fold c in Hx. lia.
  - destruct (decide (m = k - 1)) as [->|Hne]; [lia|].
    pose proof (cumulative_mono (isLeap y) m (k - 1) ltac:(lia) ltac:(lia) ltac:(lia)) as Hx.
    fold c in Hx. lia.
Qed.

Lemma Date_inj t t' : Date t = Date t' -> day_of t = day_of t'.
Proof.
  unfold Date. intros Heq. pose proof (civil_of_day_spec (day_of t)) as H.
  pose proof (civil_of_day_spec (day_of t')) as H'. rewrite <-Heq in H'.
  destruct (civil_of_day (day_of t)) as [[y m] d]. destruct H as [_ <-], H' as [_ <-]. done.
Qed.

(** ** [AddDate] *)

(** Days of the month [m] of a year. *)
Definition month_length (y m : Z) : Z :=
  cumulative (isLeap y) m - cumulative (isLeap y) (m - 1).

Lemma month_length_bounds y m : 1 <= m <= 12 -> 28 <= month_length y m <= 31.
Proof.
  intros H. unfold month_length. cases_upto m 13%nat; [..|exfalso; lia];
    destruct (isLeap y); by vm_compute.
Qed.

Lemma day_split t : t = (day_of t - unix_day) * day_ns + t mod day_ns.
Proof.
  unfold day_of. pose proof (Z.div_mod t day_ns ltac:(done)). lia.
Qed.

(** [AddDate(0, 1, 0)] advances by the length of the current month: the same day of the next
    month when that month has it, and a later date when it does not. *)
Lemma AddDate_month t :
  let '(y, m, _) := Date t in AddDate 0 1 0 t = t + month_length y m * day_ns.
Proof.
  unfold AddDate, Date. pose proof (civil_of_day_spec (day_of t)) as H.
  destruct (civil_of_day (day_of t)) as [[y m] d]. destruct H as [[Hm _] Hd].
  rewrite (day_split t) at 2. rewrite <-Hd.
  enough (date_day (y + 0) (m + 1) (d + 0) = day_of_civil y m d + month_length y m) as -> by lia.
  unfold date_day, day_of_civil, month_length. rewrite !Z.add_0_r.
  replace (m + 1 - 1) with m by lia. destruct (decide (m = 12)) as [->|Hne].
  - change (12 / 12) with 1. change (12 mod 12 + 1 - 1) with 0.
    replace (y + 1 - 1) with (y - 1 + 1) by lia. rewrite days_of_year_step.
    replace (y - 1 + 1) with y by lia. rewrite <-year_cumulative.
    replace (cumulative (isLeap (y + 1)) 0) with 0 by (by destruct (isLeap (y + 1))). lia.
  - rewrite Z.div_small, Z.mod_small by lia. rewrite Z.add_0_r.
    replace (m + 1 - 1) with m by lia. lia.
Qed.

(** [AddDate(1, 0, 0)] advances by 365 or 366 days. *)
Lemma AddDate_year t :
  AddDate 1 0 0 t = t + 365 * day_ns \/ AddDate 1 0 0 t = t + 366 * day_ns.
Proof.
  unfold AddDate, Date. pose proof (civil_of_day_spec (day_of t)) as H.
  destruct (civil_of_day (day_of t)) as [[y m] d]. destruct H as [[Hm _] Hd].
  rewrite (day_split t) at 2 4. rewrite <-Hd.
  enough (date_day (y + 1) (m + 0) (d + 0) = day_of_civil y m d + 365 \/
          date_day (y + 1) (m + 0) (d + 0) = day_of_civil y m d + 366) as [->| ->] by lia.
  unfold date_day, day_of_civil. rewrite !Z.add_0_r, Z.div_small, Z.mod_small, Z.add_0_r by lia.
  replace (y + 1 - 1) with (y - 1 + 1) by lia. replace (m - 1 + 1 - 1) with (m - 1) by lia.
  rewrite days_of_year_step.
  replace (y - 1 + 1) with y by lia. unfold year_length, cumulative.
  assert (isLeap y = true -> isLeap (y + 1) = false) as Hl.
  { unfold isLeap. destruct (Z.eqb_spec (y mod 4) 0) as [H4|]; [|done]. intros _.
    destruct (Z.eqb_spec ((y + 1) mod 4) 0) as [H1|]; [|done]. exfalso.
    pose proof (Z.div_mod y 4 ltac:(lia)). pose proof (Z.div_mod (y + 1) 4 ltac:(lia)). lia. }
  destruct (isLeap y); [rewrite Hl by done|destruct (isLeap (y + 1))]; simpl;
    destruct (2 <=? m - 1); lia.
Qed.

(** ** The layout loses nothing *)
Definition undec (a : Ascii.ascii) : N := Ascii.N_of_ascii a - 48.

Fixpoint parse_dec (s : string) (acc : N) : N :=
  match s with
  | EmptyString => acc
  | String a s' => parse_dec s' (10 * acc + undec a)
  end.

Lemma undec_decdigit n : (n < 10)%N -> undec (decdigit n) = n.
Proof.
  intros H. unfold undec, decdigit. rewrite Ascii.N_ascii_embedding by lia. lia.
Qed.

Lemma parse_dec_fixed k n acc :
  parse_dec (dec_fixed k n) acc = (acc * 10 ^ N.of_nat k + n mod 10 ^ N.of_nat k)%N.
Proof.
  revert acc. induction k as [|k IH]; intros acc.
  - simpl. rewrite N.mod_1_r. lia.
  - cbn [dec_fixed parse_dec]. rewrite undec_decdigit by (apply N.mod_lt; lia). rewrite IH.
    rewrite Nat2N.inj_succ, N.pow_succ_r' by lia.
    assert (10 ^ N.of_nat k <> 0)%N as Hp by (apply N.pow_nonzero; lia).
    rewrite (N.mul_comm 10 (10 ^ N.of_nat k)), N.Div0.mod_mul_r. lia.
Qed.

Lemma length_dec_fixed k n : String.length (dec_fixed k n) = k.
Proof. induction k; simpl; congruence. Qed.

Lemma pad_inj k a b :
  0 <= a < 10 ^ Z.of_nat k -> 0 <= b < 10 ^ Z.of_nat k -> pad k a = pad k b -> a = b.
Proof.
  unfold pad. intros Ha Hb Heq. apply (f_equal (fun s => parse_dec s 0)) in Heq.
  rewrite !parse_dec_fixed in Heq.
  assert (Z.of_N (10 ^ N.of_nat k) = 10 ^ Z.of_nat k) as Hp.
  { rewrite N2Z.inj_pow, nat_N_Z. done. }
  rewrite !N.mod_small in Heq by lia. lia.
Qed.

Definition zeros (k : nat) : string := Nat.iter k (String (decdigit 0)) EmptyString.

Lemma trim_zeros_spec s : exists k, s = trim_zeros s +:+ zeros k.
Proof.
  induction s as [|a s [k IH]]; [by exists O|]. simpl.
  destruct (trim_zeros s) as [|c r] eqn:Ht.
  - destruct (Ascii.eqb_spec a (decdigit 0)) as [->|].
    + exists (S k). simpl. by rewrite IH at 1.
    + exists k. simpl. by rewrite IH at 1.
  - exists k. simpl. simpl in IH. by rewrite IH at 1.
Qed.

Lemma length_zeros k : String.length (zeros k) = k.
Proof. induction k; simpl; congruence. Qed.

Lemma trim_zeros_inj s s' :
  String.length s = String.length s' -> trim_zeros s = trim_zeros s' -> s = s'.
Proof.
  intros Hlen Heq. destruct (trim_zeros_spec s) as [k Hk], (trim_zeros_spec s') as [k' Hk'].
  rewrite Hk, Hk', Heq. f_equal. f_equal.
  apply (f_equal String.length) in Hk. apply (f_equal String.length) in Hk'.
  rewrite string_app_length, length_zeros in Hk, Hk'. rewrite Heq in Hk. lia.
Qed.

Lemma fraction_inj a b :
  0 <= a < 10 ^ 9 -> 0 <= b < 10 ^ 9 -> fraction a +:+ "Z" = fraction b +:+ "Z" -> a = b.
Proof.
  intros Ha Hb Heq. apply string_app_inj_r in Heq. unfold fraction in Heq.
  destruct (Z.eqb_spec a 0), (Z.eqb_spec b 0); [lia|done|done|].
  apply string_app_inj in Heq as [_ Heq]; [|done].
  apply (pad_inj 9); [done|done|]. apply trim_zeros_inj; [|done].
  unfold pad. by rewrite !length_dec_fixed.
Qed.

Lemma clock_split s :
  0 <= s < day_ns ->
  s = s / Hour * Hour + s / Minute mod 60 * Minute + s / Second mod 60 * Second + s mod Second /\
  0 <= s / Hour < 24.
Proof.
  intros Hs. pose proof (Z.div_mod s Second ltac:(done)) as H1.
  pose proof (Z.div_mod (s / Second) 60 ltac:(done)) as H2.
  pose proof (Z.div_mod (s / Minute) 60 ltac:(done)) as H3.
  assert (s / Second / 60 = s / Minute) as E1 by (rewrite Z.div_div by done; done).
  assert (s / Minute / 60 = s / Hour) as E2 by (rewrite Z.div_div by done; done).
  rewrite E1 in H2. rewrite E2 in H3.
  split; [unfold Hour, Minute in *; lia|].
  split; [apply Z.div_pos; [lia|done]|apply Z.div_lt_upper_bound; [done|]].
  unfold day_ns in Hs. lia.
Qed.

Lemma pad_app_inj k a b s s' :
  0 <= a < 10 ^ Z.of_nat k -> 0 <= b < 10 ^ Z.of_nat k ->
  pad k a +:+ s = pad k b +:+ s' -> a = b /\ s = s'.
Proof.
  intros Ha Hb Heq.
  apply string_app_inj in Heq as [Hp Hs]; [|unfold pad; by rewrite !length_dec_fixed].
  split; [by apply (pad_inj k)|done].
Qed.

Lemma clock_fields s :
  0 <= s < day_ns ->
  0 <= s / Hour < 100 /\ 0 <= s / Minute mod 60 < 100 /\ 0 <= s / Second mod 60 < 100 /\
  0 <= s mod Second < 10 ^ 9.
Proof.
  intros Hs. destruct (clock_split s Hs) as [_ Hh].
  pose proof (Z.mod_pos_bound (s / Minute) 60 ltac:(lia)).
  pose proof (Z.mod_pos_bound (s / Second) 60 ltac:(lia)).
  split_and!; [lia..|apply (Z.mod_pos_bound s Second); done|apply (Z.mod_pos_bound s Second); done].
Qed.

Lemma Date_fields t :
  year_ok t = true ->
  let '(y, m, d) := Date t in 0 <= y < 10 ^ 4 /\ 0 <= m < 10 ^ 2 /\ 0 <= d < 10 ^ 2.
Proof.
  unfold year_ok. pose proof (civil_of_day_spec (day_of t)) as Hv. unfold Date.
  destruct (civil_of_day (day_of t)) as [[y m] d]. destruct Hv as [[Hm Hd] _].
  pose proof (month_length_bounds y m Hm) as Hl. unfold month_length in Hl.
  intros [?%Z.leb_le ?%Z.leb_le]%andb_true_iff. lia.
Qed.

(** Instants with a four-digit year have different texts. *)
Lemma RFC3339Nano_inj t t' :
  year_ok t = true -> year_ok t' = true -> RFC3339Nano t = RFC3339Nano t' -> t = t'.
Proof.
  intros Hy%Date_fields Hy'%Date_fields. unfold RFC3339Nano.
  pose proof (Date_inj t t') as Hinj. rewrite (day_split t) at 2. rewrite (day_split t') at 2.
  destruct (Date t) as [[y m] d], (Date t') as [[y' m'] d'].
  assert (0 <= t mod day_ns < day_ns) as Hs by by apply Z.mod_pos_bound.
  assert (0 <= t' mod day_ns < day_ns) as Hs' by by apply Z.mod_pos_bound.
  pose proof (proj1 (clock_split _ Hs)) as Es. pose proof (proj1 (clock_split _ Hs')) as Es'.
  apply clock_fields in Hs as (? & ? & ? & ?), Hs' as (? & ? & ? & ?).
  generalize dependent (t mod day_ns). intros s **.
  generalize dependent (t' mod day_ns). intros s' **.
  repeat match goal with
  | H : pad _ _ +:+ _ = pad _ _ +:+ _ |- _ =>
      apply pad_app_inj in H as [? H]; [|lia..]
  | H : _ +:+ _ = _ +:+ _ |- _ => apply string_app_inj in H as [_ H]; [|done]
  end.
  lazymatch goal with H : fraction _ +:+ _ = _ |- _ => apply fraction_inj in H; [|done..] end.
  rewrite Hinj by congruence. congruence.
Qed.
