(* ===== verification/Database.v ===== *)
(** * The PostgreSQL tables, transactions and the outside world

    The tables are those of [migrations/]; an SQL statement of the source is translated to a
    function on the tables ([stmt]).  What the server and the clock decide (UUIDs, timestamps,
    failures of a call) comes from an environment [Env] indexed by the number of external calls
    made so far, so that a theorem over every [Env] covers every pattern of failures. *)
From S2P Require Import Prelude Json.

(** ** Identifiers and statuses *)
Record uuid := UUID { uuid_N : N; uuid_ok : (uuid_N <? 2 ^ 128)%N = true }.

Lemma uuid_eq (u v : uuid) : uuid_N u = uuid_N v -> u = v.
Proof.
  destruct u as [n Hn], v as [m Hm]. simpl. intros ->. f_equal. apply (proof_irrel _ _).
Qed.

#[export] Instance uuid_eq_dec : EqDecision uuid.
Proof.
  intros u v. destruct (decide (uuid_N u = uuid_N v)) as [H|H];
    [left; by apply uuid_eq|right; congruence].
Defined.

(** The UUID of a number, if it has 128 bits. *)
Definition uuid_of (n : N) : option uuid :=
  match (n <? 2 ^ 128)%N as b return (n <? 2 ^ 128)%N = b -> option uuid with
  | true => fun H => Some (UUID n H)
  | false => fun _ => None
  end eq_refl.

Lemma uuid_of_N u : uuid_of (uuid_N u) = Some u.
Proof.
  destruct u as [n Hn]. unfold uuid_of. simpl.
  generalize (eq_refl (n <? 2 ^ 128)%N). generalize (n <? 2 ^ 128)%N at 2 3.
  intros [|] H; [f_equal; by apply uuid_eq|congruence].
Qed.

#[export] Instance uuid_countable : Countable uuid :=
  inj_countable uuid_N uuid_of uuid_of_N.

(** UUIDs compare as 128-bit numbers. *)
Definition uuid_ltb (u v : uuid) : bool := (uuid_N u <? uuid_N v)%N.

(** [CREATE TYPE payment_status AS ENUM] *)
Inductive payment_status := pending | processing | succeeded | failed | refunded.

#[export] Instance payment_status_eq_dec : EqDecision payment_status.
Proof. solve_decision. Defined.

Definition status_text (s : payment_status) : string :=
  match s with
  | pending => "pending" | processing => "processing" | succeeded => "succeeded"
  | failed => "failed" | refunded => "refunded"
  end.

(** The input function of the enum: other labels are refused by the server. *)
Definition status_of_text (s : string) : option payment_status :=
  if decide (s = "pending") then Some pending
  else if decide (s = "processing") then Some processing
  else if decide (s = "succeeded") then Some succeeded
  else if decide (s = "failed") then Some failed
  else if decide (s = "refunded") then Some refunded
  else None.

(** ** Rows *)
Record UserRow := mkUserRow {
  u_email : string; u_balance : Z; u_currency : string; u_created_at : Z }.

Record KeyRow := mkKeyRow {
  k_id : uuid; k_user_id : uuid; k_hash : string; k_label : string; k_created_at : Z }.

Record PaymentRow := mkPaymentRow {
  pr_user_id : uuid; pr_amount : Z; pr_currency : string; pr_status : payment_status;
  pr_idempotency_key : option string; pr_created_at : Z; pr_updated_at : Z }.

Record EventRow := mkEventRow {
  e_id : Z; e_payment_id : string; e_event_type : string; e_payload : json; e_created_at : Z }.

Record SubscriptionRow := mkSubscriptionRow {
  s_id : uuid; s_merchant_id : uuid; s_plan_name : string; s_billing_period : string;
  s_status : string; s_period_start : Z; s_period_end : Z; s_created_at : Z; s_updated_at : Z }.

Record OutboxRow := mkOutboxRow {
  o_id : uuid; o_aggregate_type : string; o_aggregate_id : string; o_event_type : string;
  o_payload : json; o_status : string; o_retry_count : Z; o_created_at : Z;
  o_processed_at : option Z }.

(** ** The database: [users] and [payments] by primary key, the other tables in
    the server's scan order. *)
Record DB := mkDB {
  users : gmap uuid UserRow;
  payments : gmap uuid PaymentRow;
  api_keys : list KeyRow;
  payment_events : list EventRow;
  event_seq : Z;
  subscriptions : list SubscriptionRow;
  outbox_events : list OutboxRow }.

Definition empty_db : DB := mkDB ∅ ∅ [] [] 1 [] [].

Definition set_users (m : gmap uuid UserRow) (d : DB) : DB :=
  mkDB m (payments d) (api_keys d) (payment_events d) (event_seq d) (subscriptions d)
    (outbox_events d).
Definition set_payments (m : gmap uuid PaymentRow) (d : DB) : DB :=
  mkDB (users d) m (api_keys d) (payment_events d) (event_seq d) (subscriptions d)
    (outbox_events d).
Definition set_api_keys (l : list KeyRow) (d : DB) : DB :=
  mkDB (users d) (payments d) l (payment_events d) (event_seq d) (subscriptions d)
    (outbox_events d).
Definition set_payment_events (l : list EventRow) (seq : Z) (d : DB) : DB :=
  mkDB (users d) (payments d) (api_keys d) l seq (subscriptions d) (outbox_events d).
Definition set_subscriptions (l : list SubscriptionRow) (d : DB) : DB :=
  mkDB (users d) (payments d) (api_keys d) (payment_events d) (event_seq d) l
    (outbox_events d).
Definition set_outbox (l : list OutboxRow) (d : DB) : DB :=
  mkDB (users d) (payments d) (api_keys d) (payment_events d) (event_seq d)
    (subscriptions d) l.

(** ** Column types *)
Definition bigint (z : Z) : res Z :=
  if in_int64 z then Ok z else Err (Errorf "pq: bigint out of range").

(** Characters of a UTF-8 text: the bytes that are not continuation bytes. *)
Definition continuation_byte (a : Ascii.ascii) : bool :=
  let n := Ascii.N_of_ascii a in ((128 <=? n) && (n <? 192))%N.

Fixpoint char_length (s : string) : nat :=
  match s with
  | EmptyString => 0
  | String a s' => (if continuation_byte a then 0 else 1) + char_length s'
  end.

Definition varchar (n : nat) (s : string) : res string :=
  if (char_length s <=? n)%nat then Ok s
  else Err (Errorf "pq: value too long for type character varying").

(** ** The environment *)

(** How an external call fails: before the remote side acted, or after it acted
    and only the answer was lost. *)
Inductive fault := Lost_before (e : error) | Lost_after (e : error).

(** [n] is the number of external calls made before the one considered. *)
Record Env := mkEnv {
  clock : nat -> Z;                    (* time.Now(), nanoseconds since 1970 *)
  server_clock : nat -> Z;             (* NOW() on the database server *)
  kv_clock : nat -> Z;                 (* the Redis server's clock, milliseconds *)
  faults : nat -> option fault;
  gen_random_uuid : nat -> uuid;
  row_locked : nat -> uuid -> bool;    (* the row is locked by another transaction *)
  rand_read : nat -> list N;           (* crypto/rand, one number per byte *)
  uuid_in : string -> option uuid;     (* the server's UUID input and output *)
  uuid_out : uuid -> string;
  text_lt : string -> string -> bool   (* < on text in the database's collation *) }.

(** Documented behaviour of the server's UUID type. *)
Class UuidLaws (E : Env) : Prop := {
  uuid_in_out : forall u, uuid_in E (uuid_out E u) = Some u;
  uuid_out_length : forall u, char_length (uuid_out E u) = 36%nat }.

(** The text of a UUID sorts like the UUID. *)
Class UuidOrder (E : Env) : Prop :=
  uuid_text_lt : forall u v, text_lt E (uuid_out E u) (uuid_out E v) = uuid_ltb u v.

Definition uuid_param (E : Env) (s : string) : res uuid :=
  match uuid_in E s with
  | Some u => Ok u
  | None => Err (Errorf ("pq: invalid input syntax for type uuid: " +:+ s))
  end.

Lemma uuid_out_inj E `{!UuidLaws E} u v : uuid_out E u = uuid_out E v -> u = v.
Proof.
  intros H. pose proof (uuid_in_out u) as Hu. rewrite H, uuid_in_out in Hu. congruence.
Qed.

(** ** The world of one server process *)

(** The transaction the goroutine holds: its start time and its view of the
    tables, [TxFailed] after a statement error, [TxNone] when it is done. *)
Inductive txstate := TxNone | TxActive (start : Z) (d : DB) | TxFailed.

Record Task := mkTask { task_type : string; task_payload : json }.

Record World {kv : Type} := mkWorld {
  w_db : DB; w_replica : DB; w_tx : txstate; w_kv : kv; w_queue : list Task;
  w_ticks : nat }.
Arguments World kv : clear implicits.
Arguments mkWorld {kv} _ _ _ _ _ _.

Section world.
Context {kv : Type} (E : Env).
Implicit Types (w : World kv).

Definition tick w : World kv :=
  mkWorld (w_db w) (w_replica w) (w_tx w) (w_kv w) (w_queue w) (S (w_ticks w)).
Definition set_db (d : DB) w : World kv :=
  mkWorld d (w_replica w) (w_tx w) (w_kv w) (w_queue w) (w_ticks w).
Definition set_tx (t : txstate) w : World kv :=
  mkWorld (w_db w) (w_replica w) t (w_kv w) (w_queue w) (w_ticks w).
Definition set_kv (s : kv) w : World kv :=
  mkWorld (w_db w) (w_replica w) (w_tx w) s (w_queue w) (w_ticks w).
Definition set_queue (q : list Task) w : World kv :=
  mkWorld (w_db w) (w_replica w) (w_tx w) (w_kv w) q (w_ticks w).

(** An external call: it takes a tick and may be lost. *)
Definition ext {A} (op : World kv -> res A * World kv) : M (World kv) A := fun w =>
  match faults E (w_ticks w) with
  | None => op (tick w)
  | Some (Lost_before e) => (Err e, tick w)
  | Some (Lost_after e) => (Err e, (op (tick w)).2)
  end.

(** [time.Now()] *)
Definition Now : M (World kv) Z := fun w => (Ok (clock E (w_ticks w)), tick w).

(** ** Statements *)

(** What the server supplies to a statement: its timestamp, a new UUID and the
    locks of the other transactions. *)
Record StmtEnv := mkStmtEnv { sq_now : Z; sq_uuid : uuid; sq_locked : uuid -> bool }.

Definition stmt (A : Type) : Type := StmtEnv -> DB -> res (A * DB).

Definition ErrTxDone : error :=
  Sentinel "sql: transaction has already been committed or rolled back".
Definition ErrNoRows : error := Sentinel "sql: no rows in result set".
Definition ErrTxAborted : error :=
  Errorf "pq: current transaction is aborted, commands ignored until end of transaction block".

(** [db.BeginTx]: the view of the new transaction is the committed state. *)
Definition begin_tx : M (World kv) unit := fun w =>
  match faults E (w_ticks w) with
  | None => (Ok tt, set_tx (TxActive (server_clock E (w_ticks w)) (w_db w)) (tick w))
  | Some (Lost_before e) | Some (Lost_after e) => (Err e, tick w)
  end.

(** A statement inside the transaction; any error makes the transaction unusable. *)
Definition tx_stmt {A} (q : stmt A) : M (World kv) A := fun w =>
  match w_tx w with
  | TxNone => (Err ErrTxDone, tick w)
  | TxFailed => (Err ErrTxAborted, tick w)
  | TxActive t d =>
      match faults E (w_ticks w) with
      | Some (Lost_before e) | Some (Lost_after e) => (Err e, set_tx TxFailed (tick w))
      | None =>
          match q (mkStmtEnv t (gen_random_uuid E (w_ticks w)) (row_locked E (w_ticks w))) d with
          | Ok (a, d') => (Ok a, set_tx (TxActive t d') (tick w))
          | Err e => (Err e, set_tx TxFailed (tick w))
          end
      end
  end.

(** [tx.Commit]: the transaction is over whatever the answer; when the answer
    is lost after the server acted, the changes are durable. *)
Definition Commit : M (World kv) unit := fun w =>
  match w_tx w with
  | TxNone => (Err ErrTxDone, w)
  | TxFailed => (Err ErrTxAborted, set_tx TxNone (tick w))
  | TxActive _ d =>
      match faults E (w_ticks w) with
      | None => (Ok tt, set_db d (set_tx TxNone (tick w)))
      | Some (Lost_before e) => (Err e, set_tx TxNone (tick w))
      | Some (Lost_after e) => (Err e, set_db d (set_tx TxNone (tick w)))
      end
  end.

(** [tx.Rollback]; on a finished transaction it answers [ErrTxDone], which
    every caller drops. *)
Definition Rollback w : World kv := set_tx TxNone w.

Definition stmt_env w : StmtEnv :=
  mkStmtEnv (server_clock E (w_ticks w)) (gen_random_uuid E (w_ticks w))
    (row_locked E (w_ticks w)).

(** A statement outside any transaction, on the master. *)
Definition master_stmt {A} (q : stmt A) : M (World kv) A :=
  ext (fun w =>
    match q (stmt_env w)
            (w_db w) with
    | Ok (a, d') => (Ok a, set_db d' w)
    | Err e => (Err e, w)
    end).

(** A query on the replica. *)
Definition replica_query {A} (q : stmt A) : M (World kv) A :=
  ext (fun w =>
    match q (stmt_env w)
            (w_replica w) with
    | Ok (a, _) => (Ok a, w)
    | Err e => (Err e, w)
    end).

(** [QueryRow(...).Scan]: no row is an error of the client, not of the server. *)
Definition scan_row {A} (row : option A) : M (World kv) A :=
  match row with Some a => mret a | None => throw ErrNoRows end.

(** [for rows.Next() { rows.Scan(..); append }] with no [rows.Err()] check
    after the loop: a connection lost while iterating ends the loop like the
    end of the rows. *)
Fixpoint rows_loop {A} (rows : list A) : M (World kv) (list A) := fun w =>
  match rows with
  | [] => (Ok [], tick w)
  | r :: rows' =>
      match faults E (w_ticks w) with
      | Some _ => (Ok [], tick w)
      | None => ((l ← rows_loop rows'; mret (r :: l)) (tick w))
      end
  end.

(** [rows.Next] on a query of the open transaction, whose connection may be lost. *)
Definition tx_next w : bool * World kv :=
  match faults E (w_ticks w) with
  | Some _ => (false, set_tx TxFailed (tick w))
  | None => (true, tick w)
  end.

(** The same loop over such a query; the last [rows.Next] answers no row in any case. *)
Fixpoint tx_rows_loop {A} (rows : list A) : M (World kv) (list A) := fun w =>
  match rows with
  | [] => (Ok [], (tx_next w).2)
  | r :: rows' =>
      let '(more, w') := tx_next w in
      if more then (l ← tx_rows_loop rows'; mret (r :: l)) w' else (Ok [], w')
  end.

(** No external call from [w] on is lost. *)
Definition calm w : Prop := forall n, (w_ticks w <= n)%nat -> faults E n = None.
End world.

(** Sequencing of checks inside a statement. *)
#[export] Instance res_bind : MBind res := fun A B k r =>
  match r with Ok a => k a | Err e => Err e end.
#[export] Instance res_ret : MRet res := fun A a => Ok a.

(** ** Proof rules for the calls *)

(** Everything but the transaction and the tick count is as before. *)
Record frame {kv} (w w' : World kv) : Prop := mkFrame {
  frame_db : w_db w' = w_db w;
  frame_replica : w_replica w' = w_replica w;
  frame_kv : w_kv w' = w_kv w;
  frame_queue : w_queue w' = w_queue w;
  frame_ticks : (w_ticks w <= w_ticks w')%nat }.

#[export] Instance frame_preorder kv : PreOrder (@frame kv).
Proof.
  split; [intros w; by constructor|]. intros w1 w2 w3 [] []. constructor; try congruence. lia.
Qed.

(** Everything but the master, the transaction and the tick count is as before. *)
Record quiet {kv} (w w' : World kv) : Prop := mkQuiet {
  quiet_replica : w_replica w' = w_replica w;
  quiet_kv : w_kv w' = w_kv w;
  quiet_queue : w_queue w' = w_queue w;
  quiet_ticks : (w_ticks w <= w_ticks w')%nat }.

#[export] Instance quiet_preorder kv : PreOrder (@quiet kv).
Proof.
  split; [intros w; by constructor|]. intros w1 w2 w3 [] []. constructor; try congruence. lia.
Qed.

(** Some answer is lost after the server acted. *)
Definition lossy (E : Env) : Prop := exists n e, faults E n = Some (Lost_after e).

(** All or nothing: an operation with the effect [eff] on the tables answers [Ok]
    with the effect in place, or [Err] with the tables as before; only a lost answer can
    make it report an error for an effect that is in place.  No transaction stays open. *)
Definition settles {kv A} (E : Env) (eff : A -> DB -> Prop) (w : World kv) (r : res A)
    (w' : World kv) : Prop :=
  quiet w w' /\
  (w_tx w = TxNone -> w_tx w' = TxNone) /\
  match r with
  | Ok a => eff a (w_db w')
  | Err _ => w_db w' = w_db w \/ (lossy E /\ exists a, eff a (w_db w'))
  end.

Section rules.
Context {kv : Type} (E : Env).
Implicit Types (w : World kv).

Lemma frame_quiet w w' : frame w w' -> quiet w w'.
Proof. intros []. by constructor. Qed.

Lemma quiet_set_tx w w' t : quiet w w' -> quiet w (set_tx t w').
Proof. intros []. by constructor. Qed.

Lemma quiet_Rollback w w' : quiet w w' -> quiet w (Rollback w').
Proof. apply quiet_set_tx. Qed.

Lemma quiet_set_db w w' d : quiet w w' -> quiet w (set_db d w').
Proof. intros []. by constructor. Qed.

Lemma quiet_tick w w' : quiet w w' -> quiet w (tick w').
Proof. intros []. constructor; simpl; auto. Qed.

Lemma settles_err {A} (eff : A -> DB -> Prop) w w' e :
  frame w w' -> settles E eff w (Err e) (Rollback w').
Proof. intros Hf. split; [by apply quiet_set_tx, frame_quiet|]. split; [done|]. left. apply Hf. Qed.

Lemma settles_unopened {A} (eff : A -> DB -> Prop) w w' e :
  frame w w' -> w_tx w' = w_tx w -> settles E eff w (Err e) w'.
Proof. intros Hf Htx. split; [by apply frame_quiet|]. split; [congruence|]. left. apply Hf. Qed.

Lemma frame_tick w : frame w (tick w).
Proof. constructor; simpl; auto. Qed.

Lemma frame_set_tx w w' t : frame w w' -> frame w (set_tx t w').
Proof. intros []. by constructor. Qed.

Lemma frame_Rollback w w' : frame w w' -> frame w (Rollback w').
Proof. apply frame_set_tx. Qed.

Lemma frame_tick_r w w' : frame w w' -> frame w (tick w').
Proof. intros []. constructor; simpl; auto. Qed.

Lemma wp_Now (Q : res Z -> World kv -> Prop) w :
  (forall z, Q (Ok z) (tick w)) -> wp (Now E) Q w.
Proof. unfold wp, Now. simpl. auto. Qed.

Lemma wp_begin_tx (Q : res unit -> World kv -> Prop) w :
  (forall t, Q (Ok tt) (set_tx (TxActive t (w_db w)) (tick w))) ->
  (forall e, Q (Err e) (tick w)) ->
  wp (begin_tx E) Q w.
Proof. unfold wp, begin_tx. intros H1 H2. repeat case_match; simpl; auto. Qed.

Lemma wp_tx_stmt {A} (q : stmt A) (Q : res A -> World kv -> Prop) w t d :
  w_tx w = TxActive t d ->
  (forall f l a d', q (mkStmtEnv t f l) d = Ok (a, d') ->
                  Q (Ok a) (set_tx (TxActive t d') (tick w))) ->
  (forall e, Q (Err e) (set_tx TxFailed (tick w))) ->
  wp (tx_stmt E q) Q w.
Proof.
  unfold wp, tx_stmt. intros -> H1 H2.
  destruct (faults E (w_ticks w)) as [[]|]; simpl; auto.
  destruct (q _ d) as [[a d']|e] eqn:Hq; simpl; eauto.
Qed.

Lemma wp_scan_row {A} (row : option A) (Q : res A -> World kv -> Prop) w :
  (forall a, row = Some a -> Q (Ok a) w) ->
  (row = None -> Q (Err ErrNoRows) w) ->
  wp (scan_row row) Q w.
Proof. destruct row; unfold wp, scan_row; simpl; auto. Qed.

Lemma wp_tx_rows_loop {A} (rows : list A) (Q : res (list A) -> World kv -> Prop) w :
  (forall l w', l `prefix_of` rows -> frame w w' ->
     w_tx w' = w_tx w \/ w_tx w' = TxFailed -> Q (Ok l) w') ->
  wp (tx_rows_loop E rows) Q w.
Proof.
  revert w Q. induction rows as [|r rows IH]; intros w Q HQ; simpl.
  - unfold wp, tx_next. simpl. destruct (faults E (w_ticks w)); simpl.
    { apply HQ; [done|apply frame_set_tx, frame_tick|by right]. }
    apply HQ; [done|apply frame_tick|by left].
  - unfold wp, tx_next. destruct (faults E (w_ticks w)); simpl.
    { apply HQ; [apply prefix_nil|apply frame_set_tx, frame_tick|by right]. }
    change (wp (l ← tx_rows_loop E rows; mret (r :: l)) Q (tick w)).
    apply wp_bind, IH. intros l w' Hl Hf Htx. apply wp_ret, HQ.
    + by apply prefix_cons.
    + etrans; [apply frame_tick|done].
    + done.
Qed.

Lemma set_db_id w : set_db (w_db w) w = w.
Proof. by destruct w. Qed.

Lemma wp_Commit (Q : res unit -> World kv -> Prop) w t d :
  w_tx w = TxActive t d ->
  Q (Ok tt) (set_db d (set_tx TxNone (tick w))) ->
  (forall e d', d' = w_db w \/ (lossy E /\ d' = d) ->
                Q (Err e) (set_db d' (set_tx TxNone (tick w)))) ->
  wp (Commit E) Q w.
Proof.
  unfold wp, Commit. intros -> H1 H2.
  destruct (faults E (w_ticks w)) as [[e|e]|] eqn:Hf; simpl; auto.
  - rewrite <-(set_db_id (set_tx TxNone (tick w))). apply H2. auto.
  - apply H2. right. split; [by exists (w_ticks w), e|done].
Qed.

Lemma wp_master_stmt {A} (q : stmt A) (Q : res A -> World kv -> Prop) w :
  (forall env a d', q env (w_db w) = Ok (a, d') -> Q (Ok a) (set_db d' (tick w))) ->
  (forall env e a d', lossy E -> q env (w_db w) = Ok (a, d') -> Q (Err e) (set_db d' (tick w))) ->
  (forall e, Q (Err e) (tick w)) ->
  wp (master_stmt E q) Q w.
Proof.
  unfold wp, master_stmt, ext. intros H1 H2 H3.
  destruct (faults E (w_ticks w)) as [[e|e]|] eqn:Hf; simpl; auto.
  - assert (lossy E) as Hl by (by exists (w_ticks w), e).
    destruct (q _ (w_db w)) as [[a d']|e'] eqn:Hq; simpl; eauto.
  - destruct (q _ (w_db w)) as [[a d']|e'] eqn:Hq; simpl; eauto.
Qed.

Lemma wp_replica_query {A} (q : stmt A) (Q : res A -> World kv -> Prop) w :
  (forall env a d', q env (w_replica w) = Ok (a, d') -> Q (Ok a) (tick w)) ->
  (forall e, Q (Err e) (tick w)) ->
  wp (replica_query E q) Q w.
Proof.
  unfold wp, replica_query, ext. intros H1 H2.
  destruct (faults E (w_ticks w)) as [[e|e]|]; simpl; auto.
  - destruct (q _ (w_replica w)) as [[a d']|e'] eqn:Hq; simpl; eauto.
  - destruct (q _ (w_replica w)) as [[a d']|e'] eqn:Hq; simpl; eauto.
Qed.

(** A loop over rows delivers a prefix of them. *)
Lemma wp_rows_loop {A} (rows : list A) (Q : res (list A) -> World kv -> Prop) w :
  (forall l w', l `prefix_of` rows -> frame w w' -> w_tx w' = w_tx w -> Q (Ok l) w') ->
  wp (rows_loop E rows) Q w.
Proof.
  revert w Q. induction rows as [|r rows IH]; intros w Q HQ; simpl.
  - unfold wp. simpl. apply HQ; [done|apply frame_tick|done].
  - unfold wp. destruct (faults E (w_ticks w)); simpl.
    { apply HQ; [apply prefix_nil|apply frame_tick|done]. }
    change (wp (l ← rows_loop E rows; mret (r :: l)) Q (tick w)).
    apply wp_bind, IH. intros l w' Hl Hf Htx. apply wp_ret, HQ.
    + by apply prefix_cons.
    + etrans; [apply frame_tick|done].
    + done.
Qed.
End rules.

(** ** Exact results when no call is lost *)
Section calm.
Context {kv : Type} (E : Env).
Implicit Types (w : World kv).

Lemma calm_frame w w' : frame w w' -> calm E w -> calm E w'.
Proof. intros [_ _ _ _ Ht] Hc n Hn. apply Hc. lia. Qed.

Lemma calm_now w : calm E w -> faults E (w_ticks w) = None.
Proof. intros Hc. apply Hc. lia. Qed.

Lemma begin_tx_calm w :
  calm E w ->
  begin_tx E w =
    (Ok tt, set_tx (TxActive (server_clock E (w_ticks w)) (w_db w)) (tick w)).
Proof. intros Hc. unfold begin_tx. by rewrite (calm_now _ Hc). Qed.

Lemma tx_stmt_calm {A} (q : stmt A) w t d :
  calm E w -> w_tx w = TxActive t d ->
  tx_stmt E q w =
    match q (mkStmtEnv t (gen_random_uuid E (w_ticks w)) (row_locked E (w_ticks w))) d with
    | Ok (a, d') => (Ok a, set_tx (TxActive t d') (tick w))
    | Err e => (Err e, set_tx TxFailed (tick w))
    end.
Proof. intros Hc Ht. unfold tx_stmt. by rewrite Ht, (calm_now _ Hc). Qed.

Lemma Commit_calm w t d :
  calm E w -> w_tx w = TxActive t d ->
  Commit E w = (Ok tt, set_db d (set_tx TxNone (tick w))).
Proof. intros Hc Ht. unfold Commit. by rewrite Ht, (calm_now _ Hc). Qed.

Lemma master_stmt_calm {A} (q : stmt A) w :
  calm E w ->
  master_stmt E q w =
    match q (stmt_env E (tick w))
            (w_db w) with
    | Ok (a, d') => (Ok a, set_db d' (tick w))
    | Err e => (Err e, tick w)
    end.
Proof. intros Hc. unfold master_stmt, ext. by rewrite (calm_now _ Hc). Qed.

Lemma replica_query_calm {A} (q : stmt A) w :
  calm E w ->
  replica_query E q w =
    match q (stmt_env E (tick w))
            (w_replica w) with
    | Ok (a, _) => (Ok a, tick w)
    | Err e => (Err e, tick w)
    end.
Proof. intros Hc. unfold replica_query, ext. by rewrite (calm_now _ Hc). Qed.

(** Without a lost call the loop delivers every row. *)
Lemma rows_loop_calm {A} (rows : list A) w :
  calm E w -> (rows_loop E rows w).1 = Ok rows.
Proof.
  revert w. induction rows as [|r rows IH]; intros w Hc; [done|]. simpl.
  rewrite (calm_now _ Hc). unfold mbind, M_bind.
  specialize (IH (tick w) (calm_frame _ _ (frame_tick w) Hc)).
  destruct (rows_loop E rows (tick w)) as [[l|e] w']; simpl in *; congruence.
Qed.

Lemma rows_loop_run {A} (rows : list A) w :
  calm E w -> exists w', rows_loop E rows w = (Ok rows, w') /\ frame w w'.
Proof.
  intros Hc. pose proof (rows_loop_calm rows w Hc) as Hr.
  pose proof (wp_rows_loop E rows (fun _ w' => frame w w') w) as Hf.
  unfold wp in Hf. destruct (rows_loop E rows w) as [r w']. simpl in *. subst r.
  exists w'. eauto.
Qed.

Lemma tx_rows_loop_calm {A} (rows : list A) w :
  calm E w -> exists w', tx_rows_loop E rows w = (Ok rows, w') /\ frame w w' /\
                         w_tx w' = w_tx w.
Proof.
  revert w. induction rows as [|r rows IH]; intros w Hc.
  { exists (tick w). simpl. unfold tx_next. rewrite (calm_now _ Hc).
    split; [done|]. split; [apply frame_tick|done]. }
  simpl. unfold tx_next at 1. rewrite (calm_now _ Hc). unfold mbind, M_bind.
  destruct (IH (tick w) (calm_frame _ _ (frame_tick w) Hc)) as (w' & -> & Hf & Htx).
  exists w'. split; [done|]. split; [|done]. etrans; [apply frame_tick|done].
Qed.
End calm.

#[export] Hint Resolve frame_tick frame_set_tx frame_tick_r calm_frame
  frame_Rollback quiet_Rollback frame_quiet quiet_set_tx quiet_set_db quiet_tick settles_err settles_unopened : vaultpay.

Lemma settles_refl {kv A} E (eff : A -> DB -> Prop) (w : World kv) e :
  settles E eff w (Err e) w.
Proof. by apply settles_unopened. Qed.
#[export] Hint Resolve settles_refl : vaultpay.

(** Runs a program of [M] as far as its state is known, on calls that are not lost. *)
Ltac run_calm Hc :=
  repeat progress
    (unfold mbind, M_bind, mret, M_ret, res_bind, res_ret, wrap_err, deferring, observe, throw,
       scan_row, begin_tx, tx_stmt, Commit, Now; cbn;
     try match goal with
         | |- context [faults ?E ?n] => rewrite (Hc n) by (cbn; lia); cbn
         end).
