(* ===== verification/Hex.v ===== *)
(** * Hexadecimal text

    [encoding/hex.EncodeToString] and the [%x] verb on bytes, and the canonical text of a UUID
    with its parser: the reference for the server's UUID type. *)
From S2P Require Import Prelude Database.

Definition hexdigit (n : N) : Ascii.ascii :=
  Ascii.ascii_of_N (if (n <? 10)%N then 48 + n else 87 + n).

Definition unhex (a : Ascii.ascii) : option N :=
  let n := Ascii.N_of_ascii a in
  if ((48 <=? n) && (n <? 58))%N then Some (n - 48)%N
  else if ((97 <=? n) && (n <? 103))%N then Some (n - 87)%N
  else None.

(** The [k] low digits of [n], most significant first. *)
Fixpoint hex_fixed (k : nat) (n : N) : string :=
  match k with
  | O => EmptyString
  | S k' => String (hexdigit ((n / 16 ^ N.of_nat k') mod 16)) (hex_fixed k' n)
  end.

Fixpoint parse_hex (s : string) (acc : N) : option N :=
  match s with
  | EmptyString => Some acc
  | String a s' => d ← unhex a; parse_hex s' (16 * acc + d)%N
  end.

(** [hex.EncodeToString] of bytes given as numbers below 256. *)
Definition EncodeToString (bytes : list N) : string :=
  foldr (fun b s => hex_fixed 2 b +:+ s) EmptyString bytes.

Lemma unhex_hexdigit n : (n < 16)%N -> unhex (hexdigit n) = Some n.
Proof.
  intros H. assert (Forall (fun k => unhex (hexdigit k) = Some k) (N.of_nat <$> seq 0 16)) as Hall.
  { apply (bool_decide_eq_true_1 _). vm_compute. done. }
  rewrite Forall_forall in Hall. apply Hall. apply list_elem_of_fmap.
  exists (N.to_nat n). split; [lia|]. apply elem_of_seq. lia.
Qed.

Lemma parse_hex_app s s' acc :
  parse_hex (s +:+ s') acc = (a ← parse_hex s acc; parse_hex s' a).
Proof.
  revert acc. induction s as [|c s IH]; intros acc; [done|]. simpl.
  destruct (unhex c); [|done]. simpl. apply IH.
Qed.

Lemma hex_step m p : (p <> 0)%N -> (m / p mod 16 * p + m mod p = m mod (16 * p))%N.
Proof. intros Hp. rewrite (N.mul_comm 16 p), N.Div0.mod_mul_r. lia. Qed.

Lemma parse_hex_fixed k n acc :
  parse_hex (hex_fixed k n) acc = Some (acc * 16 ^ N.of_nat k + n mod 16 ^ N.of_nat k)%N.
Proof.
  revert acc. induction k as [|k IH]; intros acc.
  - simpl. f_equal. rewrite N.mod_1_r. lia.
  - cbn [hex_fixed parse_hex]. rewrite unhex_hexdigit by (apply N.mod_lt; lia).
    cbn [mbind option_bind]. rewrite IH. f_equal.
    rewrite Nat2N.inj_succ, N.pow_succ_r' by lia.
    rewrite <-(hex_step n (16 ^ N.of_nat k)) by (apply N.pow_nonzero; lia). lia.
Qed.

Lemma length_hex_fixed k n : String.length (hex_fixed k n) = k.
Proof. induction k; simpl; congruence. Qed.

(** ** Canonical UUID text: 8-4-4-4-12 digits *)
Definition uuid_text (u : uuid) : string :=
  let n := uuid_N u in
  hex_fixed 8 (n / 16 ^ 24) +:+ "-" +:+ hex_fixed 4 (n / 16 ^ 20) +:+ "-" +:+
  hex_fixed 4 (n / 16 ^ 16) +:+ "-" +:+ hex_fixed 4 (n / 16 ^ 12) +:+ "-" +:+ hex_fixed 12 n.

Fixpoint strip_hyphens (s : string) : string :=
  match s with
  | EmptyString => EmptyString
  | String a s' =>
      if Ascii.eqb a (Ascii.ascii_of_N 45) then strip_hyphens s'
      else String a (strip_hyphens s')
  end.

Definition uuid_parse (s : string) : option uuid :=
  if (String.length s =? 36)%nat then parse_hex (strip_hyphens s) 0 ≫= uuid_of else None.

Lemma strip_app s s' : strip_hyphens (s +:+ s') = strip_hyphens s +:+ strip_hyphens s'.
Proof. induction s as [|a s IH]; [done|]. simpl. rewrite IH. by destruct (Ascii.eqb _ _). Qed.

Lemma hexdigit_not_hyphen n : (n < 16)%N -> Ascii.eqb (hexdigit n) (Ascii.ascii_of_N 45) = false.
Proof.
  intros H. apply Ascii.eqb_neq. intros Heq. pose proof (unhex_hexdigit n H) as Hu.
  rewrite Heq in Hu. done.
Qed.

Lemma strip_hex_fixed k n : strip_hyphens (hex_fixed k n) = hex_fixed k n.
Proof.
  induction k as [|k IH]; [done|]. cbn [hex_fixed strip_hyphens].
  rewrite hexdigit_not_hyphen by (apply N.mod_lt; lia). by rewrite IH.
Qed.

Lemma uuid_text_length u : String.length (uuid_text u) = 36%nat.
Proof. unfold uuid_text. rewrite !string_app_length, !length_hex_fixed. done. Qed.

Lemma comb_hex n p q : (p <> 0)%N -> (q <> 0)%N ->
  ((n / (q * p)) * p + (n / q) mod p = n / q)%N.
Proof.
  intros Hp Hq. rewrite <-N.Div0.div_div.
  rewrite N.mul_comm. symmetry. apply N.Div0.div_mod.
Qed.

Lemma append_empty_l s : EmptyString +:+ s = s.
Proof. done. Qed.

Lemma uuid_digits n : (n < 2 ^ 128)%N ->
  (((((0 * 16 ^ 8 + (n / 16 ^ 24) mod 16 ^ 8) * 16 ^ 4 + (n / 16 ^ 20) mod 16 ^ 4) * 16 ^ 4
     + (n / 16 ^ 16) mod 16 ^ 4) * 16 ^ 4 + (n / 16 ^ 12) mod 16 ^ 4) * 16 ^ 12
   + n mod 16 ^ 12 = n)%N.
Proof.
  intros Hn. rewrite (N.mod_small (n / 16 ^ 24)).
  2:{ apply N.Div0.div_lt_upper_bound. eapply N.lt_le_trans; [exact Hn|]. done. }
  rewrite N.mul_0_l, N.add_0_l.
  change (16 ^ 24)%N with (16 ^ 20 * 16 ^ 4)%N. rewrite comb_hex by done.
  change (n / 16 ^ 20 * 16 ^ 4)%N with (n / (16 ^ 16 * 16 ^ 4) * 16 ^ 4)%N.
  rewrite comb_hex by done.
  change (n / 16 ^ 16 * 16 ^ 4)%N with (n / (16 ^ 12 * 16 ^ 4) * 16 ^ 4)%N.
  rewrite comb_hex by done. rewrite N.mul_comm. symmetry. apply N.Div0.div_mod.
Qed.

Lemma uuid_parse_text u : uuid_parse (uuid_text u) = Some u.
Proof.
  unfold uuid_parse. rewrite uuid_text_length. cbn [Nat.eqb]. unfold uuid_text.
  rewrite !strip_app, !strip_hex_fixed. replace (strip_hyphens "-") with EmptyString by done.
  rewrite !append_empty_l.
  repeat (rewrite parse_hex_app, parse_hex_fixed; cbn [mbind option_bind]).
  rewrite parse_hex_fixed. cbn [mbind option_bind].
  pose proof (uuid_ok u) as Hok. apply N.ltb_lt in Hok.
  change (N.of_nat 8) with 8%N. change (N.of_nat 4) with 4%N. change (N.of_nat 12) with 12%N.
  rewrite uuid_digits by done. apply uuid_of_N.
Qed.

(** The text is ASCII: each byte is a character. *)
Lemma char_length_app s s' : char_length (s +:+ s') = (char_length s + char_length s')%nat.
Proof. induction s as [|a s IH]; simpl; [done|]. rewrite IH. lia. Qed.

Lemma char_length_hex k n : char_length (hex_fixed k n) = k.
Proof.
  induction k as [|k IH]; [done|]. cbn [hex_fixed char_length]. rewrite IH.
  set (d := ((n / 16 ^ N.of_nat k) mod 16)%N).
  assert (d < 16)%N as Hd by (apply N.mod_lt; lia).
  assert (Forall (fun m => continuation_byte (hexdigit m) = false) (N.of_nat <$> seq 0 16))
    as Hall by (apply (bool_decide_eq_true_1 _); vm_compute; done).
  rewrite Forall_forall in Hall. rewrite Hall; [done|].
  apply list_elem_of_fmap. exists (N.to_nat d). split; [lia|]. apply elem_of_seq. lia.
Qed.

Lemma uuid_text_chars u : char_length (uuid_text u) = 36%nat.
Proof. unfold uuid_text. rewrite !char_length_app, !char_length_hex. done. Qed.

(** [rand.Read(b)] on a buffer of [n] bytes. *)
Definition RandRead {kv} (E : Env) (n : nat) : M (World kv) (list N) :=
  ext E (fun w => (Ok (resize n 0%N (rand_read E (w_ticks w))), w)).

(** ** A reference environment

    The UUID functions above, a clock that advances one millisecond per call, no lost call;
    [gen] gives the UUIDs. *)
Definition text_ltb (s t : string) : bool :=
  match uuid_parse s, uuid_parse t with
  | Some u, Some v => uuid_ltb u v
  | _, _ => false
  end.

Definition ref_env (gen : nat -> uuid) (lost : nat -> option fault) : Env :=
  mkEnv (fun n => 1700000000 * 10 ^ 9 + Z.of_nat n * 10 ^ 6)
    (fun n => 1700000000 * 10 ^ 9 + Z.of_nat n * 10 ^ 6)
    (fun n => 1700000000 * 10 ^ 3 + Z.of_nat n)
    lost gen (fun _ _ => false) (fun n => [N.of_nat (n mod 256); 0; 0; 0; 0; 0; 0; 1]%N)
    uuid_parse uuid_text text_ltb.

#[export] Instance ref_uuid_laws gen lost : UuidLaws (ref_env gen lost).
Proof. split; [apply uuid_parse_text|apply uuid_text_chars]. Qed.

#[export] Instance ref_uuid_order gen lost : UuidOrder (ref_env gen lost).
Proof. intros u v. simpl. unfold text_ltb. by rewrite !uuid_parse_text. Qed.

(** UUIDs counted from 100, one per call. *)
Definition count_uuid (n : nat) : uuid :=
  match uuid_of (N.of_nat n + 100)%N with Some u => u | None => UUID 0 eq_refl end.

(** The environment of the witnesses: no call is lost. *)
Definition env0 : Env := ref_env count_uuid (fun _ => None).

Lemma calm_env0 {kv} (w : World kv) : calm env0 w.
Proof. intros n _. done. Qed.

(** A world in which nothing happened yet. *)
Definition new_world {kv} (s : kv) : World kv := mkWorld empty_db empty_db TxNone s [] 0.
