(* ===== verification/PaymentRepo.v ===== *)
(** * internal/repository/payment_repo.go: the payment ledger

    The SQL statements of the file, the repository's operations on the master and the replica,
    and what each operation does to the tables. *)
From S2P Require Import Prelude Json Database Hex.

(** Go's zero [time.Time], year 1 in nanoseconds since 1970. *)
Definition zero_time : Z := -62135596800 * 10 ^ 9.

Record Payment := mkPayment {
  p_ID : string; p_UserID : string; p_Amount : Z; p_Currency : string; p_Status : string;
  p_CreatedAt : Z; p_UpdatedAt : Z }.

(** internal/repository/transaction_types.go *)
Record Transaction := mkTransaction {
  t_ID : string; t_Amount : Z; t_Currency : string; t_Status : string; t_CreatedAt : Z }.

Record TransactionQuery := mkTransactionQuery { q_Limit : Z; q_NextCursor : string }.

(** ** The statements *)
Module Sql.
Section sql.
Context (E : Env).

(** [SELECT balance FROM users WHERE id = $1 FOR UPDATE] *)
Definition balance_for_update (userID : string) : stmt (option Z) := fun _ d =>
  u ← uuid_param E userID;
  mret (u_balance <$> users d !! u, d).

Definition with_balance (b : Z) (r : UserRow) : UserRow :=
  mkUserRow (u_email r) b (u_currency r) (u_created_at r).

(** [UPDATE users SET balance = balance + delta WHERE id = $2]: no matching
    row is not an error. *)
Definition add_balance (delta : Z) (userID : string) : stmt unit := fun _ d =>
  u ← uuid_param E userID;
  match users d !! u with
  | None => mret (tt, d)
  | Some r =>
      b ← bigint (u_balance r + delta);
      mret (tt, set_users (<[u := with_balance b r]> (users d)) d)
  end.

(** [UPDATE users SET balance = balance - $1 WHERE id = $2] *)
Definition debit_user (amount : Z) (userID : string) : stmt unit :=
  add_balance (- amount) userID.

(** [UPDATE users SET balance = balance + $1 WHERE id = $2] *)
Definition credit_user (amount : Z) (userID : string) : stmt unit :=
  add_balance amount userID.

(** [INSERT INTO payments (user_id, amount, currency, status)
     VALUES ($1, $2, $3, 'succeeded') RETURNING id, ..., created_at]:
    primary key, foreign key and column types checked by the server; the
    columns not named take their defaults. *)
Definition insert_payment (userID : string) (amount : Z) (currency : string) :
    stmt Payment := fun q d =>
  u ← uuid_param E userID;
  a ← bigint amount;
  match payments d !! sq_uuid q with
  | Some _ => Err (Errorf "pq: duplicate key value violates unique constraint payments_pkey")
  | None =>
      match users d !! u with
      | None =>
          Err (Errorf "pq: insert on table payments violates foreign key constraint")
      | Some _ =>
          let row := mkPaymentRow u a currency succeeded None (sq_now q) (sq_now q) in
          mret (mkPayment (uuid_out E (sq_uuid q)) (uuid_out E u) a currency
                  (status_text succeeded) (sq_now q) zero_time,
                set_payments (<[sq_uuid q := row]> (payments d)) d)
      end
  end.

(** [SELECT id, ..., updated_at FROM payments WHERE id = $1 FOR UPDATE] *)
Definition payment_for_update (paymentID : string) : stmt (option Payment) := fun _ d =>
  i ← uuid_param E paymentID;
  mret ((fun r => mkPayment (uuid_out E i) (uuid_out E (pr_user_id r)) (pr_amount r)
                    (pr_currency r) (status_text (pr_status r)) (pr_created_at r)
                    (pr_updated_at r)) <$> payments d !! i, d).

Definition with_status (s : payment_status) (now : Z) (r : PaymentRow) : PaymentRow :=
  mkPaymentRow (pr_user_id r) (pr_amount r) (pr_currency r) s (pr_idempotency_key r)
    (pr_created_at r) now.

(** [UPDATE payments SET status = 'refunded', updated_at = CURRENT_TIMESTAMP
     WHERE id = $1 RETURNING status, updated_at] *)
Definition mark_refunded (paymentID : string) : stmt (option (string * Z)) := fun q d =>
  i ← uuid_param E paymentID;
  match payments d !! i with
  | None => mret (None, d)
  | Some r => mret (Some (status_text refunded, sq_now q),
                    set_payments (<[i := with_status refunded (sq_now q) r]> (payments d)) d)
  end.

(** [UPDATE payments SET status = $1, updated_at = NOW() WHERE id = $2] *)
Definition set_status (nextStatus paymentID : string) : stmt unit := fun q d =>
  i ← uuid_param E paymentID;
  match status_of_text nextStatus with
  | None => Err (Errorf "pq: invalid input value for enum payment_status")
  | Some s => mret (tt, set_payments (alter (with_status s (sq_now q)) i (payments d)) d)
  end.

Definition id_desc (x y : uuid * PaymentRow) : Prop := (uuid_N y.1 <= uuid_N x.1)%N.
#[global] Instance id_desc_dec x y : Decision (id_desc x y).
Proof. unfold id_desc. apply _. Defined.

Definition transaction_of (x : uuid * PaymentRow) : Transaction :=
  mkTransaction (uuid_out E x.1) (pr_amount x.2) (pr_currency x.2)
    (status_text (pr_status x.2)) (pr_created_at x.2).

(** [SELECT id::text, ... FROM payments [WHERE id::text < $2] ORDER BY id DESC LIMIT $1] *)
Definition select_page (limit : Z) (cursor : option string) :
    stmt (list Transaction) := fun _ d =>
  if limit <? 0 then Err (Errorf "pq: LIMIT must not be negative")
  else
    let keep x := match cursor with
                  | Some c => text_lt E (uuid_out E x.1) c
                  | None => true
                  end in
    let rows := merge_sort id_desc
                  (List.filter keep (map_to_list (payments d))) in
    mret (transaction_of <$> take (Z.to_nat limit) rows, d).
End sql.
End Sql.

(** ** The repository *)
Section repo.
Context {kv : Type} (E : Env).
Implicit Types (w : World kv).

(** A serializable transaction on the master. *)
Definition BeginTx : M (World kv) unit := begin_tx E.

Definition ErrInsufficient : error :=
  Errorf "insufficient account balances to clear transaction".

Definition CreateTransactionRecordTx (userID : string) (amount : Z) (currency : string) :
    M (World kv) Payment :=
  currentBalance ← wrap_err "failed to look up target user balance inside tx: "
                     (tx_stmt E (Sql.balance_for_update E userID) ≫= scan_row);
  if (currentBalance <? amount) then throw ErrInsufficient
  else
    _ ← wrap_err "failed to adjust user ledger balance accounts: "
          (tx_stmt E (Sql.debit_user E amount userID));
    wrap_err "failed to register permanent payment record log: "
      (tx_stmt E (Sql.insert_payment E userID amount currency)).

Definition CreateTransactionRecord (userID : string) (amount : Z) (currency : string) :
    M (World kv) Payment :=
  _ ← BeginTx;
  deferring (fun _ => Rollback)
    (p ← CreateTransactionRecordTx userID amount currency;
     _ ← wrap_err "failed to commit financial block adjustments: " (Commit E);
     mret p).

Definition ErrNotRefundable (status : string) : error :=
  Errorf ("invalid state transition: cannot refund a transaction with status '" +:+
          status +:+ "'").

Definition RefundTransactionRecord (paymentID : string) : M (World kv) Payment :=
  _ ← wrap_err "failed to open refund transaction: " (begin_tx E);
  deferring (fun _ => Rollback)
    (p ← wrap_err "payment record not found or lock acquisition timed out: "
           (tx_stmt E (Sql.payment_for_update E paymentID) ≫= scan_row);
     if bool_decide (p_Status p <> "succeeded") && bool_decide (p_Status p <> "paid") &&
        bool_decide (p_Status p <> "COMPLETED")
     then throw (ErrNotRefundable (p_Status p))
     else
       _ ← wrap_err "failed to return funds to user wallet balance: "
             (tx_stmt E (Sql.credit_user E (p_Amount p) (p_UserID p)));
       su ← wrap_err "failed to update payment record lifecycle status: "
              (tx_stmt E (Sql.mark_refunded E paymentID) ≫= scan_row);
       _ ← wrap_err "failed to commit financial refund block: " (Commit E);
       mret (mkPayment (p_ID p) (p_UserID p) (p_Amount p) (p_Currency p) su.1
               (p_CreatedAt p) su.2)).

Definition UpdatePaymentStatus (paymentID nextStatus : string) : M (World kv) unit :=
  master_stmt E (Sql.set_status E nextStatus paymentID).

Definition last_ID (l : list Transaction) : string :=
  match last l with Some t => t_ID t | None => "" end.

Definition GetPaginatedTransactions (q : TransactionQuery) :
    M (World kv) (list Transaction * string) :=
  let cursor := if decide (q_NextCursor q = "") then None else Some (q_NextCursor q) in
  rows ← replica_query E (Sql.select_page E (q_Limit q) cursor);
  transactions ← rows_loop E rows;
  mret (transactions,
        if (Z.of_nat (length transactions) =? q_Limit q) then last_ID transactions else "").
End repo.

(** ** What a charge and a refund do to the tables *)
Section effects.
Context (E : Env).

Definition charge_row (u : uuid) (amount : Z) (currency : string) (t : Z) : PaymentRow :=
  mkPaymentRow u amount currency succeeded None t t.

Definition charge_db (u : uuid) (r : UserRow) (pid : uuid) (amount : Z) (currency : string)
    (t : Z) (d : DB) : DB :=
  set_payments (<[pid := charge_row u amount currency t]> (payments d))
    (set_users (<[u := Sql.with_balance (u_balance r - amount) r]> (users d)) d).

(** [charged t d userID amount currency p d']: from [d] the charge is possible,
    answers [p] and leaves [d']. *)
Inductive charged (t : Z) (d : DB) (userID : string) (amount : Z) (currency : string) :
    Payment -> DB -> Prop :=
  | charged_intro u r pid :
      uuid_in E userID = Some u ->
      users d !! u = Some r ->
      amount <= u_balance r ->
      in_int64 (u_balance r - amount) = true ->
      in_int64 amount = true ->
      payments d !! pid = None ->
      charged t d userID amount currency
        (mkPayment (uuid_out E pid) (uuid_out E u) amount currency "succeeded" t zero_time)
        (charge_db u r pid amount currency t d).

Definition credit_db (u : uuid) (amount : Z) (d : DB) : DB :=
  match users d !! u with
  | Some r => set_users (<[u := Sql.with_balance (u_balance r + amount) r]> (users d)) d
  | None => d
  end.

Definition refund_db (i : uuid) (pr : PaymentRow) (t : Z) (d : DB) : DB :=
  let d1 := credit_db (pr_user_id pr) (pr_amount pr) d in
  set_payments (<[i := Sql.with_status refunded t pr]> (payments d1)) d1.

Inductive refunds (t : Z) (d : DB) (paymentID : string) : Payment -> DB -> Prop :=
  | refunds_intro i pr :
      uuid_in E paymentID = Some i ->
      payments d !! i = Some pr ->
      pr_status pr = succeeded ->
      (forall r, users d !! pr_user_id pr = Some r ->
                 in_int64 (u_balance r + pr_amount pr) = true) ->
      refunds t d paymentID
        (mkPayment (uuid_out E i) (uuid_out E (pr_user_id pr)) (pr_amount pr)
           (pr_currency pr) "refunded" (pr_created_at pr) t)
        (refund_db i pr t d).
End effects.

(** ** The interface of the service layer

    The Go interface [PaymentRepository]; its laws are what the service relies on. *)
Class PaymentRepository (kv : Type) := {
  repo_BeginTx : M (World kv) unit;
  repo_CreateTransactionRecord : string -> Z -> string -> M (World kv) Payment;
  repo_CreateTransactionRecordTx : string -> Z -> string -> M (World kv) Payment;
  repo_RefundTransactionRecord : string -> M (World kv) Payment;
  repo_UpdatePaymentStatus : string -> string -> M (World kv) unit;
  repo_GetPaginatedTransactions : TransactionQuery -> M (World kv) (list Transaction * string) }.

Class PaymentRepositoryLaws (E : Env) {kv} (R : PaymentRepository kv) : Prop := {
  law_BeginTx : forall w,
    wp repo_BeginTx (fun r w' => frame w w' /\
      match r with
      | Ok _ => exists t, w_tx w' = TxActive t (w_db w)
      | Err _ => w_tx w' = w_tx w
      end) w;
  law_CreateTransactionRecordTx : forall userID amount currency w t d,
    w_tx w = TxActive t d ->
    wp (repo_CreateTransactionRecordTx userID amount currency)
      (fun r w' => frame w w' /\
        forall p, r = Ok p -> exists d', charged E t d userID amount currency p d' /\
                                         w_tx w' = TxActive t d') w;
  law_RefundTransactionRecord : forall paymentID w,
    wp (repo_RefundTransactionRecord paymentID)
      (settles E (fun p d' => exists t, refunds E t (w_db w) paymentID p d') w) w }.

(** [NewPaymentRepository]: the SQL implementation. *)
#[export] Instance sqlPaymentRepository (E : Env) (kv : Type) : PaymentRepository kv := {|
  repo_BeginTx := BeginTx E;
  repo_CreateTransactionRecord := CreateTransactionRecord E;
  repo_CreateTransactionRecordTx := CreateTransactionRecordTx E;
  repo_RefundTransactionRecord := RefundTransactionRecord E;
  repo_UpdatePaymentStatus := UpdatePaymentStatus E;
  repo_GetPaginatedTransactions := GetPaginatedTransactions E |}.

(** ** Proofs about the SQL implementation *)

(** Closes the obligations of an error path: nothing but the transaction changed. *)
Ltac quiet_err :=
  intros; split; [solve [eauto 12 with vaultpay]|intros; discriminate].

Section sql_facts.
Context {kv : Type} (E : Env) `{!UuidLaws E}.
Implicit Types (w : World kv) (d : DB).

Lemma uuid_param_out u : uuid_param E (uuid_out E u) = Ok u.
Proof. unfold uuid_param. by rewrite uuid_in_out. Qed.

Lemma uuid_param_ok s u : uuid_param E s = Ok u <-> uuid_in E s = Some u.
Proof. unfold uuid_param. destruct (uuid_in E s); split; congruence. Qed.

Lemma bigint_ok z b : bigint z = Ok b <-> in_int64 z = true /\ b = z.
Proof. unfold bigint. destruct (in_int64 z); split; [intros [= ->]|intros [_ ->]| |intros []]; done. Qed.

Lemma balance_for_update_ok userID q d b d' :
  Sql.balance_for_update E userID q d = Ok (Some b, d') ->
  exists u r, uuid_in E userID = Some u /\ users d !! u = Some r /\ b = u_balance r /\ d' = d.
Proof.
  unfold Sql.balance_for_update, mbind, res_bind.
  destruct (uuid_param E userID) as [u|] eqn:Hu; [|done].
  apply uuid_param_ok in Hu. intros [= Hb <-].
  destruct (users d !! u) as [r|] eqn:Hr; [|done]. simplify_eq/=. eauto 8.
Qed.

(** The two writes of a charge, one after the other, are the effect [charged]. *)
Lemma charge_statements t f2 l2 f3 l3 d userID amount currency u r d2 p d3 :
  uuid_in E userID = Some u -> users d !! u = Some r -> amount <= u_balance r ->
  Sql.debit_user E amount userID (mkStmtEnv t f2 l2) d = Ok (tt, d2) ->
  Sql.insert_payment E userID amount currency (mkStmtEnv t f3 l3) d2 = Ok (p, d3) ->
  charged E t d userID amount currency p d3.
Proof.
  intros Hu Hr Hle. unfold Sql.debit_user, Sql.add_balance, Sql.insert_payment.
  unfold uuid_param. rewrite Hu. simpl. rewrite Hr.
  unfold bigint. destruct (in_int64 (u_balance r + - amount)) eqn:Hb; [|done].
  simpl. intros [= <-]. destruct (in_int64 amount) eqn:Ha; [|done]. simpl.
  destruct (payments d !! f3) eqn:Hf; [done|].
  rewrite lookup_insert_eq. intros [= <- <-].
  apply (charged_intro E t d userID amount currency u r f3); auto.
Qed.

Lemma CreateTransactionRecordTx_wp userID amount currency w t d :
  w_tx w = TxActive t d ->
  wp (CreateTransactionRecordTx E userID amount currency)
    (fun r w' => frame w w' /\
      forall p, r = Ok p -> exists d', charged E t d userID amount currency p d' /\
                                       w_tx w' = TxActive t d') w.
Proof.
  intros Ht. unfold CreateTransactionRecordTx.
  apply wp_bind, wp_wrap_err, wp_bind.
  eapply wp_tx_stmt; [done| |by quiet_err].
  intros f l bal d1 Hbal. apply wp_scan_row; [|by quiet_err].
  intros b ->. destruct (balance_for_update_ok _ _ _ _ _ Hbal) as (u & r & Hu & Hr & -> & ->).
  destruct (u_balance r <? amount) eqn:Hlt; [apply wp_throw; quiet_err|].
  apply Z.ltb_ge in Hlt. apply wp_bind, wp_wrap_err.
  eapply wp_tx_stmt; [done| |by quiet_err].
  intros f2 l2 [] d2 Hdebit. apply wp_wrap_err.
  eapply wp_tx_stmt; [done| |by quiet_err].
  intros f3 l3 p d3 Hins. split; [eauto 10 with vaultpay|].
  intros ? [= ->]. exists d3. split; [|done]. by eapply charge_statements.
Qed.

Lemma payment_for_update_ok paymentID q d p d' :
  Sql.payment_for_update E paymentID q d = Ok (Some p, d') ->
  exists i pr, uuid_in E paymentID = Some i /\ payments d !! i = Some pr /\ d' = d /\
    p = mkPayment (uuid_out E i) (uuid_out E (pr_user_id pr)) (pr_amount pr)
          (pr_currency pr) (status_text (pr_status pr)) (pr_created_at pr) (pr_updated_at pr).
Proof.
  unfold Sql.payment_for_update, mbind, res_bind.
  destruct (uuid_param E paymentID) as [i|] eqn:Hi; [|done].
  apply uuid_param_ok in Hi. intros [= Hp <-].
  destruct (payments d !! i) as [pr|] eqn:Hpr; [|done]. simplify_eq/=. eauto 8.
Qed.

(** The guard of the refund on the status text lets only [succeeded] rows pass. *)
Lemma refund_guard s :
  bool_decide (status_text s <> "succeeded") && bool_decide (status_text s <> "paid") &&
  bool_decide (status_text s <> "COMPLETED") = negb (bool_decide (s = succeeded)).
Proof. by destruct s. Qed.

Lemma credit_user_ok u amount q d d' :
  Sql.credit_user E amount (uuid_out E u) q d = Ok (tt, d') ->
  d' = credit_db u amount d /\
  (forall r, users d !! u = Some r -> in_int64 (u_balance r + amount) = true).
Proof.
  unfold Sql.credit_user, Sql.add_balance, credit_db. rewrite uuid_param_out. simpl.
  destruct (users d !! u) as [r|] eqn:Hr; [|intros [= <-]; split; [done|congruence]].
  unfold bigint. destruct (in_int64 _) eqn:Hb; [|done]. simpl.
  intros [= <-]. split; [done|]. by intros ? [= <-].
Qed.

Lemma payments_credit_db u amount d : payments (credit_db u amount d) = payments d.
Proof. unfold credit_db. by destruct (users d !! u). Qed.

Lemma refund_statements t f2 l2 f3 l3 d i pr paymentID d2 row d3 :
  uuid_in E paymentID = Some i -> payments d !! i = Some pr -> pr_status pr = succeeded ->
  Sql.credit_user E (pr_amount pr) (uuid_out E (pr_user_id pr)) (mkStmtEnv t f2 l2) d
    = Ok (tt, d2) ->
  Sql.mark_refunded E paymentID (mkStmtEnv t f3 l3) d2 = Ok (Some row, d3) ->
  refunds E t d paymentID
    (mkPayment (uuid_out E i) (uuid_out E (pr_user_id pr)) (pr_amount pr)
       (pr_currency pr) row.1 (pr_created_at pr) row.2) d3.
Proof.
  intros Hi Hpr Hs [-> Hb]%credit_user_ok. unfold Sql.mark_refunded.
  unfold uuid_param. rewrite Hi. simpl. rewrite payments_credit_db, Hpr.
  intros [= <- <-]. replace (set_payments _ _) with (refund_db i pr t d).
  - by apply refunds_intro.
  - unfold refund_db. by rewrite payments_credit_db.
Qed.

Lemma RefundTransactionRecord_wp paymentID w :
  wp (RefundTransactionRecord E paymentID)
    (settles E (fun p d' => exists t, refunds E t (w_db w) paymentID p d') w) w.
Proof.
  unfold RefundTransactionRecord. apply wp_bind, wp_wrap_err.
  apply wp_begin_tx; [intros t|by auto with vaultpay].
  apply wp_deferring, wp_bind, wp_wrap_err, wp_bind.
  eapply wp_tx_stmt; [done| |by eauto 10 with vaultpay].
  intros f l row d1 Hsel. apply wp_scan_row; [|by eauto 10 with vaultpay].
  intros p ->.
  destruct (payment_for_update_ok _ _ _ _ _ Hsel) as (i & pr & Hi & Hpr & -> & ->).
  cbn [p_Status]. rewrite refund_guard.
  case_bool_decide as Hs; simpl; [|apply wp_throw; by eauto 12 with vaultpay].
  apply wp_bind, wp_wrap_err.
  eapply wp_tx_stmt; [done| |by eauto 12 with vaultpay]. intros f2 l2 [] d2 Hcredit.
  apply wp_bind, wp_wrap_err, wp_bind.
  eapply wp_tx_stmt; [done| |by eauto 14 with vaultpay]. intros f3 l3 row d3 Hmark.
  apply wp_scan_row; [intros su ->|by eauto 14 with vaultpay].
  assert (refunds E t (w_db w) paymentID
            (mkPayment (uuid_out E i) (uuid_out E (pr_user_id pr)) (pr_amount pr)
               (pr_currency pr) su.1 (pr_created_at pr) su.2) d3) as Href
    by by eapply refund_statements.
  apply wp_bind, wp_wrap_err. eapply wp_Commit; [done| |].
  - apply wp_ret. split; [by eauto 16 with vaultpay|]. split; [done|]. by exists t.
  - intros e d' Hd'. split; [by eauto 16 with vaultpay|]. split; [done|].
    destruct Hd' as [->|[Hl ->]]; [by left|right]. eauto.
Qed.

#[export] Instance sqlPaymentRepositoryLaws :
  PaymentRepositoryLaws E (sqlPaymentRepository E kv).
Proof.
  split; simpl.
  - intros w. apply wp_begin_tx; [intros t|intros e]; (split; [by auto with vaultpay|]); eauto.
  - apply CreateTransactionRecordTx_wp.
  - apply RefundTransactionRecord_wp.
Qed.

(** The standalone charge is atomic too. *)
Lemma CreateTransactionRecord_wp userID amount currency w :
  wp (CreateTransactionRecord E userID amount currency)
    (settles E (fun p d' => exists t, charged E t (w_db w) userID amount currency p d') w) w.
Proof.
  unfold CreateTransactionRecord.
  apply wp_bind, wp_begin_tx; [intros t|intros e; simpl; by auto with vaultpay].
  apply wp_deferring, wp_bind.
  eapply wp_mono; [by eapply CreateTransactionRecordTx_wp|]. simpl.
  intros [p|e] w' [Hf Hp].
  2:{ apply settles_err. etrans; [|done]. auto with vaultpay. }
  destruct (Hp p eq_refl) as (d' & Hch & Htx).
  assert (quiet w w') as Hq.
  { etrans; [|by apply frame_quiet]. auto with vaultpay. }
  apply wp_bind, wp_wrap_err. eapply wp_Commit; [done| |].
  - apply wp_ret. split; [by auto 10 with vaultpay|]. split; [done|]. by exists t.
  - intros e d2 Hd2. split; [by auto 10 with vaultpay|]. split; [done|].
    destruct Hd2 as [->|[Hl ->]]; [left|right; eauto]. simpl. by rewrite (frame_db _ _ Hf).
Qed.
End sql_facts.

(** ** Pagination *)
Section pages.
Context (E : Env) `{!UuidLaws E, !UuidOrder E}.
Implicit Types (d : DB) (l : list (uuid * PaymentRow)).

(** The whole history, newest identifier first. *)
Definition history_rows d : list (uuid * PaymentRow) :=
  merge_sort Sql.id_desc (map_to_list (payments d)).
Definition history d : list Transaction := Sql.transaction_of E <$> history_rows d.

Definition before (c : uuid) (x : uuid * PaymentRow) : bool := uuid_ltb x.1 c.

#[local] Instance id_desc_total : Total Sql.id_desc.
Proof. intros x y. unfold Sql.id_desc. lia. Qed.
#[local] Instance id_desc_trans : Transitive Sql.id_desc.
Proof. intros x y z. unfold Sql.id_desc. lia. Qed.

Lemma history_sorted d : StronglySorted Sql.id_desc (history_rows d).
Proof. apply (StronglySorted_merge_sort _). Qed.

Lemma history_NoDup d : NoDup (history_rows d).*1.
Proof. unfold history_rows. rewrite merge_sort_Permutation. apply NoDup_fst_map_to_list. Qed.

(** On a list sorted downwards without repeated identifiers, the rows below
    the identifier at position [i] are those after position [i]. *)
Lemma filter_before l i x :
  StronglySorted Sql.id_desc l -> NoDup l.*1 -> l !! i = Some x ->
  List.filter (before x.1) l = drop (S i) l.
Proof.
  intros Hs Hnd Hi. pose proof (take_drop_middle l i x Hi) as Hl.
  rewrite <-Hl in Hs, Hnd. rewrite <-Hl at 1.
  rewrite List.filter_app. simpl. unfold before at 2, uuid_ltb. rewrite N.ltb_irrefl.
  apply StronglySorted_app in Hs as (Hhi & _ & Hlo).
  apply StronglySorted_inv in Hlo as [_ Hlo]. rewrite Forall_forall in Hlo.
  rewrite fmap_app in Hnd. simpl in Hnd. apply NoDup_app in Hnd as (_ & _ & Hnd).
  apply NoDup_cons in Hnd as [Hx _].
  rewrite filter_none, filter_all; [done| |].
  - apply Forall_forall. intros y Hy. unfold before, uuid_ltb. apply N.ltb_lt.
    pose proof (Hlo y Hy) as Hle. unfold Sql.id_desc in Hle.
    enough (uuid_N y.1 <> uuid_N x.1) by lia. intros Heq%uuid_eq. apply Hx.
    rewrite <-Heq. by apply list_elem_of_fmap_2.
  - apply Forall_forall. intros y Hy. unfold before, uuid_ltb. apply N.ltb_ge.
    apply (Hhi y x Hy). set_solver.
Qed.

(** What the query returns for a cursor at position [i], and for none. *)
Lemma select_page_first limit d q :
  0 <= limit ->
  Sql.select_page E limit None q d = Ok (take (Z.to_nat limit) (history d), d).
Proof.
  intros Hl. unfold Sql.select_page. destruct (limit <? 0) eqn:Hneg; [lia|].
  rewrite filter_all by (by apply Forall_forall).
  unfold history. rewrite <-fmap_take. done.
Qed.

Lemma elem_of_filter_in (f : uuid * PaymentRow -> bool) x l :
  x ∈ List.filter f l -> x ∈ l /\ f x = true.
Proof. rewrite !list_elem_of_In. apply filter_In. Qed.

Lemma sorted_filter f l :
  StronglySorted Sql.id_desc l -> StronglySorted Sql.id_desc (List.filter f l).
Proof.
  induction 1 as [|x l _ IH Hall]; simpl; [constructor|]. destruct (f x); [|done].
  constructor; [done|]. rewrite Forall_forall in *. intros y [Hy _]%elem_of_filter_in. auto.
Qed.

Lemma merge_sort_filter f d :
  merge_sort Sql.id_desc (List.filter f (map_to_list (payments d))) =
  List.filter f (history_rows d).
Proof.
  apply (StronglySorted_unique_strong Sql.id_desc).
  - intros x y. rewrite (merge_sort_Permutation Sql.id_desc).
    unfold history_rows. intros [Hx _]%elem_of_filter_in [Hy _]%elem_of_filter_in.
    rewrite (merge_sort_Permutation Sql.id_desc) in Hy. unfold Sql.id_desc. intros H1 H2.
    assert (x.1 = y.1) as Heq by (apply uuid_eq; lia).
    destruct x as [k r], y as [k' r']. simpl in Heq. subst k'.
    apply elem_of_map_to_list in Hx, Hy. congruence.
  - apply (StronglySorted_merge_sort _).
  - apply sorted_filter, history_sorted.
  - rewrite (merge_sort_Permutation Sql.id_desc). symmetry.
    apply filter_perm, merge_sort_Permutation.
Qed.

Lemma select_page_next limit d q i x :
  0 <= limit -> history_rows d !! i = Some x ->
  Sql.select_page E limit (Some (uuid_out E x.1)) q d =
    Ok (take (Z.to_nat limit) (drop (S i) (history d)), d).
Proof.
  intros Hl Hi. unfold Sql.select_page. destruct (limit <? 0) eqn:Hneg; [lia|].
  cbv zeta. rewrite (List.filter_ext _ (before x.1)).
  2:{ intros y. apply uuid_text_lt. }
  rewrite merge_sort_filter, (filter_before _ i x (history_sorted d) (history_NoDup d) Hi).
  unfold history. by rewrite <-fmap_drop, <-fmap_take.
Qed.

(** A client that follows the cursors until it gets none. *)
Fixpoint fetch_pages {kv} (fuel : nat) (limit : Z) (cursor : string) :
    M (World kv) (list Transaction) :=
  match fuel with
  | O => mret []
  | S fuel' =>
      pg ← GetPaginatedTransactions E (mkTransactionQuery limit cursor);
      if decide (pg.2 = "") then mret pg.1
      else rest ← fetch_pages fuel' limit pg.2; mret (pg.1 ++ rest)
  end.

(** The cursor that stands before position [i] of the history. *)
Definition cursor_at (d : DB) (i : nat) (c : string) : Prop :=
  match i with
  | O => c = ""
  | S j => exists x, history_rows d !! j = Some x /\ c = uuid_out E x.1
  end.

Lemma uuid_out_nonempty u : uuid_out E u <> "".
Proof. intros H. pose proof (uuid_out_length u) as Hl. by rewrite H in Hl. Qed.

Lemma page_at {kv} (w : World kv) limit c i :
  calm E w -> 0 <= limit -> cursor_at (w_replica w) i c ->
  let page := take (Z.to_nat limit) (drop i (history (w_replica w))) in
  exists w', GetPaginatedTransactions E (mkTransactionQuery limit c) w =
      (Ok (page, if (Z.of_nat (length page) =? limit) then last_ID page else ""), w') /\
    calm E w' /\ w_replica w' = w_replica w.
Proof.
  intros Hc Hl Hcur page. unfold GetPaginatedTransactions.
  unfold mbind at 1, M_bind at 1. rewrite replica_query_calm by done. simpl.
  replace (Sql.select_page E limit _ _ _) with (Ok (page, w_replica w)).
  2:{ subst page. destruct i as [|i]; simpl in Hcur.
      - subst c. rewrite decide_True by done. by rewrite drop_0, select_page_first.
      - destruct Hcur as (x & Hx & ->). rewrite decide_False by apply uuid_out_nonempty.
        by rewrite (select_page_next _ _ _ i x). }
  destruct (rows_loop_run E page (tick w)) as (w' & Hrun & Hf).
  { eapply calm_frame; [apply frame_tick|done]. }
  unfold mbind, M_bind. rewrite Hrun. exists w'. split; [done|].
  split; [|by rewrite (frame_replica _ _ Hf)].
  eapply calm_frame; [exact Hf|]. eapply calm_frame; [apply frame_tick|done].
Qed.

Lemma fetch_pages_at {kv} fuel (w : World kv) limit c i :
  calm E w -> 0 < limit -> cursor_at (w_replica w) i c ->
  (length (history (w_replica w)) < fuel + i)%nat ->
  (fetch_pages fuel limit c w).1 = Ok (drop i (history (w_replica w))).
Proof.
  revert w c i. induction fuel as [|fuel IH]; intros w c i Hc Hl Hcur Hfuel.
  { simpl. rewrite drop_ge by (simpl in Hfuel; lia). done. }
  destruct (page_at w limit c i Hc ltac:(lia) Hcur) as (w' & Hrun & Hc' & Hrep).
  set (h := history (w_replica w)) in *. set (page := take (Z.to_nat limit) (drop i h)) in *.
  cbn [fetch_pages]. unfold mbind at 1, M_bind at 1. rewrite Hrun. cbn [fst snd].
  destruct (Z.of_nat (length page) =? limit) eqn:Hfull.
  - apply Z.eqb_eq in Hfull. subst page. rewrite length_take, length_drop in Hfull.
    set (j := (i + Z.to_nat limit)%nat).
    assert (exists x, history_rows (w_replica w) !! (j - 1)%nat = Some x) as [x Hx].
    { apply lookup_lt_is_Some. unfold h, history in Hfull.
      rewrite length_fmap in Hfull. subst j. lia. }
    assert (last_ID (take (Z.to_nat limit) (drop i h)) = uuid_out E x.1) as ->.
    { unfold last_ID. rewrite last_lookup, length_take, length_drop.
      rewrite lookup_take_lt by lia. rewrite lookup_drop.
      replace (i + pred (Z.to_nat limit `min` (length h - i)))%nat with (j - 1)%nat
        by (subst j; lia).
      unfold h, history. by rewrite list_lookup_fmap, Hx. }
    rewrite decide_False by apply uuid_out_nonempty.
    unfold mbind at 1, M_bind at 1.
    specialize (IH w' (uuid_out E x.1) j Hc' Hl). rewrite Hrep in IH.
    destruct (fetch_pages fuel limit (uuid_out E x.1) w') as [r w2] eqn:Hfetch.
    simpl in IH. rewrite IH.
    + simpl. f_equal. subst j. fold h. rewrite <-drop_drop. apply take_drop.
    + subst j. destruct (i + Z.to_nat limit)%nat eqn:Hj; [lia|]. simpl.
      exists x. split; [|done]. rewrite <-Hx. f_equal. lia.
    + subst j. fold h. lia.
  - apply Z.eqb_neq in Hfull. rewrite decide_True by done. simpl. f_equal.
    subst page. apply take_ge. rewrite length_take in Hfull. lia.
Qed.
End pages.

(** ** The refund, exactly *)

(** A flat reference for a refund on which no call is lost, starting at [t]. *)
Definition refund_reference (E : Env) (paymentID : string) (t : Z) (d : DB) :
    res Payment * DB :=
  let lookup e := Wrapf "payment record not found or lock acquisition timed out: " e "" in
  match uuid_in E paymentID with
  | None => (Err (lookup (Errorf ("pq: invalid input syntax for type uuid: " +:+ paymentID))), d)
  | Some i =>
    match payments d !! i with
    | None => (Err (lookup ErrNoRows), d)
    | Some pr =>
      if negb (bool_decide (pr_status pr = succeeded)) then
        (Err (ErrNotRefundable (status_text (pr_status pr))), d)
      else
        let credit := match users d !! pr_user_id pr with
                      | Some r => in_int64 (u_balance r + pr_amount pr)
                      | None => true
                      end in
        if credit then
          (Ok (mkPayment (uuid_out E i) (uuid_out E (pr_user_id pr)) (pr_amount pr)
                 (pr_currency pr) "refunded" (pr_created_at pr) t), refund_db i pr t d)
        else (Err (Wrapf "failed to return funds to user wallet balance: "
                     (Errorf "pq: bigint out of range") ""), d)
    end
  end.

(** C13: On every branch (unknown identifier, missing payment, status other than succeeded,
    balance overflow, success) a refund without lost calls answers and leaves exactly what the
    flat reference says. *)
Theorem refund_matches_reference {kv} (E : Env) `{!UuidLaws E} (paymentID : string)
    (w : World kv) :
  calm E w ->
  let '(r, w') := RefundTransactionRecord E paymentID w in
  (r, w_db w') = refund_reference E paymentID (server_clock E (w_ticks w)) (w_db w).
Proof.
  intros Hc. unfold RefundTransactionRecord, refund_reference. run_calm Hc.
  unfold Sql.payment_for_update, uuid_param.
  destruct (uuid_in E paymentID) as [i|] eqn:Hi; [|by run_calm Hc].
  run_calm Hc. destruct (payments (w_db w) !! i) as [pr|] eqn:Hpr; [|by run_calm Hc].
  run_calm Hc. rewrite refund_guard.
  destruct (bool_decide (pr_status pr = succeeded)) eqn:Hs; [|by run_calm Hc].
  run_calm Hc. unfold Sql.credit_user, Sql.add_balance. rewrite (uuid_param_out E).
  unfold refund_db, credit_db. run_calm Hc.
  destruct (users (w_db w) !! pr_user_id pr) as [r|] eqn:Hr; run_calm Hc.
  - unfold bigint. destruct (in_int64 (u_balance r + pr_amount pr)); [|by run_calm Hc].
    run_calm Hc. unfold Sql.mark_refunded, uuid_param. rewrite Hi. run_calm Hc.
    rewrite Hpr. by run_calm Hc.
  - unfold Sql.mark_refunded, uuid_param. rewrite Hi. run_calm Hc.
    rewrite Hpr. by run_calm Hc.
Qed.

(** A refund is atomic under any pattern of lost calls: [Ok] with the wallet credited and the
    payment refunded, or [Err] with the tables as before, unless the answer of the commit was lost;
    no transaction stays open. *)
Theorem refund_atomic {kv} (E : Env) `{!UuidLaws E} (paymentID : string) (w w' : World kv)
    (r : res Payment) :
  RefundTransactionRecord E paymentID w = (r, w') ->
  settles E (fun p d' => exists t, refunds E t (w_db w) paymentID p d') w r w'.
Proof. intros Hrun. eapply (wp_run _ _ _ _ _ (RefundTransactionRecord_wp E paymentID w) Hrun). Qed.

(** C29: Following the cursors of [GetPaginatedTransactions] from the first page until it gives
    none delivers the whole history of the replica, each payment once, newest identifier first,
    when no call is lost and the page size is positive. *)
Theorem pagination_complete {kv} (E : Env) `{!UuidLaws E, !UuidOrder E} (w : World kv)
    (limit : Z) (fuel : nat) :
  calm E w -> 0 < limit -> (length (history E (w_replica w)) < fuel)%nat ->
  (fetch_pages E fuel limit "" w).1 = Ok (history E (w_replica w)).
Proof.
  intros Hc Hl Hf. rewrite (fetch_pages_at E fuel w limit "" 0 Hc Hl); [|done|lia].
  by rewrite drop_0.
Qed.

(** ** Witnesses *)
Definition u0 : uuid := count_uuid 0.
Definition user_row0 : UserRow := mkUserRow "m@example.com" 700 "INR" 0.
Definition payment_row0 (amount : Z) : PaymentRow :=
  mkPaymentRow u0 amount "INR" succeeded None 5 5.
Definition db0 : DB :=
  set_payments {[ count_uuid 1 := payment_row0 300; count_uuid 2 := payment_row0 20;
                  count_uuid 3 := payment_row0 7 ]}
    (set_users {[ u0 := user_row0 ]} empty_db).
Definition world0 : World unit := mkWorld db0 db0 TxNone tt [] 0.

Lemma refund_matches_reference_witness :
  let '(r, w') := RefundTransactionRecord env0 (uuid_text (count_uuid 1)) world0 in
  is_ok r = true /\ u_balance <$> users (w_db w') !! u0 = Some 1000.
Proof.
  pose proof (refund_matches_reference env0 (uuid_text (count_uuid 1)) world0
    (calm_env0 world0)) as H.
  destruct (RefundTransactionRecord env0 (uuid_text (count_uuid 1)) world0) as [r w'].
  injection H as -> Hdb. rewrite Hdb. split; by vm_compute.
Defined.

Lemma refund_atomic_witness :
  exists r w', RefundTransactionRecord env0 (uuid_text (count_uuid 1)) world0 = (r, w') /\
    settles env0 (fun p d' => exists t, refunds env0 t db0 (uuid_text (count_uuid 1)) p d')
      world0 r w'.
Proof. eexists _, _. split; [apply surjective_pairing|]. by apply refund_atomic; [apply _|apply surjective_pairing]. Defined.

Lemma pagination_complete_witness :
  (t_Amount <$> history env0 db0) = [7; 20; 300] /\
  (fetch_pages env0 5 2 "" world0).1 = Ok (history env0 db0).
Proof.
  split; [by vm_compute|].
  apply (pagination_complete env0 world0 2 5); [apply calm_env0|lia|].
  vm_compute. lia.
Defined.
