(* ===== verification/OutboxRepo.v ===== *)
(** * internal/repository/outbox_repository.go: staging an event in the open transaction *)
From S2P Require Import Prelude Json Database.

Section outbox.
Context {kv : Type} (E : Env).

Definition fresh_in (u : uuid) (l : list OutboxRow) : bool :=
  forallb (fun r => negb (bool_decide (o_id r = u))) l.

(** A new row: the columns not named take their defaults. *)
Definition pending_row (id : uuid) (aggregateType aggregateID eventType : string)
    (payload : json) (t : Z) : OutboxRow :=
  mkOutboxRow id aggregateType aggregateID eventType payload "PENDING" 0 t None.

(** [INSERT INTO outbox_events (...) VALUES ($1, $2, $3, $4, 'PENDING')] *)
Definition insert_outbox (aggregateType aggregateID eventType : string) (payload : json) :
    stmt unit := fun q d =>
  at' ← varchar 50 aggregateType;
  ai ← varchar 100 aggregateID;
  et ← varchar 50 eventType;
  if fresh_in (sq_uuid q) (outbox_events d) then
    mret (tt, set_outbox (outbox_events d ++
                [pending_row (sq_uuid q) at' ai et payload (sq_now q)]) d)
  else Err (Errorf "pq: duplicate key value violates unique constraint outbox_events_pkey").

(** [json.Marshal(payload)] cannot fail on the values the service passes, so
    the payload arrives as JSON. *)
Definition SaveEventTx (aggregateType aggregateID eventType : string) (payload : json) :
    M (World kv) unit :=
  tx_stmt E (insert_outbox aggregateType aggregateID eventType payload).
End outbox.

#[global] Arguments fresh_in : simpl never.

(** [staged t d ... d']: [d'] is [d] with one more pending event. *)
Inductive staged (t : Z) (d : DB) (aggregateType aggregateID eventType : string)
    (payload : json) : DB -> Prop :=
  | staged_intro id :
      Forall (fun r => o_id r <> id) (outbox_events d) ->
      staged t d aggregateType aggregateID eventType payload
        (set_outbox (outbox_events d ++
           [pending_row id aggregateType aggregateID eventType payload t]) d).

(** ** The interface of the service layer *)
Class OutboxRepository (kv : Type) := {
  repo_SaveEventTx : string -> string -> string -> json -> M (World kv) unit }.

Class OutboxRepositoryLaws {kv} (R : OutboxRepository kv) : Prop := {
  law_SaveEventTx : forall aggregateType aggregateID eventType payload w t d,
    w_tx w = TxActive t d ->
    wp (repo_SaveEventTx aggregateType aggregateID eventType payload)
      (fun r w' => frame w w' /\
        (r = Ok tt ->
         exists d', staged t d aggregateType aggregateID eventType payload d' /\
                    w_tx w' = TxActive t d')) w }.

#[export] Instance sqlOutboxRepository (E : Env) (kv : Type) : OutboxRepository kv := {|
  repo_SaveEventTx := SaveEventTx E |}.

Lemma fresh_in_spec u l : fresh_in u l = true <-> Forall (fun r => o_id r <> u) l.
Proof.
  unfold fresh_in. rewrite forallb_forall, Forall_forall. setoid_rewrite list_elem_of_In.
  split; intros H r Hr; specialize (H r Hr); [|by rewrite bool_decide_false].
  by apply negb_true_iff, bool_decide_eq_false in H.
Qed.

Lemma varchar_ok n s s' : varchar n s = Ok s' <-> (char_length s <= n)%nat /\ s' = s.
Proof.
  unfold varchar. destruct (char_length s <=? n)%nat eqn:H.
  - apply Nat.leb_le in H. split; [intros [= ->]|intros [_ ->]]; done.
  - apply Nat.leb_gt in H. split; [done|lia].
Qed.

Lemma insert_outbox_ok aggregateType aggregateID eventType payload q d d' :
  insert_outbox aggregateType aggregateID eventType payload q d = Ok (tt, d') ->
  staged (sq_now q) d aggregateType aggregateID eventType payload d'.
Proof.
  unfold insert_outbox, mbind, res_bind.
  destruct (varchar 50 aggregateType) eqn:H1; [|done]. apply varchar_ok in H1 as [_ ->].
  destruct (varchar 100 aggregateID) eqn:H2; [|done]. apply varchar_ok in H2 as [_ ->].
  destruct (varchar 50 eventType) eqn:H3; [|done]. apply varchar_ok in H3 as [_ ->].
  destruct (fresh_in _ _) eqn:Hf; [|done]. apply fresh_in_spec in Hf.
  intros [= <-]. by constructor.
Qed.

#[export] Instance sqlOutboxRepositoryLaws E kv :
  OutboxRepositoryLaws (sqlOutboxRepository E kv).
Proof.
  split. intros * Ht. unfold repo_SaveEventTx, sqlOutboxRepository, SaveEventTx.
  eapply wp_tx_stmt; [done| |intros; split; [by auto with vaultpay|done]].
  intros f l [] d' Hins. split; [by auto with vaultpay|]. intros _.
  exists d'. split; [|done]. by apply insert_outbox_ok in Hins.
Qed.
