(* ===== verification/PaymentService.v ===== *)
(** * internal/service/payment_service.go: charges and refunds

    [ProcessCharge] debits the wallet, records the payment and stages the outbox event in one
    transaction.  It is defined and proved against the two repository interfaces, and then
    instantiated with the SQL repositories. *)
From S2P Require Import Prelude Json GoTime Database Hex PaymentRepo OutboxRepo.

Section service.
Context {kv : Type} (E : Env) {PR : PaymentRepository kv} {OR : OutboxRepository kv}.

Definition ErrNotPositive : error :=
  Errorf "transaction amount must be strictly positive".

(** The payload of the webhook; [json.Marshal] sorts the keys of a map. *)
Definition webhookPayload (payment : Payment) (now : Z) : json :=
  JObj [("amount", JInt (p_Amount payment)); ("created_at", JInt (Unix now));
        ("currency", JStr (p_Currency payment)); ("id", JStr (p_ID payment));
        ("status", JStr "payment.succeeded"); ("user_id", JStr (p_UserID payment))].

Definition ProcessCharge (userID : string) (amount : Z) (currency : string) :
    M (World kv) Payment :=
  if (amount <=? 0) then throw ErrNotPositive
  else
    _ ← wrap_err "failed to initialize payment transaction context: " repo_BeginTx;
    deferring (fun r => match r with Err _ => Rollback | Ok _ => id end)
      (payment ← repo_CreateTransactionRecordTx userID amount currency;
       now ← Now E;
       _ ← wrap_err "failed to stage transactional outbox event: "
             (repo_SaveEventTx "payment" (p_ID payment) "payment.succeeded"
                (webhookPayload payment now));
       _ ← wrap_err "failed to commit payment transaction chain: " (Commit E);
       mret payment).

Definition ErrEmptyPaymentID : error :=
  Errorf "payment tracking reference ID cannot be empty".

Definition ProcessRefund (paymentID : string) : M (World kv) Payment :=
  if decide (paymentID = "") then throw ErrEmptyPaymentID
  else repo_RefundTransactionRecord paymentID.

(** The whole effect of a successful charge. *)
Definition charge_effect (d : DB) (userID : string) (amount : Z) (currency : string)
    (p : Payment) (d' : DB) : Prop :=
  exists t now d1, charged E t d userID amount currency p d1 /\
    staged t d1 "payment" (p_ID p) "payment.succeeded" (webhookPayload p now) d'.
End service.

(** A flat reference for a charge on which no call is lost: [t] is the start of
    the transaction, [now] the time of the payload, [pid] and [oid] the new identifiers. *)
Definition charge_reference (E : Env) (userID : string) (amount : Z) (currency : string)
    (t now : Z) (pid oid : uuid) (d : DB) : res Payment * DB :=
  let lookup e := Wrapf "failed to look up target user balance inside tx: " e "" in
  if amount <=? 0 then (Err ErrNotPositive, d)
  else match uuid_in E userID with
  | None => (Err (lookup (Errorf ("pq: invalid input syntax for type uuid: " +:+ userID))), d)
  | Some u =>
    match users d !! u with
    | None => (Err (lookup ErrNoRows), d)
    | Some r =>
      if u_balance r <? amount then (Err ErrInsufficient, d)
      else if bool_decide (is_Some (payments d !! pid)) then
        (Err (Wrapf "failed to register permanent payment record log: "
                (Errorf "pq: duplicate key value violates unique constraint payments_pkey") ""), d)
      else if negb (fresh_in oid (outbox_events d)) then
        (Err (Wrapf "failed to stage transactional outbox event: "
           (Errorf "pq: duplicate key value violates unique constraint outbox_events_pkey") ""), d)
      else
        let p := mkPayment (uuid_out E pid) (uuid_out E u) amount currency "succeeded" t
                   zero_time in
        (Ok p, set_outbox (outbox_events d ++
                 [pending_row oid "payment" (uuid_out E pid) "payment.succeeded"
                    (webhookPayload p now) t]) (charge_db u r pid amount currency t d))
    end
  end.

Section facts.
Context {kv : Type} (E : Env) {PR : PaymentRepository kv} {OR : OutboxRepository kv}.
Context `{!PaymentRepositoryLaws E PR, !OutboxRepositoryLaws OR}.
Implicit Types (w : World kv).

Lemma ProcessCharge_wp userID amount currency w :
  wp (ProcessCharge E userID amount currency)
    (settles E (fun p d' => 0 < amount /\
                  charge_effect E (w_db w) userID amount currency p d') w) w.
Proof.
  unfold ProcessCharge. destruct (amount <=? 0) eqn:Hpos; [apply wp_throw, settles_refl|].
  apply Z.leb_gt in Hpos. apply wp_bind, wp_wrap_err.
  eapply wp_mono; [apply law_BeginTx|]. intros [[]|e] w1 [Hf1 Hb];
    [|by apply settles_unopened].
  destruct Hb as [t Ht]. apply wp_deferring, wp_bind.
  eapply wp_mono; [by eapply law_CreateTransactionRecordTx|].
  intros [p|e] w2 [Hf2 Hp]; [|apply settles_err; by etrans].
  destruct (Hp p eq_refl) as (d1 & Hch & Ht2).
  apply wp_bind, wp_Now. intros now. apply wp_bind, wp_wrap_err.
  eapply wp_mono; [by eapply law_SaveEventTx|].
  intros [[]|e] w3 [Hf3 Hs].
  2:{ apply settles_err. do 2 (etrans; [done|]). etrans; [apply frame_tick|done]. }
  destruct (Hs eq_refl) as (d2 & Hst & Ht3).
  assert (frame w w3) as Hf.
  { do 2 (etrans; [done|]). etrans; [apply frame_tick|done]. }
  assert (0 < amount /\ charge_effect E (w_db w) userID amount currency p d2) as Heff.
  { split; [done|]. by exists t, now, d1. }
  apply wp_bind, wp_wrap_err. eapply wp_Commit; [done| |].
  - apply wp_ret. split; [by eauto 8 with vaultpay|]. by split.
  - intros e d' Hd'. split; [by eauto 8 with vaultpay|]. split; [done|].
    destruct Hd' as [->|[Hl ->]]; [left; apply Hf|right; eauto].
Qed.

Lemma ProcessRefund_wp paymentID w :
  wp (ProcessRefund paymentID)
    (settles E (fun p d' => exists t, refunds E t (w_db w) paymentID p d') w) w.
Proof.
  unfold ProcessRefund. case_decide; [apply wp_throw, settles_refl|].
  apply law_RefundTransactionRecord.
Qed.
End facts.

(** Every balance of the table fits its BIGINT column. *)
Definition balances_int64 (d : DB) : Prop :=
  forall u r, users d !! u = Some r -> in_int64 (u_balance r) = true.

Section reference.
Context {kv : Type} (E : Env) `{!UuidLaws E}.
Implicit Types (w : World kv).

Lemma debit_in_int64 b amount :
  in_int64 b = true -> 0 < amount -> amount <= b -> in_int64 (b + - amount) = true.
Proof. rewrite !in_int64_spec. unfold int64_min, int64_max. lia. Qed.

Lemma ProcessCharge_reference userID amount currency w :
  calm E w -> in_int64 amount = true -> balances_int64 (w_db w) ->
  let n := w_ticks w in
  let '(r, w') := @ProcessCharge kv E (sqlPaymentRepository E kv) (sqlOutboxRepository E kv)
                    userID amount currency w in
  (r, w_db w') =
    charge_reference E userID amount currency (server_clock E n)
      (clock E (4 + n)) (gen_random_uuid E (3 + n)) (gen_random_uuid E (5 + n)) (w_db w).
Proof.
  intros Hc Ha Hb. simpl. unfold ProcessCharge, charge_reference.
  destruct (amount <=? 0) eqn:Hpos; [done|]. apply Z.leb_gt in Hpos.
  cbn [repo_BeginTx repo_CreateTransactionRecordTx repo_SaveEventTx
    sqlPaymentRepository sqlOutboxRepository].
  unfold BeginTx, CreateTransactionRecordTx, SaveEventTx. run_calm Hc.
  unfold Sql.balance_for_update, uuid_param.
  destruct (uuid_in E userID) as [u|] eqn:Hu; [|by run_calm Hc].
  run_calm Hc. destruct (users (w_db w) !! u) as [r|] eqn:Hr; [|by run_calm Hc].
  run_calm Hc. destruct (u_balance r <? amount) eqn:Hlt; [by run_calm Hc|].
  apply Z.ltb_ge in Hlt. run_calm Hc.
  unfold Sql.debit_user, Sql.add_balance, uuid_param. rewrite Hu. run_calm Hc. rewrite Hr.
  unfold bigint. rewrite (debit_in_int64 _ _ (Hb u r Hr) Hpos Hlt). run_calm Hc.
  unfold Sql.insert_payment, uuid_param, bigint. rewrite Hu, Ha. run_calm Hc.
  destruct (payments (w_db w) !! _) eqn:Hpid; [by run_calm Hc|].
  run_calm Hc. rewrite lookup_insert_eq. run_calm Hc.
  unfold SaveEventTx. run_calm Hc.
  unfold insert_outbox, varchar. rewrite uuid_out_length.
  change (char_length "payment" <=? 50)%nat with true.
  change (char_length "payment.succeeded" <=? 50)%nat with true. run_calm Hc.
  destruct (fresh_in _ _); by run_calm Hc.
Qed.
End reference.

(** C11: A charge is atomic under any pattern of lost calls and over any repositories that keep
    their contracts: [Ok] with the wallet debited, the payment recorded and its event staged, all
    together; or [Err] with the tables as before, unless the answer of the commit was lost; no
    transaction stays open. *)
Theorem charge_atomic {kv} (E : Env) (PR : PaymentRepository kv) (OR : OutboxRepository kv)
    (userID : string) (amount : Z) (currency : string) (w w' : World kv) (r : res Payment) :
  PaymentRepositoryLaws E PR -> OutboxRepositoryLaws OR ->
  ProcessCharge E userID amount currency w = (r, w') ->
  settles E (fun p d' => 0 < amount /\ charge_effect E (w_db w) userID amount currency p d')
    w r w'.
Proof.
  intros HPR HOR Hrun. eapply (wp_run _ _ _ _ _ (ProcessCharge_wp E userID amount currency w) Hrun).
Qed.

(** C12: On every branch (amount, unknown merchant, insufficient balance, identifier clash,
    success) a charge without lost calls answers and leaves exactly what the flat reference
    says. *)
Theorem charge_matches_reference {kv} (E : Env) `{!UuidLaws E} (userID : string) (amount : Z)
    (currency : string) (w : World kv) :
  calm E w -> in_int64 amount = true -> balances_int64 (w_db w) ->
  let n := w_ticks w in
  let '(r, w') := @ProcessCharge kv E (sqlPaymentRepository E kv) (sqlOutboxRepository E kv)
                    userID amount currency w in
  (r, w_db w') =
    charge_reference E userID amount currency (server_clock E n)
      (clock E (4 + n)) (gen_random_uuid E (3 + n)) (gen_random_uuid E (5 + n)) (w_db w).
Proof. apply (ProcessCharge_reference E). Qed.

(** A charge of 300 on a wallet of 700, on world ticks past the identifiers in use. *)
Definition world1 : World unit := mkWorld db0 db0 TxNone tt [] 10.

Lemma charge_atomic_witness :
  exists p w',
    @ProcessCharge unit env0 (sqlPaymentRepository env0 unit) (sqlOutboxRepository env0 unit)
      (uuid_text u0) 300 "INR" world1 = (Ok p, w') /\
    charge_effect env0 db0 (uuid_text u0) 300 "INR" p (w_db w').
Proof.
  destruct (@ProcessCharge unit env0 (sqlPaymentRepository env0 unit)
    (sqlOutboxRepository env0 unit) (uuid_text u0) 300 "INR" world1) as [r w'] eqn:Hrun.
  pose proof (charge_atomic env0 (sqlPaymentRepository env0 unit)
    (sqlOutboxRepository env0 unit) (uuid_text u0) 300 "INR" world1 w' r _ _ Hrun) as H.
  assert (is_ok r = true) as Hok.
  { change r with ((r, w').1). rewrite <-Hrun. by vm_compute. }
  destruct r as [p|e]; [|done]. exists p, w'. split; [done|]. apply H.
Defined.

Lemma charge_matches_reference_witness :
  let run := @ProcessCharge unit env0 (sqlPaymentRepository env0 unit)
               (sqlOutboxRepository env0 unit) in
  (run (uuid_text u0) 701 "INR" world1).1 = Err ErrInsufficient /\
  u_balance <$> users (w_db (run (uuid_text u0) 300 "INR" world1).2) !! u0 = Some 400.
Proof.
  intros run. assert (balances_int64 (w_db world1)) as Hb.
  { intros u r. simpl. by intros [<- <-]%lookup_singleton_Some. }
  split.
  - pose proof (charge_matches_reference env0 (uuid_text u0) 701 "INR" world1
      (calm_env0 _) eq_refl Hb) as H. cbv zeta in H. unfold run.
    destruct (ProcessCharge _ _ _ _ _) as [r w']. injection H as -> _. by vm_compute.
  - pose proof (charge_matches_reference env0 (uuid_text u0) 300 "INR" world1
      (calm_env0 _) eq_refl Hb) as H. cbv zeta in H. unfold run.
    destruct (ProcessCharge _ _ _ _ _) as [r w']. injection H as _ Hdb.
    cbn [snd]. rewrite Hdb. by vm_compute.
Defined.
