(* ===== verification/OutboxWorker.v ===== *)
(** * internal/service/outbox_worker.go: polling the outbox

    [ProcessPendingEvents] moves up to ten pending events, oldest first, to the task queue and
    marks each [PROCESSED] or [FAILED]; the batch is one transaction on the master. *)
From S2P Require Import Prelude Json Database Hex PaymentRepo OutboxRepo.

(** ** The task queue (an external service)

    [EnqueueContext] adds the task or reports an error; an error may be reported for a task that
    was added (the answer was lost). *)
Class TaskQueue (kv : Type) := { EnqueueContext : Task -> M (World kv) unit }.

Class TaskQueueLaws {kv} (Q : TaskQueue kv) : Prop := {
  law_Enqueue : forall t w,
    wp (EnqueueContext t) (fun r w' =>
      w_db w' = w_db w /\ w_replica w' = w_replica w /\ w_tx w' = w_tx w /\ w_kv w' = w_kv w /\
      (w_ticks w <= w_ticks w')%nat /\
      (w_queue w' = w_queue w ++ [t] \/ is_ok r = false /\ w_queue w' = w_queue w)) w }.

(** A queue that accepts every task it receives. *)
#[export] Instance ext_queue (E : Env) (kv : Type) : TaskQueue kv := {|
  EnqueueContext := fun t => ext E (fun w => (Ok tt, set_queue (w_queue w ++ [t]) w)) |}.

#[export] Instance ext_queue_laws E kv : TaskQueueLaws (ext_queue E kv).
Proof.
  split. intros t w. unfold wp, EnqueueContext, ext_queue, ext.
  destruct (faults E (w_ticks w)) as [[e|e]|]; simpl; split_and!; auto.
Qed.

(** internal/tasks/webhook_tasks.go *)
Definition TypeWebhookRetryEvent : string := "webhook:retry_dispatch".

Section worker.
Context {kv : Type} (E : Env) {TQ : TaskQueue kv}.
Implicit Types (w : World kv).

Record fetchedEvent := mkFetched { ev_ID : string; ev_EventType : string; ev_Payload : json }.

Definition created_asc (r r' : OutboxRow) : Prop := o_created_at r <= o_created_at r'.
#[export] Instance created_asc_dec r r' : Decision (created_asc r r').
Proof. unfold created_asc. apply _. Defined.

Definition is_pending (r : OutboxRow) : bool := bool_decide (o_status r = "PENDING").

(** [SELECT ... WHERE status = 'PENDING' ORDER BY created_at ASC LIMIT 10
     FOR UPDATE SKIP LOCKED] *)
Definition select_pending : stmt (list OutboxRow) := fun q d =>
  let rows := List.filter (fun r => is_pending r && negb (sq_locked q (o_id r)))
                (outbox_events d) in
  mret (take 10 (merge_sort created_asc rows), d).

Definition with_outcome (status : string) (processedAt : option Z) (r : OutboxRow) : OutboxRow :=
  mkOutboxRow (o_id r) (o_aggregate_type r) (o_aggregate_id r) (o_event_type r) (o_payload r)
    status (o_retry_count r) (o_created_at r) processedAt.

Definition mark (u : uuid) (status : string) (processedAt : option Z) (l : list OutboxRow) :
    list OutboxRow :=
  map (fun r => if bool_decide (o_id r = u) then with_outcome status processedAt r else r) l.

(** [UPDATE outbox_events SET status = $1, processed_at = $2 WHERE id = $3] *)
Definition update_event (status : string) (processedAt : option Z) (id : string) :
    stmt unit := fun _ d =>
  s ← varchar 20 status;
  u ← uuid_param E id;
  mret (tt, set_outbox (mark u s processedAt (outbox_events d)) d).

Definition scan_event (r : OutboxRow) : fetchedEvent :=
  mkFetched (uuid_out E (o_id r)) (o_event_type r) (o_payload r).

(** One iteration of the dispatch loop. *)
Definition dispatch (ev : fetchedEvent) : M (World kv) unit :=
  err ← observe (EnqueueContext (mkTask TypeWebhookRetryEvent (ev_Payload ev)));
  now ← Now E;
  let '(status, processedAt) :=
    match err with
    | Ok _ => ("PROCESSED", Some now)
    | Err _ => ("FAILED", None)
    end in
  tx_stmt E (update_event status processedAt (ev_ID ev)).

(** The loop over the batch, left on the first failing update. *)
Fixpoint dispatch_all (evs : list fetchedEvent) : M (World kv) unit :=
  match evs with
  | [] => mret tt
  | ev :: evs' => _ ← dispatch ev; dispatch_all evs'
  end.

(** Every error is logged and ends the poll; the result says whether one did. *)
Definition ProcessPendingEvents : M (World kv) unit :=
  _ ← begin_tx E;
  deferring (fun _ => Rollback)
    (rows ← tx_stmt E select_pending;
     fetched ← tx_rows_loop E rows;
     let events := scan_event <$> fetched in
     if decide (events = []) then mret tt
     else
       _ ← dispatch_all events;
       Commit E).

(** The polling goroutine of [Start] over a number of ticks of its ticker. *)
Fixpoint polls (n : nat) (w : World kv) : World kv :=
  match n with
  | O => w
  | S n' => polls n' (ProcessPendingEvents w).2
  end.
End worker.

#[global] Arguments select_pending : simpl never.

(** ** What a poll may do to a row *)

(** With the tasks [ts] accepted by the queue, [r] is left alone, or a pending
    row is marked; a row marked [PROCESSED] has its task among [ts]. *)
Inductive row_moved (ts : list Task) (r : OutboxRow) : OutboxRow -> Prop :=
  | row_same : row_moved ts r r
  | row_failed t :
      o_status r = "PENDING" -> row_moved ts r (with_outcome "FAILED" t r)
  | row_processed t :
      o_status r = "PENDING" ->
      mkTask TypeWebhookRetryEvent (o_payload r) ∈ ts ->
      row_moved ts r (with_outcome "PROCESSED" t r).

Definition outbox_moved (ts : list Task) (d d' : DB) : Prop :=
  exists l, Forall2 (row_moved ts) (outbox_events d) l /\ d' = set_outbox l d.

Lemma set_outbox_id d : set_outbox (outbox_events d) d = d.
Proof. by destruct d. Qed.

Section poll_facts.
Implicit Types (d : DB) (ts : list Task).

Lemma row_moved_mono ts ts' r r' : row_moved ts r r' -> row_moved (ts ++ ts') r r'.
Proof. intros []; constructor; auto. set_solver. Qed.

Lemma outbox_moved_refl ts d : outbox_moved ts d d.
Proof.
  exists (outbox_events d). rewrite set_outbox_id. split; [|done].
  apply Forall2_same_length_lookup_2; [done|]. intros i r r' H1 H2.
  simplify_eq. constructor.
Qed.

Lemma outbox_moved_mono ts ts' d d' : outbox_moved ts d d' -> outbox_moved (ts ++ ts') d d'.
Proof.
  intros (l & Hl & ->). exists l. split; [|done].
  eapply Forall2_impl; [done|]. eauto using row_moved_mono.
Qed.

(** Marking the row of a pending event keeps the relation: [PROCESSED] only
    when its task was accepted. *)
Lemma outbox_moved_mark ts d d' r0 status t :
  NoDup (o_id <$> outbox_events d) -> r0 ∈ outbox_events d -> o_status r0 = "PENDING" ->
  outbox_moved ts d d' ->
  status = "FAILED" \/
    status = "PROCESSED" /\ mkTask TypeWebhookRetryEvent (o_payload r0) ∈ ts ->
  outbox_moved ts d (set_outbox (mark (o_id r0) status t (outbox_events d')) d').
Proof.
  intros Hnd Hin Hp (l & Hl & ->) Hs. exists (mark (o_id r0) status t l).
  split; [|by destruct d]. simpl. unfold mark.
  apply Forall2_fmap_r, Forall2_same_length_lookup_2; [by eapply Forall2_length|].
  intros i r r' Hr Hr'. pose proof (Forall2_lookup_lr _ _ _ _ _ _ Hl Hr Hr') as Hm.
  assert (o_id r' = o_id r) as Hid by by destruct Hm. simpl. rewrite Hid.
  case_bool_decide as Heq; [|done].
  assert (r = r0) as ->.
  { apply list_elem_of_lookup in Hin as [j Hj]. assert (i = j) as ->; [|congruence].
    apply (NoDup_lookup (o_id <$> outbox_events d) i j (o_id r0)); [done| |];
      rewrite list_lookup_fmap; [rewrite Hr|rewrite Hj]; simpl; congruence. }
  replace (with_outcome status t r') with (with_outcome status t r0) by by destruct Hm.
  destruct Hs as [->|[-> Ht]]; by constructor.
Qed.
End poll_facts.

Section poll.
Context {kv : Type} (E : Env) `{!UuidLaws E} {TQ : TaskQueue kv} `{!TaskQueueLaws TQ}.
Implicit Types (w : World kv).

(** Between [w] and [w'] the queue got at most [n] tasks and the outbox rows
    moved accordingly. *)
Definition enqueued_since w w' (n : nat) : Prop :=
  w_replica w' = w_replica w /\ w_kv w' = w_kv w /\
  exists ts, w_queue w' = w_queue w ++ ts /\ (length ts <= n)%nat /\
    outbox_moved ts (w_db w) (w_db w').

Lemma update_event_ok status t u q d d' :
  update_event E status t (uuid_out E u) q d = Ok (tt, d') ->
  d' = set_outbox (mark u status t (outbox_events d)) d.
Proof.
  unfold update_event, mbind, res_bind, mret, res_ret.
  destruct (varchar 20 status) eqn:Hv; [|done]. apply varchar_ok in Hv as [_ ->].
  unfold uuid_param. rewrite uuid_in_out. by intros [= <-].
Qed.

(** The state of the batch inside its transaction, [n] events dispatched at most. *)
Record batch (w0 : World kv) (n : nat) (ok : bool) (w : World kv) : Prop := mkBatch {
  batch_db : w_db w = w_db w0;
  batch_replica : w_replica w = w_replica w0;
  batch_kv : w_kv w = w_kv w0;
  batch_ticks : (w_ticks w0 <= w_ticks w)%nat;
  batch_queue : exists ts, w_queue w = w_queue w0 ++ ts /\ (length ts <= n)%nat /\
    (ok = true -> exists t d, w_tx w = TxActive t d /\ outbox_moved ts (w_db w0) d) }.

Lemma batch_stop w0 n w : batch w0 n true w -> batch w0 n false w.
Proof.
  intros [? ? ? ? (ts & ? & ? & _)]. constructor; [done..|].
  exists ts. split_and!; [done..|discriminate].
Qed.

Lemma batch_fail w0 n b w : batch w0 n b w -> batch w0 n false (set_tx TxFailed (tick w)).
Proof.
  intros [? ? ? ? (ts & ? & ? & _)]. constructor; simpl; [done..|lia|].
  exists ts. split_and!; [done..|discriminate].
Qed.

Lemma dispatch_wp w0 n r0 w :
  NoDup (o_id <$> outbox_events (w_db w0)) ->
  r0 ∈ outbox_events (w_db w0) -> o_status r0 = "PENDING" ->
  batch w0 n true w ->
  wp (dispatch E (scan_event E r0)) (fun r w' => batch w0 (S n) (is_ok r) w') w.
Proof.
  intros Hnd Hin Hp [Hdb Hrep Hkv Htk (ts & Hq & Hlen & Htx)].
  destruct (Htx eq_refl) as (t & d & Ht & Hm). unfold dispatch.
  apply wp_bind, wp_observe. eapply wp_mono; [apply law_Enqueue|].
  intros r w1 (Hdb1 & Hrep1 & Htx1 & Hkv1 & Htk1 & Hq1).
  apply wp_bind, wp_Now. intros now.
  assert (exists ts1, w_queue w1 = w_queue w0 ++ ts1 /\ (length ts1 <= S n)%nat /\
    outbox_moved ts1 (w_db w0) d /\
    (is_ok r = true -> mkTask TypeWebhookRetryEvent (o_payload r0) ∈ ts1))
    as (ts1 & Hq2 & Hlen2 & Hm2 & Hacc).
  { destruct Hq1 as [Hq1|[Hr Hq1]].
    - exists (ts ++ [mkTask TypeWebhookRetryEvent (o_payload r0)]).
      rewrite Hq1, Hq, length_app. simpl. rewrite <-app_assoc.
      split_and!; [done|lia|by apply outbox_moved_mono|set_solver].
    - exists ts. rewrite Hq1. split_and!; [done|lia|done|congruence]. }
  assert (forall ok, batch w0 (S n) false (set_tx TxFailed (tick (tick w1))) /\
    forall d', (ok = true -> outbox_moved ts1 (w_db w0) d') ->
      batch w0 (S n) ok (set_tx (TxActive t d') (tick (tick w1)))) as Hnext.
  { intros ok. split; [|intros d' Hd'];
      (constructor; simpl; [congruence..|lia|]); exists ts1; (split_and!; [done..|]);
      [discriminate|]. intros Hok. eauto. }
  destruct r as [[]|e]; simpl; (eapply (wp_tx_stmt _ _ _ _ t d);
    [simpl; congruence| |intros e'; apply (Hnext true)]);
    intros f l [] d' Hup%update_event_ok; apply (Hnext true); intros _; subst d';
    apply outbox_moved_mark; auto.
Qed.

Lemma dispatch_all_wp w0 rows n w :
  NoDup (o_id <$> outbox_events (w_db w0)) ->
  Forall (fun r => r ∈ outbox_events (w_db w0) /\ o_status r = "PENDING") rows ->
  batch w0 n true w ->
  wp (dispatch_all E (scan_event E <$> rows))
    (fun r w' => batch w0 (length rows + n) (is_ok r) w') w.
Proof.
  intros Hnd Hrows. revert n w. induction Hrows as [|r0 rows [Hin Hp] _ IH];
    intros n w Hb; simpl; [by apply wp_ret|].
  apply wp_bind. eapply wp_mono; [by apply (dispatch_wp w0 n r0)|].
  intros [[]|e] w' Hb'; simpl in Hb'.
  - eapply wp_mono; [by apply IH|]. intros r w2. by rewrite Nat.add_succ_r.
  - destruct Hb' as [? ? ? ? (ts & ? & ? & _)]. constructor; [done..|].
    exists ts. split_and!; [done|lia|discriminate].
Qed.

(** What the query returns. *)
Lemma select_pending_ok q d rows d' :
  select_pending q d = Ok (rows, d') ->
  d' = d /\ (length rows <= 10)%nat /\
  Forall (fun r => r ∈ outbox_events d /\ o_status r = "PENDING") rows.
Proof.
  unfold select_pending. intros [= <- <-]. split_and!; [done|rewrite length_take; lia|].
  apply Forall_take. rewrite Forall_forall. intros r.
  rewrite (merge_sort_Permutation created_asc), list_elem_of_In, filter_In, andb_true_iff.
  intros [Hin [Hp _]]. split; [by apply list_elem_of_In|].
  unfold is_pending in Hp. by apply bool_decide_eq_true in Hp.
Qed.

Lemma batch_settle w0 n ok w : batch w0 n ok w -> enqueued_since w0 (Rollback w) n.
Proof.
  intros [Hdb ? ? ? (ts & Hq & Hl & _)]. split_and!; [done..|].
  exists ts. simpl. rewrite Hdb. split_and!; [done..|apply outbox_moved_refl].
Qed.

Lemma enqueued_frame w w' n : frame w w' -> enqueued_since w (Rollback w') n.
Proof.
  intros []. split_and!; [done..|]. exists []. simpl. rewrite app_nil_r.
  split_and!; [done|lia|]. replace (w_db w') with (w_db w). apply outbox_moved_refl.
Qed.

Lemma enqueued_mono w w' n m :
  (n <= m)%nat -> enqueued_since w w' n -> enqueued_since w w' m.
Proof. intros ? (? & ? & ts & ? & ? & ?). split_and!; [done..|]. exists ts. auto with lia. Qed.

Lemma batch_start w w1 ok :
  frame w w1 -> (ok = true -> exists t, w_tx w1 = TxActive t (w_db w)) -> batch w 0 ok w1.
Proof.
  intros [] Hok. constructor; [done..|]. exists []. rewrite app_nil_r.
  split_and!; [done..|]. intros [t Ht]%Hok. exists t, (w_db w). split; [done|].
  apply outbox_moved_refl.
Qed.

(** On a lost transaction the first event may still reach the queue. *)
Lemma dispatch_failed w0 n ev w :
  batch w0 n false w -> w_tx w = TxFailed ->
  wp (dispatch E ev) (fun r w' => is_ok r = false /\ batch w0 (S n) false w') w.
Proof.
  intros [Hdb Hrep Hkv Htk (ts & Hq & Hlen & _)] Htx. unfold dispatch.
  apply wp_bind, wp_observe. eapply wp_mono; [apply law_Enqueue|].
  intros r w1 (Hdb1 & Hrep1 & Htx1 & Hkv1 & Htk1 & Hq1).
  apply wp_bind, wp_Now. intros now.
  assert (batch w0 (S n) false (tick (tick w1))) as Hb.
  { constructor; simpl; [congruence..|lia|]. destruct Hq1 as [Hq1|[_ Hq1]].
    - exists (ts ++ [mkTask TypeWebhookRetryEvent (ev_Payload ev)]).
      rewrite Hq1, Hq, length_app. simpl. rewrite <-app_assoc.
      split_and!; [done|lia|done].
    - exists ts. rewrite Hq1. split_and!; [done|lia|done]. }
  destruct r; simpl; unfold wp, tx_stmt; simpl; rewrite Htx1, Htx; by split.
Qed.

Lemma prefix_batch (rows fetched : list OutboxRow) (P : OutboxRow -> Prop) n :
  fetched `prefix_of` rows -> (length rows <= n)%nat -> Forall P rows ->
  (length fetched <= n)%nat /\ Forall P fetched.
Proof.
  intros [k ->]. rewrite length_app, Forall_app. intros ? [??]. split; [lia|done].
Qed.

Lemma ProcessPendingEvents_wp w :
  NoDup (o_id <$> outbox_events (w_db w)) ->
  wp (ProcessPendingEvents E) (fun _ w' => enqueued_since w w' 10 /\
    (w_tx w = TxNone -> w_tx w' = TxNone)) w.
Proof.
  intros Hnd. unfold ProcessPendingEvents. apply wp_bind, wp_begin_tx; [intros t|].
  2:{ intros e. split; [|done]. apply (enqueued_frame w (tick w)), frame_tick. }
  apply wp_deferring, wp_bind. eapply wp_tx_stmt; [done| |].
  2:{ intros e. split; [|done]. apply enqueued_frame. auto with vaultpay. }
  intros f l rows d' (-> & Hlen & Hrows)%select_pending_ok.
  apply wp_bind, wp_tx_rows_loop. intros fetched w1 Hpre Hf1 Htx1.
  destruct (prefix_batch _ _ _ _ Hpre Hlen Hrows) as [Hlen1 Hrows1].
  assert (frame w w1) as Hf by (etrans; [|done]; auto with vaultpay).
  case_decide as Hnil; [apply wp_ret; by split; [apply enqueued_frame|]|].
  destruct Htx1 as [Htx1|Htx1]; simpl in Htx1.
  - assert (batch w 0 true w1) as Hb by (apply batch_start; eauto).
    apply wp_bind. eapply wp_mono; [by apply (dispatch_all_wp w)|].
    intros [[]|e] w2 Hb2; simpl in Hb2; rewrite Nat.add_0_r in Hb2.
    + destruct Hb2 as [Hdb2 ? ? ? (ts & Hq & Hts & Htx2)].
      destruct (Htx2 eq_refl) as (t2 & d2 & Htx & Hm).
      eapply wp_Commit; [done| |].
      * split; [|done]. split_and!; [done..|]. exists ts. split_and!; [done|simpl; lia|done].
      * intros e d' Hd'. split; [|done]. split_and!; [done..|]. exists ts.
        split_and!; [done|simpl; lia|]. destruct Hd' as [->|[_ ->]]; [|done].
        simpl. rewrite Hdb2. apply outbox_moved_refl.
    + split; [|done]. eapply enqueued_mono, batch_settle; [|done]. lia.
  - apply wp_bind. destruct fetched as [|r0 fetched]; [done|]. simpl.
    apply wp_bind. eapply wp_mono; [apply (dispatch_failed w 0)|].
    + by apply batch_start.
    + done.
    + intros [[]|e] w2 [Hr Hb2]; [done|]. split; [|done].
      eapply enqueued_mono, batch_settle; [|done]. lia.
Qed.
End poll.

(** ** Exact behaviour when no call is lost *)
Definition pending_rows (d : DB) : list OutboxRow := List.filter is_pending (outbox_events d).
Definition task_of (r : OutboxRow) : Task := mkTask TypeWebhookRetryEvent (o_payload r).

(** The batch of a poll when no other worker holds a row. *)
Definition next_batch (d : DB) : list OutboxRow :=
  take 10 (merge_sort created_asc (pending_rows d)).

Section marks.
Implicit Types (l : list OutboxRow).

Lemma mark_ids u s t l : o_id <$> mark u s t l = o_id <$> l.
Proof.
  unfold mark. induction l as [|r l IH]; simpl; [done|]. f_equal; [|done].
  by case_bool_decide.
Qed.

Lemma mark_notin u s t l : u ∉ o_id <$> l -> mark u s t l = l.
Proof.
  unfold mark. induction l as [|r l IH]; simpl; [done|].
  rewrite not_elem_of_cons. intros [Hr Hl]. rewrite bool_decide_false by congruence.
  by rewrite IH.
Qed.

Lemma mark_elem r r' s t l :
  r' ∈ l -> o_id r' <> o_id r -> r' ∈ mark (o_id r) s t l.
Proof.
  intros Hin Hne. unfold mark. apply list_elem_of_fmap. exists r'.
  by rewrite bool_decide_false by done.
Qed.

(** Marking one pending row processed takes exactly that row off the pending ones. *)
Lemma pending_mark r t l :
  NoDup (o_id <$> l) -> r ∈ l -> o_status r = "PENDING" ->
  List.filter is_pending l ≡ₚ
    r :: List.filter is_pending (mark (o_id r) "PROCESSED" t l).
Proof.
  induction l as [|r' l IH]; simpl; [set_solver|].
  intros [Hr' Hnd]%NoDup_cons [<-|Hin]%elem_of_cons Hp.
  - rewrite bool_decide_true by done. unfold is_pending at 1 2. simpl. rewrite Hp.
    fold (mark (o_id r) "PROCESSED" t l). by rewrite mark_notin.
  - rewrite bool_decide_false.
    2:{ intros Heq. apply Hr'. rewrite Heq. by apply list_elem_of_fmap_2. }
    fold (mark (o_id r) "PROCESSED" t l).
    destruct (is_pending r'); rewrite (IH Hnd Hin Hp); [apply perm_swap|done].
Qed.

Lemma next_batch_perm d : next_batch d ++ drop 10 (merge_sort created_asc (pending_rows d))
  ≡ₚ pending_rows d.
Proof. unfold next_batch. rewrite take_drop. apply merge_sort_Permutation. Qed.

Lemma next_batch_pending d :
  Forall (fun r => r ∈ outbox_events d /\ o_status r = "PENDING") (next_batch d).
Proof.
  rewrite Forall_forall. intros r Hr.
  assert (r ∈ pending_rows d) as Hin by (rewrite <-next_batch_perm; set_solver).
  apply list_elem_of_In, filter_In in Hin as [Hin Hp]. apply list_elem_of_In in Hin.
  unfold is_pending in Hp. by apply bool_decide_eq_true in Hp.
Qed.

Lemma NoDup_filter_ids l (f : OutboxRow -> bool) :
  NoDup (o_id <$> l) -> NoDup (o_id <$> List.filter f l).
Proof.
  induction l as [|r l IH]; simpl; [done|]. intros [Hr Hnd]%NoDup_cons.
  destruct (f r); simpl; [|by apply IH]. apply NoDup_cons. split; [|by apply IH].
  intros Hin. apply Hr. apply list_elem_of_fmap in Hin as (r' & -> & Hin).
  apply list_elem_of_In, filter_In in Hin as [Hin _].
  apply list_elem_of_fmap_2. by apply list_elem_of_In.
Qed.

Lemma next_batch_NoDup d :
  NoDup (o_id <$> outbox_events d) -> NoDup (o_id <$> next_batch d).
Proof.
  intros Hnd. pose proof (NoDup_filter_ids _ is_pending Hnd) as H.
  fold (pending_rows d) in H. rewrite <-next_batch_perm, fmap_app in H.
  by apply NoDup_app in H as (? & _ & _).
Qed.
End marks.

Section calm_poll.
Context {kv : Type} (E : Env) `{!UuidLaws E}.
Context (unlocked : forall n u, row_locked E n u = false).
Implicit Types (w : World kv).
#[local] Instance reliable_queue : TaskQueue kv := ext_queue E kv.

(** [w'] is [w] with the transaction's tables now [d] and the tasks [ts] queued. *)
Record advanced w w' (t : Z) (d : DB) (ts : list Task) : Prop := mkAdvanced {
  adv_calm : calm E w';
  adv_tx : w_tx w' = TxActive t d;
  adv_db : w_db w' = w_db w;
  adv_queue : w_queue w' = w_queue w ++ ts }.

Lemma advanced_trans w1 w2 w3 t d2 d3 ts ts' :
  advanced w1 w2 t d2 ts -> advanced w2 w3 t d3 ts' -> advanced w1 w3 t d3 (ts ++ ts').
Proof.
  intros [] [??? Hq]. constructor; [done..|congruence|].
  rewrite Hq, app_assoc. congruence.
Qed.

Lemma dispatch_calm w t d r :
  calm E w -> w_tx w = TxActive t d ->
  exists w' now, dispatch E (scan_event E r) w = (Ok tt, w') /\
    advanced w w' t (set_outbox (mark (o_id r) "PROCESSED" now (outbox_events d)) d)
      [task_of r].
Proof.
  intros Hc Ht. eexists _, (Some (clock E (S (w_ticks w)))).
  unfold dispatch, EnqueueContext, reliable_queue, ext_queue, ext. run_calm Hc. rewrite Ht. run_calm Hc.
  unfold update_event, varchar, uuid_param. rewrite uuid_in_out.
  change (char_length "PROCESSED" <=? 20)%nat with true. cbn.
  split; [done|]. constructor; simpl; [|done..].
  intros n Hn. apply Hc. simpl in Hn. lia.
Qed.

Lemma dispatch_all_calm rows w t d :
  calm E w -> w_tx w = TxActive t d ->
  NoDup (o_id <$> outbox_events d) -> NoDup (o_id <$> rows) ->
  Forall (fun r => r ∈ outbox_events d /\ o_status r = "PENDING") rows ->
  exists w' d', dispatch_all E (scan_event E <$> rows) w = (Ok tt, w') /\
    advanced w w' t d' (task_of <$> rows) /\ NoDup (o_id <$> outbox_events d') /\
    pending_rows d ≡ₚ rows ++ pending_rows d'.
Proof.
  revert w d. induction rows as [|r rows IH]; intros w d Hc Ht Hnd Hrows Hall; simpl.
  { exists w, d. split_and!; [done| |done..]. constructor; [done..|]. by rewrite app_nil_r. }
  apply Forall_cons in Hall as [[Hin Hp] Hall]. apply NoDup_cons in Hrows as [Hr Hrows].
  destruct (dispatch_calm w t d r Hc Ht) as (w1 & now & Hd & Hadv).
  destruct (IH w1 _ (adv_calm _ _ _ _ _ Hadv) (adv_tx _ _ _ _ _ Hadv))
    as (w2 & d2 & Hrun & Hadv2 & Hnd2 & Hperm); simpl.
  - by rewrite mark_ids.
  - done.
  - eapply Forall_impl; [apply Forall_and; split; [exact Hall|]|].
    { apply (Forall_forall (fun r' => o_id r' <> o_id r) rows). intros r' Hr' Heq.
      apply Hr. rewrite <-Heq. by apply list_elem_of_fmap_2. }
    intros r' [[??] ?]. split; [by apply mark_elem|done].
  - exists w2, d2. unfold mbind, M_bind. rewrite Hd. cbv beta iota.
    split_and!; [exact Hrun|by apply (advanced_trans _ _ _ _ _ _ [task_of r] _ Hadv)|done|].
    etrans; [by apply (pending_mark r now)|]. by rewrite <-Hperm.
Qed.

Lemma select_pending_unlocked q d :
  (forall u, sq_locked q u = false) -> select_pending q d = Ok (next_batch d, d).
Proof.
  intros Hl. unfold select_pending, next_batch, pending_rows, mret, res_ret.
  do 4 f_equal. induction (outbox_events d) as [|r l IH]; simpl; [done|].
  rewrite Hl, andb_true_r. by rewrite IH.
Qed.

Lemma ProcessPendingEvents_calm w :
  calm E w -> w_tx w = TxNone -> NoDup (o_id <$> outbox_events (w_db w)) ->
  exists w', ProcessPendingEvents E w = (Ok tt, w') /\ calm E w' /\ w_tx w' = TxNone /\
    w_queue w' = w_queue w ++ (task_of <$> next_batch (w_db w)) /\
    NoDup (o_id <$> outbox_events (w_db w')) /\
    pending_rows (w_db w) ≡ₚ next_batch (w_db w) ++ pending_rows (w_db w').
Proof.
  intros Hc Htx Hnd. unfold ProcessPendingEvents. run_calm Hc.
  rewrite select_pending_unlocked by (simpl; auto). cbn.
  set (w1 := set_tx _ _).
  destruct (tx_rows_loop_calm E (next_batch (w_db w)) w1) as (w2 & Hrows & Hf & Htx2).
  { intros n Hn. apply Hc. simpl in Hn. lia. }
  rewrite Hrows. cbn.
  assert (calm E w2) as Hc2.
  { intros n Hn. apply Hc. pose proof (frame_ticks _ _ Hf). simpl in *. lia. }
  case_decide as Hnil.
  - exists (Rollback w2). apply fmap_nil_inv in Hnil. rewrite Hnil. simpl.
    rewrite (frame_db _ _ Hf), (frame_queue _ _ Hf), app_nil_r. by split_and!.
  - destruct (dispatch_all_calm (next_batch (w_db w)) w2 _ _ Hc2 Htx2 Hnd)
      as (w3 & d3 & Hrun & [Hc3 Htx3 Hdb3 Hq3] & Hnd3 & Hperm).
    { by apply next_batch_NoDup. }
    { apply next_batch_pending. }
    rewrite Hrun. cbn. rewrite Htx3, (calm_now _ _ Hc3). cbn.
    eexists. split; [done|]. simpl. rewrite Hq3, (frame_queue _ _ Hf).
    split_and!; [|done..]. intros n Hn. apply Hc3. simpl in Hn. lia.
Qed.

Lemma next_batch_length d : length (next_batch d) = Nat.min 10 (length (pending_rows d)).
Proof.
  unfold next_batch. rewrite length_take.
  by rewrite (Permutation_length (merge_sort_Permutation created_asc (pending_rows d))).
Qed.

Lemma polls_drain_aux n w :
  calm E w -> w_tx w = TxNone -> NoDup (o_id <$> outbox_events (w_db w)) ->
  (length (pending_rows (w_db w)) <= 10 * n)%nat ->
  pending_rows (w_db (polls E n w)) = [] /\
  exists ts, w_queue (polls E n w) = w_queue w ++ ts /\
    ts ≡ₚ task_of <$> pending_rows (w_db w).
Proof.
  revert w. induction n as [|n IH]; intros w Hc Htx Hnd Hlen; simpl.
  { destruct (pending_rows (w_db w)); simpl in Hlen; [|lia]. split; [done|].
    exists []. by rewrite app_nil_r. }
  destruct (ProcessPendingEvents_calm w Hc Htx Hnd)
    as (w1 & Hrun & Hc1 & Htx1 & Hq1 & Hnd1 & Hperm).
  rewrite Hrun. simpl. destruct (IH w1 Hc1 Htx1 Hnd1) as [Hnil (ts & Hq & Hts)].
  { apply Permutation_length in Hperm. rewrite length_app, next_batch_length in Hperm. lia. }
  split; [done|]. exists ((task_of <$> next_batch (w_db w)) ++ ts).
  rewrite Hq, Hq1, app_assoc. split; [done|].
  by rewrite Hts, Hperm, fmap_app.
Qed.
End calm_poll.

Lemma outbox_moved_fmap {B} (f : OutboxRow -> B) ts l l' :
  (forall r s t, f (with_outcome s t r) = f r) ->
  Forall2 (row_moved ts) l l' -> f <$> l' = f <$> l.
Proof.
  intros Hf. induction 1 as [|r r' l l' Hr _ IH]; [done|]. simpl. f_equal; [|done].
  by destruct Hr.
Qed.

(** C17: Whatever calls are lost, a poll enqueues at most ten tasks, touches no other table, and
    moves rows only from [PENDING]: to [PROCESSED] only when the queue received the row's task, to
    [FAILED] otherwise. *)
Theorem poll_never_drops_silently {kv} (E : Env) `{!UuidLaws E} (TQ : TaskQueue kv)
    (w : World kv) :
  TaskQueueLaws TQ -> NoDup (o_id <$> outbox_events (w_db w)) ->
  let w' := (ProcessPendingEvents E w).2 in
  exists ts, w_queue w' = w_queue w ++ ts /\ (length ts <= 10)%nat /\
    outbox_moved ts (w_db w) (w_db w').
Proof.
  intros HTQ Hnd. destruct (ProcessPendingEvents_wp E w Hnd) as [(_ & _ & H) _]. exact H.
Qed.

(** The outbox drains: when no call is lost and no other worker holds a row, enough polls
    leave no pending event, and the queue has received exactly one task for each. *)
Theorem polls_drain {kv} (E : Env) `{!UuidLaws E} (n : nat) (w : World kv) :
  (forall k u, row_locked E k u = false) -> calm E w -> w_tx w = TxNone ->
  NoDup (o_id <$> outbox_events (w_db w)) ->
  (length (pending_rows (w_db w)) <= 10 * n)%nat ->
  let w' := @polls kv E (ext_queue E kv) n w in
  pending_rows (w_db w') = [] /\
  exists ts, w_queue w' = w_queue w ++ ts /\ ts ≡ₚ task_of <$> pending_rows (w_db w).
Proof. intros. by apply polls_drain_aux. Qed.

(** A poll takes the oldest pending events first, ten at most, and their tasks reach the
    queue in that order. *)
Theorem poll_oldest_first {kv} (E : Env) `{!UuidLaws E} (w : World kv) :
  (forall k u, row_locked E k u = false) -> calm E w -> w_tx w = TxNone ->
  NoDup (o_id <$> outbox_events (w_db w)) ->
  let w' := (@ProcessPendingEvents kv E (ext_queue E kv) w).2 in
  exists batch rest, batch ++ rest ≡ₚ pending_rows (w_db w) /\
    StronglySorted created_asc (batch ++ rest) /\
    length batch = Nat.min 10 (length (pending_rows (w_db w))) /\
    w_queue w' = w_queue w ++ (task_of <$> batch) /\
    pending_rows (w_db w') ≡ₚ rest.
Proof.
  intros Hl Hc Htx Hnd. destruct (ProcessPendingEvents_calm E Hl w Hc Htx Hnd)
    as (w1 & Hrun & _ & _ & Hq & _ & Hperm).
  cbv zeta. unfold reliable_queue in Hrun. rewrite Hrun. simpl.
  exists (next_batch (w_db w)), (drop 10 (merge_sort created_asc (pending_rows (w_db w)))).
  split_and!; [apply next_batch_perm| |apply next_batch_length|done|].
  - unfold next_batch. rewrite take_drop. apply StronglySorted_merge_sort.
    + intros x y z. unfold created_asc. lia.
    + intros x y. unfold created_asc. lia.
  - rewrite <-next_batch_perm in Hperm. by apply Permutation_app_inv_l in Hperm.
Qed.

(** An event whose enqueue failed is not retried: no poll, with or without lost calls,
    changes a row that is not pending, so a [FAILED] row stays [FAILED]. *)
Theorem failed_events_stay_failed {kv} (E : Env) `{!UuidLaws E} (TQ : TaskQueue kv)
    (w : World kv) (n : nat) (r : OutboxRow) :
  TaskQueueLaws TQ -> NoDup (o_id <$> outbox_events (w_db w)) ->
  r ∈ outbox_events (w_db w) -> o_status r = "FAILED" ->
  r ∈ outbox_events (w_db (polls E n w)).
Proof.
  intros HTQ. revert w. induction n as [|n IH]; intros w Hnd Hin Hst; [done|]. simpl.
  destruct (ProcessPendingEvents_wp E w Hnd) as [(_ & _ & ts & _ & _ & Hm) _].
  destruct (ProcessPendingEvents E w) as [x w1]. simpl in *. destruct Hm as (l & Hl & Hdb).
  apply IH; rewrite ?Hdb; simpl; [|clear IH|done].
  - by rewrite (outbox_moved_fmap o_id ts _ _ ltac:(done) Hl).
  - apply list_elem_of_lookup in Hin as [i Hi].
    destruct (Forall2_lookup_l _ _ _ _ _ Hl Hi) as (r' & Hi' & Hr).
    destruct Hr as [|t Hp|t Hp _]; [by eapply list_elem_of_lookup_2|congruence..].
Qed.

(** ** Witnesses: one processed, one failed and two pending rows *)
Definition row_at (n : nat) (status : string) (t : Z) : OutboxRow :=
  mkOutboxRow (count_uuid n) "payment" (uuid_text (count_uuid n)) "payment.succeeded"
    (JInt (Z.of_nat n)) status 0 t None.
Definition outbox0 : list OutboxRow :=
  [row_at 1 "PENDING" 9; row_at 2 "PROCESSED" 1; row_at 3 "PENDING" 4; row_at 4 "FAILED" 2].
Definition outbox_world : World unit :=
  mkWorld (set_outbox outbox0 empty_db) empty_db TxNone tt [] 0.

Lemma outbox0_NoDup : NoDup (o_id <$> outbox_events (w_db outbox_world)).
Proof. apply (bool_decide_unpack _). by vm_compute. Qed.

Lemma poll_never_drops_silently_witness :
  let w' := (@ProcessPendingEvents unit env0 (ext_queue env0 unit) outbox_world).2 in
  exists ts, w_queue w' = [] ++ ts /\ (length ts <= 10)%nat /\
    outbox_moved ts (w_db outbox_world) (w_db w').
Proof. apply (poll_never_drops_silently env0 _ outbox_world _ outbox0_NoDup). Defined.

Lemma polls_drain_witness :
  let w' := @polls unit env0 (ext_queue env0 unit) 1 outbox_world in
  pending_rows (w_db w') = [] /\ length (w_queue w') = 2%nat.
Proof.
  split; [|by vm_compute].
  apply (polls_drain env0 1 outbox_world); [done|apply calm_env0|done|apply outbox0_NoDup|].
  vm_compute. lia.
Defined.

Lemma poll_oldest_first_witness :
  let w' := (@ProcessPendingEvents unit env0 (ext_queue env0 unit) outbox_world).2 in
  w_queue w' = task_of <$> [row_at 3 "PENDING" 4; row_at 1 "PENDING" 9] /\
  exists batch, length batch = 2%nat /\ w_queue w' = task_of <$> batch.
Proof.
  intros w'. split; [by vm_compute|].
  destruct (poll_oldest_first env0 outbox_world ltac:(done) (calm_env0 _) eq_refl outbox0_NoDup)
    as (batch & rest & _ & _ & Hlen & Hq & _).
  exists batch. split; [|exact Hq]. rewrite Hlen. by vm_compute.
Defined.

Lemma failed_events_stay_failed_witness :
  row_at 4 "FAILED" 2 ∈ outbox_events
    (w_db (@polls unit env0 (ext_queue env0 unit) 3 outbox_world)).
Proof.
  apply (failed_events_stay_failed env0 _ outbox_world 3 _ _ outbox0_NoDup); [|done].
  simpl. unfold outbox0. set_solver.
Defined.
