(* ===== verification/UserRepo.v ===== *)
(** * internal/repository/user_repo.go and key_repo.go: merchants and their API keys *)
From S2P Require Import Prelude Json Database PaymentRepo.

Record User := mkUser { us_ID : string; us_Email : string; us_Balance : Z; us_Currency : string }.

Section users.
Context {kv : Type} (E : Env).

Definition email_taken (email : string) (d : DB) : bool :=
  bool_decide (map_Exists (fun _ r => u_email r = email) (users d)).

(** [INSERT INTO users (email, balance, currency) VALUES ($1, $2, 'INR')
     RETURNING id, email, balance, currency] *)
Definition insert_user (email : string) (initialBalance : Z) : stmt User := fun q d =>
  b ← bigint initialBalance;
  if bool_decide (is_Some (users d !! sq_uuid q)) then
    Err (Errorf "pq: duplicate key value violates unique constraint users_pkey")
  else if email_taken email d then
    Err (Errorf "pq: duplicate key value violates unique constraint users_email_key")
  else
    mret (mkUser (uuid_out E (sq_uuid q)) email b "INR",
          set_users (<[sq_uuid q := mkUserRow email b "INR" (sq_now q)]> (users d)) d).

Definition CreateUser (email : string) (initialBalance : Z) : M (World kv) User :=
  wrap_err "failed to execute insert user statement: "
    (master_stmt E (insert_user email initialBalance)).

Definition hash_taken (hash : string) (d : DB) : bool :=
  existsb (fun r => bool_decide (k_hash r = hash)) (api_keys d).

(** [INSERT INTO api_keys (user_id, key_hash, label) VALUES ($1, $2, $3)] *)
Definition insert_key (userID hash label : string) : stmt unit := fun q d =>
  u ← uuid_param E userID;
  if existsb (fun r => bool_decide (k_id r = sq_uuid q)) (api_keys d) then
    Err (Errorf "pq: duplicate key value violates unique constraint api_keys_pkey")
  else if hash_taken hash d then
    Err (Errorf "pq: duplicate key value violates unique constraint api_keys_key_hash_key")
  else match users d !! u with
  | None => Err (Errorf "pq: insert on table api_keys violates foreign key constraint")
  | Some _ =>
      mret (tt, set_api_keys (api_keys d ++
                  [mkKeyRow (sq_uuid q) u hash label (sq_now q)]) d)
  end.

Definition InsertKey (userID hash label : string) : M (World kv) unit :=
  wrap_err "failed to write key hash to repository: "
    (master_stmt E (insert_key userID hash label)).
End users.

(** What a successful [CreateUser] does. *)
Inductive user_created (d : DB) (email : string) (b : Z) : DB -> Prop :=
  | user_created_intro u now :
      users d !! u = None ->
      in_int64 b = true ->
      (forall v r, users d !! v = Some r -> u_email r <> email) ->
      user_created d email b
        (set_users (<[u := mkUserRow email b "INR" now]> (users d)) d).

Section user_facts.
Context {kv : Type} (E : Env).
Implicit Types (w : World kv).

Lemma insert_user_ok email b q d us d' :
  insert_user E email b q d = Ok (us, d') -> user_created d email b d'.
Proof.
  unfold insert_user, bigint, mbind, res_bind.
  destruct (in_int64 b) eqn:Hb; [|done].
  case_bool_decide as Hpk; [done|]. unfold email_taken.
  case_bool_decide as Hem; [done|]. intros [= _ <-].
  apply eq_None_not_Some in Hpk. constructor; [done|done|].
  intros v r Hr Heq. apply Hem. by exists v, r.
Qed.

Lemma CreateUser_wp email b w :
  wp (CreateUser E email b)
    (fun r w' => quiet w w' /\ w_tx w' = w_tx w /\
       (w_db w' = w_db w \/ user_created (w_db w) email b (w_db w')) /\
       (is_ok r = true -> user_created (w_db w) email b (w_db w'))) w.
Proof.
  unfold CreateUser. apply wp_wrap_err, wp_master_stmt.
  - intros env us d' Hi. apply insert_user_ok in Hi. split_and!; auto with vaultpay.
  - intros env e us d' _ Hi. apply insert_user_ok in Hi.
    split_and!; [by auto with vaultpay|done|by right|done].
  - intros e. split_and!; [by auto with vaultpay|done|by left|done].
Qed.

(** The API key table only ever gains a row, bound to an existing user and to
    a hash no other row has. *)
Inductive key_added (d : DB) (userID hash label : string) : DB -> Prop :=
  | key_added_intro u id now :
      uuid_in E userID = Some u ->
      is_Some (users d !! u) ->
      Forall (fun r => k_hash r <> hash /\ k_id r <> id) (api_keys d) ->
      key_added d userID hash label
        (set_api_keys (api_keys d ++ [mkKeyRow id u hash label now]) d).

Lemma insert_key_ok userID hash label q d d' :
  insert_key E userID hash label q d = Ok (tt, d') -> key_added d userID hash label d'.
Proof.
  unfold insert_key, hash_taken, mbind, res_bind.
  unfold uuid_param. destruct (uuid_in E userID) as [u|] eqn:Hin; [|done].
  destruct (existsb (fun r => bool_decide (k_id r = sq_uuid q)) _) eqn:H1; [done|].
  destruct (existsb (fun r => bool_decide (k_hash r = hash)) _) eqn:H2; [done|].
  destruct (users d !! u) as [r|] eqn:Hu; [|done]. intros [= <-].
  econstructor; [done|done|]. rewrite Forall_forall. intros k Hk%list_elem_of_In.
  split; intros Heq.
  - enough (existsb (fun r => bool_decide (k_hash r = hash)) (api_keys d) = true) by congruence.
    apply existsb_exists. exists k. by rewrite bool_decide_true.
  - enough (existsb (fun r => bool_decide (k_id r = sq_uuid q)) (api_keys d) = true) by congruence.
    apply existsb_exists. exists k. by rewrite bool_decide_true.
Qed.
End user_facts.
