(* ===== verification/Ledger.v ===== *)
(** * The ledger: what the money-moving operations do, seen from outside

    The operations of one server process on the master database are steps [db_step] of the tables;
    the tables abstract to a [ledger] of wallets and charges with three kinds of steps (open,
    charge, refund).  Every operation refines a ledger step, or does nothing visible. *)
From S2P Require Import Prelude Json Database Hex PaymentRepo OutboxRepo PaymentService.
From S2P Require Import OutboxWorker UserRepo.

(** ** Abstract specification *)
Record charge := mkCharge { c_owner : uuid; c_amount : Z; c_live : bool }.

Record ledger := mkLedger { wallets : gmap uuid Z; charges : gmap uuid charge }.

(** [ledger_step funds l l']: [funds] is the money that enters from outside. *)
Inductive ledger_step : Z -> ledger -> ledger -> Prop :=
  | ledger_open l u b :
      wallets l !! u = None ->
      ledger_step b l (mkLedger (<[u := b]> (wallets l)) (charges l))
  | ledger_charge l u b pid a :
      wallets l !! u = Some b -> 0 < a -> a <= b -> charges l !! pid = None ->
      ledger_step 0 l (mkLedger (<[u := b - a]> (wallets l))
                         (<[pid := mkCharge u a true]> (charges l)))
  | ledger_refund l u b pid a :
      wallets l !! u = Some b -> charges l !! pid = Some (mkCharge u a true) ->
      ledger_step 0 l (mkLedger (<[u := b + a]> (wallets l))
                         (<[pid := mkCharge u a false]> (charges l)))
  | ledger_stutter l : ledger_step 0 l l.

(** All the money: what the wallets hold and what was charged and not refunded. *)
Definition live_amount (c : charge) : Z := if c_live c then c_amount c else 0.
Definition total (l : ledger) : Z := msum id (wallets l) + msum live_amount (charges l).

Lemma total_step funds l l' : ledger_step funds l l' -> total l' = total l + funds.
Proof.
  unfold total. intros []; simpl.
  - rewrite msum_insert_new by done. simpl. lia.
  - erewrite msum_insert_upd by done. rewrite msum_insert_new by done.
    unfold live_amount at 1. simpl. lia.
  - erewrite !msum_insert_upd by done. unfold live_amount at 2 3. simpl. lia.
  - lia.
Qed.

(** ** Abstraction of the tables *)
Definition charge_of (r : PaymentRow) : charge :=
  mkCharge (pr_user_id r) (pr_amount r) (bool_decide (pr_status r = succeeded)).

Definition ledger_of (d : DB) : ledger :=
  mkLedger (u_balance <$> users d) (charge_of <$> payments d).

(** ** Steps of the tables *)
Section db_step.
Context (E : Env).

(** [funds] is the initial balance of a new merchant. *)
Inductive db_step : Z -> DB -> DB -> Prop :=
  | step_charge d userID amount currency p d' :
      0 < amount -> charge_effect E d userID amount currency p d' -> db_step 0 d d'
  | step_refund d t paymentID p d' : refunds E t d paymentID p d' -> db_step 0 d d'
  | step_poll d ts d' : outbox_moved ts d d' -> db_step 0 d d'
  | step_user d email b d' : user_created d email b d' -> db_step b d d'
  | step_none d : db_step 0 d d.
End db_step.

(** ** The operations of the server *)
Inductive op :=
  | OpCharge (userID : string) (amount : Z) (currency : string)
  | OpRefund (paymentID : string)
  | OpPoll
  | OpCreateUser (email : string) (initialBalance : Z).

Section run.
Context {kv : Type} (E : Env) {PR : PaymentRepository kv} {OR : OutboxRepository kv}
  {TQ : TaskQueue kv}.

Definition run_op (o : op) (w : World kv) : World kv :=
  match o with
  | OpCharge userID amount currency => (ProcessCharge E userID amount currency w).2
  | OpRefund paymentID => (ProcessRefund paymentID w).2
  | OpPoll => (ProcessPendingEvents E w).2
  | OpCreateUser email b => (CreateUser E email b w).2
  end.

Definition run_ops (os : list op) (w : World kv) : World kv :=
  foldl (fun w o => run_op o w) w os.

(** What the merchants created by [os] were given, counting the creations that
    changed the tables. *)
Definition op_funds (o : op) (w : World kv) : Z :=
  match o with
  | OpCreateUser _ b =>
      if bool_decide (size (users (w_db (run_op o w))) = size (users (w_db w))) then 0 else b
  | _ => 0
  end.

Fixpoint ops_funds (os : list op) (w : World kv) : Z :=
  match os with
  | [] => 0
  | o :: os' => op_funds o w + ops_funds os' (run_op o w)
  end.
End run.

(** ** Well-formed tables *)

(** The outbox row of payment [pid] carries the event the merchant expects. *)
Inductive event_for (E : Env) (d : DB) (r : OutboxRow) : Prop :=
  | event_for_intro pid pr now st created updated :
      payments d !! pid = Some pr ->
      o_aggregate_type r = "payment" ->
      o_aggregate_id r = uuid_out E pid ->
      o_event_type r = "payment.succeeded" ->
      o_payload r = webhookPayload
        (mkPayment (uuid_out E pid) (uuid_out E (pr_user_id pr)) (pr_amount pr)
           (pr_currency pr) st created updated) now ->
      event_for E d r.

Record wf (E : Env) (d : DB) : Prop := mkWf {
  wf_owner : forall pid pr, payments d !! pid = Some pr -> is_Some (users d !! pr_user_id pr);
  wf_amount : forall pid pr, payments d !! pid = Some pr -> 0 < pr_amount pr;
  wf_status : forall pid pr, payments d !! pid = Some pr ->
              pr_status pr = succeeded \/ pr_status pr = refunded;
  wf_idempotency : forall pid pr, payments d !! pid = Some pr -> pr_idempotency_key pr = None;
  wf_balance : balances_int64 d;
  wf_outbox_ids : NoDup (o_id <$> outbox_events d);
  wf_outbox_one : NoDup (o_aggregate_id <$> outbox_events d);
  wf_outbox_event : Forall (event_for E d) (outbox_events d);
  wf_outbox_all : forall pid, is_Some (payments d !! pid) ->
                  uuid_out E pid ∈ o_aggregate_id <$> outbox_events d }.

(** ** Steps keep the tables well formed *)
Section preserve.
Context (E : Env) `{!UuidLaws E}.
Implicit Types (d : DB).

Lemma wf_empty : wf E empty_db.
Proof.
  constructor; simpl; try (intros * H; by rewrite lookup_empty in H).
  - intros u r H. simpl in H. by rewrite lookup_empty in H.
  - constructor.
  - constructor.
  - constructor.
Qed.

(** An event stays the event of its payment when the payment's status changes. *)
Lemma event_for_mono d d' r :
  (forall pid pr, payments d !! pid = Some pr -> exists pr',
     payments d' !! pid = Some pr' /\ pr_user_id pr' = pr_user_id pr /\
     pr_amount pr' = pr_amount pr /\ pr_currency pr' = pr_currency pr) ->
  event_for E d r -> event_for E d' r.
Proof.
  intros Hp [pid pr now st c u Hpr Ht Ha He Hpay].
  destruct (Hp pid pr Hpr) as (pr' & Hpr' & Hu & Ham & Hcur).
  eapply (event_for_intro _ _ _ pid pr' now st c u); auto. by rewrite Hu, Ham, Hcur.
Qed.

Lemma wf_charge d userID amount currency p d' :
  0 < amount -> wf E d -> charge_effect E d userID amount currency p d' -> wf E d'.
Proof.
  intros Hpos [Hown Ham Hst Hid Hbal Hids Hone Hev Hall] (t & now & d1 & Hch & Hstg).
  destruct Hch as [u r pid Hu Hr Hle Hb Ha Hpid].
  destruct Hstg as [oid Hfresh]. simpl in *.
  assert (uuid_out E pid ∉ o_aggregate_id <$> outbox_events d) as Hnew.
  { intros Hin. apply list_elem_of_fmap in Hin as (x & Hx & Hxin).
    rewrite Forall_forall in Hev. destruct (Hev x Hxin) as [pid' pr' ? ? ? ? Hpr' _ Hagg _ _].
    rewrite Hagg in Hx. apply uuid_out_inj in Hx as ->; [congruence|done]. }
  constructor; simpl.
  - intros pid' pr [[<- <-]|[Hne Hpr]]%lookup_insert_Some; simpl.
    + rewrite lookup_insert_eq. eauto.
    + apply lookup_insert_is_Some. destruct (decide (u = pr_user_id pr)); eauto.
  - intros pid' pr [[<- <-]|[Hne Hpr]]%lookup_insert_Some; [done|eauto].
  - intros pid' pr [[<- <-]|[Hne Hpr]]%lookup_insert_Some; [by left|eauto].
  - intros pid' pr [[<- <-]|[Hne Hpr]]%lookup_insert_Some; [done|eauto].
  - unfold balances_int64. simpl.
    intros v r' [[<- <-]|[Hne Hr']]%lookup_insert_Some; [done|by eapply Hbal].
  - rewrite fmap_app. apply NoDup_app. split_and!; [done| |by apply NoDup_singleton].
    intros x Hx. simpl. rewrite list_elem_of_singleton. intros ->.
    apply list_elem_of_fmap in Hx as (y & Hy & Hyin).
    rewrite Forall_forall in Hfresh. by apply (Hfresh y Hyin).
  - rewrite fmap_app. apply NoDup_app. split_and!; [done| |by apply NoDup_singleton].
    intros x Hx. simpl. rewrite list_elem_of_singleton. intros ->. done.
  - apply Forall_app. split.
    + eapply Forall_impl; [exact Hev|]. intros x. apply event_for_mono.
      intros pid' pr' Hpr'. exists pr'. simpl. rewrite lookup_insert_ne by congruence. done.
    + apply Forall_singleton.
      eapply (event_for_intro _ _ _ pid (charge_row u amount currency t) now); simpl; auto.
      by rewrite lookup_insert_eq.
  - intros pid' [<-|[Hne Hpr]]%lookup_insert_is_Some; rewrite fmap_app; [set_solver|].
    apply elem_of_app. left. eauto.
Qed.

Lemma users_refund_db i pr t d :
  users (refund_db i pr t d) = users (credit_db (pr_user_id pr) (pr_amount pr) d).
Proof. done. Qed.

Lemma payments_refund_db i pr t d :
  payments (refund_db i pr t d) = <[i := Sql.with_status refunded t pr]> (payments d).
Proof. unfold refund_db. simpl. by rewrite payments_credit_db. Qed.

Lemma outbox_refund_db i pr t d : outbox_events (refund_db i pr t d) = outbox_events d.
Proof. unfold refund_db, credit_db. simpl. by destruct (users d !! pr_user_id pr). Qed.

Lemma wf_refund d t paymentID p d' : wf E d -> refunds E t d paymentID p d' -> wf E d'.
Proof.
  intros [Hown Ham Hst Hid Hbal Hids Hone Hev Hall] [i pr Hi Hpr Hs Hb].
  destruct (Hown i pr Hpr) as [r Hr].
  constructor; rewrite ?outbox_refund_db, ?payments_refund_db; auto.
  - rewrite users_refund_db. unfold credit_db. rewrite Hr. simpl.
    intros pid q Hq. apply lookup_insert_is_Some.
    assert (is_Some (users d !! pr_user_id q)) as Hq'.
    { apply lookup_insert_Some in Hq as [[<- <-]|[_ Hq]]; eauto. }
    destruct (decide (pr_user_id pr = pr_user_id q)); auto.
  - intros pid q [[<- <-]|[_ Hq]]%lookup_insert_Some; eauto. simpl. eauto.
  - intros pid q [[<- <-]|[_ Hq]]%lookup_insert_Some; eauto.
  - intros pid q [[<- <-]|[_ Hq]]%lookup_insert_Some; eauto. simpl. eauto.
  - unfold balances_int64. rewrite users_refund_db. unfold credit_db. rewrite Hr. simpl.
    intros v q [[<- <-]|[_ Hq]]%lookup_insert_Some; [by apply Hb|by eapply Hbal].
  - eapply Forall_impl; [exact Hev|]. intros x. apply event_for_mono.
    intros pid q Hq. rewrite payments_refund_db. destruct (decide (i = pid)) as [->|Hne].
    + rewrite lookup_insert_eq. eexists. split; [done|]. simpl. simplify_eq. done.
    + rewrite lookup_insert_ne by done. eauto.
  - intros pid [<-|[_ Hq]]%lookup_insert_is_Some; eauto.
Qed.

Lemma wf_poll d ts d' : wf E d -> outbox_moved ts d d' -> wf E d'.
Proof.
  intros [Hown Ham Hst Hid Hbal Hids Hone Hev Hall] (l & Hl & ->).
  constructor; simpl; auto.
  - by rewrite (outbox_moved_fmap o_id ts _ _ ltac:(done) Hl).
  - by rewrite (outbox_moved_fmap o_aggregate_id ts _ _ ltac:(done) Hl).
  - apply Forall_forall. intros x' Hx'. rewrite Forall_forall in Hev.
    apply list_elem_of_lookup in Hx' as [k Hk].
    destruct (Forall2_lookup_r _ _ _ _ _ Hl Hk) as (x & Hx & Hmv).
    assert (event_for E d x) as [pid pr now st c u ? ? ? ? ?]
      by by eapply Hev, list_elem_of_lookup_2.
    eapply (event_for_intro _ _ _ pid pr now st c u); [done|..]; by destruct Hmv.
  - intros pid Hp. rewrite (outbox_moved_fmap o_aggregate_id ts _ _ ltac:(done) Hl). auto.
Qed.

Lemma wf_user d email b d' : wf E d -> user_created d email b d' -> wf E d'.
Proof.
  intros [Hown Ham Hst Hid Hbal Hids Hone Hev Hall] [u now Hu Hb _].
  constructor; simpl; auto.
  - intros pid pr Hpr. apply lookup_insert_is_Some.
    destruct (decide (u = pr_user_id pr)); eauto.
  - unfold balances_int64. simpl.
    intros v r [[<- <-]|[_ Hr]]%lookup_insert_Some; [done|by eapply Hbal].
  - eapply Forall_impl; [exact Hev|]. intros x. apply event_for_mono. eauto.
Qed.

Lemma wf_step funds d d' : wf E d -> db_step E funds d d' -> wf E d'.
Proof.
  intros Hwf Hs. destruct Hs; [by eapply wf_charge|by eapply wf_refund|by eapply wf_poll
    |by eapply wf_user|done].
Qed.

(** Each step of well-formed tables is a step of the ledger. *)
Lemma ledger_of_step funds d d' :
  wf E d -> db_step E funds d d' -> ledger_step funds (ledger_of d) (ledger_of d').
Proof.
  intros Hwf Hs. destruct Hs as [d0 userID amount currency p d1 Hpos (t & now & d2 & Hch & Hstg)
             |d0 t paymentID p d1 Href|d0 ts d1 (l & Hl & ->)|d0 email b d1 Hu|d0].
  - destruct Hch as [u r pid Hu Hr Hle _ _ Hpid]. destruct Hstg as [oid _].
    unfold ledger_of. simpl. rewrite !fmap_insert. simpl.
    apply (ledger_charge (ledger_of d0) u (u_balance r) pid amount); simpl;
      [by rewrite lookup_fmap, Hr|done|done|by rewrite lookup_fmap, Hpid].
  - destruct Href as [i pr Hi Hpr Hs _]. destruct (wf_owner _ _ Hwf i pr Hpr) as [r Hr].
    unfold ledger_of. rewrite users_refund_db, payments_refund_db. unfold credit_db.
    rewrite Hr. simpl. rewrite !fmap_insert. simpl. unfold charge_of at 1. simpl.
    apply (ledger_refund (ledger_of d0) (pr_user_id pr) (u_balance r) i (pr_amount pr));
      simpl; rewrite lookup_fmap; [by rewrite Hr|]. rewrite Hpr. simpl. unfold charge_of.
    by rewrite Hs, bool_decide_true.
  - apply (ledger_stutter (ledger_of d0)).
  - destruct Hu as [u now Hu Hb _]. unfold ledger_of. simpl. rewrite fmap_insert. simpl.
    apply (ledger_open (ledger_of d0)). simpl. by rewrite lookup_fmap, Hu.
  - constructor.
Qed.
End preserve.

(** ** The operations refine the ledger *)
Section refinement.
Context {kv : Type} (E : Env) `{!UuidLaws E}.
Context {PR : PaymentRepository kv} {OR : OutboxRepository kv} {TQ : TaskQueue kv}.
Context `{!PaymentRepositoryLaws E PR, !OutboxRepositoryLaws OR, !TaskQueueLaws TQ}.
Implicit Types (w : World kv).

(** All or nothing, as a step. *)
Lemma settles_step {A} (eff : A -> DB -> Prop) w r w' :
  settles E eff w r w' -> w_tx w = TxNone ->
  (forall a d', eff a d' -> db_step E 0 (w_db w) d') ->
  db_step E 0 (w_db w) (w_db w') /\ w_tx w' = TxNone.
Proof.
  intros (_ & Htx & Hr) Hw Heff. split; [|auto]. destruct r as [a|e]; [eauto|].
  destruct Hr as [->|[_ [a Ha]]]; [constructor|eauto].
Qed.

Lemma user_created_size d email b d' :
  user_created d email b d' -> size (users d') <> size (users d).
Proof. intros [u now Hu _ _]. simpl. rewrite map_size_insert_None by done. lia. Qed.

Lemma run_op_step o w :
  wf E (w_db w) -> w_tx w = TxNone ->
  db_step E (op_funds E o w) (w_db w) (w_db (run_op E o w)) /\ w_tx (run_op E o w) = TxNone.
Proof.
  intros Hwf Htx. destruct o as [userID amount currency|paymentID| |email b]; simpl.
  - eapply settles_step; [apply (ProcessCharge_wp E)|done|].
    intros p d' [Hpos Heff]. by eapply step_charge.
  - eapply settles_step; [apply (ProcessRefund_wp E)|done|].
    intros p d' [t Heff]. by eapply step_refund.
  - destruct (ProcessPendingEvents_wp E w (wf_outbox_ids _ _ Hwf)) as [(_ & _ & ts & _ & _ & Hm) Ht].
    split; [by eapply step_poll|auto].
  - destruct (CreateUser_wp E email b w) as (_ & Ht & Hdb & _). split; [|congruence].
    case_bool_decide as Hsz.
    + destruct Hdb as [->|Hu]; [constructor|]. by apply user_created_size in Hu.
    + destruct Hdb as [Heq|Hu]; [by rewrite Heq in Hsz|by eapply step_user].
Qed.

Lemma run_op_wf o w :
  wf E (w_db w) -> w_tx w = TxNone ->
  wf E (w_db (run_op E o w)) /\ w_tx (run_op E o w) = TxNone.
Proof.
  intros Hwf Htx. destruct (run_op_step o w Hwf Htx). split; [by eapply wf_step|done].
Qed.

Lemma run_ops_wf os w :
  wf E (w_db w) -> w_tx w = TxNone ->
  wf E (w_db (run_ops E os w)) /\ w_tx (run_ops E os w) = TxNone.
Proof.
  unfold run_ops. revert w. induction os as [|o os IH]; intros w Hwf Htx; simpl; [done|].
  destruct (run_op_wf o w Hwf Htx). by apply IH.
Qed.

(** A property of the tables that every step keeps holds after any operations. *)
Lemma run_ops_ind (P : DB -> Prop) os w :
  (forall funds d d', wf E d -> db_step E funds d d' -> P d -> P d') ->
  wf E (w_db w) -> w_tx w = TxNone -> P (w_db w) -> P (w_db (run_ops E os w)).
Proof.
  intros Hstep. unfold run_ops. revert w.
  induction os as [|o os IH]; intros w Hwf Htx HP; simpl; [done|].
  destruct (run_op_step o w Hwf Htx) as [Hs Htx']. apply IH; [by eapply wf_step|done|eauto].
Qed.

Lemma run_ops_total os w :
  wf E (w_db w) -> w_tx w = TxNone ->
  total (ledger_of (w_db (run_ops E os w))) =
    total (ledger_of (w_db w)) + ops_funds E os w.
Proof.
  unfold run_ops. revert w. induction os as [|o os IH]; intros w Hwf Htx; simpl; [lia|].
  destruct (run_op_step o w Hwf Htx) as [Hs Htx'].
  rewrite IH by (eauto using wf_step). apply ledger_of_step in Hs; [|done].
  apply total_step in Hs. lia.
Qed.

(** Once refunded, a payment stays refunded. *)
Definition is_refunded (i : uuid) (d : DB) : Prop :=
  exists pr, payments d !! i = Some pr /\ pr_status pr = refunded.

Lemma is_refunded_step i funds d d' :
  wf E d -> db_step E funds d d' -> is_refunded i d -> is_refunded i d'.
Proof.
  intros _ Hs (pr & Hpr & Hst). destruct Hs as [d0 userID amount currency p d1 Hpos
    (t & now & d2 & Hch & Hstg)|d0 t paymentID p d1 Href|d0 ts d1 (l & Hl & ->)
    |d0 email b d1 Hu|d0].
  - destruct Hch as [u r pid Hu Hr Hle _ _ Hpid]. destruct Hstg as [oid _].
    exists pr. simpl. rewrite lookup_insert_ne by congruence. done.
  - destruct Href as [j pr' Hj Hpr' Hs' _]. exists pr.
    rewrite payments_refund_db, lookup_insert_ne by congruence. done.
  - by exists pr.
  - destruct Hu. by exists pr.
  - by exists pr.
Qed.

Lemma no_second_refund i paymentID w :
  uuid_in E paymentID = Some i -> is_refunded i (w_db w) ->
  wp (ProcessRefund paymentID) (fun r w' => is_ok r = false /\ w_db w' = w_db w) w.
Proof.
  intros Hi (pr & Hpr & Hst). eapply wp_mono; [apply (ProcessRefund_wp E)|].
  assert (forall t p d', ~ refunds E t (w_db w) paymentID p d') as Hno.
  { intros t p d' [j pr' Hj Hpr' Hs' _]. congruence. }
  intros [p|e] w' (_ & _ & Hr).
  - destruct Hr as [t Hr]. by apply Hno in Hr.
  - split; [done|]. destruct Hr as [->|(_ & p & t & Hr)]; [done|]. by apply Hno in Hr.
Qed.

(** No wallet is overdrawn. *)
Definition no_overdraft (d : DB) : Prop :=
  forall u r, users d !! u = Some r -> 0 <= u_balance r.

Lemma no_overdraft_step funds d d' :
  wf E d -> db_step E funds d d' -> 0 <= funds -> no_overdraft d -> no_overdraft d'.
Proof.
  intros Hwf Hs Hf Hno. destruct Hs as [d0 userID amount currency p d1 Hpos
    (t & now & d2 & Hch & Hstg)|d0 t paymentID p d1 Href|d0 ts d1 (l & Hl & ->)
    |d0 email b d1 Hu|d0]; try done.
  - destruct Hch as [u r pid Hu Hr Hle _ _ Hpid]. destruct Hstg as [oid _].
    unfold no_overdraft. simpl.
    intros v q [[<- <-]|[_ Hq]]%lookup_insert_Some; simpl; [lia|by eapply Hno].
  - destruct Href as [j pr Hj Hpr Hst _]. unfold no_overdraft.
    rewrite users_refund_db. unfold credit_db. intros v q.
    destruct (users d0 !! pr_user_id pr) as [r|] eqn:Hr; [|by apply Hno]. simpl.
    intros [[<- <-]|[_ Hq]]%lookup_insert_Some; simpl; [|by eapply Hno].
    pose proof (Hno _ _ Hr). pose proof (wf_amount _ _ Hwf _ _ Hpr). lia.
  - destruct Hu as [u now Hu Hb _]. unfold no_overdraft. simpl.
    intros v q [[<- <-]|[_ Hq]]%lookup_insert_Some; simpl; [lia|by eapply Hno].
Qed.

(** Only a new merchant brings money. *)
Lemma db_step_users funds d d' :
  wf E d -> db_step E funds d d' ->
  size (users d') = size (users d) /\ funds = 0 \/ size (users d') = S (size (users d)).
Proof.
  intros Hwf Hs. destruct Hs as [d0 userID amount currency p d1 Hpos
    (t & now & d2 & Hch & Hstg)|d0 t paymentID p d1 Href|d0 ts d1 (l & Hl & ->)
    |d0 email b d1 Hu|d0]; [left; split; [|done]..|right|by left]; [| |done|].
  - destruct Hch as [u r pid Hu Hr Hle _ _ Hpid]. destruct Hstg as [oid _]. simpl.
    by rewrite map_size_insert_Some by eauto.
  - destruct Href as [j pr Hj Hpr Hst _]. rewrite users_refund_db. unfold credit_db.
    destruct (users d0 !! pr_user_id pr) eqn:Hr; [|done]. simpl.
    by rewrite map_size_insert_Some by eauto.
  - destruct Hu as [u now Hu Hb _]. simpl. by rewrite map_size_insert_None.
Qed.

Definition op_solvent (o : op) : Prop :=
  match o with OpCreateUser _ b => 0 <= b | _ => True end.

Lemma op_funds_nonneg o w : op_solvent o -> 0 <= op_funds E o w.
Proof. destruct o; simpl; try lia. case_bool_decide; lia. Qed.

Lemma run_ops_no_overdraft os w :
  Forall op_solvent os -> wf E (w_db w) -> w_tx w = TxNone -> no_overdraft (w_db w) ->
  no_overdraft (w_db (run_ops E os w)).
Proof.
  unfold run_ops. intros Hos. revert w.
  induction Hos as [|o os Ho _ IH]; intros w Hwf Htx Hno; simpl; [done|].
  destruct (run_op_step o w Hwf Htx) as [Hs Htx']. apply IH; [by eapply wf_step|done|].
  eapply no_overdraft_step; eauto using op_funds_nonneg.
Qed.
End refinement.

(** ** The running server: the SQL repositories and a task queue behind the network *)
Definition server_op {kv} (E : Env) (o : op) (w : World kv) : World kv :=
  @run_op kv E (sqlPaymentRepository E kv) (sqlOutboxRepository E kv) (ext_queue E kv) o w.

Definition server_ops {kv} (E : Env) (os : list op) (w : World kv) : World kv :=
  @run_ops kv E (sqlPaymentRepository E kv) (sqlOutboxRepository E kv) (ext_queue E kv) os w.

Definition server_funds {kv} (E : Env) (os : list op) (w : World kv) : Z :=
  @ops_funds kv E (sqlPaymentRepository E kv) (sqlOutboxRepository E kv) (ext_queue E kv) os w.

(** C2: Money is conserved.  Whatever calls are lost and in whatever order merchants are
    created, charged, refunded and the outbox polled, what the wallets hold plus what was charged
    and not refunded grows exactly by the initial balances of the merchants created. *)
Theorem money_conserved {kv} (E : Env) `{!UuidLaws E} (os : list op) (w : World kv) :
  wf E (w_db w) -> w_tx w = TxNone ->
  total (ledger_of (w_db (server_ops E os w))) =
    total (ledger_of (w_db w)) + server_funds E os w.
Proof. apply run_ops_total; apply _. Qed.

(** Every operation of the server refines one step of the abstract ledger (open, charge,
    refund or nothing) and keeps the tables well formed. *)
Theorem operations_refine_ledger {kv} (E : Env) `{!UuidLaws E} (o : op) (w : World kv) :
  wf E (w_db w) -> w_tx w = TxNone ->
  ledger_step (server_funds E [o] w) (ledger_of (w_db w)) (ledger_of (w_db (server_op E o w))) /\
  wf E (w_db (server_op E o w)) /\ w_tx (server_op E o w) = TxNone.
Proof.
  intros Hwf Htx. unfold server_funds. simpl. rewrite Z.add_0_r.
  destruct (run_op_step (kv:=kv) E (PR:=sqlPaymentRepository E kv)
    (OR:=sqlOutboxRepository E kv) (TQ:=ext_queue E kv) o w Hwf Htx) as [Hs Ht].
  split_and!; [by eapply ledger_of_step|by eapply wf_step|done].
Qed.

(** C15: Exactly one event per payment.  After any operations on a fresh database, every payment
    has one outbox row with its identifier, no two rows share an identifier, and every row carries
    the event of an existing payment with that payment's owner, amount and currency. *)
Theorem one_event_per_payment {kv} (E : Env) `{!UuidLaws E} (os : list op) (s : kv) :
  let d := w_db (server_ops E os (new_world s)) in
  (forall pid, is_Some (payments d !! pid) ->
     exists r, r ∈ outbox_events d /\ o_aggregate_id r = uuid_out E pid) /\
  NoDup (o_aggregate_id <$> outbox_events d) /\
  Forall (event_for E d) (outbox_events d).
Proof.
  destruct (run_ops_wf (kv:=kv) E (PR:=sqlPaymentRepository E kv)
    (OR:=sqlOutboxRepository E kv) (TQ:=ext_queue E kv) os (new_world s) (wf_empty E) eq_refl)
    as [[_ _ _ _ _ _ Hone Hev Hall] _].
  split_and!; [|done..]. intros pid (r & Hr & Hin)%Hall%list_elem_of_fmap. by exists r.
Qed.


(** No charge, refund or poll overdraws a wallet: when merchants start with balances that
    are not negative, every balance stays so. *)
Theorem wallets_not_overdrawn {kv} (E : Env) `{!UuidLaws E} (os : list op) (s : kv) :
  Forall op_solvent os ->
  forall u r, users (w_db (server_ops E os (new_world s))) !! u = Some r -> 0 <= u_balance r.
Proof.
  intros Hos. apply (run_ops_no_overdraft E (PR:=sqlPaymentRepository E kv)
    (OR:=sqlOutboxRepository E kv) (TQ:=ext_queue E kv)); [done|apply wf_empty|done|].
  intros u r Hr. simpl in Hr. by rewrite lookup_empty in Hr.
Qed.

(** ** Witnesses: a merchant is created, charged twice, the outbox polled, one charge refunded *)
Definition env_lossy : Env :=
  ref_env count_uuid (fun n => if decide (n = 7)%nat then Some (Lost_after (Errorf "EOF")) else None).
Definition merchant0 : string := uuid_text (count_uuid 1).
Definition ops0 : list op :=
  [OpCreateUser "m@example.com" 1000; OpCharge merchant0 300 "INR"; OpCharge merchant0 50 "USD";
   OpPoll; OpRefund (uuid_text (count_uuid 4)); OpCharge merchant0 5000 "INR"].

(** The same story with the answer of a commit lost keeps the books balanced. *)
Lemma money_conserved_witness :
  total (ledger_of (w_db (server_ops env0 ops0 (new_world tt)))) = 1000 /\
  total (ledger_of (w_db (server_ops env_lossy ops0 (new_world tt)))) = 1000.
Proof.
  split.
  - rewrite (money_conserved env0 ops0 (new_world tt) (wf_empty env0) eq_refl). by vm_compute.
  - rewrite (money_conserved env_lossy ops0 (new_world tt) (wf_empty env_lossy) eq_refl).
    by vm_compute.
Defined.

Lemma operations_refine_ledger_witness :
  let w := server_ops env0 (take 1 ops0) (new_world tt) in
  ledger_step 0 (ledger_of (w_db w))
    (ledger_of (w_db (server_op env0 (OpCharge merchant0 300 "INR") w))) /\
  wallets (ledger_of (w_db (server_op env0 (OpCharge merchant0 300 "INR") w)))
    !! count_uuid 1 = Some 700.
Proof.
  intros w. split; [|by vm_compute].
  assert (wf env0 (w_db w) /\ w_tx w = TxNone) as [Hwf Htx].
  { apply (operations_refine_ledger env0 (OpCreateUser "m@example.com" 1000) (new_world tt)
             (wf_empty env0) eq_refl). }
  destruct (operations_refine_ledger env0 (OpCharge merchant0 300 "INR") w Hwf Htx) as [Hs _].
  exact Hs.
Defined.

Lemma one_event_per_payment_witness :
  let d := w_db (server_ops env0 ops0 (new_world tt)) in
  (exists r, r ∈ outbox_events d /\ o_aggregate_id r = uuid_out env0 (count_uuid 4)) /\
  length (outbox_events d) = 2%nat.
Proof.
  intros d. split; [|by vm_compute].
  apply (one_event_per_payment env0 ops0 tt). apply (bool_decide_unpack _). by vm_compute.
Defined.


Lemma wallets_not_overdrawn_witness :
  exists r, users (w_db (server_ops env0 ops0 (new_world tt))) !! count_uuid 1 = Some r /\
            0 <= u_balance r /\ u_balance r = 950.
Proof.
  set (w := server_ops env0 ops0 (new_world tt)).
  assert (u_balance <$> users (w_db w) !! count_uuid 1 = Some 950) as Hb by (by vm_compute).
  destruct (users (w_db w) !! count_uuid 1) as [r|] eqn:Hr; [|done].
  exists r. split; [done|]. split.
  - apply (wallets_not_overdrawn env0 ops0 tt) with (count_uuid 1); [|done].
    repeat constructor; simpl; lia.
  - simpl in Hb. congruence.
Defined.
