(* ===== verification/Concurrent.v ===== *)
(** * Concurrent charges and refunds

    The handlers of a server run at once, and so do several servers on one database.  Here the
    bodies of [ProcessCharge] and [RefundTransactionRecord] are programs [prog] whose calls to the
    database are visible; run alone they are the functions of PaymentService.v and PaymentRepo.v
    ([charge_prog_alone], [refund_prog_alone]).  [thread_step] interleaves their calls over the
    row locks of PostgreSQL: [FOR UPDATE], UPDATE and INSERT lock rows until the transaction ends,
    and a call that wants a row locked by another transaction waits.

    Of the server this takes: a transaction sees its own rows where it holds locks and the last
    committed rows elsewhere, a commit publishes the rows it locked, a failure releases the locks.
    A charge asks for SERIALIZABLE; the only row it reads is one it has locked, and when that row
    changed after its snapshot the server fails the statement, which is one of the failures
    ([Lost]) that any call may have, like deadlocks, timeouts and lost connections. *)
From S2P Require Import Prelude Json GoTime Database Hex PaymentRepo OutboxRepo PaymentService.
From S2P Require Import OutboxWorker UserRepo Ledger.

(** ** Programs *)

(** The rows a transaction can lock. *)
Inductive row := RUser (u : uuid) | RPayment (u : uuid) | ROutbox (u : uuid).

#[export] Instance row_eq_dec : EqDecision row.
Proof. solve_decision. Defined.

(** The rows a statement locks: existing ones, or the one it inserts under the server's UUID. *)
Inductive locking := Existing (ks : list row) | Inserted (k : uuid -> row).

(** [PSkip] is a query [FOR UPDATE SKIP LOCKED] that locks the rows [ks] of its answer, [PNext] is
    [rows.Next], [PEnqueue] hands the task of an event to the queue. *)
Inductive prog (A : Type) : Type :=
  | PRet (r : res A)
  | PBegin (k : res unit -> prog A)
  | PStmt {B : Type} (l : locking) (q : stmt B) (k : res B -> prog A)
  | PCommit (k : res unit -> prog A)
  | PRollback (p : prog A)
  | PNow (k : Z -> prog A)
  | PSkip {B : Type} (q : stmt B) (ks : B -> list row) (k : res B -> prog A)
  | PNext (k : bool -> prog A)
  | PEnqueue (ev : fetchedEvent) (k : res unit -> prog A).
Arguments PRet {A} r.
Arguments PBegin {A} k.
Arguments PStmt {A B} l q k.
Arguments PCommit {A} k.
Arguments PRollback {A} p.
Arguments PNow {A} k.
Arguments PSkip {A B} q ks k.
Arguments PNext {A} k.
Arguments PEnqueue {A} ev k.

(** [f] continues with the outcome of the program. *)
Fixpoint then_ {A B} (p : prog A) (f : res A -> prog B) : prog B :=
  match p with
  | PRet r => f r
  | PBegin k => PBegin (fun r => then_ (k r) f)
  | PStmt l q k => PStmt l q (fun r => then_ (k r) f)
  | PCommit k => PCommit (fun r => then_ (k r) f)
  | PRollback p => PRollback (then_ p f)
  | PNow k => PNow (fun z => then_ (k z) f)
  | PSkip q ks k => PSkip q ks (fun r => then_ (k r) f)
  | PNext k => PNext (fun b => then_ (k b) f)
  | PEnqueue ev k => PEnqueue ev (fun r => then_ (k r) f)
  end.

#[export] Instance prog_ret : MRet prog := fun A a => PRet (Ok a).
#[export] Instance prog_bind : MBind prog := fun A B k p =>
  then_ p (fun r => match r with Ok a => k a | Err e => PRet (Err e) end).

Definition p_throw {A} (e : error) : prog A := PRet (Err e).
Definition p_wrap_err {A} (pre : string) (p : prog A) : prog A :=
  then_ p (fun r => PRet match r with Ok a => Ok a | Err e => Err (Wrapf pre e "") end).
Definition p_scan_row {A} (x : option A) : prog A :=
  match x with Some a => mret a | None => p_throw ErrNoRows end.
(** [defer tx.Rollback()], and the one that runs only on an error. *)
Definition p_always_rollback {A} (p : prog A) : prog A := then_ p (fun r => PRollback (PRet r)).
Definition p_rollback_on_err {A} (p : prog A) : prog A :=
  then_ p (fun r => match r with Err e => PRollback (PRet (Err e)) | Ok a => PRet (Ok a) end).

Section programs.
Context (E : Env).

Definition user_row (userID : string) : locking :=
  Existing match uuid_in E userID with Some u => [RUser u] | None => [] end.
Definition payment_row (paymentID : string) : locking :=
  Existing match uuid_in E paymentID with Some i => [RPayment i] | None => [] end.

Definition p_stmt {B} (l : locking) (q : stmt B) : prog B := PStmt l q PRet.

Definition create_prog (userID : string) (amount : Z) (currency : string) : prog Payment :=
  currentBalance ← p_wrap_err "failed to look up target user balance inside tx: "
                     (p_stmt (user_row userID) (Sql.balance_for_update E userID) ≫= p_scan_row);
  if (currentBalance <? amount) then p_throw ErrInsufficient
  else
    _ ← p_wrap_err "failed to adjust user ledger balance accounts: "
          (p_stmt (user_row userID) (Sql.debit_user E amount userID));
    p_wrap_err "failed to register permanent payment record log: "
      (p_stmt (Inserted RPayment) (Sql.insert_payment E userID amount currency)).

(** From the payload to the end. *)
Definition stage_prog (payment : Payment) : prog Payment :=
  now ← PNow (fun z => PRet (Ok z));
  _ ← p_wrap_err "failed to stage transactional outbox event: "
        (p_stmt (Inserted ROutbox)
           (insert_outbox "payment" (p_ID payment) "payment.succeeded"
              (webhookPayload payment now)));
  _ ← p_wrap_err "failed to commit payment transaction chain: " (PCommit PRet);
  mret payment.

Definition charge_prog (userID : string) (amount : Z) (currency : string) : prog Payment :=
  if (amount <=? 0) then p_throw ErrNotPositive
  else
    _ ← p_wrap_err "failed to initialize payment transaction context: " (PBegin PRet);
    p_rollback_on_err (create_prog userID amount currency ≫= stage_prog).

(** From the update of the payment to the end. *)
Definition mark_prog (paymentID : string) (p : Payment) : prog Payment :=
  su ← p_wrap_err "failed to update payment record lifecycle status: "
         (p_stmt (payment_row paymentID) (Sql.mark_refunded E paymentID) ≫= p_scan_row);
  _ ← p_wrap_err "failed to commit financial refund block: " (PCommit PRet);
  mret (mkPayment (p_ID p) (p_UserID p) (p_Amount p) (p_Currency p) su.1
          (p_CreatedAt p) su.2).

Definition refund_prog (paymentID : string) : prog Payment :=
  _ ← p_wrap_err "failed to open refund transaction: " (PBegin PRet);
  p_always_rollback
    (p ← p_wrap_err "payment record not found or lock acquisition timed out: "
           (p_stmt (payment_row paymentID) (Sql.payment_for_update E paymentID) ≫= p_scan_row);
     if bool_decide (p_Status p <> "succeeded") && bool_decide (p_Status p <> "paid") &&
        bool_decide (p_Status p <> "COMPLETED")
     then p_throw (ErrNotRefundable (p_Status p))
     else
       _ ← p_wrap_err "failed to return funds to user wallet balance: "
             (p_stmt (user_row (p_UserID p)) (Sql.credit_user E (p_Amount p) (p_UserID p)));
       mark_prog paymentID p).

Definition process_refund_prog (paymentID : string) : prog Payment :=
  if decide (paymentID = "") then p_throw ErrEmptyPaymentID else refund_prog paymentID.

Inductive request := Charge (userID : string) (amount : Z) (currency : string)
  | Refund (paymentID : string).

Definition prog_of (rq : request) : prog Payment :=
  match rq with
  | Charge userID amount currency => charge_prog userID amount currency
  | Refund paymentID => process_refund_prog paymentID
  end.
End programs.

(** ** A program run alone *)
Section alone.
Context {kv : Type} (E : Env) {TQ : TaskQueue kv}.
Implicit Types (w : World kv).

Fixpoint alone {A} (p : prog A) : M (World kv) A := fun w =>
  match p with
  | PRet r => (r, w)
  | PBegin k => let '(r, w') := begin_tx E w in alone (k r) w'
  | PStmt _ q k => let '(r, w') := tx_stmt E q w in alone (k r) w'
  | PCommit k => let '(r, w') := Commit E w in alone (k r) w'
  | PRollback p => alone p (Rollback w)
  | PNow k => alone (k (clock E (w_ticks w))) (tick w)
  | PSkip q _ k => let '(r, w') := tx_stmt E q w in alone (k r) w'
  | PNext k => let '(b, w') := tx_next E w in alone (k b) w'
  | PEnqueue ev k =>
      let '(r, w') := EnqueueContext (mkTask TypeWebhookRetryEvent (ev_Payload ev)) w in
      alone (k r) w'
  end.

Lemma alone_then {A B} (p : prog A) (f : res A -> prog B) w :
  alone (then_ p f) w = let '(r, w') := alone p w in alone (f r) w'.
Proof.
  revert w. induction p as [r|k IH|C l q k IH|k IH|p IH|k IH|C q ks k IH|k IH|ev k IH];
    intros w; cbn [alone then_]; [done|..]; first [apply IH|case_match; apply IH].
Qed.

Lemma alone_bind {A B} (p : prog A) (k : A -> prog B) (k' : A -> M (World kv) B)
    (m : M (World kv) A) w :
  alone p w = m w -> (forall a w', alone (k a) w' = k' a w') -> alone (p ≫= k) w = (m ≫= k') w.
Proof.
  intros Hp Hk. unfold mbind at 1, prog_bind. rewrite alone_then, Hp. unfold mbind, M_bind.
  by destruct (m w) as [[a|e] w'].
Qed.

Lemma alone_wrap {A} pre (p : prog A) (m : M (World kv) A) w :
  alone p w = m w -> alone (p_wrap_err pre p) w = wrap_err pre m w.
Proof.
  intros Hp. unfold p_wrap_err. rewrite alone_then, Hp. unfold wrap_err.
  by destruct (m w) as [[a|e] w'].
Qed.

Lemma alone_scan {A} (x : option A) w : alone (p_scan_row x) w = scan_row x w.
Proof. by destruct x. Qed.

Lemma alone_stmt {B} l (q : stmt B) w : alone (p_stmt l q) w = tx_stmt E q w.
Proof. unfold p_stmt. cbn. by destruct (tx_stmt E q w). Qed.

Lemma alone_begin w : alone (PBegin PRet) w = begin_tx E w.
Proof. cbn. by destruct (begin_tx E w). Qed.

Lemma alone_commit w : alone (PCommit PRet) w = Commit E w.
Proof. cbn. by destruct (Commit E w). Qed.

Lemma alone_on_err {A} (p : prog A) (m : M (World kv) A) w :
  alone p w = m w ->
  alone (p_rollback_on_err p) w =
  deferring (fun r => match r with Err _ => Rollback | Ok _ => id end) m w.
Proof.
  intros Hp. unfold p_rollback_on_err, deferring. rewrite alone_then, Hp.
  by destruct (m w) as [[a|e] w'].
Qed.

Lemma alone_always {A} (p : prog A) (m : M (World kv) A) w :
  alone p w = m w -> alone (p_always_rollback p) w = deferring (fun _ => Rollback) m w.
Proof.
  intros Hp. unfold p_always_rollback, deferring. rewrite alone_then, Hp. by destruct (m w).
Qed.

(** Call by call, both sides are the same. *)
Ltac alone_call :=
  first [done | apply alone_stmt | apply alone_begin | apply alone_commit | apply alone_scan
        | apply alone_wrap; alone_call
        | apply alone_on_err; alone_call
        | apply alone_always; alone_call
        | apply alone_bind; [alone_call | intros; alone_call]
        | case_match; alone_call ].

(** Run alone, the programs are the functions of the service, on every branch and with every
    failure. *)
Lemma create_prog_alone userID amount currency w :
  alone (create_prog E userID amount currency) w =
  CreateTransactionRecordTx E userID amount currency w.
Proof. unfold create_prog, CreateTransactionRecordTx. alone_call. Qed.

Theorem charge_prog_alone userID amount currency w :
  alone (charge_prog E userID amount currency) w =
  ProcessCharge E (PR := sqlPaymentRepository E kv) (OR := sqlOutboxRepository E kv)
    userID amount currency w.
Proof.
  unfold charge_prog, ProcessCharge. destruct (amount <=? 0); [done|].
  apply alone_bind; [alone_call|]. intros [] w'. apply alone_on_err.
  apply alone_bind; [apply create_prog_alone|]. intros p w2. unfold stage_prog. alone_call.
Qed.

Theorem refund_prog_alone paymentID w :
  alone (refund_prog E paymentID) w = RefundTransactionRecord E paymentID w.
Proof. unfold refund_prog, RefundTransactionRecord, mark_prog. alone_call. Qed.

Theorem process_refund_alone paymentID w :
  alone (process_refund_prog E paymentID) w =
  ProcessRefund (PR := sqlPaymentRepository E kv) paymentID w.
Proof.
  unfold process_refund_prog, ProcessRefund. case_decide; [done|apply refund_prog_alone].
Qed.
End alone.

(** ** Rows, locks and views *)

Definition same_row (d d' : DB) (k : row) : Prop :=
  match k with
  | RUser u => users d' !! u = users d !! u
  | RPayment i => payments d' !! i = payments d !! i
  | ROutbox o =>
      List.filter (fun r => bool_decide (o_id r = o)) (outbox_events d') =
      List.filter (fun r => bool_decide (o_id r = o)) (outbox_events d)
  end.

Definition row_exists (d : DB) (k : row) : bool :=
  match k with
  | RUser u => bool_decide (is_Some (users d !! u))
  | RPayment i => bool_decide (is_Some (payments d !! i))
  | ROutbox o => existsb (fun r => bool_decide (o_id r = o)) (outbox_events d)
  end.

(** [d] with the row [k] as it is in [src]. *)
Definition put_row (src : DB) (k : row) (d : DB) : DB :=
  match k with
  | RUser u => set_users (partial_alter (fun _ => users src !! u) u (users d)) d
  | RPayment i => set_payments (partial_alter (fun _ => payments src !! i) i (payments d)) d
  | ROutbox o =>
      let new := List.filter (fun r => bool_decide (o_id r = o)) (outbox_events src) in
      set_outbox (if row_exists d k
                  then flat_map (fun r => if bool_decide (o_id r = o) then new else [r])
                         (outbox_events d)
                  else outbox_events d ++ new) d
  end.

(** The rows [ks] from [src], the others from [d]. *)
Definition merge (ks : list row) (src d : DB) : DB := foldr (put_row src) d ks.

(** The rows a statement has still to lock. *)
Definition wanted (l : locking) (u : uuid) (held : list row) (view : DB) : list row :=
  match l with
  | Existing ks => List.filter (fun k => row_exists view k && negb (bool_decide (k ∈ held))) ks
  | Inserted k => [k u]
  end.

(** ** Threads *)

(** The transaction of a thread: its start, its rows, the rows it has locked. *)
Inductive conn := Idle | Open (start : Z) (own : DB) (held : list row) | Broken.

Definition held_by (c : conn) : list row := match c with Open _ _ held => held | _ => [] end.

Record thread (A : Type) := mkThread { t_prog : prog A; t_conn : conn }.
Arguments mkThread {A} t_prog t_conn.
Arguments t_prog {A} t.
Arguments t_conn {A} t.

(** What a step was: a call that went well, one that failed, a commit with its answer
    delivered or lost, an event handed to the queue, which took its task or not. *)
Inductive outcome := Quiet | Lost | Committed (answered : bool)
  | Sent (ev : fetchedEvent) (taken : bool).

(** What a statement answers and leaves of its transaction. *)
Definition run_stmt {B} (l : locking) (q : stmt B) (u : uuid) (locked : uuid -> bool)
    (t : Z) (own : DB) (held : list row) (d : DB) : res B * conn :=
  let view := merge held own d in
  match q (mkStmtEnv t u locked) view with
  | Ok (b, own') => (Ok b, Open t own' (wanted l u held view ++ held))
  | Err e => (Err e, Broken)
  end.

(** A query that skips the rows [locked] by others. *)
Definition run_skip {B} (q : stmt B) (ks : B -> list row) (u : uuid) (locked : uuid -> bool)
    (t : Z) (own : DB) (held : list row) (d : DB) : res B * conn :=
  match q (mkStmtEnv t u locked) (merge held own d) with
  | Ok (b, own') => (Ok b, Open t own' (ks b ++ held))
  | Err e => (Err e, Broken)
  end.

(** [others] are the rows locked by the other threads. *)
Inductive thread_step {A} (others : list row) :
    DB * thread A -> outcome -> DB * thread A -> Prop :=
  | step_begin d k c t :
      thread_step others (d, mkThread (PBegin k) c) Quiet (d, mkThread (k (Ok tt)) (Open t d []))
  | step_begin_lost d k c e :
      thread_step others (d, mkThread (PBegin k) c) Lost (d, mkThread (k (Err e)) c)
  | step_stmt d B l (q : stmt B) k t own held u locked r c :
      (forall x, x ∈ wanted l u held (merge held own d) -> x ∉ others) ->
      run_stmt l q u locked t own held d = (r, c) ->
      thread_step others (d, mkThread (PStmt l q k) (Open t own held)) Quiet (d, mkThread (k r) c)
  | step_stmt_lost d B l (q : stmt B) k t own held e :
      thread_step others (d, mkThread (PStmt l q k) (Open t own held)) Lost
        (d, mkThread (k (Err e)) Broken)
  | step_stmt_broken d B l (q : stmt B) k :
      thread_step others (d, mkThread (PStmt l q k) Broken) Quiet
        (d, mkThread (k (Err ErrTxAborted)) Broken)
  | step_stmt_idle d B l (q : stmt B) k :
      thread_step others (d, mkThread (PStmt l q k) Idle) Quiet
        (d, mkThread (k (Err ErrTxDone)) Idle)
  | step_commit d k t own held :
      thread_step others (d, mkThread (PCommit k) (Open t own held)) (Committed true)
        (merge held own d, mkThread (k (Ok tt)) Idle)
  | step_commit_unanswered d k t own held e :
      thread_step others (d, mkThread (PCommit k) (Open t own held)) (Committed false)
        (merge held own d, mkThread (k (Err e)) Idle)
  | step_commit_lost d k t own held e :
      thread_step others (d, mkThread (PCommit k) (Open t own held)) Lost
        (d, mkThread (k (Err e)) Idle)
  | step_commit_broken d k :
      thread_step others (d, mkThread (PCommit k) Broken) Quiet
        (d, mkThread (k (Err ErrTxAborted)) Idle)
  | step_commit_idle d k :
      thread_step others (d, mkThread (PCommit k) Idle) Quiet (d, mkThread (k (Err ErrTxDone)) Idle)
  | step_rollback d p c :
      thread_step others (d, mkThread (PRollback p) c) Quiet (d, mkThread p Idle)
  | step_now d k c z :
      thread_step others (d, mkThread (PNow k) c) Quiet (d, mkThread (k z) c)
  | step_skip d B (q : stmt B) ks k t own held u r c :
      run_skip q ks u (fun o => bool_decide (ROutbox o ∈ others)) t own held d = (r, c) ->
      thread_step others (d, mkThread (PSkip q ks k) (Open t own held)) Quiet
        (d, mkThread (k r) c)
  | step_skip_lost d B (q : stmt B) ks k t own held e :
      thread_step others (d, mkThread (PSkip q ks k) (Open t own held)) Lost
        (d, mkThread (k (Err e)) Broken)
  | step_skip_broken d B (q : stmt B) ks k :
      thread_step others (d, mkThread (PSkip q ks k) Broken) Quiet
        (d, mkThread (k (Err ErrTxAborted)) Broken)
  | step_skip_idle d B (q : stmt B) ks k :
      thread_step others (d, mkThread (PSkip q ks k) Idle) Quiet
        (d, mkThread (k (Err ErrTxDone)) Idle)
  | step_next d k c :
      thread_step others (d, mkThread (PNext k) c) Quiet (d, mkThread (k true) c)
  | step_next_lost d k c :
      thread_step others (d, mkThread (PNext k) c) Lost (d, mkThread (k false) Broken)
  | step_enqueue d ev k c :
      thread_step others (d, mkThread (PEnqueue ev k) c) (Sent ev true) (d, mkThread (k (Ok tt)) c)
  | step_enqueue_failed d ev k c e taken :
      thread_step others (d, mkThread (PEnqueue ev k) c) (Sent ev taken)
        (d, mkThread (k (Err e)) c).

(** What else commits on the database: polls of the outbox, as single steps (their calls are
    in Pollers.v), and new merchants. *)
Inductive other_step (d : DB) : DB -> Prop :=
  | other_poll ts d' : outbox_moved ts d d' -> other_step d d'
  | other_user email b d' : user_created d email b d' -> other_step d d'.

(** The rows locked by the threads other than [i]. *)
Definition locked_by_others {A} (i : nat) (ts : list (thread A)) : list row :=
  mjoin (imap (fun j t => if decide (j = i) then [] else held_by (t_conn t)) ts).

Inductive label := Thread (i : nat) (o : outcome) | Other.

Inductive process_step : DB * list (thread Payment) -> label -> DB * list (thread Payment) -> Prop :=
  | process_thread d d' ts i t t' o :
      ts !! i = Some t ->
      thread_step (locked_by_others i ts) (d, t) o (d', t') ->
      process_step (d, ts) (Thread i o) (d', <[i := t']> ts)
  | process_other d d' ts : other_step d d' -> process_step (d, ts) Other (d', ts).

(** Runs, with their labels in order. *)
Inductive process_run (s : DB * list (thread Payment)) : list label -> DB * list (thread Payment) -> Prop :=
  | run_nil : process_run s [] s
  | run_snoc ls s1 l s2 :
      process_run s ls s1 -> process_step s1 l s2 -> process_run s (ls ++ [l]) s2.

Definition start (E : Env) (reqs : list request) : list (thread Payment) :=
  (fun rq => mkThread (prog_of E rq) Idle) <$> reqs.

(** The commits of a run, in order. *)
Definition commit_of (l : label) : option (nat * bool) :=
  match l with Thread i (Committed answered) => Some (i, answered) | _ => None end.
Definition commits (ls : list label) : list (nat * bool) := omap commit_of ls.

(** ** The serial reading *)

(** What a request does to the tables when it answers [p]. *)
Definition effect (E : Env) (rq : request) (p : Payment) (d d' : DB) : Prop :=
  match rq with
  | Charge userID amount currency => 0 < amount /\ charge_effect E d userID amount currency p d'
  | Refund paymentID => exists t, refunds E t d paymentID p d'
  end.

(** The requests [h] executed one after the other, with polls and new merchants in between. *)
Inductive serially (E : Env) (reqs : list request) (d0 : DB) : list (nat * Payment) -> DB -> Prop :=
  | serial_nil : serially E reqs d0 [] d0
  | serial_request h d i rq p d' :
      serially E reqs d0 h d -> reqs !! i = Some rq -> effect E rq p d d' ->
      serially E reqs d0 (h ++ [(i, p)]) d'
  | serial_other h d d' : serially E reqs d0 h d -> other_step d d' -> serially E reqs d0 h d'.

(** ** Rows under merging *)
Definition agree (ks : list row) (d d' : DB) : Prop := Forall (same_row d d') ks.

Lemma agree_trans ks d1 d2 d3 : agree ks d1 d2 -> agree ks d2 d3 -> agree ks d1 d3.
Proof.
  unfold agree. rewrite !Forall_forall. intros H1 H2 k Hk. specialize (H1 k Hk). specialize (H2 k Hk).
  destruct k; cbn in *; congruence.
Qed.

Lemma agree_refl ks d : agree ks d d.
Proof. apply Forall_forall. by intros [] _. Qed.

Lemma filter_id_app o l l' :
  List.filter (fun r => bool_decide (o_id r = o)) (l ++ l') =
  List.filter (fun r => bool_decide (o_id r = o)) l ++
  List.filter (fun r => bool_decide (o_id r = o)) l'.
Proof. apply List.filter_app. Qed.

Lemma put_row_other src d k x : x <> k -> same_row d (put_row src k d) x.
Proof.
  intros Hne. destruct k as [u|i|o], x as [v|j|q]; cbn; try done.
  - apply lookup_partial_alter_ne. congruence.
  - apply lookup_partial_alter_ne. congruence.
  - assert (q <> o) as Hq by congruence.
    set (new := List.filter _ (outbox_events src)).
    assert (List.filter (fun r => bool_decide (o_id r = q)) new = []) as Hnew.
    { apply filter_none, Forall_forall. intros r Hr.
      apply list_elem_of_In, List.filter_In in Hr as [_ Hr].
      apply bool_decide_eq_true in Hr. apply bool_decide_false. congruence. }
    destruct (existsb _ _); [|by rewrite filter_id_app, Hnew, app_nil_r].
    induction (outbox_events d) as [|r l IH]; [done|]. cbn [flat_map].
    rewrite filter_id_app, IH. case_bool_decide as Ho.
    + rewrite Hnew. cbn. by rewrite bool_decide_false by congruence.
    + cbn. by case_bool_decide.
Qed.

(** Rows that are not merged stay. *)
Lemma merge_other ks src d x : x ∉ ks -> same_row d (merge ks src d) x.
Proof.
  induction ks as [|k ks IH]; intros Hx; [by destruct x|]. cbn.
  apply not_elem_of_cons in Hx as [Hne Hx].
  pose proof (put_row_other src (merge ks src d) k x Hne) as H. specialize (IH Hx).
  destruct x; exact (eq_trans H IH).
Qed.

Lemma put_user src d u r :
  users src !! u = Some r -> put_row src (RUser u) d = set_users (<[u := r]> (users d)) d.
Proof. intros H. cbn. by rewrite H. Qed.

Lemma put_payment src d i r :
  payments src !! i = Some r -> put_row src (RPayment i) d = set_payments (<[i := r]> (payments d)) d.
Proof. intros H. cbn. by rewrite H. Qed.

Lemma filter_fresh o l :
  List.filter (fun x => bool_decide (o_id x = o)) l = [] -> Forall (fun r => o_id r <> o) l.
Proof.
  intros Hl. apply Forall_forall. intros x Hx Ho.
  assert (x ∈ List.filter (fun x => bool_decide (o_id x = o)) l) as Hin.
  { apply list_elem_of_In, List.filter_In. split; [by apply list_elem_of_In|by apply bool_decide_true]. }
  rewrite Hl in Hin. by apply not_elem_of_nil in Hin.
Qed.

Lemma put_outbox src d o r :
  List.filter (fun x => bool_decide (o_id x = o)) (outbox_events src) = [r] ->
  List.filter (fun x => bool_decide (o_id x = o)) (outbox_events d) = [] ->
  put_row src (ROutbox o) d = set_outbox (outbox_events d ++ [r]) d.
Proof.
  intros Hs Hd%filter_fresh. cbn. rewrite Hs. replace (existsb _ _) with false; [done|].
  induction Hd as [|x l Hx _ IH]; [done|]. cbn. by rewrite bool_decide_false.
Qed.

Lemma fresh_filter o l :
  Forall (fun r => o_id r <> o) l -> List.filter (fun x => bool_decide (o_id x = o)) l = [].
Proof. intros H. apply filter_none. eapply Forall_impl; [exact H|]. intros r. apply bool_decide_false. Qed.

(** ** Safe programs

    [rg p c done d]: from the committed tables [d], with the transaction [c], every continuation
    of [p] keeps to its request, whatever the others commit on rows it has not locked.  [done] is
    the payment of its commit and whether the commit was answered. *)

Definition row_uuid (k : row) : uuid := match k with RUser u | RPayment u | ROutbox u => u end.

(** Locks go up: payments before merchants. *)
Definition rank (k : row) : nat := match k with RPayment _ => 0 | RUser _ => 1 | ROutbox _ => 2 end.

Definition ascending (l : locking) (want held : list row) : Prop :=
  match l with
  | Existing _ => forall k h, k ∈ want -> h ∈ held -> (rank h < rank k)%nat
  | Inserted f => forall u, row_uuid (f u) = u
  end.

(** A locked merchant exists; a locked event is not committed yet. *)
Definition held_ok (d : DB) (k : row) : Prop :=
  match k with
  | RUser u => is_Some (users d !! u)
  | RPayment _ => True
  | ROutbox o => List.filter (fun r => bool_decide (o_id r = o)) (outbox_events d) = []
  end.

Section safe.
Context (E : Env) {UL : UuidLaws E} (rq : request).

Fixpoint rg (p : prog Payment) (c : conn) (done : option (Payment * bool)) (d : DB) : Prop :=
  forall d1, agree (held_by c) d d1 -> wf E d1 ->
  Forall (held_ok d1) (held_by c) /\
  match p with
  | PRet r =>
      held_by c = [] /\
      match r with Ok x => done = Some (x, true) | Err _ => forall x, done <> Some (x, true) end
  | PBegin k =>
      held_by c = [] /\ (forall t, rg (k (Ok tt)) (Open t d1 []) done d1) /\
      forall e, rg (k (Err e)) c done d1
  | PStmt l q k =>
      match c with
      | Open t own held =>
          (forall u locked, ascending l (wanted l u held (merge held own d1)) held /\
             rg (k (run_stmt l q u locked t own held d1).1) (run_stmt l q u locked t own held d1).2
               done d1) /\
          forall e, rg (k (Err e)) Broken done d1
      | _ => forall e, rg (k (Err e)) c done d1
      end
  | PCommit k =>
      match c with
      | Open t own held =>
          done = None /\ exists x, effect E rq x d1 (merge held own d1) /\
          rg (k (Ok tt)) Idle (Some (x, true)) (merge held own d1) /\
          (forall e, rg (k (Err e)) Idle (Some (x, false)) (merge held own d1)) /\
          forall e, rg (k (Err e)) Idle None d1
      | _ => forall e, rg (k (Err e)) Idle done d1
      end
  | PRollback p => rg p Idle done d1
  | PNow k => forall z, rg (k z) c done d1
  | PSkip _ _ _ | PNext _ | PEnqueue _ _ => False
  end.

#[local] Arguments rg : simpl never.

(** What the others commit elsewhere does not matter. *)
Lemma rg_agree p c done d d' : agree (held_by c) d d' -> rg p c done d -> rg p c done d'.
Proof.
  intros Hd H. destruct p; intros d1 Hd1; apply H; by eapply agree_trans.
Qed.

(** A program that only has to return its error. *)
Lemma rg_failed e c d : held_by c = [] -> rg (PRet (Err e)) c None d.
Proof. intros Hc d1 _ _. rewrite Hc. repeat split; by try constructor. Qed.

Lemma rg_unanswered e x d : rg (PRollback (PRet (Err e))) Idle (Some (x, false)) d.
Proof.
  intros d1 _ _. split; [constructor|]. intros d2 _ _. repeat split; [constructor|congruence].
Qed.

Lemma rg_answered x d : rg (PRet (Ok x)) Idle (Some (x, true)) d.
Proof. intros d1 _ _. repeat split; by try constructor. Qed.

Lemma rg_answered_rollback x d : rg (PRollback (PRet (Ok x))) Idle (Some (x, true)) d.
Proof. intros d1 _ _. split; [constructor|apply rg_answered]. Qed.

Lemma held_ok_agree ks d d' : agree ks d d' -> Forall (held_ok d) ks -> Forall (held_ok d') ks.
Proof.
  unfold agree. rewrite !Forall_forall. intros Ha Hk k Hin. specialize (Ha k Hin). specialize (Hk k Hin).
  destruct k; cbn in *; congruence.
Qed.

(** A program that rolls back and returns its error. *)
Lemma rg_abandon e c d : Forall (held_ok d) (held_by c) -> rg (PRollback (PRet (Err e))) c None d.
Proof.
  intros Hc d1 Hd1 _. split; [by eapply held_ok_agree|]. by apply rg_failed.
Qed.

(** A statement whose rows are still to be locked, in a transaction whose own rows are good. *)
Lemma rg_stmt {B} l (q : stmt B) k t own held done d :
  Forall (held_ok d) held ->
  (forall e d1, rg (k (Err e)) Broken done d1) ->
  (forall d1, agree held d d1 -> wf E d1 -> Forall (held_ok d1) held -> forall u,
     ascending l (wanted l u held (merge held own d1)) held /\
     forall locked b own', q (mkStmtEnv t u locked) (merge held own d1) = Ok (b, own') ->
       rg (k (Ok b)) (Open t own' (wanted l u held (merge held own d1) ++ held)) done d1) ->
  rg (PStmt l q k) (Open t own held) done d.
Proof.
  intros Hh He Hq d1 Hd1 Hwf. assert (Forall (held_ok d1) held) as Hh1 by (by eapply held_ok_agree).
  split; [done|]. split; [|auto]. intros u locked. destruct (Hq d1 Hd1 Hwf Hh1 u) as [Ha Hk].
  split; [done|]. unfold run_stmt. destruct (q _ _) as [[b own']|e] eqn:Hr; cbn; [by eapply Hk|auto].
Qed.

Lemma rg_commit k t own held d :
  Forall (held_ok d) held ->
  (forall d1, agree held d d1 -> wf E d1 -> exists x, effect E rq x d1 (merge held own d1) /\
     forall d2, rg (k (Ok tt)) Idle (Some (x, true)) d2) ->
  (forall e d1, rg (k (Err e)) Idle None d1) ->
  (forall e x d1, rg (k (Err e)) Idle (Some (x, false)) d1) ->
  rg (PCommit k) (Open t own held) None d.
Proof.
  intros Hh Hc He Hl d1 Hd1 Hwf. split; [by eapply held_ok_agree|]. split; [done|].
  destruct (Hc d1 Hd1 Hwf) as (x & Hx & Hk). exists x. auto.
Qed.
End safe.

#[global] Arguments rg : simpl never.
#[global] Arguments wanted : simpl never.

(** ** Charges and refunds are safe *)
Section requests.
Context (E : Env) {UL : UuidLaws E}.

Lemma add_balance_own delta userID u r q d d' :
  uuid_in E userID = Some u -> users d !! u = Some r ->
  Sql.add_balance E delta userID q d = Ok (tt, d') ->
  in_int64 (u_balance r + delta) = true /\
  d' = set_users (<[u := Sql.with_balance (u_balance r + delta) r]> (users d)) d.
Proof.
  intros Hu Hr. unfold Sql.add_balance, uuid_param. rewrite Hu. cbn. rewrite Hr. unfold bigint.
  destruct (in_int64 _); cbn; [|done]. by intros [= <-].
Qed.

Lemma insert_payment_own userID amount currency u t f lk d p d' :
  uuid_in E userID = Some u ->
  Sql.insert_payment E userID amount currency (mkStmtEnv t f lk) d = Ok (p, d') ->
  in_int64 amount = true /\ payments d !! f = None /\
  p = mkPayment (uuid_out E f) (uuid_out E u) amount currency "succeeded" t zero_time /\
  d' = set_payments (<[f := charge_row u amount currency t]> (payments d)) d.
Proof.
  intros Hu. unfold Sql.insert_payment, uuid_param. rewrite Hu. cbn. unfold bigint.
  destruct (in_int64 amount); cbn; [|done]. destruct (payments d !! f) eqn:Hf; [done|].
  destruct (users d !! u); [|done]. by intros [= <- <-].
Qed.

Lemma insert_outbox_own ai et payload t o lk d d' :
  insert_outbox "payment" ai et payload (mkStmtEnv t o lk) d = Ok (tt, d') ->
  Forall (fun r => o_id r <> o) (outbox_events d) /\
  d' = set_outbox (outbox_events d ++ [pending_row o "payment" ai et payload t]) d.
Proof.
  unfold insert_outbox, mbind, res_bind.
  destruct (varchar 50 "payment") eqn:H1; [|done]. apply varchar_ok in H1 as [_ ->].
  destruct (varchar 100 ai) eqn:H2; [|done]. apply varchar_ok in H2 as [_ ->].
  destruct (varchar 50 et) eqn:H3; [|done]. apply varchar_ok in H3 as [_ ->].
  destruct (fresh_in _ _) eqn:Hf; [|done]. apply fresh_in_spec in Hf. by intros [= <-].
Qed.

(** What a commit of a charge publishes. *)
Lemma merge_charge own d u f o r' row ev :
  users own !! u = Some r' -> payments own !! f = Some row ->
  List.filter (fun x => bool_decide (o_id x = o)) (outbox_events own) = [ev] ->
  List.filter (fun x => bool_decide (o_id x = o)) (outbox_events d) = [] ->
  merge [ROutbox o; RPayment f; RUser u] own d =
  set_outbox (outbox_events d ++ [ev])
    (set_payments (<[f := row]> (payments d)) (set_users (<[u := r']> (users d)) d)).
Proof.
  intros Hu Hf Ho Hd. unfold merge, foldr. rewrite (put_user _ _ _ _ Hu), (put_payment _ _ _ _ Hf).
  by rewrite (put_outbox _ _ _ ev).
Qed.

Lemma filter_snoc o (l : list OutboxRow) ev :
  Forall (fun r => o_id r <> o) l -> o_id ev = o ->
  List.filter (fun x => bool_decide (o_id x = o)) (l ++ [ev]) = [ev].
Proof.
  intros Hl He. rewrite filter_id_app, (fresh_filter _ _ Hl). cbn. by rewrite bool_decide_true.
Qed.

Lemma wanted_user (u x : uuid) held d r :
  users d !! u = Some r -> RUser u ∉ held -> wanted (Existing [RUser u]) x held d = [RUser u].
Proof.
  intros Hr Hn. unfold wanted. cbn. rewrite (bool_decide_true (is_Some _)) by eauto.
  by rewrite bool_decide_false.
Qed.

Lemma wanted_payment (i x : uuid) held d r :
  payments d !! i = Some r -> RPayment i ∉ held -> wanted (Existing [RPayment i]) x held d = [RPayment i].
Proof.
  intros Hr Hn. unfold wanted. cbn. rewrite (bool_decide_true (is_Some _)) by eauto.
  by rewrite bool_decide_false.
Qed.

Lemma wanted_held k (x : uuid) held d : k ∈ held -> wanted (Existing [k]) x held d = [].
Proof. intros Hk. unfold wanted. cbn. rewrite (bool_decide_true (k ∈ held)) by done. by rewrite andb_false_r. Qed.

(** The merchant's row [r] is locked and debited to [r'], the payment [f] is inserted. *)
Lemma stage_rg userID amount currency t own u f r d :
  0 < amount -> amount <= u_balance r -> uuid_in E userID = Some u ->
  in_int64 (u_balance r + - amount) = true -> in_int64 amount = true ->
  users d !! u = Some r -> users own !! u = Some (Sql.with_balance (u_balance r + - amount) r) ->
  payments d !! f = None -> payments own !! f = Some (charge_row u amount currency t) ->
  rg E (Charge userID amount currency)
    (p_rollback_on_err (stage_prog (mkPayment (uuid_out E f) (uuid_out E u) amount currency
       "succeeded" t zero_time))) (Open t own [RPayment f; RUser u]) None d.
Proof.
  intros Hpos Hle Hu Hb Ha Hr Hr' Hf Hf'.
  assert (forall d', agree [RPayment f; RUser u] d d' ->
    users d' !! u = Some r /\ payments d' !! f = None) as Hrows.
  { intros d' [H1 [H2 _]%Forall_cons]%Forall_cons. cbn in H1, H2. by rewrite H1, H2. }
  assert (Forall (held_ok d) [RPayment f; RUser u]) as Hok by (repeat constructor; by exists r).
  cbn. intros d1 Hd1 Hwf1. split; [by eapply held_ok_agree|]. intros now. cbn.
  apply rg_stmt; [by eapply held_ok_agree|intros; by apply rg_abandon|].
  intros d2 Hd2 Hwf2 Hok2 o. split; [done|]. intros lk [] own2 Hins. cbn.
  apply insert_outbox_own in Hins as [Hfresh ->].
  change (wanted (Inserted ROutbox) o ?h ?v ++ ?h) with [ROutbox o; RPayment f; RUser u].
  unfold merge, foldr in Hfresh |- *.
  rewrite (put_payment _ _ _ _ Hf'), (put_user _ _ _ _ Hr') in Hfresh |- *. cbn in Hfresh |- *.
  apply rg_commit.
  - constructor; [|done]. cbn. by apply fresh_filter.
  - intros d3 Hd3 _. destruct (Hrows d3) as [Hr3 Hf3].
    { eapply agree_trans; [exact Hd1|]. eapply agree_trans; [exact Hd2|]. by apply Forall_cons in Hd3 as [_ ?]. }
    assert (List.filter (fun x => bool_decide (o_id x = o)) (outbox_events d3) = []) as Ho3.
    { apply Forall_cons in Hd3 as [Ho _]. cbn in Ho. rewrite Ho. by apply fresh_filter. }
    eexists. split; [|intros; cbn; apply rg_answered].
    rewrite (merge_charge _ d3 u f o (Sql.with_balance (u_balance r - amount) r)
      (charge_row u amount currency t)
      (pending_row o "payment" (uuid_out E f) "payment.succeeded" (webhookPayload
        (mkPayment (uuid_out E f) (uuid_out E u) amount currency "succeeded" t zero_time) now) t)).
    + split; [done|]. eexists t, now, _. split; [by eapply charged_intro|].
      apply (staged_intro t (charge_db u r f amount currency t d3)). by apply filter_fresh.
    + cbn. by rewrite lookup_insert_eq.
    + cbn. by rewrite lookup_insert_eq.
    + cbn. by apply filter_snoc.
    + done.
  - intros. by apply rg_abandon.
  - intros. by apply rg_unanswered.
Qed.

(** The merchant's row is locked and debited. *)
Lemma insert_rg userID amount currency t own u r d :
  0 < amount -> amount <= u_balance r -> uuid_in E userID = Some u ->
  in_int64 (u_balance r + - amount) = true ->
  users d !! u = Some r -> users own !! u = Some (Sql.with_balance (u_balance r + - amount) r) ->
  rg E (Charge userID amount currency)
    (p_rollback_on_err (p_wrap_err "failed to register permanent payment record log: "
       (p_stmt (Inserted RPayment) (Sql.insert_payment E userID amount currency)) ≫= stage_prog))
    (Open t own [RUser u]) None d.
Proof.
  intros Hpos Hle Hu Hb Hr Hr'. cbn -[stage_prog].
  apply rg_stmt; [by repeat constructor; exists r|intros; by apply rg_abandon|].
  intros d1 Hd1 _ _ f. split; [done|]. intros lk p own1 Hins.
  destruct (insert_payment_own _ _ _ _ _ _ _ _ _ _ Hu Hins) as (Ha & Hf & -> & ->).
  apply Forall_cons in Hd1 as [Hd1 _]. cbn in Hd1. rewrite Hr in Hd1.
  change (wanted (Inserted RPayment) f ?h ?v ++ ?h) with [RPayment f; RUser u].
  unfold merge, foldr in Hf |- *. rewrite (put_user _ _ _ _ Hr') in Hf |- *.
  apply (stage_rg _ _ _ _ _ u f r); try done; cbn; by rewrite lookup_insert_eq.
Qed.

Lemma charge_rg userID amount currency d :
  rg E (Charge userID amount currency) (charge_prog E userID amount currency) Idle None d.
Proof.
  unfold charge_prog. destruct (amount <=? 0) eqn:Hpos; [by apply rg_failed|].
  apply Z.leb_gt in Hpos. intros d1 _ _. cbn [held_by]. split; [constructor|]. split; [done|].
  split; [intros t|intros e; by apply rg_failed].
  cbn -[stage_prog]. apply rg_stmt; [constructor|intros; by apply rg_abandon|].
  intros d2 _ Hwf2 _ u0. split; [intros k h _ Hin; by apply not_elem_of_nil in Hin|].
  intros lk b own' Hsel. cbn [merge foldr] in *.
  unfold Sql.balance_for_update, mbind, res_bind, uuid_param in Hsel. unfold user_row.
  destruct (uuid_in E userID) as [u|] eqn:Hu; [|done]. injection Hsel as <- <-.
  destruct (users d2 !! u) as [r|] eqn:Hr; cbn -[stage_prog].
  2:{ apply rg_abandon. unfold wanted. cbn. rewrite Hr, bool_decide_false; [constructor|by intros []]. }
  rewrite (wanted_user _ _ _ _ r Hr) by apply not_elem_of_nil. cbn -[stage_prog].
  assert (Forall (held_ok d2) [RUser u]) as Hok2 by (constructor; [by exists r|constructor]).
  destruct (u_balance r <? amount) eqn:Hle; cbn -[stage_prog]; [by apply rg_abandon|].
  apply Z.ltb_ge in Hle. apply rg_stmt; [done|intros; by apply rg_abandon|].
  intros d3 [Hd3 _]%Forall_cons _ _ u1. cbn in Hd3. rewrite Hr in Hd3.
  rewrite wanted_held by set_solver. split; [intros ???%not_elem_of_nil; done|].
  intros lk2 [] v2 Hdeb. unfold merge, foldr in Hdeb. rewrite (put_user _ _ _ _ Hr) in Hdeb.
  destruct (add_balance_own (- amount) userID u r (mkStmtEnv t u1 lk2)
    (set_users (<[u := r]> (users d3)) d3) v2 Hu (lookup_insert_eq _ _ _) Hdeb) as [Hb ->].
  apply (insert_rg _ _ _ _ _ u r); try done. cbn. by rewrite lookup_insert_eq.
Qed.

(** The rows a commit of a refund publishes. *)
Lemma merge_refund own d i v r' row :
  users own !! v = Some r' -> payments own !! i = Some row ->
  merge [RUser v; RPayment i] own d =
  set_users (<[v := r']> (users d)) (set_payments (<[i := row]> (payments d)) d).
Proof. intros Hv Hi. unfold merge, foldr. by rewrite (put_payment _ _ _ _ Hi), (put_user _ _ _ _ Hv). Qed.

(** Both rows are locked and the merchant [r] has the money back. *)
Lemma mark_rg paymentID t own i pr r d :
  uuid_in E paymentID = Some i -> pr_status pr = succeeded ->
  in_int64 (u_balance r + pr_amount pr) = true ->
  payments d !! i = Some pr -> payments own !! i = Some pr -> users d !! pr_user_id pr = Some r ->
  users own !! pr_user_id pr = Some (Sql.with_balance (u_balance r + pr_amount pr) r) ->
  rg E (Refund paymentID) (p_always_rollback (mark_prog E paymentID
      (mkPayment (uuid_out E i) (uuid_out E (pr_user_id pr)) (pr_amount pr) (pr_currency pr)
         (status_text (pr_status pr)) (pr_created_at pr) (pr_updated_at pr))))
    (Open t own [RUser (pr_user_id pr); RPayment i]) None d.
Proof.
  intros Hi Hs Hb Hp Hp' Hr Hr'. set (v := pr_user_id pr) in *.
  assert (Forall (held_ok d) [RUser v; RPayment i]) as Hok by (repeat constructor; by exists r).
  cbn. apply rg_stmt; [done|intros; by apply rg_abandon|].
  intros d1 Hd1 _ Hok1 u1. unfold payment_row. rewrite Hi, wanted_held by set_solver.
  split; [intros ???%not_elem_of_nil; done|]. intros lk row own1 Hm. cbn.
  unfold merge, foldr in Hm. rewrite (put_payment _ _ _ _ Hp'), (put_user _ _ _ _ Hr') in Hm.
  unfold Sql.mark_refunded, mbind, res_bind, uuid_param in Hm. rewrite Hi in Hm. cbn in Hm.
  rewrite lookup_insert_eq in Hm. injection Hm as <- <-. cbn. apply rg_commit.
  - done.
  - intros d2 Hd2 _. pose proof (agree_trans _ _ _ _ Hd1 Hd2) as Hd.
    apply Forall_cons in Hd as [Hu [Hpd _]%Forall_cons]. cbn in Hu, Hpd. rewrite Hr in Hu. rewrite Hp in Hpd.
    eexists. split; [|intros; cbn; apply rg_answered_rollback].
    rewrite (merge_refund _ _ i v (Sql.with_balance (u_balance r + pr_amount pr) r)
      (Sql.with_status refunded t pr)); [|cbn; by rewrite lookup_insert_eq..].
    exists t. cbn. replace (set_users _ _) with (refund_db i pr t d2).
    { apply refunds_intro; [done..|]. fold v. rewrite Hu. by intros r0 [= <-]. }
    unfold refund_db, credit_db. fold v. by rewrite Hu.
  - intros. by apply rg_abandon.
  - intros. apply rg_unanswered.
Qed.

(** The payment [i] is locked and was charged; its state is written last. *)
Lemma credit_rg paymentID t own i pr d :
  uuid_in E paymentID = Some i -> pr_status pr = succeeded ->
  payments d !! i = Some pr -> payments own !! i = Some pr ->
  rg E (Refund paymentID)
    (PStmt (user_row E (uuid_out E (pr_user_id pr)))
       (Sql.credit_user E (pr_amount pr) (uuid_out E (pr_user_id pr)))
       (fun r => then_
          match match r with
                | Ok a => Ok a
                | Err e => Err (Wrapf "failed to return funds to user wallet balance: " e "")
                end with
          | Ok _ => mark_prog E paymentID (mkPayment (uuid_out E i) (uuid_out E (pr_user_id pr))
              (pr_amount pr) (pr_currency pr) (status_text (pr_status pr)) (pr_created_at pr)
              (pr_updated_at pr))
          | Err e => PRet (Err e)
          end (fun r => PRollback (PRet r)))) (Open t own [RPayment i]) None d.
Proof.
  intros Hi Hs Hpr Hpr'. set (v := pr_user_id pr).
  apply rg_stmt; [by repeat constructor|intros; by apply rg_abandon|].
  intros d1 Hd1 Hwf1 _ u1. apply Forall_cons in Hd1 as [Hd1 _]. cbn in Hd1. rewrite Hpr in Hd1.
  destruct (wf_owner _ _ Hwf1 i pr Hd1) as [r Hr]. fold v in Hr.
  unfold user_row. rewrite uuid_in_out.
  assert (users (merge [RPayment i] own d1) !! v = Some r) as Hrm by done.
  rewrite (wanted_user _ _ _ _ r Hrm) by (by intros ?%list_elem_of_singleton).
  split; [intros k h ->%list_elem_of_singleton ->%list_elem_of_singleton; cbn; lia|].
  intros lk [] own1 Hcr. unfold merge, foldr in Hcr. rewrite (put_payment _ _ _ _ Hpr') in Hcr.
  destruct (add_balance_own (pr_amount pr) (uuid_out E v) v r (mkStmtEnv t u1 lk)
    (set_payments (<[i := pr]> (payments d1)) d1) own1 (uuid_in_out v) Hr Hcr) as [Hb ->].
  cbn -[mark_prog]. apply (mark_rg _ _ _ i pr r); try done; cbn; by rewrite lookup_insert_eq.
Qed.

Lemma refund_rg paymentID d :
  rg E (Refund paymentID) (refund_prog E paymentID) Idle None d.
Proof.
  unfold refund_prog. intros d1 _ _. cbn [held_by]. split; [constructor|]. split; [done|].
  split; [intros t|intros e; by apply rg_failed].
  cbn -[mark_prog]. apply rg_stmt; [constructor|intros; by apply rg_abandon|].
  intros d2 _ Hwf2 _ u0. split; [intros k h _ Hin; by apply not_elem_of_nil in Hin|].
  intros lk row own' Hsel. cbn [merge foldr] in *.
  unfold Sql.payment_for_update, mbind, res_bind, uuid_param in Hsel. unfold payment_row.
  destruct (uuid_in E paymentID) as [i|] eqn:Hi; [|done]. injection Hsel as <- <-.
  destruct (payments d2 !! i) as [pr|] eqn:Hpr; cbn -[mark_prog].
  2:{ apply rg_abandon. unfold wanted. cbn. rewrite Hpr, bool_decide_false; [constructor|by intros []]. }
  rewrite (wanted_payment _ _ _ _ pr Hpr) by apply not_elem_of_nil. cbn -[mark_prog].
  rewrite refund_guard. case_bool_decide as Hs; cbn -[mark_prog]; [|apply rg_abandon; by constructor].
  by apply (credit_rg paymentID t d2 i pr).
Qed.
End requests.

(** ** Runs *)
Lemma elem_of_others {A} i (ts : list (thread A)) k :
  k ∈ locked_by_others i ts <->
  exists j t, j <> i /\ ts !! j = Some t /\ k ∈ held_by (t_conn t).
Proof.
  unfold locked_by_others. rewrite list_elem_of_join. setoid_rewrite elem_of_lookup_imap. split.
  - intros (l & Hk & j & t & -> & Hj). case_decide; [by apply not_elem_of_nil in Hk|]. eauto.
  - intros (j & t & Hne & Hj & Hk). exists (held_by (t_conn t)). split; [done|]. exists j, t.
    by rewrite decide_False.
Qed.

Section runs.
Context (E : Env) {UL : UuidLaws E}.

Lemma wanted_fresh l u held d k : k ∈ wanted l u held d ++ held -> k ∈ held \/ k ∈ wanted l u held d.
Proof. intros [H|H]%elem_of_app; auto. Qed.

(** One step of a thread that is safe. *)
Lemma thread_step_rg rq others d (t : thread Payment) o d' t' done :
  wf E d -> rg E rq (t_prog t) (t_conn t) done d -> thread_step others (d, t) o (d', t') ->
  (forall k, k ∈ held_by (t_conn t') -> k ∈ held_by (t_conn t) \/ k ∉ others) /\
  match o with
  | Committed b => done = None /\ exists x own, effect E rq x d d' /\
      rg E rq (t_prog t') (t_conn t') (Some (x, b)) d' /\ d' = merge (held_by (t_conn t)) own d
  | _ => d' = d /\ rg E rq (t_prog t') (t_conn t') done d
  end.
Proof.
  intros Hwf Hrg Hs. inversion Hs; subst; cbn [t_prog t_conn] in *;
    destruct (Hrg _ (agree_refl _ _) Hwf) as [_ H]; cbn in H; try contradiction.
  - split; [by intros x0 ?%not_elem_of_nil|]. split; [done|]. apply H.
  - split; [auto|]. split; [done|]. apply H.
  - destruct H as [H _]. specialize (H u locked) as [_ H].
    match goal with Hr : run_stmt _ _ _ _ _ _ _ _ = _ |- _ => rewrite Hr in H; unfold run_stmt in Hr end.
    split; [|done]. intros k' Hk'. destruct (q _ _) as [[b own']|e]; simplify_eq; cbn in Hk'.
    + apply elem_of_app in Hk' as [Hk'|Hk']; auto.
    + by apply not_elem_of_nil in Hk'.
  - destruct H as [_ H]. split; [by intros x0 ?%not_elem_of_nil|by split; [|apply H]].
  - split; [auto|]. by split; [|apply H].
  - split; [auto|]. by split; [|apply H].
  - destruct H as (Hd & x & Hx & Hk & _). split; [by intros x0 ?%not_elem_of_nil|].
    split; [done|]. exists x, own. split; [exact Hx|]. split; [exact Hk|reflexivity].
  - destruct H as (Hd & x & Hx & _ & Hk & _). split; [by intros x0 ?%not_elem_of_nil|].
    split; [done|]. exists x, own. split; [exact Hx|]. split; [exact (Hk e)|reflexivity].
  - destruct H as (Hd & x & Hx & _ & _ & Hk). subst. split; [by intros x0 ?%not_elem_of_nil|by split; [|apply Hk]].
  - split; [by intros x0 ?%not_elem_of_nil|by split; [|apply H]].
  - split; [by intros x0 ?%not_elem_of_nil|by split; [|apply H]].
  - split; [by intros x0 ?%not_elem_of_nil|by split; [|apply H]].
  - split; [auto|]. by split; [|apply H].
Qed.

Lemma rg_held_ok rq p c done d : wf E d -> rg E rq p c done d -> Forall (held_ok d) (held_by c).
Proof. intros Hwf H. destruct p; by destruct (H d (agree_refl _ _) Hwf). Qed.

Lemma effect_wf rq x d d' : wf E d -> effect E rq x d d' -> wf E d'.
Proof.
  intros Hwf. destruct rq; cbn; [intros [Hp Hx]; by eapply wf_charge|intros [t Hx]; by eapply wf_refund].
Qed.

Lemma other_wf d d' : wf E d -> other_step d d' -> wf E d'.
Proof. intros Hwf [ts d1 H|email b d1 H]; [by eapply wf_poll|by eapply wf_user]. Qed.

(** Polls and new merchants keep to rows that no charge or refund has locked. *)
Lemma other_agree ks d d' : other_step d d' -> Forall (held_ok d) ks -> agree ks d d'.
Proof.
  intros Ho Hk. apply Forall_forall. intros k Hin. rewrite Forall_forall in Hk. specialize (Hk k Hin).
  destruct Ho as [ts d1 (l & Hl & ->)|email b d1 [u now Hu _ _]]; destruct k as [v|i|o]; cbn in *; try done.
  - rewrite Hk. apply fresh_filter. apply filter_fresh in Hk.
    pose proof (outbox_moved_fmap o_id ts _ _ ltac:(done) Hl) as Hids.
    apply Forall_forall. intros r Hr <-. rewrite Forall_forall in Hk.
    assert (o_id r ∈ o_id <$> outbox_events d) as (x & Hx & Hxin)%list_elem_of_fmap.
    { rewrite <- Hids. by apply list_elem_of_fmap_2. }
    by apply (Hk x Hxin).
  - apply lookup_insert_ne. intros ->. rewrite Hu in Hk. by destruct Hk.
Qed.

(** The history of a run: who committed what, and whether the answer arrived. *)
Definition payments_of (h : list (nat * (Payment * bool))) : list (nat * Payment) :=
  (fun x => (x.1, x.2.1)) <$> h.
Definition answers_of (h : list (nat * (Payment * bool))) : list (nat * bool) :=
  (fun x => (x.1, x.2.2)) <$> h.

Record sound (reqs : list request) (d0 : DB) (h : list (nat * (Payment * bool)))
    (d : DB) (ts : list (thread Payment)) : Prop := mkSound {
  so_wf : wf E d;
  so_serial : serially E reqs d0 (payments_of h) d;
  so_once : NoDup (fst <$> h);
  so_thread : forall i t, ts !! i = Some t -> exists rq, reqs !! i = Some rq /\
    rg E rq (t_prog t) (t_conn t) ((list_to_map h : gmap nat (Payment * bool)) !! i) d;
  so_apart : forall i j t t' k, i <> j -> ts !! i = Some t -> ts !! j = Some t' ->
    k ∈ held_by (t_conn t) -> k ∉ held_by (t_conn t') }.

Lemma sound_start reqs d0 : wf E d0 -> sound reqs d0 [] d0 (start E reqs).
Proof.
  intros Hwf. constructor; [done|constructor|constructor| |].
  - intros i t Ht. unfold start in Ht. rewrite list_lookup_fmap in Ht.
    destruct (reqs !! i) as [rq|]; [|done]. injection Ht as <-. exists rq. split; [done|].
    destruct rq as [userID amount currency|paymentID]; cbn [t_prog t_conn prog_of].
    + by apply charge_rg.
    + unfold process_refund_prog. case_decide; [by apply rg_failed|by apply refund_rg].
  - intros i j t t' k _ Ht. unfold start in Ht. rewrite list_lookup_fmap in Ht.
    destruct (reqs !! i); [|done]. injection Ht as <-. by intros _ ?%not_elem_of_nil.
Qed.

(** The locks stay apart when a thread takes only rows that are free. *)
Lemma apart_insert {A} (ts : list (thread A)) i t t' :
  ts !! i = Some t ->
  (forall a b x y k, a <> b -> ts !! a = Some x -> ts !! b = Some y ->
     k ∈ held_by (t_conn x) -> k ∉ held_by (t_conn y)) ->
  (forall k, k ∈ held_by (t_conn t') -> k ∈ held_by (t_conn t) \/ k ∉ locked_by_others i ts) ->
  forall a b x y k, a <> b -> <[i := t']> ts !! a = Some x -> <[i := t']> ts !! b = Some y ->
     k ∈ held_by (t_conn x) -> k ∉ held_by (t_conn y).
Proof.
  intros Ht Hap Hnew a b x y k Hab Ha Hb Hk Hk'.
  assert (forall c z, c <> i -> <[i := t']> ts !! c = Some z -> k ∈ held_by (t_conn z) ->
    k ∉ held_by (t_conn t')) as Hone.
  { intros c z Hc Hz Hin Hin'. rewrite list_lookup_insert_ne in Hz by done.
    destruct (Hnew k Hin') as [Hold|Hfree]; [by apply (Hap c i z t k)|].
    apply Hfree, elem_of_others. eauto. }
  apply list_lookup_insert_Some in Ha as [(-> & <- & _)|[Hia Ha]].
  - apply (Hone b y); [done|done|done|done].
  - apply list_lookup_insert_Some in Hb as [(-> & <- & _)|[Hib Hb]].
    + apply (Hone a x); [done|by rewrite list_lookup_insert_ne|done|done].
    + by apply (Hap a b x y k).
Qed.

Lemma sound_step reqs d0 h d ts l d' ts' :
  sound reqs d0 h d ts -> process_step (d, ts) l (d', ts') ->
  exists h', sound reqs d0 (h ++ h') d' ts' /\ answers_of h' = commits [l].
Proof.
  intros [Hwf Hser Hone Hth Hap] Hs. inversion Hs as [? ? ? i t t' o Ht Hstep|? ? ? Ho]; subst.
  2:{ exists []. rewrite app_nil_r. split; [|done]. constructor; try done.
      - by eapply other_wf.
      - by eapply serial_other.
      - intros i t Ht. destruct (Hth i t Ht) as (rq & Hrq & Hrg). exists rq. split; [done|].
        eapply rg_agree; [|exact Hrg]. eapply other_agree; [done|]. by eapply rg_held_ok. }
  destruct (Hth i t Ht) as (rq & Hrq & Hrg).
  destruct (thread_step_rg _ _ _ _ _ _ _ _ Hwf Hrg Hstep) as [Hnew Hres].
  pose proof (apart_insert ts i t t' Ht Hap Hnew) as Hap'.
  destruct o as [| |b|ev taken].
  1,2,4: destruct Hres as [-> Hrg']; exists []; rewrite app_nil_r; split; [|done];
    (constructor; [done..| |exact Hap']); intros j u Hj;
    apply list_lookup_insert_Some in Hj as [(-> & <- & _)|[Hij Hj]]; [by exists rq|by apply Hth].
  destruct Hres as (Hnone & x & own & Hx & Hrg' & ->).
  assert (i ∉ h.*1) as Hi by (by eapply not_elem_of_list_to_map).
  exists [(i, (x, b))]. split; [|done]. constructor.
  - by eapply effect_wf.
  - unfold payments_of. rewrite fmap_app. by eapply serial_request.
  - rewrite fmap_app. apply NoDup_app. split; [done|]. split; [|apply NoDup_singleton].
    intros j Hj ->%list_elem_of_singleton. done.
  - intros j u Hj. rewrite list_to_map_snoc by done.
    apply list_lookup_insert_Some in Hj as [(-> & <- & _)|[Hij Hj]].
    + exists rq. split; [done|]. by rewrite lookup_insert_eq.
    + destruct (Hth j u Hj) as (rq' & Hrq' & Hrg2). exists rq'. split; [done|].
      rewrite lookup_insert_ne by done. eapply rg_agree; [|done].
      apply Forall_forall. intros k Hk. apply merge_other. intros Hk'. by apply (Hap i j t u k).
  - exact Hap'.
Qed.

Lemma process_run_sound reqs d0 ls d ts :
  wf E d0 -> process_run (d0, start E reqs) ls (d, ts) ->
  exists h, sound reqs d0 h d ts /\ answers_of h = commits ls.
Proof.
  intros Hwf Hrun. remember (d, ts) as s eqn:Heq. revert d ts Heq.
  induction Hrun as [|ls [d1 ts1] l s2 Hrun IH Hstep]; intros d ts Heq; subst.
  - injection Heq as <- <-. exists []. split; [by apply sound_start|done].
  - destruct (IH d1 ts1 eq_refl) as (h & Hh & Ha).
    destruct (sound_step _ _ _ _ _ _ _ _ Hh Hstep) as (h' & Hh' & Ha').
    exists (h ++ h'). split; [done|]. unfold answers_of, commits. rewrite fmap_app, omap_app.
    by f_equal.
Qed.

(** ** Progress *)

(** At most [n] calls until the program returns. *)
Fixpoint within {A} (n : nat) (p : prog A) {struct p} : Prop :=
  match p, n with
  | PRet _, _ => True
  | _, O => False
  | PBegin k, Datatypes.S n => forall r, within n (k r)
  | PStmt l q k, Datatypes.S n => forall r, within n (k r)
  | PCommit k, Datatypes.S n => forall r, within n (k r)
  | PRollback p, Datatypes.S n => within n p
  | PNow k, Datatypes.S n => forall z, within n (k z)
  | PSkip q ks k, Datatypes.S n => forall r, within n (k r)
  | PNext k, Datatypes.S n => forall b, within n (k b)
  | PEnqueue ev k, Datatypes.S n => forall r, within n (k r)
  end.

Definition thread_steps (ls : list label) : nat :=
  length (List.filter (fun l => match l with Thread _ _ => true | Other => false end) ls).

Lemma within_mono {A} (p : prog A) n m : within n p -> (n <= m)%nat -> within m p.
Proof.
  revert n m.
  induction p as [r|k IH|B l q k IH|k IH|p IH|k IH|B q ks k IH|k IH|ev k IH]; intros [|n] [|m] Hn Hle; cbn in *;
    try done; try lia; try (intros x; eapply IH; [apply Hn|lia]).
  eapply IH; [apply Hn|lia].
Qed.

Lemma within_then {A B} n m (p : prog A) (f : res A -> prog B) :
  within n p -> (forall r, within m (f r)) -> within (n + m) (then_ p f).
Proof.
  intros Hp Hf. revert n Hp.
  induction p as [r|k IH|C l q k IH|k IH|p IH|k IH|C q ks k IH|k IH|ev k IH];
    intros n Hp; cbn [then_].
  { eapply within_mono; [apply Hf|lia]. }
  all: destruct n as [|n]; [done|]; first [exact (IH n Hp) | exact (fun r => IH r n (Hp r))].
Qed.

Lemma within_bind {A B} n m (p : prog A) (k : A -> prog B) :
  within n p -> (forall a, within m (k a)) -> within (n + m) (p ≫= k).
Proof. intros Hp Hk. apply within_then; [done|]. intros [a|e]; [apply Hk|done]. Qed.

Lemma within_wrap {A} n pre (p : prog A) : within n p -> within n (p_wrap_err pre p).
Proof. intros Hp. rewrite <- (Nat.add_0_r n). by apply within_then. Qed.

Lemma within_scan {A} (x : option A) : within 0 (p_scan_row x).
Proof. by destruct x. Qed.

(** One call, its error wrapped. *)
Ltac one_call := by apply within_wrap.

Lemma within_charge userID amount currency : within 8 (charge_prog E userID amount currency).
Proof.
  unfold charge_prog. destruct (amount <=? 0); [done|].
  apply (within_bind 1 7); [one_call|]. intros []. apply (within_then 6 1); [|by intros []].
  apply (within_bind 3 3).
  - apply (within_bind 1 2).
    + apply within_wrap, (within_bind 1 0); [done|apply within_scan].
    + intros b. destruct (b <? amount); [done|]. apply (within_bind 1 1); [one_call|]. intros []. one_call.
  - intros p. apply (within_bind 1 2); [done|]. intros now. apply (within_bind 1 1); [one_call|].
    intros []. apply (within_bind 1 0); [one_call|done].
Qed.

Lemma within_refund paymentID : within 8 (refund_prog E paymentID).
Proof.
  apply (within_bind 1 7); [one_call|]. intros []. apply (within_then 6 1); [|done].
  apply (within_bind 1 5).
  - apply within_wrap, (within_bind 1 0); [done|apply within_scan].
  - intros p. destruct (_ && _); [done|]. apply (within_bind 1 4); [one_call|]. intros [].
    apply (within_bind 1 3).
    + apply within_wrap, (within_bind 1 0); [done|apply within_scan].
    + intros su. apply (within_bind 1 2); [one_call|done].
Qed.

Lemma within_request rq : within 8 (prog_of E rq).
Proof.
  destruct rq as [userID amount currency|paymentID]; cbn [prog_of]; [apply within_charge|].
  unfold process_refund_prog. case_decide; [done|apply within_refund].
Qed.

Lemma within_step {A} others d (t : thread A) o d' t' n :
  within n (t_prog t) -> thread_step others (d, t) o (d', t') ->
  exists m, n = Datatypes.S m /\ within m (t_prog t').
Proof.
  intros Hn Hs. destruct n as [|n]; inversion Hs; subst; cbn in Hn; try done;
    (exists n; split; [done|apply Hn]).
Qed.

(** A step without a failure. *)
Definition goes_on_at (s : DB * list (thread Payment)) (i : nat) : Prop :=
  exists o s', process_step s (Thread i o) s' /\ o <> Lost /\ o <> Committed false.

Definition goes_on (s : DB * list (thread Payment)) : Prop := exists i, goes_on_at s i.

Definition answered {A} (t : thread A) : bool := match t_prog t with PRet _ => true | _ => false end.

Lemma not_all_answered {A} (ts : list (thread A)) :
  forallb answered ts = false -> exists i t, ts !! i = Some t /\ answered t = false.
Proof. apply forallb_exists_false. Qed.

(** A thread can go on, or waits for a row above all those it holds. *)
Lemma goes_on_or_waits rq done d ts i t u :
  wf E d -> ts !! i = Some t -> rg E rq (t_prog t) (t_conn t) done d -> answered t = false ->
  (forall k, k ∈ locked_by_others i ts -> row_uuid k <> u) ->
  goes_on_at (d, ts) i \/
  exists k, k ∈ locked_by_others i ts /\ forall h, h ∈ held_by (t_conn t) -> (rank h < rank k)%nat.
Proof.
  intros Hwf Ht Hrg Ha Hu.
  assert (forall o d' t', thread_step (locked_by_others i ts) (d, t) o (d', t') -> o <> Lost ->
    o <> Committed false -> goes_on_at (d, ts) i) as Hgo.
  { intros o d' t' Hs H1 H2. exists o, (d', <[i := t']> ts). by split; [eapply process_thread|]. }
  destruct t as [[r|k|B l q k|k|p|k|B q ks k|k|ev k] c]; cbn in *; [done|..].
  - left. by eapply Hgo; [apply step_begin with (t := 0)|..].
  - destruct c as [|t own held|]; [left; by eapply Hgo; [apply step_stmt_idle|..]| |
      left; by eapply Hgo; [apply step_stmt_broken|..]].
    destruct (Hrg d (agree_refl _ _) Hwf) as [_ [Hq _]]. destruct (Hq u (fun _ => false)) as [Hasc _].
    destruct (decide (Exists (fun x => x ∈ locked_by_others i ts) (wanted l u held (merge held own d))))
      as [Hex|Hno].
    + right. apply Exists_exists in Hex as (x & Hx & Hin). exists x. split; [done|].
      intros h Hh. destruct l as [ks|f]; cbn in Hasc; [by apply Hasc|].
      apply list_elem_of_singleton in Hx as ->. exfalso. by apply (Hu _ Hin).
    + left. eapply Hgo; [eapply (step_stmt _ _ _ _ _ _ t own held u (fun _ => false))|done|done].
      * intros x Hx Hin. apply Hno, Exists_exists. eauto.
      * apply surjective_pairing.
  - destruct c as [|t own held|]; left; [by eapply Hgo; [apply step_commit_idle|..]
      |by eapply Hgo; [apply step_commit|..]|by eapply Hgo; [apply step_commit_broken|..]].
  - left. by eapply Hgo; [apply step_rollback|..].
  - left. by eapply Hgo; [apply step_now with (z := 0)|..].
  - by destruct (Hrg d (agree_refl _ _) Hwf).
  - by destruct (Hrg d (agree_refl _ _) Hwf).
  - by destruct (Hrg d (agree_refl _ _) Hwf).
Qed.

(** Following the waits goes up the ranks, so it ends at a thread that can go on: the first one
    or one that holds a row. *)
Lemma waits_end_at reqs d0 h d ts u :
  sound reqs d0 h d ts ->
  (forall j t k, ts !! j = Some t -> k ∈ held_by (t_conn t) -> row_uuid k <> u) ->
  forall n i t, ts !! i = Some t -> answered t = false ->
  (n = 3%nat \/ exists k, k ∈ held_by (t_conn t) /\ (n = 2 - rank k)%nat) ->
  exists j t', ts !! j = Some t' /\ (j = i \/ held_by (t_conn t') <> []) /\ goes_on_at (d, ts) j.
Proof.
  intros Hs Hu n. induction n as [n IH] using lt_wf_ind. intros i t Ht Ha Hn.
  destruct (so_thread _ _ _ _ _ Hs i t Ht) as (rq & _ & Hrg).
  destruct (goes_on_or_waits rq _ d ts i t u (so_wf _ _ _ _ _ Hs) Ht Hrg Ha) as [?|(k & Hk & Hup)].
  { intros k (j & t' & _ & Hj & Hk)%elem_of_others. by eapply Hu. }
  { exists i, t. auto. }
  apply elem_of_others in Hk as (j & t' & Hne & Hj & Hk).
  destruct (IH (2 - rank k)%nat) with j t' as (x & t2 & Hx & Hor & Hgo); [|done| |by eauto|].
  3:{ exists x, t2. split; [done|]. split; [|done]. right. destruct Hor as [->|?]; [|done].
      assert (t2 = t') as -> by congruence. intros Hnil. rewrite Hnil in Hk. by apply not_elem_of_nil in Hk. }
  - assert (rank k <= 2)%nat by (destruct k; cbn; lia).
    destruct Hn as [->|(k' & Hk' & ->)]; [lia|]. specialize (Hup k' Hk'). lia.
  - destruct (so_thread _ _ _ _ _ Hs j t' Hj) as (rq' & _ & Hrg'). unfold answered.
    destruct (t_prog t') as [r| | | | | | | |] eqn:Hp; try done.
    destruct (Hrg' d (agree_refl _ _) (so_wf _ _ _ _ _ Hs)) as [_ [Hh _]]. rewrite Hh in Hk.
    by apply not_elem_of_nil in Hk.
Qed.

Lemma waits_end reqs d0 h d ts u :
  sound reqs d0 h d ts ->
  (forall j t k, ts !! j = Some t -> k ∈ held_by (t_conn t) -> row_uuid k <> u) ->
  forall i t, ts !! i = Some t -> answered t = false -> goes_on (d, ts).
Proof.
  intros Hs Hu i t Ht Ha.
  destruct (waits_end_at _ _ _ _ _ u Hs Hu 3 i t Ht Ha) as (j & _ & _ & _ & H); [by left|by exists j].
Qed.

(** An answered thread and the history agree. *)
Lemma sound_answer reqs d0 h d ts i r c :
  sound reqs d0 h d ts -> ts !! i = Some (mkThread (PRet r) c) ->
  match r with
  | Ok p => (i, (p, true)) ∈ h
  | Err _ => forall p b, (i, (p, b)) ∈ h -> b = false
  end.
Proof.
  intros Hh Hi. destruct (so_thread _ _ _ _ _ Hh i _ Hi) as (rq & _ & Hrg).
  destruct (Hrg d (agree_refl _ _) (so_wf _ _ _ _ _ Hh)) as (_ & _ & Hr). destruct r as [p|e].
  - by apply elem_of_list_to_map_2.
  - intros p [|] Hin; [|done]. exfalso. apply (Hr p). apply elem_of_list_to_map_1; [apply Hh|done].
Qed.

(** The calls left, thread by thread, and the calls made add up. *)
Lemma sum_insert (ns : list nat) i n m :
  ns !! i = Some n -> (sum_list (<[i := m]> ns) + n = sum_list ns + m)%nat.
Proof.
  revert i. induction ns as [|x ns IH]; intros [|i] H; [done|done| |].
  - injection H as ->. change (m + sum_list ns + n = n + sum_list ns + m)%nat. lia.
  - specialize (IH i H).
    change (x + sum_list (<[i := m]> ns) + n = x + sum_list ns + m)%nat. lia.
Qed.

Lemma run_bounded reqs d0 ls d ts :
  process_run (d0, start E reqs) ls (d, ts) ->
  exists ns, Forall2 (fun n t => within n (t_prog t)) ns ts /\
    (sum_list ns + thread_steps ls = 8 * length reqs)%nat.
Proof.
  intros Hrun. remember (d, ts) as s eqn:Heq. revert d ts Heq.
  induction Hrun as [|ls [d1 ts1] l s2 Hrun IH Hstep]; intros d ts Heq; subst.
  - injection Heq as <- <-. exists (replicate (length reqs) 8%nat). split.
    + unfold start. apply Forall2_fmap_r, Forall2_same_length_lookup. rewrite length_replicate.
      split; [done|]. intros i n rq [-> _]%lookup_replicate _. apply within_request.
    + rewrite sum_list_replicate. unfold thread_steps. cbn [List.filter length]. lia.
  - destruct (IH d1 ts1 eq_refl) as (ns & Hns & Hsum).
    inversion Hstep as [? ? ? i t t' o Ht Hs|? ? ? Ho]; subst; unfold thread_steps in *;
      rewrite List.filter_app, length_app; cbn.
    + destruct (Forall2_lookup_r _ _ _ _ _ Hns Ht) as (n & Hn & Hw).
      destruct (within_step _ _ _ _ _ _ _ Hw Hs) as (m & -> & Hm). exists (<[i := m]> ns).
      split; [by apply Forall2_insert|]. pose proof (sum_insert ns i _ m Hn). lia.
    + exists ns. split; [done|]. lia.
Qed.
End runs.

(** C3: Concurrent charges and refunds are serializable.  However the calls of any number of
    charges and refunds interleave, with any calls failing and with polls and new merchants in
    between: the tables are those of running the requests that committed one after the other, in
    the order of their commits; a request that answered a payment is one of them, and one that
    answered an error is not, unless it was the answer of its commit that was lost. *)
Theorem concurrent_serializable (E : Env) `{!UuidLaws E} (reqs : list request) (d0 : DB)
    (ls : list label) (d : DB) (ts : list (thread Payment)) :
  wf E d0 -> process_run (d0, start E reqs) ls (d, ts) ->
  exists h, answers_of h = commits ls /\ NoDup (fst <$> h) /\
    serially E reqs d0 (payments_of h) d /\ wf E d /\
    forall i r c, ts !! i = Some (mkThread (PRet r) c) ->
      match r with
      | Ok p => (i, (p, true)) ∈ h
      | Err _ => forall p b, (i, (p, b)) ∈ h -> b = false
      end.
Proof.
  intros Hwf Hrun. destruct (process_run_sound E _ _ _ _ _ Hwf Hrun) as (h & Hh & Ha). exists h.
  split; [done|]. split; [apply Hh|]. split; [apply Hh|]. split; [apply Hh|].
  intros i r c Hi. by eapply (sound_answer E).
Qed.

Lemma serial_step E `{!UuidLaws E} rq p d d' : effect E rq p d d' -> db_step E 0 d d'.
Proof. destruct rq; [intros [H1 H2]; by eapply step_charge|intros [t H]; by eapply step_refund]. Qed.

Lemma other_is_step E d d' : other_step d d' -> exists funds, db_step E funds d d'.
Proof.
  intros [ts d1 H|email b d1 H]; eexists; [by eapply step_poll|by eapply step_user].
Qed.

(** The books: with [bs] the balances the new merchants brought, no other money came or went, and
    no wallet was overdrawn if none of these is negative. *)
Record booked (d0 : DB) (bs : list Z) (d : DB) : Prop := {
  bk_merchants : size (users d) = (size (users d0) + length bs)%nat;
  bk_total : total (ledger_of d) = total (ledger_of d0) + foldr Z.add 0 bs;
  bk_wallets : Forall (Z.le 0) bs -> no_overdraft d0 -> no_overdraft d }.

Lemma booked_step E d0 bs funds d d' :
  wf E d -> booked d0 bs d -> db_step E funds d d' -> exists bs', booked d0 bs' d'.
Proof.
  intros Hwf [Hsize Htotal Hno] Hs.
  pose proof (total_step _ _ _ (ledger_of_step E _ _ _ Hwf Hs)) as Ht.
  pose proof (no_overdraft_step E _ _ _ Hwf Hs) as Hn.
  destruct (db_step_users E _ _ _ Hwf Hs) as [[Heq ->]|Heq].
  - exists bs. split; [lia|lia|auto with lia].
  - exists (funds :: bs). split; cbn; [lia|lia|]. rewrite Forall_cons. intros [Hf Hbs] H0. auto.
Qed.

Lemma serial_booked E `{!UuidLaws E} reqs d0 h d :
  wf E d0 -> serially E reqs d0 h d -> wf E d /\ exists bs, booked d0 bs d.
Proof.
  intros Hwf Hs. induction Hs as [|h d i rq p d' _ [Hd [bs Hb]] _ Hx|h d d' _ [Hd [bs Hb]] Ho].
  - split; [done|]. exists []. split; cbn; [lia|lia|done].
  - apply (serial_step E) in Hx. split; [by eapply wf_step|by eapply booked_step].
  - split; [by eapply other_wf|]. destruct (other_is_step E _ _ Ho) as [funds Hx].
    by eapply booked_step.
Qed.

(** In a serial history a payment is refunded once. *)
Lemma serial_refund_once E `{!UuidLaws E} reqs d0 h d pid :
  wf E d0 -> serially E reqs d0 h d ->
  let mine x := exists paymentID, reqs !! x.1 = Some (Refund paymentID) /\ uuid_in E paymentID = Some pid in
  wf E d /\ (forall x, x ∈ h -> mine x -> is_refunded pid d) /\
  forall x y, x ∈ h -> y ∈ h -> mine x -> mine y -> x = y.
Proof.
  intros Hwf Hs mine.
  induction Hs as [|h d i rq p d' Hs (Hd & Href & Honce) Hi Hx|h d d' Hs (Hd & Href & Honce) Ho].
  - split; [done|]. split; [by intros x ?%not_elem_of_nil|by intros x y ?%not_elem_of_nil].
  - pose proof (serial_step E _ _ _ _ Hx) as Hstep. split; [by eapply wf_step|].
    assert (mine (i, p) -> is_refunded pid d' /\ forall x, x ∈ h -> ~ mine x) as Hnew.
    { intros (paymentID & Hi' & Hid). cbn in Hi'. rewrite Hi in Hi'. injection Hi' as ->.
      destruct Hx as [t [i' pr Hi' Hpr Hst _]]. assert (i' = pid) as -> by congruence. split.
      - exists (Sql.with_status refunded t pr). by rewrite payments_refund_db, lookup_insert_eq.
      - intros x Hx Hm. destruct (Href x Hx Hm) as (pr' & Hpr' & Hst'). congruence. }
    split.
    + intros x [Hx'| ->%list_elem_of_singleton]%elem_of_app Hm; [|by apply Hnew].
      eapply is_refunded_step; [done..|by eapply Href].
    + intros x y [Hx'| ->%list_elem_of_singleton]%elem_of_app
        [Hy'| ->%list_elem_of_singleton]%elem_of_app Hmx Hmy; [by apply Honce| | |done].
      * exfalso. by apply (proj2 (Hnew Hmy) x).
      * exfalso. by apply (proj2 (Hnew Hmx) y).
  - split; [by eapply other_wf|]. split; [|done]. intros x Hx Hm.
    destruct (other_is_step E _ _ Ho) as [funds Hstep]. eapply is_refunded_step; [done..|].
    by eapply Href.
Qed.

(** C6: A payment is refunded once, also by requests that run at the same time: of any number of
    refunds of one payment, interleaved with anything else, at most one commits. *)
Theorem concurrent_refund_once (E : Env) `{!UuidLaws E} (reqs : list request) (d0 : DB)
    (ls : list label) (d : DB) (ts : list (thread Payment)) (i j : nat) (a b : bool)
    (paymentID paymentID' : string) :
  wf E d0 -> process_run (d0, start E reqs) ls (d, ts) ->
  reqs !! i = Some (Refund paymentID) -> reqs !! j = Some (Refund paymentID') ->
  is_Some (uuid_in E paymentID) -> uuid_in E paymentID = uuid_in E paymentID' ->
  (i, a) ∈ commits ls -> (j, b) ∈ commits ls -> i = j.
Proof.
  intros Hwf Hrun Hi Hj [pid Hp] Hp' Ha Hb.
  destruct (process_run_sound E _ _ _ _ _ Hwf Hrun) as (h & Hh & Hans).
  destruct (serial_refund_once E _ _ _ _ pid Hwf (so_serial _ _ _ _ _ _ Hh)) as (_ & _ & Honce).
  rewrite <- Hans in Ha, Hb. apply list_elem_of_fmap in Ha as ([i' [p x]] & [= -> ->] & Ha).
  apply list_elem_of_fmap in Hb as ([j' [q y]] & [= -> ->] & Hb).
  pose proof (Honce (i', p) (j', q)) as H. cut ((i', p) = (j', q)); [congruence|]. apply H.
  - by apply (list_elem_of_fmap_2 (fun x => (x.1, x.2.1)) h (i', (p, x))).
  - by apply (list_elem_of_fmap_2 (fun x => (x.1, x.2.1)) h (j', (q, y))).
  - by exists paymentID.
  - exists paymentID'. split; [done|]. congruence.
Qed.

(** No deadlock.  In any state such a run reaches, as long as a request is not answered some
    request can go on without a failure (given that the server finds an identifier no open
    transaction has inserted); and no run makes more than eight calls per request. *)
Theorem no_deadlock (E : Env) `{!UuidLaws E} (reqs : list request) (d0 : DB) (ls : list label)
    (d : DB) (ts : list (thread Payment)) (u : uuid) :
  wf E d0 -> process_run (d0, start E reqs) ls (d, ts) ->
  (forall t k, t ∈ ts -> k ∈ held_by (t_conn t) -> row_uuid k <> u) ->
  (thread_steps ls <= 8 * length reqs)%nat /\
  (forallb answered ts = true \/ goes_on (d, ts)).
Proof.
  intros Hwf Hrun Hu. split.
  { destruct (run_bounded E _ _ _ _ _ Hrun) as (ns & _ & H). lia. }
  destruct (process_run_sound E _ _ _ _ _ Hwf Hrun) as (h & Hh & _).
  destruct (forallb answered ts) eqn:Hall; [by left|right].
  destruct (not_all_answered _ Hall) as (i & t & Ht & Ha).
  eapply (waits_end E _ _ _ _ _ u Hh); [|done|done].
  intros j t' k Hj Hk. eapply Hu; [|done]. by eapply list_elem_of_lookup_2.
Qed.

(** ** Witnesses: a scheduler that runs without failures *)

(** The next call of a thread, if it need not wait; the server draws [u] and the clocks say [z]. *)
Definition drive_thread {A} (others : list row) (d : DB) (t : thread A) (u : uuid) (z : Z) :
    option (outcome * (DB * thread A)) :=
  let next o d p c := Some (o, (d, mkThread p c)) in
  match t with
  | mkThread (PBegin k) c => next Quiet d (k (Ok tt)) (Open z d [])
  | mkThread (PStmt l q k) (Open t own held) =>
      if forallb (fun x => negb (bool_decide (x ∈ others))) (wanted l u held (merge held own d)) then
        next Quiet d (k (run_stmt l q u (fun _ => false) t own held d).1)
          (run_stmt l q u (fun _ => false) t own held d).2
      else None
  | mkThread (PStmt l q k) Broken => next Quiet d (k (Err ErrTxAborted)) Broken
  | mkThread (PCommit k) (Open t own held) =>
      next (Committed true) (merge held own d) (k (Ok tt)) Idle
  | mkThread (PCommit k) Broken => next Quiet d (k (Err ErrTxAborted)) Idle
  | mkThread (PRollback p) c => next Quiet d p Idle
  | mkThread (PNow k) c => next Quiet d (k z) c
  | mkThread (PSkip q ks k) (Open t own held) =>
      let '(r, c) := run_skip q ks u (fun o => bool_decide (ROutbox o ∈ others)) t own held d in
      next Quiet d (k r) c
  | mkThread (PNext k) c => next Quiet d (k true) c
  | mkThread (PEnqueue ev k) c => next (Sent ev true) d (k (Ok tt)) c
  | _ => None
  end.

Lemma drive_thread_ok {A} others d (t : thread A) u z o d' t' :
  drive_thread others d t u z = Some (o, (d', t')) -> thread_step others (d, t) o (d', t').
Proof.
  unfold drive_thread. destruct t as [[r|k|B l q k|k|p|k|B q ks k|k|ev k] c]; try done.
  - intros [= <- <- <-]. constructor.
  - destruct c as [|t own held|]; [done| |intros [= <- <- <-]; constructor].
    destruct (forallb _ _) eqn:Hw; [|done]. intros [= <- <- <-].
    eapply step_stmt; [|apply surjective_pairing]. rewrite forallb_forall in Hw.
    intros y Hy%list_elem_of_In. specialize (Hw y Hy).
    by apply negb_true_iff, bool_decide_eq_false in Hw.
  - destruct c; [done|..]; intros [= <- <- <-]; constructor.
  - intros [= <- <- <-]. constructor.
  - intros [= <- <- <-]. constructor.
  - destruct c as [|t own held|]; [done| |done]. destruct (run_skip _ _ _ _ _ _ _ _) eqn:Hr.
    intros [= <- <- <-]. by eapply step_skip.
  - intros [= <- <- <-]. constructor.
  - intros [= <- <- <-]. constructor.
Qed.

(** The next call of thread [i]. *)
Definition drive (s : DB * list (thread Payment)) (x : nat * uuid * Z) :
    option (outcome * (DB * list (thread Payment))) :=
  let '(i, u, z) := x in
  let '(d, ts) := s in
  t ← ts !! i;
  x ← drive_thread (locked_by_others i ts) d t u z;
  Some (x.1, (x.2.1, <[i := x.2.2]> ts)).

Lemma drive_ok s x o s' : drive s x = Some (o, s') -> process_step s (Thread x.1.1 o) s'.
Proof.
  destruct s as [d ts], x as [[i u] z]. unfold drive. cbn.
  destruct (ts !! i) as [t|] eqn:Hi; cbn; [|done].
  destruct (drive_thread _ _ _ _ _) as [[o' [d' t']]|] eqn:Hd; cbn; [|done]. intros [= <- <-].
  eapply process_thread; [done|]. by eapply drive_thread_ok.
Qed.

(** A schedule; calls that have to wait are left out. *)
Definition drive_all (xs : list (nat * uuid * Z)) (s : DB * list (thread Payment)) :
    list label * (DB * list (thread Payment)) :=
  foldl (fun a x => match drive a.2 x with
                    | Some (o, s') => (a.1 ++ [Thread x.1.1 o], s')
                    | None => a
                    end) ([], s) xs.

Lemma drive_all_ok xs s : process_run s (drive_all xs s).1 (drive_all xs s).2.
Proof.
  unfold drive_all. set (f := fun a x => _).
  assert (forall a, process_run s a.1 a.2 -> process_run s (foldl f a xs).1 (foldl f a xs).2) as H.
  { induction xs as [|x xs IH]; intros a Ha; [done|]. cbn [foldl]. apply IH. unfold f.
    destruct (drive a.2 x) as [[o s']|] eqn:Hd; [|done].
    eapply run_snoc; [done|]. by apply drive_ok. }
  apply H, run_nil.
Qed.

(** One merchant with 700 minor units. *)
Definition shop_db : DB := set_users {[ u0 := user_row0 ]} empty_db.

Lemma shop_db_wf : wf env0 shop_db.
Proof.
  unfold shop_db.
  constructor; unfold balances_int64; cbn; try (intros * H; by rewrite lookup_empty in H);
    try (by constructor).
  intros u r [<- <-]%lookup_singleton_Some. done.
Qed.

(** Two charges of one merchant at once, 300 and 500 of 700: both are in their transaction when
    the first locks the merchant; the second waits, then sees the new balance. *)
Definition rush : list request := [Charge (uuid_text u0) 300 "INR"; Charge (uuid_text u0) 500 "INR"].
Definition schedule : list (nat * uuid * Z) :=
  imap (fun n i => (i, count_uuid (n + 1), Z.of_nat n)) [0; 1; 0; 1; 1; 0; 0; 1; 0; 0; 0; 1; 1]%nat.
Definition rushed : list label * (DB * list (thread Payment)) := drive_all schedule (shop_db, start env0 rush).

Lemma concurrent_serializable_witness :
  u_balance <$> users rushed.2.1 !! u0 = Some 400 /\ forallb answered rushed.2.2 = true /\
  exists p, serially env0 rush shop_db [(0%nat, p)] rushed.2.1.
Proof.
  assert (u_balance <$> users rushed.2.1 !! u0 = Some 400) as H1 by (by vm_compute).
  assert (forallb answered rushed.2.2 = true) as H2 by (by vm_compute).
  assert (commits rushed.1 = [(0%nat, true)]) as H3 by (by vm_compute).
  revert H1 H2 H3. unfold rushed. generalize (drive_all_ok schedule (shop_db, start env0 rush)).
  destruct (drive_all schedule _) as [ls [d ts]]. cbn [fst snd]. intros Hrun H1 H2 H3.
  destruct (concurrent_serializable env0 rush shop_db ls d ts shop_db_wf Hrun) as
    (h & Hh & _ & Hs & _).
  rewrite H3 in Hh. destruct h as [|[i [p b]] [|]]; [done| |done]. injection Hh as -> ->.
  split; [exact H1|]. split; [exact H2|]. by exists p.
Defined.

(** In the middle of the rush the second charge waits; the first goes on. *)
Definition waiting : list label * (DB * list (thread Payment)) :=
  drive_all (take 5 schedule) (shop_db, start env0 rush).

Lemma no_deadlock_witness :
  thread_steps waiting.1 = 3%nat /\ goes_on waiting.2 /\
  drive waiting.2 (1%nat, count_uuid 9, 0) = None.
Proof.
  assert (thread_steps waiting.1 = 3%nat) as H1 by (by vm_compute).
  assert (forallb answered waiting.2.2 = false) as H2 by (by vm_compute).
  assert (match drive waiting.2 (1%nat, count_uuid 9, 0) with Some _ => false | None => true end = true)
    as H3 by (by vm_compute).
  assert (forallb (fun t => forallb (fun k => negb (bool_decide (row_uuid k = count_uuid 9)))
    (held_by (t_conn t))) waiting.2.2 = true) as H4 by (by vm_compute).
  revert H1 H2 H3 H4. unfold waiting.
  generalize (drive_all_ok (take 5 schedule) (shop_db, start env0 rush)).
  destruct (drive_all (take 5 schedule) _) as [ls [d ts]]. cbn [fst snd]. intros Hrun H1 H2 H3 H4.
  destruct (no_deadlock env0 rush shop_db ls d ts (count_uuid 9) shop_db_wf Hrun) as [_ [Hall|Hgo]].
  - intros t k Ht Hk. rewrite forallb_forall in H4. apply list_elem_of_In in Ht, Hk.
    specialize (H4 t Ht). rewrite forallb_forall in H4. specialize (H4 k Hk).
    by apply negb_true_iff, bool_decide_eq_false in H4.
  - congruence.
  - split; [exact H1|]. split; [exact Hgo|]. by destruct (drive (d, ts) _).
Defined.

(** Two refunds of one payment at once: the second waits for the first and is refused. *)
Definition steps_of (order : list nat) : list (nat * uuid * Z) :=
  imap (fun n i => (i, count_uuid (n + 1), Z.of_nat n)) order.
Definition one_charge : list label * (DB * list (thread Payment)) :=
  drive_all (steps_of (replicate 7 0%nat)) (shop_db, start env0 [Charge (uuid_text u0) 300 "INR"]).
Definition charged_db : DB := one_charge.2.1.
Definition twice : list request :=
  [Refund (uuid_text (count_uuid 4)); Refund (uuid_text (count_uuid 4))].
Definition refunded_run : list label * (DB * list (thread Payment)) :=
  drive_all (steps_of [0; 1; 0; 1; 0; 1; 0; 0; 1; 0; 1; 1; 1; 1]%nat) (charged_db, start env0 twice).

Lemma charged_db_wf : wf env0 charged_db.
Proof.
  unfold charged_db, one_charge.
  pose proof (drive_all_ok (steps_of (replicate 7 0%nat))
    (shop_db, start env0 [Charge (uuid_text u0) 300 "INR"])) as Hrun.
  destruct (drive_all _ _) as [ls [d ts]]. cbn [fst snd] in *.
  destruct (process_run_sound env0 _ _ _ _ _ shop_db_wf Hrun) as (h & Hh & _). apply Hh.
Qed.

Lemma concurrent_refund_once_witness :
  u_balance <$> users refunded_run.2.1 !! u0 = Some 700 /\
  (0%nat, true) ∈ commits refunded_run.1 /\ ~ (1%nat, true) ∈ commits refunded_run.1.
Proof.
  assert (u_balance <$> users refunded_run.2.1 !! u0 = Some 700) as H1 by (by vm_compute).
  assert (commits refunded_run.1 = [(0%nat, true)]) as H2 by (by vm_compute).
  revert H1 H2. unfold refunded_run.
  generalize (drive_all_ok (steps_of [0; 1; 0; 1; 0; 1; 0; 0; 1; 0; 1; 1; 1; 1]%nat)
    (charged_db, start env0 twice)).
  destruct (drive_all _ (charged_db, _)) as [ls [d ts]]. cbn [fst snd]. intros Hrun H1 H2.
  assert ((0%nat, true) ∈ commits ls) as H0 by (rewrite H2; by left).
  split; [exact H1|]. split; [exact H0|]. intros H3.
  pose proof (concurrent_refund_once env0 twice charged_db ls d ts 0 1 true true
    (uuid_text (count_uuid 4)) (uuid_text (count_uuid 4)) charged_db_wf Hrun eq_refl eq_refl
    ltac:(eexists; by vm_compute) eq_refl H0 H3) as H.
  discriminate H.
Defined.
