(* ===== verification/Pollers.v ===== *)
(** * Concurrent polls of the outbox

    Several servers poll one outbox.  Here [ProcessPendingEvents] is a program of Concurrent.v
    ([poll_prog_alone]), and the calls of any number of polls interleave with those of charges,
    refunds and new merchants ([shop_step]); [FOR UPDATE SKIP LOCKED] passes over the rows that
    other transactions have locked.  Such a run is, for the charges and refunds, a run of
    Concurrent.v ([polls_refine]). *)
From S2P Require Import Prelude Json GoTime Database Hex PaymentRepo OutboxRepo PaymentService.
From S2P Require Import OutboxWorker UserRepo Ledger Concurrent.

(** ** The program of a poll *)
Section programs.
Context (E : Env).

Definition event_row (ev : fetchedEvent) : locking :=
  Existing match uuid_in E (ev_ID ev) with Some o => [ROutbox o] | None => [] end.

(** One iteration of the dispatch loop. *)
Definition dispatch_prog (ev : fetchedEvent) : prog unit :=
  err ← PEnqueue ev (fun r => PRet (Ok r));
  now ← PNow (fun z => PRet (Ok z));
  let '(status, processedAt) :=
    match err with
    | Ok _ => ("PROCESSED", Some now)
    | Err _ => ("FAILED", None)
    end in
  p_stmt (event_row ev) (update_event E status processedAt (ev_ID ev)).

Fixpoint dispatch_all_prog (evs : list fetchedEvent) : prog unit :=
  match evs with
  | [] => mret tt
  | ev :: evs' => _ ← dispatch_prog ev; dispatch_all_prog evs'
  end.

(** [for rows.Next()] over the rows left, after the rows [acc]. *)
Fixpoint next_prog {A} (acc rows : list A) : prog (list A) :=
  match rows with
  | [] => PNext (fun _ => mret acc)
  | r :: rows' => PNext (fun more => if more then next_prog (acc ++ [r]) rows' else mret acc)
  end.

Definition rows_locked (rows : list OutboxRow) : list row := (fun r => ROutbox (o_id r)) <$> rows.

Definition poll_prog : prog unit :=
  _ ← PBegin PRet;
  p_always_rollback
    (rows ← PSkip select_pending rows_locked PRet;
     fetched ← next_prog [] rows;
     let events := scan_event E <$> fetched in
     if decide (events = []) then mret tt
     else
       _ ← dispatch_all_prog events;
       PCommit PRet).
End programs.

Section alone.
Context {kv : Type} (E : Env) {TQ : TaskQueue kv}.
Implicit Types (w : World kv).

Lemma alone_next {A} (acc rows : list A) w :
  alone E (next_prog acc rows) w =
  let '(r, w') := tx_rows_loop E rows w in
  (match r with Ok l => Ok (acc ++ l) | Err e => Err e end, w').
Proof.
  revert acc w. induction rows as [|r rows IH]; intros acc w; cbn.
  - destruct (tx_next E w) as [b w']. cbn. by rewrite app_nil_r.
  - destruct (tx_next E w) as [[|] w']; cbn; [|by rewrite app_nil_r].
    rewrite IH. unfold mbind, M_bind. destruct (tx_rows_loop E rows w') as [[l|e] w2]; [|done].
    cbn. by rewrite <- app_assoc.
Qed.

Lemma alone_dispatch_all evs w :
  alone E (dispatch_all_prog E evs) w = dispatch_all E evs w.
Proof.
  revert w. induction evs as [|ev evs IH]; intros w; [done|]. cbn [dispatch_all_prog dispatch_all].
  apply alone_bind; [|intros; apply IH]. unfold dispatch_prog, dispatch.
  apply alone_bind; [cbn; unfold observe; by destruct (EnqueueContext _ w)|]. intros err w1.
  apply alone_bind; [done|]. intros now w2. destruct err; apply alone_stmt.
Qed.

(** Run alone, the program is the function of the worker. *)
Theorem poll_prog_alone w : alone E (poll_prog E) w = ProcessPendingEvents E w.
Proof.
  unfold poll_prog, ProcessPendingEvents. apply alone_bind; [apply alone_begin|]. intros [] w1.
  apply alone_always, alone_bind; [cbn; by destruct (tx_stmt _ _ _)|]. intros rows w2.
  apply alone_bind.
  { rewrite alone_next. by destruct (tx_rows_loop E rows w2) as [[l|e] w3]. }
  intros fetched w3. cbv zeta. case_decide; [done|].
  apply alone_bind; [apply alone_dispatch_all|]. intros [] w4. apply alone_commit.
Qed.
End alone.

(** ** Polls among charges and refunds *)

(** The committed tables, the requests and the polls. *)
Record shop := mkShop { sh_db : DB; sh_requests : list (thread Payment);
                        sh_polls : list (thread unit) }.

Definition all_locked {A} (ts : list (thread A)) : list row :=
  mjoin ((fun t => held_by (t_conn t)) <$> ts).

Inductive shop_event := OfRequest (i : nat) (o : outcome) | OfPoll (i : nat) (o : outcome) | NewUser.

Inductive shop_step : shop -> shop_event -> shop -> Prop :=
  | shop_request d d' ts ps i t t' o :
      ts !! i = Some t ->
      thread_step (locked_by_others i ts ++ all_locked ps) (d, t) o (d', t') ->
      shop_step (mkShop d ts ps) (OfRequest i o) (mkShop d' (<[i := t']> ts) ps)
  | shop_poll d d' ts ps i t t' o :
      ps !! i = Some t ->
      thread_step (all_locked ts ++ locked_by_others i ps) (d, t) o (d', t') ->
      shop_step (mkShop d ts ps) (OfPoll i o) (mkShop d' ts (<[i := t']> ps))
  | shop_user d d' ts ps email b :
      user_created d email b d' -> shop_step (mkShop d ts ps) NewUser (mkShop d' ts ps).

Inductive shop_run (s : shop) : list shop_event -> shop -> Prop :=
  | shop_nil : shop_run s [] s
  | shop_snoc ls s1 l s2 :
      shop_run s ls s1 -> shop_step s1 l s2 -> shop_run s (ls ++ [l]) s2.

Definition open_shop (E : Env) (d : DB) (reqs : list request) (n : nat) : shop :=
  mkShop d (start E reqs) (replicate n (mkThread (poll_prog E) Idle)).

(** The events the polls handed to the queue, in order, and whether it took the task. *)
Definition sends (ls : list shop_event) : list (nat * (fetchedEvent * bool)) :=
  omap (fun l => match l with OfPoll i (Sent ev taken) => Some (i, (ev, taken)) | _ => None end) ls.

Definition sent_by (i : nat) (ls : list shop_event) : list (fetchedEvent * bool) :=
  omap (fun x => if decide (x.1 = i) then Some x.2 else None) (sends ls).

(** The tasks the queue took. *)
Definition taken (xs : list (fetchedEvent * bool)) : list Task :=
  omap (fun x => if x.2 : bool then Some (mkTask TypeWebhookRetryEvent (ev_Payload x.1)) else None) xs.

(** Poll [i] lost a call to the database. *)
Definition poll_lost (i : nat) (ls : list shop_event) : bool :=
  existsb (fun l => match l with OfPoll j Lost => bool_decide (j = i) | _ => false end) ls.

(** What the run is for the charges and refunds: a commit of a poll and a new merchant are steps of
    others, the other calls of a poll none. *)
Definition for_requests (ls : list shop_event) : list label :=
  omap (fun l => match l with
                 | OfRequest i o => Some (Thread i o)
                 | OfPoll _ (Committed _) | NewUser => Some Other
                 | OfPoll _ _ => None
                 end) ls.

Definition of_request (e : shop_event) : bool := match e with OfRequest _ _ => true | _ => false end.

(** The calls of the requests. *)
Lemma thread_steps_requests ls :
  thread_steps (for_requests ls) = length (List.filter of_request ls).
Proof.
  unfold thread_steps, for_requests. induction ls as [|e ls IH]; [done|].
  destruct e as [i o|i o|]; cbn; [by f_equal| |done]. by destruct o.
Qed.

(** ** One call, one goroutine *)

(** A goroutine that has ended makes no call. *)
Lemma answered_step {A} others d (t : thread A) o d' t' :
  thread_step others (d, t) o (d', t') -> answered t = false.
Proof. intros Hs. by inversion Hs; subst. Qed.

Lemma request_step x i o y :
  shop_step x (OfRequest i o) y ->
  sh_polls y = sh_polls x /\
  exists t t', sh_requests x !! i = Some t /\ answered t = false /\
    sh_requests y = <[i := t']> (sh_requests x).
Proof.
  intros Hs. inversion Hs as [d d' ts ps i' t t' o' Ht Hstep| |]; subst. split; [done|]. exists t, t'.
  split; [done|]. split; [by eapply answered_step|done].
Qed.

Lemma poll_call x i o y :
  shop_step x (OfPoll i o) y ->
  sh_requests y = sh_requests x /\
  exists t t', sh_polls x !! i = Some t /\ answered t = false /\ sh_polls y = <[i := t']> (sh_polls x).
Proof.
  intros Hs. inversion Hs as [|d d' ts ps i' t t' o' Ht Hstep|]; subst. split; [done|]. exists t, t'.
  split; [done|]. split; [by eapply answered_step|done].
Qed.

(** ** Events in the tables *)
Definition rows_of (o : uuid) (l : list OutboxRow) : list OutboxRow :=
  List.filter (fun r => bool_decide (o_id r = o)) l.

#[global] Arguments rows_of : simpl never.

Definition row_of (d : DB) (o : uuid) (r : OutboxRow) : Prop := rows_of o (outbox_events d) = [r].

Definition awaiting (d : DB) (o : uuid) : Prop := exists r, row_of d o r /\ o_status r = "PENDING".

Definition settled (d : DB) (o : uuid) : Prop :=
  exists r, r ∈ outbox_events d /\ o_id r = o /\ o_status r <> "PENDING".

Lemma elem_rows_of o l r : r ∈ rows_of o l <-> r ∈ l /\ o_id r = o.
Proof. unfold rows_of. by rewrite list_elem_of_In, filter_In, bool_decide_eq_true, <- list_elem_of_In. Qed.

Lemma row_of_in d o r : row_of d o r -> r ∈ outbox_events d /\ o_id r = o.
Proof. intros H. apply elem_rows_of. rewrite H. by apply list_elem_of_singleton. Qed.

Lemma row_of_unique d o r x : row_of d o r -> x ∈ outbox_events d -> o_id x = o -> x = r.
Proof.
  intros H Hx Ho. assert (x ∈ rows_of o (outbox_events d)) as Hin by (by apply elem_rows_of).
  rewrite H in Hin. by apply list_elem_of_singleton in Hin.
Qed.

Lemma awaiting_settled d o : awaiting d o -> settled d o -> False.
Proof.
  intros (r & Hr & Hp) (x & Hx & Ho & Hs). by rewrite (row_of_unique d o r x Hr Hx Ho) in Hs.
Qed.

Lemma row_of_intro d r :
  NoDup (o_id <$> outbox_events d) -> r ∈ outbox_events d -> row_of d (o_id r) r.
Proof.
  unfold row_of, rows_of. intros Hnd Hin. induction (outbox_events d) as [|x l IH]; [by apply not_elem_of_nil in Hin|].
  rewrite fmap_cons in Hnd. apply NoDup_cons in Hnd as [Hx Hnd]. cbn. apply elem_of_cons in Hin as [<-|Hin].
  - rewrite bool_decide_true by done. f_equal. apply filter_none, Forall_forall. intros y Hy.
    apply bool_decide_false. intros Heq. apply Hx. rewrite <- Heq. by apply list_elem_of_fmap_2.
  - rewrite bool_decide_false; [by apply IH|]. intros Heq. apply Hx. rewrite Heq.
    by apply list_elem_of_fmap_2.
Qed.

Lemma rows_of_mark o u s t l : rows_of o (mark u s t l) = mark u s t (rows_of o l).
Proof.
  unfold rows_of, mark. induction l as [|r l IH]; [done|]. cbn. rewrite IH.
  destruct (bool_decide (o_id r = u)) eqn:Hu, (bool_decide (o_id r = o)) eqn:Ho; cbn;
    rewrite ?Ho; cbn; by rewrite ?Hu.
Qed.

Lemma row_of_mark d o u s t r :
  row_of d o r ->
  row_of (set_outbox (mark u s t (outbox_events d)) d) o
    (if bool_decide (o = u) then with_outcome s t r else r).
Proof.
  intros H. destruct (row_of_in d o r H) as [_ <-]. unfold row_of in *. cbn [outbox_events set_outbox].
  rewrite rows_of_mark, H. cbn. by case_bool_decide.
Qed.

(** A row of [own] put in the place of its row in [d]. *)
Lemma put_row_of own d o r x :
  row_of d o r -> row_of own o x ->
  put_row own (ROutbox o) d =
  set_outbox (map (fun y => if bool_decide (o_id y = o) then x else y) (outbox_events d)) d.
Proof.
  intros Hr Hx. cbn. replace (existsb _ _) with true.
  - unfold row_of, rows_of in Hx. rewrite Hx. f_equal. induction (outbox_events d) as [|y l IH]; [done|].
    cbn. rewrite IH. by case_bool_decide.
  - symmetry. apply existsb_exists. apply row_of_in in Hr as [Hin Ho]. exists r.
    split; [by apply list_elem_of_In|by apply bool_decide_true].
Qed.

Lemma row_of_put own d o r x : row_of d o r -> row_of own o x -> row_of (put_row own (ROutbox o) d) o x.
Proof.
  intros Hr Hx. rewrite (put_row_of _ _ _ r x) by done. apply row_of_in in Hx as [_ Hx].
  unfold row_of, rows_of in *. cbn. revert Hr.
  assert (forall l, List.filter (fun y => bool_decide (o_id y = o))
    (map (fun y => if bool_decide (o_id y = o) then x else y) l) =
    map (fun _ => x) (List.filter (fun y => bool_decide (o_id y = o)) l)) as Heq.
  { induction l as [|y l IH]; [done|]. cbn. rewrite IH. destruct (decide (o_id y = o)) as [Hy|Hy].
    - rewrite (bool_decide_true _ Hy). cbn. by rewrite (bool_decide_true _ Hx).
    - rewrite (bool_decide_false _ Hy). cbn. by rewrite (bool_decide_false _ Hy). }
  rewrite Heq. by intros ->.
Qed.

(** A transaction sees its own version of the rows it has locked. *)
Lemma row_of_merge own d ks o r x :
  ROutbox o ∈ ks -> row_of d o r -> row_of own o x -> row_of (merge ks own d) o x.
Proof.
  intros Hin Hr Hx. induction ks as [|k ks IH]; [by apply not_elem_of_nil in Hin|].
  change (row_of (put_row own k (merge ks own d)) o x).
  destruct (decide (ROutbox o ∈ ks)) as [Hks|Hks].
  - specialize (IH Hks). destruct (decide (k = ROutbox o)) as [->|Hne]; [by eapply row_of_put|].
    pose proof (put_row_other own (merge ks own d) k (ROutbox o)) as H. cbn in H.
    unfold row_of, rows_of in *. rewrite H; [done|congruence].
  - apply elem_of_cons in Hin as [<-|Hin]; [|done]. apply (row_of_put _ _ _ r); [|done].
    pose proof (merge_other ks own d (ROutbox o) Hks) as H. cbn in H. unfold row_of, rows_of in *. by rewrite H.
Qed.

(** Publishing rows that moved is a move of the outbox. *)
Lemma outbox_moved_merge ts own d ks :
  Forall (fun k => exists o r x, k = ROutbox o /\ row_of d o r /\ row_of own o x /\ row_moved ts r x) ks ->
  outbox_moved ts d (merge ks own d).
Proof.
  induction 1 as [|k ks (o & r & x & -> & Hr & Hx & Hm) _ (l & Hl & IH)]; [apply outbox_moved_refl|].
  cbn [merge foldr]. change (foldr (put_row own) d ks) with (merge ks own d).
  assert (exists r', row_of (merge ks own d) o r') as [r' Hr'].
  { destruct (decide (ROutbox o ∈ ks)) as [Hin|Hin]; [exists x; by eapply row_of_merge|].
    exists r. pose proof (merge_other ks own d (ROutbox o) Hin) as H. cbn in H.
    unfold row_of, rows_of in *. by rewrite H. }
  rewrite (put_row_of _ _ _ r' x) by done. rewrite IH. cbn.
  eexists. split; [|by destruct d]. apply Forall2_fmap_r.
  apply Forall2_same_length_lookup_2; [by eapply Forall2_length|].
  intros i y y' Hy Hy'. pose proof (Forall2_lookup_lr _ _ _ _ _ _ Hl Hy Hy') as Hyy. cbn.
  assert (o_id y' = o_id y) as Hid by by destruct Hyy. rewrite Hid.
  case_bool_decide as Ho; [|done]. assert (y = r) as ->; [|done].
  apply (row_of_unique d o); [done|by eapply list_elem_of_lookup_2|done].
Qed.

(** ** Safe polls

    [tame] programs open no transaction, [quiet] ones do nothing any more.  [rp p t own held sent d]:
    from the committed tables [d], in the open transaction with the rows [own], every continuation of
    [p] without a lost call hands an event to the queue only while it is pending and locked, and once;
    what it commits is a move of the outbox that settles every event it handed over. *)
Fixpoint quiet_prog {A} (p : prog A) : Prop :=
  match p with PRet _ => True | PRollback p => quiet_prog p | _ => False end.

Fixpoint tame {A} (p : prog A) : Prop :=
  match p with
  | PRet _ => True
  | PBegin _ => False
  | PStmt _ _ k => forall r, tame (k r)
  | PCommit k => forall r, tame (k r)
  | PRollback p => tame p
  | PNow k => forall z, tame (k z)
  | PSkip _ _ k => forall r, tame (k r)
  | PNext k => forall b, tame (k b)
  | PEnqueue _ k => forall r, tame (k r)
  end.

Lemma quiet_tame {A} (p : prog A) : quiet_prog p -> tame p.
Proof. induction p; cbn; try done. Qed.

Lemma tame_then {A B} (p : prog A) (f : res A -> prog B) :
  tame p -> (forall r, tame (f r)) -> tame (then_ p f).
Proof.
  intros Hp Hf. induction p as [r|k IH|C l q k IH|k IH|p IH|k IH|C q ks k IH|k IH|ev k IH]; cbn in *;
    [apply Hf|done|..]; first [exact (IH Hp)|intros; by apply IH].
Qed.

Lemma tame_bind {A B} (p : prog A) (k : A -> prog B) :
  tame p -> (forall a, tame (k a)) -> tame (p ≫= k).
Proof. intros Hp Hk. apply tame_then; [done|]. intros [a|e]; [apply Hk|done]. Qed.

(** The event of a send is locked. *)
Definition sent_held (E : Env) (held : list row) (x : fetchedEvent * bool) : Prop :=
  exists o, ev_ID x.1 = uuid_out E o /\ ROutbox o ∈ held.

(** A poll locks events only, and hands over only events it has locked. *)
Definition locks_events (E : Env) (held : list row) (sent : list (fetchedEvent * bool)) : Prop :=
  Forall (fun k => exists o, k = ROutbox o) held /\ Forall (sent_held E held) sent.

Definition sent_settled (E : Env) (d : DB) (x : fetchedEvent * bool) : Prop :=
  exists o, ev_ID x.1 = uuid_out E o /\ settled d o.

Section safe.
Context (E : Env) {UL : UuidLaws E}.

Fixpoint rp (p : prog unit) (t : Z) (own : DB) (held : list row)
    (sent : list (fetchedEvent * bool)) (d : DB) : Prop :=
  forall d1, agree held d d1 -> wf E d1 ->
  locks_events E held sent /\
  match p with
  | PStmt l q k =>
      (forall u locked, wanted l u held (merge held own d1) = [] /\
         exists b own', q (mkStmtEnv t u locked) (merge held own d1) = Ok (b, own') /\
           rp (k (Ok b)) t own' held sent d1) /\
      forall e, tame (k (Err e))
  | PSkip q ks k =>
      (forall u locked, exists b own', q (mkStmtEnv t u locked) (merge held own d1) = Ok (b, own') /\
         (forall x, x ∈ ks b -> exists o, x = ROutbox o /\ locked o = false) /\
         rp (k (Ok b)) t own' (ks b ++ held) sent d1) /\
      forall e, tame (k (Err e))
  | PNext k => rp (k true) t own held sent d1 /\ tame (k false)
  | PNow k => forall z, rp (k z) t own held sent d1
  | PEnqueue ev k =>
      (exists o, ev_ID ev = uuid_out E o /\ ROutbox o ∈ held /\ awaiting d1 o) /\
      (ev_ID ev ∉ ((fun x => ev_ID x.1) <$> sent)) /\
      forall r b, (is_ok r = true -> b = true) -> rp (k r) t own held (sent ++ [(ev, b)]) d1
  | PCommit k =>
      outbox_moved (taken sent) d1 (merge held own d1) /\
      Forall (sent_settled E (merge held own d1)) sent /\ forall r, quiet_prog (k r)
  | PRollback p => quiet_prog p /\ sent = []
  | PRet _ | PBegin _ => False
  end.

#[local] Arguments rp : simpl never.

Lemma rp_agree p t own held sent d d' :
  agree held d d' -> rp p t own held sent d -> rp p t own held sent d'.
Proof. intros Hd H. destruct p; intros d1 Hd1; apply H; by eapply agree_trans. Qed.

(** ** Polls are safe *)

(** In the batch [held] the events [todo] are still to be handed over; the others moved. *)
Record in_batch (d own : DB) (held : list row) (sent : list (fetchedEvent * bool))
    (todo : list OutboxRow) : Prop := mkInBatch {
  ib_rows : Forall (fun k => exists o r x, k = ROutbox o /\ row_of d o r /\ o_status r = "PENDING" /\
      row_of own o x /\ (x = r \/ o_status x <> "PENDING" /\ row_moved (taken sent) r x)) held;
  ib_todo : Forall (fun r => ROutbox (o_id r) ∈ held /\ o_status r = "PENDING" /\ row_of own (o_id r) r /\
      uuid_out E (o_id r) ∉ ((fun x => ev_ID x.1) <$> sent)) todo;
  ib_ids : NoDup (o_id <$> todo);
  ib_sent : Forall (fun x => exists o r, ev_ID x.1 = uuid_out E o /\ ROutbox o ∈ held /\
      row_of own o r /\ o_status r <> "PENDING") sent }.

Lemma agree_row d d' held o r : agree held d d' -> ROutbox o ∈ held -> row_of d o r -> row_of d' o r.
Proof.
  unfold agree. rewrite Forall_forall. intros Ha Hin Hr. specialize (Ha _ Hin). cbn in Ha.
  unfold row_of, rows_of in *. congruence.
Qed.

Lemma in_batch_agree d d' own held sent todo :
  agree held d d' -> in_batch d own held sent todo -> in_batch d' own held sent todo.
Proof.
  intros Ha [Hr Ht Hi Hs]. constructor; [|done..]. apply Forall_forall. intros k Hk.
  rewrite Forall_forall in Hr. destruct (Hr k Hk) as (o & r & x & -> & Hro & H). exists o, r, x.
  split; [done|]. split; [by eapply agree_row|done].
Qed.

Lemma in_batch_sent d own held sent todo :
  in_batch d own held sent todo -> locks_events E held sent.
Proof.
  intros [Hr _ _ H]. split; [eapply Forall_impl; [exact Hr|]; by intros k (o & r & x & -> & _); exists o|].
  eapply Forall_impl; [exact H|]. intros x (o & r & Ho & Hk & _). by exists o.
Qed.

Lemma taken_app xs ys : taken (xs ++ ys) = taken xs ++ taken ys.
Proof. apply omap_app. Qed.

(** The next event is handed over and its row marked. *)
Lemma in_batch_next d own held sent r todo status t (b : bool) own' :
  in_batch d own held sent (r :: todo) ->
  own' = merge held own d ->
  status = "FAILED" \/ status = "PROCESSED" /\ b = true ->
  in_batch d (set_outbox (mark (o_id r) status t (outbox_events own')) own') held
    (sent ++ [(scan_event E r, b)]) todo.
Proof.
  intros [Hr [(Hin & Hpend & Hown & Hnew) Ht]%Forall_cons [Hid Hnd]%NoDup_cons Hs] -> Hst.
  assert (status <> "PENDING") as Hne by (by destruct Hst as [->|[-> _]]).
  assert (forall o x, ROutbox o ∈ held -> row_of own o x ->
    row_of (set_outbox (mark (o_id r) status t (outbox_events (merge held own d))) (merge held own d)) o
      (if bool_decide (o = o_id r) then with_outcome status t x else x)) as Hmark.
  { intros o x Ho Hx. apply row_of_mark. rewrite Forall_forall in Hr.
    destruct (Hr _ Ho) as (o' & r' & x' & [= <-] & Hr' & _). by eapply row_of_merge. }
  constructor; [| |done|].
  - apply Forall_forall. intros k Hk. rewrite Forall_forall in Hr.
    destruct (Hr k Hk) as (o & r0 & x & -> & Hr0 & Hp & Hx & Hmv).
    exists o, r0, (if bool_decide (o = o_id r) then with_outcome status t x else x).
    split; [done|]. split; [done|]. split; [done|]. split; [by apply Hmark|].
    rewrite taken_app. case_bool_decide as Ho.
    + subst o. assert (x = r) as -> by (unfold row_of in *; congruence). right. split; [done|].
      destruct Hmv as [->|[Hp' _]]; [|done].
      destruct Hst as [->|[-> ->]]; constructor; [done..|]. set_solver.
    + destruct Hmv as [->|[? Hmv]]; [by left|right]. split; [done|]. by apply row_moved_mono.
  - apply Forall_forall. intros y Hy. rewrite Forall_forall in Ht. destruct (Ht y Hy) as (Hk & Hpy & Hy' & Hn).
    assert (o_id y <> o_id r) as Hyr.
    { intros Heq. apply Hid. rewrite <- Heq. by apply list_elem_of_fmap_2. }
    split; [done|]. split; [done|]. split.
    + pose proof (Hmark _ _ Hk Hy') as H. by rewrite bool_decide_false in H.
    + rewrite fmap_app. intros [H|H%list_elem_of_singleton]%elem_of_app; [done|].
      cbn in H. apply Hyr. pose proof (uuid_in_out (E := E) (o_id y)) as H1. rewrite H, uuid_in_out in H1. congruence.
  - apply Forall_app. split.
    + eapply Forall_impl; [exact Hs|]. intros x (o & r0 & Ho & Hk & Hr0 & Hp). eexists o, _.
      split; [done|]. split; [done|]. split; [by apply Hmark|]. by case_bool_decide.
    + constructor; [|constructor]. eexists (o_id r), _. split; [done|]. split; [done|].
      split; [by apply Hmark|]. by rewrite bool_decide_true.
Qed.

Lemma update_event_does status t o q d :
  status = "FAILED" \/ status = "PROCESSED" ->
  update_event E status t (uuid_out E o) q d = Ok (tt, set_outbox (mark o status t (outbox_events d)) d).
Proof. unfold update_event, uuid_param. rewrite uuid_in_out. by intros [ -> | -> ]. Qed.

(** The end of a poll: the transaction ends whatever the outcome. *)
Definition dispatch_rest (evs : list fetchedEvent) : prog unit :=
  p_always_rollback (_ ← dispatch_all_prog E evs; PCommit PRet).

Lemma tame_dispatch_all evs : tame (dispatch_all_prog E evs).
Proof.
  induction evs as [|ev evs IH]; [done|]. apply tame_bind; [|done].
  apply tame_bind; [done|]. intros err. apply tame_bind; [done|]. intros now.
  by destruct err.
Qed.

Lemma tame_rest evs : tame (dispatch_rest evs).
Proof.
  apply tame_then; [|done]. by apply tame_bind; [apply tame_dispatch_all|].
Qed.

(** With no event left the commit settles the batch. *)
Lemma commit_rp t own held sent d :
  in_batch d own held sent [] -> rp (dispatch_rest []) t own held sent d.
Proof.
  intros Hb d1 Hd1 _. apply (in_batch_agree d d1) in Hb; [|done].
  split; [by eapply in_batch_sent|]. split; [|split; [|done]].
  - apply outbox_moved_merge. eapply Forall_impl; [apply (ib_rows _ _ _ _ _ Hb)|].
    intros k (o & r & x & -> & Hr & Hp & Hx & Hm). exists o, r, x.
    split; [done|]. split; [done|]. split; [done|]. destruct Hm as [->|[_ Hm]]; [constructor|done].
  - eapply Forall_impl; [apply (ib_sent _ _ _ _ _ Hb)|]. intros x (o & y & Ho & Hk & Hy & Hp).
    exists o. split; [done|]. pose proof (ib_rows _ _ _ _ _ Hb) as Hr. rewrite Forall_forall in Hr.
    destruct (Hr _ Hk) as (o' & r & y' & [= <-] & Hr' & _). exists y.
    pose proof (row_of_merge own d1 held o r y Hk Hr' Hy) as [Hin Hid]%row_of_in. by split.
Qed.

Lemma rest_rp todo t own held sent d :
  in_batch d own held sent todo -> rp (dispatch_rest (scan_event E <$> todo)) t own held sent d.
Proof.
  revert own sent d. induction todo as [|r todo IH]; intros own sent d Hb; [by apply commit_rp|].
  intros d1 Hd1 _. apply (in_batch_agree d d1) in Hb; [|done]. split; [by eapply in_batch_sent|].
  pose proof (ib_todo _ _ _ _ _ Hb) as [(Hin & Hp & Hown & Hnew) _]%Forall_cons.
  assert (row_of d1 (o_id r) r) as Hr1.
  { pose proof (ib_rows _ _ _ _ _ Hb) as Hr. rewrite Forall_forall in Hr.
    destruct (Hr _ Hin) as (o & r0 & x & [= <-] & Hr0 & _ & Hx & Hx').
    assert (x = r) as -> by (unfold row_of in *; congruence). by destruct Hx' as [->|[? _]]. }
  split; [exists (o_id r); split; [done|]; split; [done|]; by exists r|]. split; [done|].
  intros res b Hres. cbn. clear Hnew.
  assert (locks_events E held (sent ++ [(scan_event E r, b)])) as Hsent.
  { destruct (in_batch_sent _ _ _ _ _ Hb) as [He Hs]. split; [done|].
    apply Forall_app. split; [done|]. constructor; [|constructor]. by exists (o_id r). }
  intros d2 Hd2 _. apply (in_batch_agree d1 d2) in Hb; [|done]. split; [done|]. intros now. cbn.
  set (sp := match res with Ok _ => _ | Err _ => _ end).
  assert (sp.1 = "FAILED" \/ sp.1 = "PROCESSED" /\ b = true) as Hst.
  { destruct res; [right|left]; auto. }
  destruct sp as [status processedAt]. cbn in Hst |- *.
  intros d3 Hd3 _. apply (in_batch_agree d2 d3) in Hb; [|done]. split; [done|].
  split; [|intros e; apply tame_then; [|done]; done].
  intros u locked. unfold event_row. cbn. rewrite uuid_in_out, wanted_held by done. split; [done|].
  eexists tt, _. split; [by apply update_event_does; destruct Hst as [->|[-> _]]; auto|].
  cbn. apply (IH _ _ d3). by eapply in_batch_next.
Qed.

(** After the rows are read. *)
Definition handle_batch (fetched : list OutboxRow) : prog unit :=
  let events := scan_event E <$> fetched in
  if decide (events = []) then mret tt
  else
    _ ← dispatch_all_prog E events;
    PCommit PRet.

Lemma tame_handle fetched : tame (handle_batch fetched).
Proof. unfold handle_batch. cbv zeta. case_decide; [done|]. by apply tame_bind; [apply tame_dispatch_all|]. Qed.

Lemma handle_rp t own held fetched d :
  in_batch d own held [] fetched -> rp (p_always_rollback (handle_batch fetched)) t own held [] d.
Proof.
  intros Hb. unfold handle_batch. cbv zeta. case_decide as Hnil; [|by apply rest_rp].
  intros d1 Hd1 _. split; [by eapply in_batch_sent|]. by split.
Qed.

Lemma tame_next {A} (acc rows : list A) : tame (next_prog acc rows).
Proof. revert acc. induction rows as [|r rows IH]; intros acc [|]; [done..|apply IH|done]. Qed.

Lemma next_rp t own held acc rows d :
  in_batch d own held [] (acc ++ rows) ->
  rp (p_always_rollback (next_prog acc rows ≫= handle_batch)) t own held [] d.
Proof.
  revert acc d. induction rows as [|r rows IH]; intros acc d Hb d1 Hd1 _;
    (split; [by eapply in_batch_sent|]); apply (in_batch_agree d d1) in Hb; try done.
  - rewrite app_nil_r in Hb. split; [by apply handle_rp|]. by apply tame_then; [apply tame_handle|].
  - split; [apply IH; by rewrite <- app_assoc|]. by apply tame_then; [apply tame_handle|].
Qed.

Lemma select_pending_rows q d :
  NoDup (o_id <$> outbox_events d) -> exists rows, select_pending q d = Ok (rows, d) /\
    NoDup (o_id <$> rows) /\
    Forall (fun r => r ∈ outbox_events d /\ o_status r = "PENDING" /\ sq_locked q (o_id r) = false) rows.
Proof.
  intros Hnd. unfold select_pending. set (free := List.filter _ _). eexists. split; [done|].
  assert (Forall (fun r => r ∈ outbox_events d /\ o_status r = "PENDING" /\ sq_locked q (o_id r) = false)
    free) as Hfree.
  { apply Forall_forall. intros r [Hin Hr]%list_elem_of_In%filter_In. unfold is_pending in Hr.
    apply andb_true_iff in Hr as [Hp%bool_decide_eq_true Hl%negb_true_iff].
    split; [by apply list_elem_of_In|done]. }
  pose proof (merge_sort_Permutation created_asc free) as Hperm. split.
  - assert (NoDup (o_id <$> merge_sort created_asc free)) as H.
    { rewrite Hperm. by apply NoDup_filter_ids. }
    rewrite <- (take_drop 10 (merge_sort created_asc free)), fmap_app in H.
    by apply NoDup_app in H as (? & _ & _).
  - apply Forall_take. by rewrite Hperm.
Qed.

(** The batch as it was locked. *)
Lemma in_batch_start d rows :
  NoDup (o_id <$> outbox_events d) -> NoDup (o_id <$> rows) ->
  Forall (fun r => r ∈ outbox_events d /\ o_status r = "PENDING") rows ->
  in_batch d d (rows_locked rows ++ []) [] rows.
Proof.
  intros Hnd Hids Hrows. rewrite app_nil_r. unfold rows_locked. constructor; [| |done|constructor].
  - apply Forall_fmap. eapply Forall_impl; [exact Hrows|]. intros r [Hin Hp].
    pose proof (row_of_intro d r Hnd Hin). exists (o_id r), r, r. auto 10.
  - rewrite Forall_forall in Hrows |- *. intros r Hr. destruct (Hrows r Hr) as [Hin Hp].
    split; [by apply (list_elem_of_fmap_2 (fun r => ROutbox (o_id r)))|]. split; [done|].
    split; [by apply row_of_intro|apply not_elem_of_nil].
Qed.

(** A poll from its query on. *)
Definition batch_prog : prog unit :=
  p_always_rollback (rows ← PSkip select_pending rows_locked PRet;
                     next_prog [] rows ≫= handle_batch).

Lemma poll_prog_eq :
  poll_prog E = PBegin (fun r => match r with Ok _ => batch_prog | Err e => PRet (Err e) end).
Proof. reflexivity. Qed.

Lemma tame_batch : tame batch_prog.
Proof.
  apply tame_then; [|done]. apply tame_bind; [done|]. intros rows.
  apply tame_bind; [apply tame_next|apply tame_handle].
Qed.

Lemma batch_rp t d : rp batch_prog t d [] [] d.
Proof.
  intros d1 _ Hwf. split; [by split|]. cbn [merge foldr]. split; [|intros e; exact I].
  intros u locked.
  destruct (select_pending_rows (mkStmtEnv t u locked) d1) as (rows & Hsel & Hids & Hrows);
    [apply Hwf|].
  exists rows, d1. split; [exact Hsel|]. split.
  - unfold rows_locked. intros x (r & -> & Hr)%list_elem_of_fmap. rewrite Forall_forall in Hrows.
    exists (o_id r). split; [done|]. by apply Hrows.
  - apply (next_rp _ _ _ [] rows), in_batch_start; [apply Hwf|done|].
    eapply Forall_impl; [exact Hrows|]. by intros r (? & ? & _).
Qed.
End safe.

#[global] Arguments rp : simpl never.

(** ** One step of a poll *)
Section steps.
Context (E : Env) {UL : UuidLaws E}.

Definition is_open (c : conn) : bool := match c with Open _ _ _ => true | _ => false end.

(** Where a poll is: not begun, in its transaction, done, or without its connection. *)
Inductive poll_ok (d : DB) (sent : list (fetchedEvent * bool)) (lost : bool) : thread unit -> Prop :=
  | poll_new : sent = [] -> poll_ok d sent lost (mkThread (poll_prog E) Idle)
  | poll_open p t own held :
      rp E p t own held sent d -> poll_ok d sent lost (mkThread p (Open t own held))
  | poll_over p c :
      is_open c = false -> quiet_prog p -> Forall (sent_settled E d) sent ->
      poll_ok d sent lost (mkThread p c)
  | poll_gone p c : is_open c = false -> tame p -> lost = true -> poll_ok d sent lost (mkThread p c).

Definition sent_of (o : outcome) : list (fetchedEvent * bool) :=
  match o with Sent ev b => [(ev, b)] | _ => [] end.
Definition is_lost (o : outcome) : bool := match o with Lost => true | _ => false end.

(** An event handed over by a poll that has its connection is locked, pending and new. *)
Definition fresh_send (d : DB) (held : list row) (sent : list (fetchedEvent * bool))
    (ev : fetchedEvent) : Prop :=
  (exists o, ev_ID ev = uuid_out E o /\ ROutbox o ∈ held /\ awaiting d o) /\
  (ev_ID ev ∉ ((fun x => ev_ID x.1) <$> sent)).

Definition poll_effect (d : DB) (held : list row) (sent : list (fetchedEvent * bool)) (lost : bool)
    (o : outcome) (d' : DB) : Prop :=
  match o with
  | Committed _ => outbox_moved (taken sent) d d' /\ exists own, d' = merge held own d
  | Sent ev _ => d' = d /\ (lost = true \/ fresh_send d held sent ev)
  | _ => d' = d
  end.

Lemma held_not_open c : is_open c = false -> held_by c = [].
Proof. by destruct c. Qed.

(** Without a transaction: no commit, no locks. *)
Lemma closed_step others d (p : prog unit) c o d' t' :
  thread_step others (d, mkThread p c) o (d', t') -> is_open c = false -> tame p ->
  d' = d /\ is_open (t_conn t') = false /\ tame (t_prog t') /\
  (quiet_prog p -> quiet_prog (t_prog t') /\ o = Quiet) /\ (forall b, o <> Committed b).
Proof.
  intros Hs Hc Ht. inversion Hs; subst; cbn in *; try done;
    (split; [done|]; split; [done|]; split; [first [apply Ht|done]|]; split; [by intros|done]).
Qed.

Lemma open_step others d p t0 own held sent lost o d' t' :
  wf E d -> rp E p t0 own held sent d ->
  thread_step others (d, mkThread p (Open t0 own held)) o (d', t') ->
  (forall k, k ∈ held_by (t_conn t') -> k ∈ held \/ k ∉ others) /\
  poll_ok d' (sent ++ sent_of o) (lost || is_lost o) t' /\
  poll_effect d held sent lost o d'.
Proof.
  intros Hwf Hrp Hs.
  inversion Hs; subst; destruct (Hrp _ (agree_refl _ _) Hwf) as [Hsent H]; cbn in H; try contradiction;
    cbn [sent_of is_lost poll_effect t_conn held_by]; rewrite ?orb_false_r, ?orb_true_r, ?app_nil_r.
  all: try (split; [first [by auto|by intros ? ?%not_elem_of_nil]|]).
  - destruct H as [H _]. destruct (H u locked) as (Hw & b & own' & Hq & Hk).
    unfold run_stmt in *. rewrite Hq, Hw in *. simplify_eq. split; [by left|].
    split; [|done]. by apply poll_open.
  - split; [|done]. by apply poll_gone; [|apply H|].
  - destruct H as (Hm & Hset & Hq). split; [by apply poll_over|]. split; [done|by exists own].
  - destruct H as (Hm & Hset & Hq). split; [by apply poll_over|]. split; [done|by exists own].
  - destruct H as (_ & _ & Hq). split; [|done]. by apply poll_gone; [|apply quiet_tame|].
  - destruct H as [Hq ->]. split; [|done]. by apply poll_over.
  - split; [|done]. by apply poll_open, H.
  - destruct H as [H _]. destruct (H u (fun o => bool_decide (ROutbox o ∈ others)))
      as (b & own' & Hq & Hfree & Hk).
    unfold run_skip in *. rewrite Hq in *. simplify_eq. split.
    + intros x [Hx|Hx]%elem_of_app; [|by left]. right. destruct (Hfree x Hx) as (o & -> & Ho).
      by apply bool_decide_eq_false in Ho.
    + split; [|done]. by apply poll_open.
  - split; [|done]. by apply poll_gone; [|apply H|].
  - split; [|done]. by apply poll_open, H.
  - split; [|done]. by apply poll_gone; [|apply H|].
  - destruct H as (Hev & Hnew & Hk). split; [by apply poll_open, Hk|]. split; [done|]. by right.
  - destruct H as (Hev & Hnew & Hk). split; [by apply poll_open, Hk|]. split; [done|]. by right.
Qed.

Lemma poll_step others d sent lost t o d' t' :
  wf E d -> poll_ok d sent lost t -> thread_step others (d, t) o (d', t') ->
  (forall k, k ∈ held_by (t_conn t') -> k ∈ held_by (t_conn t) \/ k ∉ others) /\
  poll_ok d' (sent ++ sent_of o) (lost || is_lost o) t' /\
  poll_effect d (held_by (t_conn t)) sent lost o d'.
Proof.
  intros Hwf [Hnew|p t0 own held Hrp|p c Hc Hq Hset|p c Hc Htame Hlost] Hs.
  - rewrite poll_prog_eq in Hs. inversion Hs; subst; cbn.
    + split; [by intros ? ?%not_elem_of_nil|]. split; [|done]. apply poll_open. by apply batch_rp.
    + split; [by intros ? ?%not_elem_of_nil|]. split; [|done]. by apply poll_gone; rewrite ?orb_true_r.
  - by eapply open_step.
  - destruct (closed_step _ _ _ _ _ _ _ Hs Hc (quiet_tame _ Hq)) as (-> & Hc' & _ & Hq' & _).
    destruct (Hq' Hq) as [Hq2 ->]. rewrite (held_not_open _ Hc'). split; [by intros ? ?%not_elem_of_nil|].
    split; [|done]. cbn. rewrite app_nil_r. destruct t' as [p' c']. by apply poll_over.
  - destruct (closed_step _ _ _ _ _ _ _ Hs Hc Htame) as (-> & Hc' & Ht' & _ & Hno).
    rewrite (held_not_open _ Hc'). split; [by intros ? ?%not_elem_of_nil|]. destruct t' as [p' c'].
    split; [apply poll_gone; [done..|by rewrite Hlost]|]. destruct o; cbn; try done; [by destruct (Hno answered)|auto].
Qed.

Lemma poll_locks_events d sent lost t :
  wf E d -> poll_ok d sent lost t -> Forall (fun k => exists o, k = ROutbox o) (held_by (t_conn t)).
Proof.
  intros Hwf [Hnew|p t0 own held Hrp|p c Hc Hq Hset|p c Hc Htame Hlost]; cbn;
    [constructor| |by rewrite held_not_open..].
  destruct p; by destruct (Hrp d (agree_refl _ _) Hwf) as [[? _] _].
Qed.

(** ** What one poll relies on *)

(** What a step leaves of the outbox: settled events stay settled, and a row that is processed now
    was, or its task is among [ts]. *)
Definition outbox_kept (ts : list Task) (d d' : DB) : Prop :=
  (forall o, settled d o -> settled d' o) /\
  forall r, r ∈ outbox_events d' -> o_status r = "PROCESSED" ->
    (exists r0, r0 ∈ outbox_events d /\ o_id r0 = o_id r /\ o_payload r0 = o_payload r /\
                o_status r0 = "PROCESSED") \/
    mkTask TypeWebhookRetryEvent (o_payload r) ∈ ts.

Lemma kept_refl ts d : outbox_kept ts d d.
Proof. split; [done|]. intros r Hr Hp. left. by exists r. Qed.

Lemma kept_tail ts d d' tail :
  outbox_events d' = outbox_events d ++ tail -> Forall (fun r => o_status r = "PENDING") tail ->
  outbox_kept ts d d'.
Proof.
  intros Heq Ht. split.
  - intros o (r & Hr & H). exists r. split; [|done]. rewrite Heq. apply elem_of_app. by left.
  - intros r. rewrite Heq. intros [Hr|Hr]%elem_of_app Hp; [left; by exists r|].
    rewrite Forall_forall in Ht. by rewrite (Ht r Hr) in Hp.
Qed.

Lemma kept_moved ts d d' : outbox_moved ts d d' -> outbox_kept ts d d'.
Proof.
  intros (l & Hl & ->). split.
  - intros o (r & [i Hi]%list_elem_of_lookup & Ho & Hs).
    destruct (Forall2_lookup_l _ _ _ _ _ Hl Hi) as (r' & Hi' & Hr). exists r'.
    split; [by eapply list_elem_of_lookup_2|]. by destruct Hr.
  - intros r' [i Hi]%list_elem_of_lookup Hp.
    destruct (Forall2_lookup_r _ _ _ _ _ Hl Hi) as (r & Hi' & Hr).
    destruct Hr as [|t Hp'|t Hp' Ht]; [left; exists r|done|by right].
    split; [by eapply list_elem_of_lookup_2|done].
Qed.

Lemma kept_effect ts rq x d d' : effect E rq x d d' -> outbox_kept ts d d'.
Proof.
  destruct rq as [userID amount currency|paymentID]; cbn.
  - intros (_ & t & now & d1 & [u r pid _ _ _ _ _ _] & [o _]).
    eapply (kept_tail _ _ _ [_]); [reflexivity|]. by repeat constructor.
  - intros (t & [i pr _ _ _ _]). apply (kept_tail _ _ _ []); [|constructor].
    rewrite app_nil_r. unfold refund_db, credit_db. by destruct (users d !! pr_user_id pr).
Qed.

Lemma kept_user ts email b d d' : user_created d email b d' -> outbox_kept ts d d'.
Proof. intros [u now _ _ _]. apply (kept_tail _ _ _ []); [|constructor]. by rewrite app_nil_r. Qed.

(** Steps that keep the outbox and the rows a poll has locked do not disturb it. *)
Lemma poll_ok_other ts d d' sent lost t :
  agree (held_by (t_conn t)) d d' -> outbox_kept ts d d' -> poll_ok d sent lost t ->
  poll_ok d' sent lost t.
Proof.
  intros Ha [Hk _] Hok. revert Ha.
  destruct Hok as [Hnew|p t0 own held Hrp|p c Hc Hq Hset|p c Hc Htame Hlost]; intros Ha.
  - by apply poll_new.
  - apply poll_open. by apply (rp_agree E p t0 own held sent d).
  - apply poll_over; [done..|]. eapply Forall_impl; [exact Hset|].
    intros x (o & Ho & Hs). exists o. auto.
  - by apply poll_gone.
Qed.

(** A charge or refund may as well run without the polls. *)
Lemma fewer_locks others others' d (t : thread Payment) rq done o d' t' :
  wf E d -> rg E rq (t_prog t) (t_conn t) done d ->
  (forall k, k ∈ others' -> k ∈ others) ->
  thread_step others (d, t) o (d', t') -> thread_step others' (d, t) o (d', t').
Proof.
  intros Hwf Hrg Hsub Hs. inversion Hs; subst; try (by constructor);
    destruct (Hrg _ (agree_refl _ _) Hwf) as [_ H]; cbn in H; try contradiction.
  eapply step_stmt; [|done]. intros x Hx Hin. match goal with Hw : forall x, _ |- _ => by apply (Hw x Hx), Hsub end.
Qed.
End steps.

(** ** Runs *)
Lemma elem_of_locked {A} (ts : list (thread A)) k :
  k ∈ all_locked ts <-> exists i t, ts !! i = Some t /\ k ∈ held_by (t_conn t).
Proof.
  unfold all_locked. rewrite list_elem_of_join. split.
  - intros (l & Hk & (t & -> & [i Hi]%list_elem_of_lookup)%list_elem_of_fmap). eauto.
  - intros (i & t & Hi & Hk). exists (held_by (t_conn t)). split; [done|].
    apply (list_elem_of_fmap_2 (fun t => held_by (t_conn t))). by eapply list_elem_of_lookup_2.
Qed.

Lemma sends_app ls ls' : sends (ls ++ ls') = sends ls ++ sends ls'.
Proof. apply omap_app. Qed.

Lemma sent_by_app i ls ls' : sent_by i (ls ++ ls') = sent_by i ls ++ sent_by i ls'.
Proof. unfold sent_by. rewrite sends_app. apply omap_app. Qed.

Lemma poll_lost_app i ls ls' : poll_lost i (ls ++ ls') = poll_lost i ls || poll_lost i ls'.
Proof. apply existsb_app. Qed.

Lemma sent_by_event i j o : sent_by j [OfPoll i o] = if decide (i = j) then sent_of o else [].
Proof.
  unfold sent_by, sends, sent_of. destruct o as [| |b|ev b]; cbn; try by case_decide.
Qed.

Lemma poll_lost_event i j o : poll_lost j [OfPoll i o] = bool_decide (i = j) && is_lost o.
Proof. destruct o; cbn; by rewrite ?andb_false_r, ?andb_true_r, ?orb_false_r. Qed.

Lemma elem_sent_by i x ls : (i, x) ∈ sends ls -> x ∈ sent_by i ls.
Proof.
  intros H. unfold sent_by. apply list_elem_of_omap. exists (i, x). split; [done|]. by rewrite decide_True.
Qed.

Lemma taken_sent_by i ls t : t ∈ taken (sent_by i ls) -> t ∈ taken (snd <$> sends ls).
Proof.
  unfold taken. intros (x & Hx & Ht)%list_elem_of_omap. apply list_elem_of_omap. exists x. split; [|done].
  unfold sent_by in Hx. apply list_elem_of_omap in Hx as ([j y] & Hy & Hj). case_decide; [|done].
  injection Hj as <-. by apply (list_elem_of_fmap_2 snd) in Hy.
Qed.

Section runs.
Context (E : Env) {UL : UuidLaws E}.

Definition was_processed (d0 : DB) (ls : list shop_event) (r : OutboxRow) : Prop :=
  (exists r0, r0 ∈ outbox_events d0 /\ o_id r0 = o_id r /\ o_payload r0 = o_payload r /\
              o_status r0 = "PROCESSED") \/
  mkTask TypeWebhookRetryEvent (o_payload r) ∈ taken (snd <$> sends ls).

Record shop_sound (reqs : list request) (d0 : DB) (ls : list shop_event) (s : shop) : Prop :=
  mkShopSound {
    ss_run : process_run (d0, start E reqs) (for_requests ls) (sh_db s, sh_requests s);
    ss_poll : forall i t, sh_polls s !! i = Some t ->
      poll_ok E (sh_db s) (sent_by i ls) (poll_lost i ls) t;
    ss_apart : forall i j t t' k, i <> j -> sh_polls s !! i = Some t -> sh_polls s !! j = Some t' ->
      k ∈ held_by (t_conn t) -> k ∉ held_by (t_conn t');
    ss_cross : forall i j t t' k, sh_requests s !! i = Some t -> sh_polls s !! j = Some t' ->
      k ∈ held_by (t_conn t) -> k ∉ held_by (t_conn t');
    ss_who : forall x, x ∈ sends ls -> is_Some (sh_polls s !! x.1);
    ss_once : forall a b x y, (a < b)%nat -> sends ls !! a = Some x -> sends ls !! b = Some y ->
      ev_ID x.2.1 = ev_ID y.2.1 -> poll_lost x.1 ls = true \/ poll_lost y.1 ls = true;
    ss_processed : forall r, r ∈ outbox_events (sh_db s) -> o_status r = "PROCESSED" ->
      was_processed d0 ls r }.

Lemma shop_start reqs d0 n : wf E d0 -> shop_sound reqs d0 [] (open_shop E d0 reqs n).
Proof.
  intros Hwf. constructor; cbn.
  - constructor.
  - intros i t [-> _]%lookup_replicate. by apply poll_new.
  - intros i j t t' k _ [-> _]%lookup_replicate _ Hk. by apply not_elem_of_nil in Hk.
  - intros i j t t' k _ [-> _]%lookup_replicate _. apply not_elem_of_nil.
  - by intros x ?%not_elem_of_nil.
  - done.
  - intros r Hr Hp. left. by exists r.
Qed.

Lemma processed_kept d0 ls l d d' ts r :
  (forall r, r ∈ outbox_events d -> o_status r = "PROCESSED" -> was_processed d0 ls r) ->
  outbox_kept ts d d' -> (forall t, t ∈ ts -> t ∈ taken (snd <$> sends ls)) ->
  r ∈ outbox_events d' -> o_status r = "PROCESSED" -> was_processed d0 (ls ++ [l]) r.
Proof.
  intros Hd [_ Hk] Hts Hr Hp. unfold was_processed. rewrite sends_app, fmap_app, taken_app.
  destruct (Hk r Hr Hp) as [(r0 & Hr0 & Hid & Hpay & Hp0)|Ht].
  - destruct (Hd r0 Hr0 Hp0) as [(x & Hx & Hxi & Hxp & Hxs)|Ht].
    + left. exists x. split; [done|]. split; [congruence|]. split; [congruence|done].
    + right. apply elem_of_app. left. by rewrite <- Hpay.
  - right. apply elem_of_app. left. auto.
Qed.

(** A step of others that the polls do not notice. *)
Lemma shop_undisturbed reqs d0 ls d ts ps l d' ts' :
  shop_sound reqs d0 ls (mkShop d ts ps) -> match l with OfPoll _ _ => False | _ => True end ->
  process_run (d0, start E reqs) (for_requests (ls ++ [l])) (d', ts') ->
  (forall j t, ps !! j = Some t -> agree (held_by (t_conn t)) d d') -> outbox_kept [] d d' ->
  (forall i j t t' k, ts' !! i = Some t -> ps !! j = Some t' ->
      k ∈ held_by (t_conn t) -> k ∉ held_by (t_conn t')) ->
  shop_sound reqs d0 (ls ++ [l]) (mkShop d' ts' ps).
Proof.
  intros [Hrun Hpoll Hap _ Hwho Honce Hproc] Hl Hrun' Ha Hk Hcross. cbn in *.
  assert (sends [l] = []) as Hs by (by destruct l).
  assert (forall j, sent_by j [l] = []) as Hsb by (intros j; unfold sent_by; by rewrite Hs).
  assert (forall j, poll_lost j [l] = false) as Hlost by (by destruct l).
  constructor; cbn; try done.
  - intros j t Hj. rewrite sent_by_app, poll_lost_app, Hsb, Hlost, app_nil_r, orb_false_r.
    eapply poll_ok_other; [by eapply Ha|exact Hk|auto].
  - intros x. rewrite sends_app, Hs, app_nil_r. apply Hwho.
  - intros a b x y. rewrite sends_app, Hs, app_nil_r, !poll_lost_app, !Hlost, !orb_false_r. apply Honce.
  - intros r. eapply processed_kept; [exact Hproc|exact Hk|by intros ? ?%not_elem_of_nil].
Qed.

Lemma shop_sound_request reqs d0 ls d ts ps i t o d' t' :
  wf E d0 -> shop_sound reqs d0 ls (mkShop d ts ps) -> ts !! i = Some t ->
  thread_step (locked_by_others i ts ++ all_locked ps) (d, t) o (d', t') ->
  shop_sound reqs d0 (ls ++ [OfRequest i o]) (mkShop d' (<[i := t']> ts) ps).
Proof.
  intros Hwf0 Hs Ht Hstep. pose proof (ss_run _ _ _ _ Hs) as Hrun. cbn in Hrun.
  destruct (process_run_sound E _ _ _ _ _ Hwf0 Hrun) as (h & Hsound & _).
  pose proof (so_wf _ _ _ _ _ _ Hsound) as Hwf.
  destruct (so_thread _ _ _ _ _ _ Hsound i t Ht) as (rq & _ & Hrg).
  destruct (thread_step_rg E _ _ _ _ _ _ _ _ Hwf Hrg Hstep) as [Hnew Hres].
  assert ((forall j t', ps !! j = Some t' -> agree (held_by (t_conn t')) d d') /\ outbox_kept [] d d')
    as [Hag Hk].
  { destruct o; try (destruct Hres as [-> _]; split; [intros; apply agree_refl|apply kept_refl]).
    destruct Hres as (_ & x & own & Hx & _ & ->). split; [|by eapply kept_effect].
    intros j p Hj. apply Forall_forall. intros k Hk. apply merge_other. intros Hk'.
    by eapply (ss_cross _ _ _ _ Hs). }
  eapply shop_undisturbed; [exact Hs|done| |exact Hag|exact Hk|].
  - unfold for_requests. rewrite omap_app. eapply run_snoc; [exact Hrun|]. eapply process_thread; [done|].
    eapply fewer_locks; [exact Hwf|exact Hrg| |exact Hstep]. intros k Hin. apply elem_of_app. by left.
  - intros a j u p k Ha Hj Hin.
    apply list_lookup_insert_Some in Ha as [(-> & <- & _)|[_ Ha]]; [|by eapply (ss_cross _ _ _ _ Hs a)].
    destruct (Hnew k Hin) as [Hold|Hfree]; [by apply (ss_cross _ _ _ _ Hs a j t p k)|].
    intros Hp. apply Hfree, elem_of_app. right. apply elem_of_locked. eauto.
Qed.

Lemma shop_sound_user reqs d0 ls d ts ps email b d' :
  wf E d0 -> shop_sound reqs d0 ls (mkShop d ts ps) -> user_created d email b d' ->
  shop_sound reqs d0 (ls ++ [NewUser]) (mkShop d' ts ps).
Proof.
  intros Hwf0 Hs Hu. pose proof (ss_run _ _ _ _ Hs) as Hrun. cbn in Hrun.
  eapply shop_undisturbed; [exact Hs|done| | |by eapply kept_user|apply (ss_cross _ _ _ _ Hs)].
  - unfold for_requests. rewrite omap_app. eapply run_snoc; [exact Hrun|].
    apply process_other. by eapply other_user.
  - intros j t Hj. pose proof (ss_poll _ _ _ _ Hs j t Hj) as Hok. cbn in Hok.
    destruct (process_run_sound E _ _ _ _ _ Hwf0 Hrun) as (h & Hsound & _).
    pose proof (so_wf _ _ _ _ _ _ Hsound) as Hwf.
    eapply Forall_impl; [by eapply poll_locks_events|]. intros k [o ->]. by destruct Hu.
Qed.

(** An event is not handed over again while the poll that did so keeps its connection. *)
Lemma send_once reqs d0 ls d ts ps i t held j x ev :
  shop_sound reqs d0 ls (mkShop d ts ps) -> wf E d -> ps !! i = Some t -> held_by (t_conn t) = held ->
  fresh_send E d held (sent_by i ls) ev -> (j, x) ∈ sends ls -> ev_ID x.1 = ev_ID ev ->
  poll_lost j ls = true.
Proof.
  intros Hs Hwf Ht <- [(o & Hev & Hheld & Haw) Hnew] Hx Heq.
  pose proof (elem_sent_by _ _ _ Hx) as Hxs.
  destruct (decide (j = i)) as [->|Hji].
  { exfalso. apply Hnew. rewrite <- Heq. by apply (list_elem_of_fmap_2 (fun x => ev_ID x.1)) in Hxs. }
  destruct (ss_who _ _ _ _ Hs _ Hx) as [t' Ht']. cbn in Ht'.
  destruct (ss_poll _ _ _ _ Hs j t' Ht') as [Hnil|p t0 own held Hrp|p c Hc Hq Hset|p c Hc Htame Hlost]; cbn in *.
  - rewrite Hnil in Hxs. by apply not_elem_of_nil in Hxs.
  - assert (sent_held E held x) as (o' & Ho' & Hk).
    { assert (locks_events E held (sent_by j ls)) as [_ H].
      { destruct p; by destruct (Hrp d (agree_refl _ _) Hwf). }
      rewrite Forall_forall in H. by apply H. }
    assert (o' = o) as -> by (apply (uuid_out_inj E); congruence).
    exfalso. by apply (ss_apart _ _ _ _ Hs i j t _ (ROutbox o) ltac:(congruence) Ht Ht').
  - rewrite Forall_forall in Hset. destruct (Hset x Hxs) as (o' & Ho' & Hst).
    assert (o' = o) as -> by (apply (uuid_out_inj E); congruence).
    exfalso. by apply (awaiting_settled d o).
  - done.
Qed.

Lemma shop_sound_poll reqs d0 ls d ts ps i t o d' t' :
  wf E d0 -> shop_sound reqs d0 ls (mkShop d ts ps) -> ps !! i = Some t ->
  thread_step (all_locked ts ++ locked_by_others i ps) (d, t) o (d', t') ->
  shop_sound reqs d0 (ls ++ [OfPoll i o]) (mkShop d' ts (<[i := t']> ps)).
Proof.
  intros Hwf0 Hs Ht Hstep. pose proof (ss_run _ _ _ _ Hs) as Hrun. cbn in Hrun.
  destruct (process_run_sound E _ _ _ _ _ Hwf0 Hrun) as (h & Hsound & _).
  pose proof (so_wf _ _ _ _ _ _ Hsound) as Hwf.
  destruct (poll_step E _ _ _ _ _ _ _ _ Hwf (ss_poll _ _ _ _ Hs i t Ht) Hstep) as (Hnew & Hok & Heff).
  assert ((exists own, d' = merge (held_by (t_conn t)) own d) \/ d' = d) as Hdb.
  { destruct o; cbn in Heff; try (by right); [left; by destruct Heff|right; by destruct Heff]. }
  assert (outbox_kept (taken (sent_by i ls)) d d') as Hk.
  { destruct o; cbn in Heff; try (by subst; apply kept_refl);
      [by apply kept_moved, Heff|destruct Heff as [-> _]; apply kept_refl]. }
  constructor; cbn.
  - unfold for_requests. rewrite omap_app. fold (for_requests ls). destruct o as [| |b|ev b]; cbn in Heff |- *;
      try (rewrite app_nil_r; by destruct_and?; simplify_eq).
    eapply run_snoc; [exact Hrun|]. apply process_other. by eapply other_poll, Heff.
  - intros j u Hj. rewrite sent_by_app, poll_lost_app, sent_by_event, poll_lost_event.
    apply list_lookup_insert_Some in Hj as [(-> & <- & _)|[Hij Hj]].
    + by rewrite decide_True, bool_decide_true.
    + rewrite decide_False, bool_decide_false by done. cbn. rewrite app_nil_r, orb_false_r.
      eapply poll_ok_other; [|exact Hk|by apply (ss_poll _ _ _ _ Hs)].
      destruct Hdb as [[own ->]| ->]; [|apply agree_refl].
      apply Forall_forall. intros k Hin. apply merge_other. intros Hin'.
      by apply (ss_apart _ _ _ _ Hs i j t u k).
  - apply (apart_insert ps i t t' Ht (ss_apart _ _ _ _ Hs)). intros k Hin.
    destruct (Hnew k Hin) as [?|Hfree]; [by left|right]. intros Ho. apply Hfree, elem_of_app. by right.
  - intros a j u p k Ha Hj Hin.
    apply list_lookup_insert_Some in Hj as [(-> & <- & _)|[_ Hj]]; [|by apply (ss_cross _ _ _ _ Hs a j u p k)].
    intros Hp. destruct (Hnew k Hp) as [Hold|Hfree]; [by apply (ss_cross _ _ _ _ Hs a j u t k)|].
    apply Hfree, elem_of_app. left. apply elem_of_locked. eauto.
  - intros x. rewrite sends_app. intros [Hx|Hx]%elem_of_app.
    + destruct (ss_who _ _ _ _ Hs x Hx) as [u Hu]. apply list_lookup_insert_is_Some. by exists u.
    + destruct o as [| |b|ev b]; try by apply not_elem_of_nil in Hx.
      apply list_elem_of_singleton in Hx as ->. apply list_lookup_insert_is_Some. by exists t.
  - intros a b x y Hab. rewrite sends_app, !poll_lost_app. intros Hx Hy Heq.
    apply lookup_app_Some in Hy as [Hy|[Hb Hy]].
    { rewrite lookup_app_l in Hx by (apply lookup_lt_Some in Hy; lia).
      destruct (ss_once _ _ _ _ Hs a b x y Hab Hx Hy Heq) as [-> | ->]; auto. }
    destruct o as [| |?|ev v]; cbn in Hy; try done. destruct (b - length (sends ls))%nat eqn:Hn; [|done].
    injection Hy as <-. rewrite lookup_app_l in Hx by lia. apply list_elem_of_lookup_2 in Hx.
    destruct x as [j x], Heff as [-> [Hlost|Hfresh]]; cbn in *; [right; by rewrite Hlost|left].
    apply orb_true_iff. left. by eapply (send_once reqs d0 ls d ts ps i t _ j x ev).
  - intros r. eapply (processed_kept _ _ _ d); [apply (ss_processed _ _ _ _ Hs)|exact Hk|].
    intros x. apply taken_sent_by.
Qed.

Lemma shop_run_sound reqs d0 n ls s :
  wf E d0 -> shop_run (open_shop E d0 reqs n) ls s -> shop_sound reqs d0 ls s.
Proof.
  intros Hwf Hrun. induction Hrun as [|ls s1 l s2 _ IH Hstep]; [by apply shop_start|].
  destruct Hstep; [by eapply shop_sound_request|by eapply shop_sound_poll|by eapply shop_sound_user].
Qed.

(** A poll never waits for a lock. *)
Lemma poll_goes_on others d sent lost t :
  wf E d -> poll_ok E d sent lost t -> answered t = false ->
  exists o d' t', thread_step others (d, t) o (d', t') /\ o <> Lost /\ o <> Committed false.
Proof.
  intros Hwf Hok Ha.
  destruct Hok as [_|p t own held Hrp|p c Hc Hq _|p c Hc Htame _].
  - exists Quiet, d. rewrite poll_prog_eq. eexists. by split; [apply step_begin with (t := 0)|].
  - destruct p as [r|k|B l q k|k|p|k|B q ks k|k|ev k]; cbn in Ha; try done;
      destruct (Hrp d (agree_refl _ _) Hwf) as [_ H]; try contradiction.
    + exists Quiet, d. eexists. split; [|done]. destruct H as [H _].
      eapply (step_stmt _ _ _ _ _ _ _ _ _ u0 (fun _ => false)); [|apply surjective_pairing].
      destruct (H u0 (fun _ => false)) as [-> _]. by intros x ?%not_elem_of_nil.
    + exists (Committed true), (merge held own d). eexists. by split; [apply step_commit|].
    + exists Quiet, d. eexists. by split; [apply step_rollback|].
    + exists Quiet, d. eexists. by split; [apply step_now with (z := 0)|].
    + exists Quiet, d. eexists. split; [|done].
      eapply (step_skip _ _ _ _ _ _ _ _ _ u0). apply surjective_pairing.
    + exists Quiet, d. eexists. by split; [apply step_next|].
    + exists (Sent ev true), d. eexists. by split; [apply step_enqueue|].
  - destruct p; cbn in *; try done. exists Quiet, d. eexists. by split; [apply step_rollback|].
  - destruct p as [r|k|B l q k|k|p|k|B q ks k|k|ev k]; cbn in Ha, Htame; try done;
      try (destruct c; try done).
    all: first [exists Quiet, d; eexists; (by split; [constructor|])
               |exists (Sent ev true), d; eexists; (by split; [constructor|])].
    Unshelve. all: exact 0.
Qed.

(** A poll that has ended holds no row. *)
Lemma answered_poll_holds d sent lost t :
  wf E d -> poll_ok E d sent lost t -> answered t = true -> held_by (t_conn t) = [].
Proof.
  intros Hwf Hok Ha. destruct Hok as [_|p t0 own held Hrp|p c Hc _ _|p c Hc _ _]; [done| |
    by apply held_not_open..].
  destruct p; try done. by destruct (Hrp d (agree_refl _ _) Hwf).
Qed.

(** While no poll holds a row, a request that goes on in Concurrent.v goes on here. *)
Lemma request_goes_on s i :
  all_locked (sh_polls s) = [] -> goes_on_at (sh_db s, sh_requests s) i ->
  exists o s', shop_step s (OfRequest i o) s' /\ o <> Lost /\ o <> Committed false.
Proof.
  intros Hnone (o & s' & Hstep & Ho). destruct s as [d ts ps].
  cbn [sh_db sh_requests sh_polls] in *. inversion Hstep as [? d' ? ? t t' ? Ht Hthread|]; subst.
  exists o. eexists. split; [|done]. eapply shop_request; [done|]. by rewrite Hnone, app_nil_r.
Qed.
End runs.

(** ** The theorems *)

(** C7: No event is handed over twice.  Of any number of polls that run at once, with charges,
    refunds and new merchants in between and any calls failing: two polls (or one poll twice) hand
    the same event to the queue only if one of them lost a call to the database; a poll that ended
    without such a loss has settled every event it handed over, also one the queue refused; and a
    row is [PROCESSED] only if it was before or the queue took its task. *)
Theorem concurrent_polls_once (E : Env) `{!UuidLaws E} (reqs : list request) (d0 : DB) (n : nat)
    (ls : list shop_event) (s : shop) :
  wf E d0 -> shop_run (open_shop E d0 reqs n) ls s ->
  (forall a b x y, (a < b)%nat -> sends ls !! a = Some x -> sends ls !! b = Some y ->
     ev_ID x.2.1 = ev_ID y.2.1 -> poll_lost x.1 ls = true \/ poll_lost y.1 ls = true) /\
  (forall i t x, sh_polls s !! i = Some t -> answered t = true -> poll_lost i ls = false ->
     (i, x) ∈ sends ls -> exists o, ev_ID x.1 = uuid_out E o /\ settled (sh_db s) o) /\
  (forall r, r ∈ outbox_events (sh_db s) -> o_status r = "PROCESSED" -> was_processed d0 ls r).
Proof.
  intros Hwf Hrun. pose proof (shop_run_sound E _ _ _ _ _ Hwf Hrun) as Hs.
  split; [apply Hs|]. split; [|apply Hs]. intros i t x Hi Ha Hlost Hx%elem_sent_by.
  destruct (process_run_sound E _ _ _ _ _ Hwf (ss_run _ _ _ _ _ Hs)) as (h & Hsound & _).
  pose proof (so_wf _ _ _ _ _ _ Hsound) as Hwf'.
  destruct (ss_poll _ _ _ _ _ Hs i t Hi) as [Hnil|p t0 own held Hrp|p c Hc Hq Hset|p c Hc Htame Hl].
  - rewrite Hnil in Hx. by apply not_elem_of_nil in Hx.
  - destruct p; try done. by destruct (Hrp _ (agree_refl _ _) Hwf').
  - rewrite Forall_forall in Hset. by apply Hset.
  - congruence.
Qed.

(** Charges and refunds may run among real polls: whatever the polls do, with any calls
    failing, the run is for the charges and refunds one of Concurrent.v, in which a poll is a
    single step at its commit; so they stay serializable. *)
Theorem polls_refine (E : Env) `{!UuidLaws E} (reqs : list request) (d0 : DB) (n : nat)
    (ls : list shop_event) (s : shop) :
  wf E d0 -> shop_run (open_shop E d0 reqs n) ls s ->
  process_run (d0, start E reqs) (for_requests ls) (sh_db s, sh_requests s) /\ wf E (sh_db s).
Proof.
  intros Hwf Hrun. pose proof (ss_run _ _ _ _ _ (shop_run_sound E _ _ _ _ _ Hwf Hrun)) as H.
  split; [done|]. destruct (process_run_sound E _ _ _ _ _ Hwf H) as (h & Hsound & _). apply Hsound.
Qed.

(** [SKIP LOCKED] keeps its promise: in every state of such a run, a poll that has not ended can
    make its next call at once, whatever the others have locked. *)
Theorem polls_never_wait (E : Env) `{!UuidLaws E} (reqs : list request) (d0 : DB) (n : nat)
    (ls : list shop_event) (s : shop) (i : nat) (t : thread unit) :
  wf E d0 -> shop_run (open_shop E d0 reqs n) ls s -> sh_polls s !! i = Some t ->
  answered t = false ->
  exists o s', shop_step s (OfPoll i o) s' /\ o <> Lost /\ o <> Committed false.
Proof.
  intros Hwf Hrun Hi Ha. pose proof (shop_run_sound E _ _ _ _ _ Hwf Hrun) as Hs.
  destruct (process_run_sound E _ _ _ _ _ Hwf (ss_run _ _ _ _ _ Hs)) as (h & Hsound & _).
  destruct (poll_goes_on E (all_locked (sh_requests s) ++ locked_by_others i (sh_polls s)) _ _ _ _
    (so_wf _ _ _ _ _ _ Hsound) (ss_poll _ _ _ _ _ Hs i t Hi) Ha) as (o & d' & t' & Hstep & Ho).
  destruct s as [d ts ps]. eexists o, _. split; [|exact Ho]. by eapply shop_poll.
Qed.

(** Polls bring no deadlock: while a request or a poll is not finished, one of them can go on without
    a failure (given, as in Concurrent.v, an identifier no open transaction has inserted). *)
Theorem polls_no_deadlock (E : Env) `{!UuidLaws E} (reqs : list request) (d0 : DB) (n : nat)
    (ls : list shop_event) (s : shop) (u : uuid) :
  wf E d0 -> shop_run (open_shop E d0 reqs n) ls s ->
  (forall t k, t ∈ sh_requests s -> k ∈ held_by (t_conn t) -> row_uuid k <> u) ->
  forallb answered (sh_requests s) && forallb answered (sh_polls s) = true \/
  exists l s', shop_step s l s' /\
    match l with
    | OfRequest _ o | OfPoll _ o => o <> Lost /\ o <> Committed false
    | NewUser => False
    end.
Proof.
  intros Hwf Hrun Hu. pose proof (shop_run_sound E _ _ _ _ _ Hwf Hrun) as Hs.
  destruct (process_run_sound E _ _ _ _ _ Hwf (ss_run _ _ _ _ _ Hs)) as (h & Hsound & _).
  destruct (forallb answered (sh_polls s)) eqn:Hps.
  - destruct (forallb answered (sh_requests s)) eqn:Hts; [by left|right].
    destruct (not_all_answered _ Hts) as (i & t & Ht & Ha).
    destruct (waits_end E _ _ _ _ _ u Hsound ltac:(intros j t' k Hj; apply Hu; by eapply list_elem_of_lookup_2)
      i t Ht Ha) as (j & o & s' & Hstep & Ho).
    destruct (request_goes_on s j) as (o' & s2 & Hs2 & Hno); [|by exists o, s'|by exists (OfRequest j o'), s2].
    apply elem_of_nil_inv. intros k (x & p & Hx & Hk)%elem_of_locked.
    rewrite forallb_forall in Hps.
    rewrite (answered_poll_holds E _ _ _ p (so_wf _ _ _ _ _ _ Hsound) (ss_poll _ _ _ _ _ Hs x p Hx)) in Hk;
      [by apply not_elem_of_nil in Hk|].
    apply Hps, list_elem_of_In. by eapply list_elem_of_lookup_2.
  - right. destruct (not_all_answered _ Hps) as (i & t & Ht & Ha).
    destruct (poll_goes_on E (all_locked (sh_requests s) ++ locked_by_others i (sh_polls s)) _ _ _ _
      (so_wf _ _ _ _ _ _ Hsound) (ss_poll _ _ _ _ _ Hs i t Ht) Ha) as (o & d' & t' & Hstep & Ho).
    destruct s as [d ts ps]. exists (OfPoll i o). eexists. split; [|exact Ho]. by eapply shop_poll.
Qed.

(** ** Witnesses: two charges and two polls *)

(** The next call of request or poll [i], if it need not wait. *)
Definition drive_shop (s : shop) (x : (nat + nat) * uuid * Z) : option (shop_event * shop) :=
  let '(who, u, z) := x in
  match who with
  | inl i =>
      t ← sh_requests s !! i;
      x ← drive_thread (locked_by_others i (sh_requests s) ++ all_locked (sh_polls s)) (sh_db s) t u z;
      Some (OfRequest i x.1, mkShop x.2.1 (<[i := x.2.2]> (sh_requests s)) (sh_polls s))
  | inr i =>
      t ← sh_polls s !! i;
      x ← drive_thread (all_locked (sh_requests s) ++ locked_by_others i (sh_polls s)) (sh_db s) t u z;
      Some (OfPoll i x.1, mkShop x.2.1 (sh_requests s) (<[i := x.2.2]> (sh_polls s)))
  end.

Lemma drive_shop_ok s x l s' : drive_shop s x = Some (l, s') -> shop_step s l s'.
Proof.
  destruct s as [d ts ps], x as [[[i|i] u] z]; cbn.
  - destruct (ts !! i) as [t|] eqn:Hi; cbn; [|done].
    destruct (drive_thread _ _ _ _ _) as [[o [d' t']]|] eqn:Hd; cbn; [|done]. intros [= <- <-].
    eapply shop_request; [done|]. by eapply drive_thread_ok.
  - destruct (ps !! i) as [t|] eqn:Hi; cbn; [|done].
    destruct (drive_thread _ _ _ _ _) as [[o [d' t']]|] eqn:Hd; cbn; [|done]. intros [= <- <-].
    eapply shop_poll; [done|]. by eapply drive_thread_ok.
Qed.

Definition drive_shop_all (xs : list ((nat + nat) * uuid * Z)) (s : shop) : list shop_event * shop :=
  foldl (fun a x => match drive_shop a.2 x with
                    | Some (l, s') => (a.1 ++ [l], s')
                    | None => a
                    end) ([], s) xs.

Lemma drive_shop_all_ok xs s : shop_run s (drive_shop_all xs s).1 (drive_shop_all xs s).2.
Proof.
  unfold drive_shop_all. set (f := fun a x => _).
  assert (forall a, shop_run s a.1 a.2 -> shop_run s (foldl f a xs).1 (foldl f a xs).2) as H.
  { induction xs as [|x xs IH]; intros a Ha; [done|]. cbn [foldl]. apply IH. unfold f.
    destruct (drive_shop a.2 x) as [[l s']|] eqn:Hd; [|done].
    eapply shop_snoc; [done|]. by eapply drive_shop_ok. }
  apply H, shop_nil.
Qed.

Definition two_charges : list request :=
  [Charge (uuid_text u0) 300 "INR"; Charge (uuid_text u0) 200 "INR"].

(** Poll 0 locks the event of the first charge; the second charge commits; poll 1 skips the locked
    event and takes the other; both go on in turns. *)
Definition two_of_each : list ((nat + nat) * uuid * Z) :=
  imap (fun n i => (i, count_uuid (n + 1), Z.of_nat n))
    (replicate 8 (inl 0) ++ replicate 2 (inr 0) ++ replicate 8 (inl 1) ++ replicate 2 (inr 1) ++
     mjoin (replicate 10 [inr 0; inr 1]))%nat.
Definition two_polls : list shop_event * shop :=
  drive_shop_all two_of_each (open_shop env0 shop_db two_charges 2).

Lemma concurrent_polls_once_witness :
  (fst <$> sends two_polls.1) = [0; 1]%nat /\
  Forall (fun x => exists o, ev_ID x.2.1 = uuid_out env0 o /\ settled (sh_db two_polls.2) o)
    (sends two_polls.1).
Proof.
  assert (bool_decide ((fst <$> sends two_polls.1) = [0; 1]%nat) = true) as H1 by (by vm_compute).
  assert (forallb answered (sh_polls two_polls.2) && forallb (fun i => negb (poll_lost i two_polls.1))
    [0; 1]%nat = true) as H2 by (by vm_compute).
  assert (length (sh_polls two_polls.2) = 2%nat) as H3 by (by vm_compute).
  apply bool_decide_eq_true in H1. split; [exact H1|]. revert H1 H2 H3. unfold two_polls.
  pose proof (drive_shop_all_ok two_of_each (open_shop env0 shop_db two_charges 2)) as Hrun. revert Hrun.
  generalize (drive_shop_all two_of_each (open_shop env0 shop_db two_charges 2)).
  intros [ls s] Hrun H1 [H2 Hl]%andb_true_iff H3. cbn [fst snd] in *.
  destruct (concurrent_polls_once env0 two_charges shop_db 2 ls s shop_db_wf Hrun) as (_ & Hset & _).
  apply Forall_forall. intros [i x] Hx.
  assert (i ∈ [0; 1]%nat) as Hi by (rewrite <- H1; by apply (list_elem_of_fmap_2 fst) in Hx).
  assert (exists t, sh_polls s !! i = Some t) as [t Ht].
  { apply lookup_lt_is_Some. rewrite H3. clear -Hi.
    apply elem_of_cons in Hi as [->|Hi%list_elem_of_singleton]; lia. }
  rewrite forallb_forall in H2, Hl. apply (Hset i t x Ht); [| |exact Hx].
  - apply H2, list_elem_of_In. by eapply list_elem_of_lookup_2.
  - apply negb_true_iff, Hl, list_elem_of_In. exact Hi.
Defined.

Lemma polls_refine_witness :
  length (for_requests two_polls.1) = 16%nat /\
  process_run (shop_db, start env0 two_charges) (for_requests two_polls.1)
    (sh_db two_polls.2, sh_requests two_polls.2).
Proof.
  assert (length (for_requests two_polls.1) = 16%nat) as H1 by (by vm_compute).
  split; [exact H1|]. unfold two_polls.
  destruct (polls_refine env0 two_charges shop_db 2 _ _ shop_db_wf
    (drive_shop_all_ok two_of_each (open_shop env0 shop_db two_charges 2))) as [H _]. exact H.
Defined.

(** In the middle, poll 0 has the first event and poll 1 has just begun. *)
Definition one_locked : list shop_event * shop :=
  drive_shop_all (take 19 two_of_each) (open_shop env0 shop_db two_charges 2).

Lemma polls_never_wait_witness :
  all_locked (sh_polls one_locked.2) <> [] /\
  exists o s', shop_step one_locked.2 (OfPoll 1 o) s' /\ o <> Lost /\ o <> Committed false.
Proof.
  assert (bool_decide (all_locked (sh_polls one_locked.2) = []) = false) as H1 by (by vm_compute).
  assert (match sh_polls one_locked.2 !! 1%nat with Some t => negb (answered t) | None => false end
    = true) as H2 by (by vm_compute).
  apply bool_decide_eq_false in H1. split; [exact H1|]. revert H2. unfold one_locked.
  pose proof (drive_shop_all_ok (take 19 two_of_each) (open_shop env0 shop_db two_charges 2)) as Hrun.
  revert Hrun. generalize (drive_shop_all (take 19 two_of_each) (open_shop env0 shop_db two_charges 2)).
  intros [ls s] Hrun H2. cbn [fst snd] in *. destruct (sh_polls s !! 1%nat) as [t|] eqn:Ht; [|done].
  apply negb_true_iff in H2.
  apply (polls_never_wait env0 two_charges shop_db 2 ls s 1 t shop_db_wf Hrun Ht H2).
Defined.
