(* ===== verification/Lifecycle.v ===== *)
(** * cmd/api/main.go from the first request to the exit, and Start and Stop of the outbox worker

    The goroutines of one process: the listener with a goroutine per request, the poller with its
    [select] over the ticker and the stop channel, and [main], which waits for a signal and then
    shuts down in order.  Their calls to the database are those of Pollers.v.  The process may die
    at any moment ([log.Fatalf] in a goroutine, or from outside); a goroutine then makes no further
    call, and the server of the database rolls its transaction back.

    Calls on a pool or client after its [Close] may still succeed, or fail like any lost call;
    nothing here relies on either.  [asynqServer.Shutdown] and the [Close] calls return; the task
    server itself is in Webhook.v. *)
From S2P Require Import Prelude Json GoTime Database Hex PaymentRepo OutboxRepo PaymentService.
From S2P Require Import OutboxWorker UserRepo Ledger Concurrent Pollers.

(** ** The shutdown of main *)
Inductive action := ShutdownHTTP | StopPoller | ShutdownTasks | CloseMaster | CloseReplica
  | CloseRedis | CloseClient.

(** After the signal, in order; the task client is closed by a [defer]. *)
Definition shutdown_sequence : list action :=
  [ShutdownHTTP; StopPoller; ShutdownTasks; CloseMaster; CloseReplica; CloseRedis; CloseClient].

Definition intercepted (sig : string) : string :=
  "⚠️ Intercepted shutdown signal [" +:+ sig +:+ "]. Beginning graceful drainage sequence...".

(** What is logged once the action is done; [drained] tells whether [srv.Shutdown] ended without
    an error. *)
Definition log_of (drained : bool) (a : action) : list string :=
  match a with
  | ShutdownHTTP =>
      if drained then ["Byebye 🟢 HTTP gateway drained and stopped safely."]
      else ["HTTP gateway force closure error: context deadline exceeded"]
  | StopPoller => ["Shutting down Transactional Outbox Worker daemon pools...";
                   "🟢 Outbox Poller daemon stopped cleanly."]
  | ShutdownTasks => ["Draining and shutting down async worker queues...";
                      "🟢 Asynq background daemon engine exited cleanly."]
  | CloseMaster => ["Closing database cluster connection pools..."]
  | CloseReplica => ["🟢 Database connection pools closed cleanly."]
  | CloseRedis => ["Disconnecting Redis cache layers...";
                   "🟢 Redis client connections destroyed safely.";
                   "🏁 VaultPay API Engine shutdown sequence complete. Process exiting safely."]
  | CloseClient => []
  end.

(** Before the signal; after it, with the outcome of [srv.Shutdown] once it returned and the actions
    left; dead. *)
Inductive main_state := Serving | Closing (drained : option bool) (rest : list action) | Dead.

Definition alive (m : main_state) : bool :=
  match m with Serving => true | Closing _ rest => negb (bool_decide (rest = [])) | Dead => false end.
#[export] Instance action_eq_dec : EqDecision action.
Proof. solve_decision. Defined.

(** ** The poller *)

(** The number of polls done, and where the goroutine is: in [select], in a poll, returned. *)
Inductive poller := Waiting (k : nat) | Running (k : nat) | Returned (k : nat).

#[export] Instance poller_eq_dec : EqDecision poller.
Proof. solve_decision. Defined.

Definition polls_done (p : poller) : nat := match p with Waiting k | Running k | Returned k => k end.

(** ** The process *)
Record life := mkLife {
  lf_shop : shop;              (* the tables, the goroutines of the requests, the polls *)
  lf_accepted : list nat;      (* the requests that reached a handler *)
  lf_listening : bool;
  lf_tick : bool;              (* a tick waits in ticker.C, which holds one *)
  lf_stop : bool;              (* stopChan is closed *)
  lf_poller : poller;
  lf_main : main_state;
  lf_log : list string }.

Definition with_shop (x : shop) (s : life) : life :=
  mkLife x (lf_accepted s) (lf_listening s) (lf_tick s) (lf_stop s) (lf_poller s) (lf_main s) (lf_log s).
Definition with_poller (tick : bool) (p : poller) (s : life) : life :=
  mkLife (lf_shop s) (lf_accepted s) (lf_listening s) tick (lf_stop s) p (lf_main s) (lf_log s).
Definition accept (i : nat) (s : life) : life :=
  mkLife (lf_shop s) (i :: lf_accepted s) (lf_listening s) (lf_tick s) (lf_stop s) (lf_poller s)
    (lf_main s) (lf_log s).
Definition stop_listening (s : life) : life :=
  mkLife (lf_shop s) (lf_accepted s) false (lf_tick s) (lf_stop s) (lf_poller s) (lf_main s) (lf_log s).
Definition with_main (m : main_state) (log : list string) (s : life) : life :=
  mkLife (lf_shop s) (lf_accepted s) (lf_listening s) (lf_tick s) (lf_stop s) (lf_poller s) m
    (lf_log s ++ log).

(** [close(w.stopChan)]. *)
Definition Stop (s : life) : life :=
  mkLife (lf_shop s) (lf_accepted s) (lf_listening s) (lf_tick s) true (lf_poller s) (lf_main s) (lf_log s).

(** The actions after [srv.Shutdown]: of the process only the poller hears of them. *)
Definition perform (a : action) (s : life) : life :=
  match a with StopPoller => Stop s | _ => s end.

Definition handler_done (s : life) (i : nat) : bool :=
  match sh_requests (lf_shop s) !! i with Some t => answered t | None => false end.

Inductive life_step (s : life) : option shop_event -> life -> Prop :=
  (* requests: a goroutine per request, while the listener is open *)
  | life_accept i :
      alive (lf_main s) = true -> lf_listening s = true -> (i < length (sh_requests (lf_shop s)))%nat ->
      i ∉ lf_accepted s -> life_step s None (accept i s)
  | life_handler i o x :
      alive (lf_main s) = true -> i ∈ lf_accepted s -> shop_step (lf_shop s) (OfRequest i o) x ->
      life_step s (Some (OfRequest i o)) (with_shop x s)
  (* the poller: case <-ticker.C and case <-w.stopChan *)
  | life_tick k :
      alive (lf_main s) = true -> lf_poller s = Waiting k \/ lf_poller s = Running k ->
      life_step s None (with_poller true (lf_poller s) s)
  | life_poll_begins k :
      alive (lf_main s) = true -> lf_poller s = Waiting k -> lf_tick s = true ->
      life_step s None (with_poller false (Running k) s)
  | life_poll_call k o x :
      alive (lf_main s) = true -> lf_poller s = Running k -> shop_step (lf_shop s) (OfPoll k o) x ->
      life_step s (Some (OfPoll k o)) (with_shop x s)
  | life_poll_ends k t :
      alive (lf_main s) = true -> lf_poller s = Running k -> sh_polls (lf_shop s) !! k = Some t ->
      answered t = true -> life_step s None (with_poller (lf_tick s) (Waiting (Datatypes.S k)) s)
  | life_poller_returns k :
      alive (lf_main s) = true -> lf_poller s = Waiting k -> lf_stop s = true ->
      life_step s None (with_poller (lf_tick s) (Returned k) s)
  (* main *)
  | life_signal sig :
      lf_main s = Serving -> life_step s None (with_main (Closing None shutdown_sequence) [intercepted sig] s)
  | life_listener rest :
      lf_main s = Closing None (ShutdownHTTP :: rest) -> life_step s None (stop_listening s)
  | life_drained rest :
      lf_main s = Closing None (ShutdownHTTP :: rest) -> lf_listening s = false ->
      forallb (handler_done s) (lf_accepted s) = true ->
      life_step s None (with_main (Closing (Some true) rest) (log_of true ShutdownHTTP) s)
  | life_deadline rest :
      lf_main s = Closing None (ShutdownHTTP :: rest) -> lf_listening s = false ->
      life_step s None (with_main (Closing (Some false) rest) (log_of false ShutdownHTTP) s)
  | life_action drained a rest :
      lf_main s = Closing (Some drained) (a :: rest) ->
      life_step s None (with_main (Closing (Some drained) rest) (log_of drained a) (perform a s))
  | life_killed : life_step s None (with_main Dead [] s).

Inductive life_run (s : life) : list shop_event -> life -> Prop :=
  | life_nil : life_run s [] s
  | life_snoc ls s1 l s2 :
      life_run s ls s1 -> life_step s1 l s2 -> life_run s (ls ++ option_list l) s2.

(** The process when it starts to listen, for the requests [reqs] that may come and [n] polls at most. *)
Definition started (E : Env) (d : DB) (reqs : list request) (n : nat) : life :=
  mkLife (open_shop E d reqs n) [] true false false (Waiting 0) Serving [].

(** ** Every run of the process is a run of its database calls *)
Section runs.
Context (E : Env).

Lemma with_shop_id (s : life) : with_shop (lf_shop s) s = s.
Proof. by destruct s. Qed.

Lemma life_step_shop s l s' :
  life_step s l s' ->
  match l with Some e => shop_step (lf_shop s) e (lf_shop s') | None => lf_shop s' = lf_shop s end.
Proof. intros Hs. destruct Hs; try done. by destruct a. Qed.

Lemma life_shop reqs d0 n ls s :
  life_run (started E d0 reqs n) ls s -> shop_run (open_shop E d0 reqs n) ls (lf_shop s).
Proof.
  intros Hrun. induction Hrun as [|ls s1 [l|] s2 _ IH Hstep]; [constructor| |].
  - eapply shop_snoc; [exact IH|]. by apply (life_step_shop s1 (Some l) s2).
  - cbn. rewrite app_nil_r. by rewrite (life_step_shop _ _ _ Hstep).
Qed.

(** The polls before the [k]th are done, those after it not begun; neither is the [k]th unless the
    poller runs it. *)
Definition polls_in_turn (p : poller) (ps : list (thread unit)) : Prop :=
  forall i t, ps !! i = Some t ->
    ((i < polls_done p)%nat -> answered t = true) /\
    ((polls_done p < i)%nat \/ i = polls_done p /\ p <> Running i -> t = mkThread (poll_prog E) Idle).

Record orderly (reqs : list request) (s : life) : Prop := mkOrderly {
  or_polls : polls_in_turn (lf_poller s) (sh_polls (lf_shop s));
  or_new : forall i, i ∉ lf_accepted s -> sh_requests (lf_shop s) !! i = start E reqs !! i;
  or_drained : forall rest, lf_main s = Closing (Some true) rest ->
    lf_listening s = false /\ forallb (handler_done s) (lf_accepted s) = true }.

Lemma orderly_started reqs d0 n : orderly reqs (started E d0 reqs n).
Proof. constructor; [|done..]. intros i t [-> _]%lookup_replicate. split; [cbn; lia|done]. Qed.

Lemma handler_done_after s s' :
  (forall i, handler_done s i = true -> handler_done s' i = true) -> lf_accepted s' = lf_accepted s ->
  forallb (handler_done s) (lf_accepted s) = true -> forallb (handler_done s') (lf_accepted s') = true.
Proof. intros H ->. rewrite !forallb_forall. auto. Qed.

Lemma orderly_step reqs s l s' : orderly reqs s -> life_step s l s' -> orderly reqs s'.
Proof.
  intros [Hp Hn Hd] Hs.
  destruct Hs as [i Ha Hl _ Hi|i o x Ha Hi Hx|k Ha Hk|k Ha Hk Ht|k o x Ha Hk Hx|k t Ha Hk Ht Hans
    |k Ha Hk Hst|Hm|rest Hm|rest Hm Hl Hall|rest Hm Hl|drained a rest Hm|]; constructor; cbn in *; try done.
  - intros j Hj. apply Hn. by apply not_elem_of_cons in Hj as [_ Hj].
  - intros rest Hm. destruct (Hd rest Hm) as [Hl2 _]. by rewrite Hl in Hl2.
  - destruct (request_step _ _ _ _ Hx) as [-> _]. done.
  - destruct (request_step _ _ _ _ Hx) as (_ & t & t' & _ & _ & ->). intros j Hj.
    rewrite list_lookup_insert_ne; [auto|by intros ->].
  - intros rest Hm. destruct (Hd rest Hm) as [Hl Hall]. split; [done|].
    apply (handler_done_after s (with_shop x s)); [|done|done]. intros j. unfold handler_done. cbn.
    destruct (request_step _ _ _ _ Hx) as (_ & t & t' & Ht & Hans & ->).
    destruct (decide (j = i)) as [->|Hne]; [by rewrite Ht, Hans|by rewrite list_lookup_insert_ne].
  - intros i u Hu. destruct (Hp i u Hu) as [H1 H2]. rewrite Hk in *. cbn in *.
    split; [done|]. intros [Hi|[-> Hi]]; [|done]. apply H2. by left.
  - destruct (poll_call _ _ _ _ Hx) as (_ & t & t' & Ht & Hans & ->). rewrite Hk in *. cbn in *.
    intros i u [(-> & <- & _)|[Hne Hu]]%list_lookup_insert_Some; [|by apply Hp].
    cbn. split; [lia|]. intros [?|[_ ?]]; [lia|done].
  - by destruct (poll_call _ _ _ _ Hx) as [-> _].
  - intros rest Hm. destruct (Hd rest Hm) as [Hl Hall]. split; [done|].
    apply (handler_done_after s (with_shop x s)); [|done|done]. intros j. unfold handler_done. cbn.
    by destruct (poll_call _ _ _ _ Hx) as [-> _].
  - intros i u Hu. destruct (Hp i u Hu) as [H1 H2]. rewrite Hk in *. cbn in *. split.
    + intros Hi. destruct (decide (i = k)) as [->|]; [congruence|]. apply H1. lia.
    + intros [Hi|[-> _]]; apply H2; left; lia.
  - intros i u Hu. destruct (Hp i u Hu) as [H1 H2]. rewrite Hk in *. cbn in *. split; [done|].
    intros [Hi|[-> _]]; apply H2; [by left|by right].
  - intros rest' Hm'. congruence.
  - by destruct a.
  - by destruct a.
  - intros rest' [= -> ->]. destruct (Hd _ Hm). by destruct a.
Qed.

Lemma life_orderly reqs d0 n ls s : life_run (started E d0 reqs n) ls s -> orderly reqs s.
Proof.
  intros Hrun. induction Hrun as [|ls s1 l s2 _ IH Hstep]; [apply orderly_started|].
  by eapply orderly_step.
Qed.
End runs.

(** ** The theorems *)

(** C8: A process works its requests and polls in order, at any moment of its life, also when it is
    killed: its run is a run of the database calls of its requests and polls, so charges and refunds
    are serializable up to its end; and its polls come one after the other. *)
Theorem process_serializable (E : Env) `{!UuidLaws E} (reqs : list request) (d0 : DB) (n : nat)
    (ls : list shop_event) (s : life) :
  wf E d0 -> life_run (started E d0 reqs n) ls s ->
  shop_run (open_shop E d0 reqs n) ls (lf_shop s) /\
  polls_in_turn E (lf_poller s) (sh_polls (lf_shop s)) /\
  exists h, answers_of h = commits (for_requests ls) /\ NoDup (fst <$> h) /\
  serially E reqs d0 (payments_of h) (sh_db (lf_shop s)) /\ wf E (sh_db (lf_shop s)).
Proof.
  intros Hwf Hrun. pose proof (life_shop E _ _ _ _ _ Hrun) as Hshop. split; [done|].
  split; [apply (or_polls _ _ _ (life_orderly E _ _ _ _ _ Hrun))|].
  pose proof (ss_run _ _ _ _ _ (shop_run_sound E _ _ _ _ _ Hwf Hshop)) as H.
  destruct (process_run_sound E _ _ _ _ _ Hwf H) as (h & Hh & Ha). exists h.
  split; [done|]. split; [apply Hh|]. split; apply Hh.
Qed.


(** ** Witnesses: a charge, its event, and a signal *)
Inductive command :=
  | CAccept (i : nat) | CCall (x : (nat + nat) * uuid * Z) | CTick | CBegin | CEnd | CReturn
  | CSignal | CListener | CDrained | CAction.

Definition life_do (c : command) (s : life) : option (option shop_event * life) :=
  if negb (alive (lf_main s)) then None else
  match c, lf_poller s, lf_main s with
  | CAccept i, _, _ =>
      if lf_listening s && (i <? length (sh_requests (lf_shop s)))%nat &&
         negb (bool_decide (i ∈ lf_accepted s)) then Some (None, accept i s) else None
  | CCall x, p, _ =>
      if match x.1.1 with
         | inl i => bool_decide (i ∈ lf_accepted s)
         | inr k => bool_decide (p = Running k)
         end
      then (fun y => (Some y.1, with_shop y.2 s)) <$> drive_shop (lf_shop s) x else None
  | CTick, (Waiting _ | Running _) as p, _ => Some (None, with_poller true p s)
  | CBegin, Waiting k, _ => if lf_tick s then Some (None, with_poller false (Running k) s) else None
  | CEnd, Running k, _ =>
      match sh_polls (lf_shop s) !! k with
      | Some t => if answered t then Some (None, with_poller (lf_tick s) (Waiting (Datatypes.S k)) s)
                  else None
      | None => None
      end
  | CReturn, Waiting k, _ =>
      if lf_stop s then Some (None, with_poller (lf_tick s) (Returned k) s) else None
  | CSignal, _, Serving =>
      Some (None, with_main (Closing None shutdown_sequence) [intercepted "terminated"] s)
  | CListener, _, Closing None (ShutdownHTTP :: _) => Some (None, stop_listening s)
  | CDrained, _, Closing None (ShutdownHTTP :: rest) =>
      if negb (lf_listening s) && forallb (handler_done s) (lf_accepted s)
      then Some (None, with_main (Closing (Some true) rest) (log_of true ShutdownHTTP) s) else None
  | CAction, _, Closing (Some b) (a :: rest) =>
      Some (None, with_main (Closing (Some b) rest) (log_of b a) (perform a s))
  | _, _, _ => None
  end.

Lemma life_do_ok c s l s' : life_do c s = Some (l, s') -> life_step s l s'.
Proof.
  unfold life_do. destruct (alive (lf_main s)) eqn:Ha; cbn [negb]; [|done].
  destruct c as [i|[[who u] z]| | | | | | | |]; cbn [fst snd].
  - destruct (lf_listening s && _ && _) eqn:Hg; [|done]. intros [= <- <-].
    apply andb_true_iff in Hg as [[Hl Hi%Nat.ltb_lt]%andb_true_iff Hn%negb_true_iff%bool_decide_eq_false].
    by apply life_accept.
  - destruct (match who with inl i => _ | inr k => _ end) eqn:Hg; [|done].
    destruct (drive_shop _ _) as [[e x]|] eqn:Hd; [|done]. intros [= <- <-].
    pose proof (drive_shop_ok _ _ _ _ Hd) as Hs. destruct who as [i|k]; apply bool_decide_eq_true in Hg;
      cbn in Hd; [destruct (sh_requests _ !! i) as [t|]|destruct (sh_polls _ !! k) as [t|]]; try done;
      cbn in Hd; destruct (drive_thread _ _ _ _ _) as [[o [d' t']]|]; cbn in Hd; try done;
      injection Hd as <- <-; [by apply life_handler|by apply life_poll_call].
  - destruct (lf_poller s) as [k|k|k] eqn:Hp; intros [= <- <-];
      rewrite <- Hp; apply (life_tick _ k); auto.
  - destruct (lf_poller s) as [k|k|k] eqn:Hp; try done. destruct (lf_tick s) eqn:Ht; intros [= <- <-].
    by apply life_poll_begins.
  - destruct (lf_poller s) as [k|k|k] eqn:Hp; try done.
    destruct (sh_polls _ !! k) as [t|] eqn:Ht; [|done]. destruct (answered t) eqn:Hans; intros [= <- <-].
    by apply (life_poll_ends _ k t).
  - destruct (lf_poller s) as [k|k|k] eqn:Hp; try done. destruct (lf_stop s) eqn:Ht; intros [= <- <-].
    by apply life_poller_returns.
  - destruct (lf_poller s), (lf_main s) eqn:Hm; intros [= <- <-]; by apply life_signal.
  - destruct (lf_poller s), (lf_main s) as [|[b|] [|[] rest]|] eqn:Hm; intros [= <- <-];
      by apply (life_listener _ rest).
  - destruct (lf_main s) as [|[b|] [|[] rest]|] eqn:Hm; try (by destruct (lf_poller s)).
    destruct (negb _ && _) eqn:Hg; destruct (lf_poller s); intros [= <- <-];
      apply andb_true_iff in Hg as [Hl%negb_true_iff Hall]; by apply (life_drained _ rest).
  - destruct (lf_main s) as [|[b|] [|a rest]|] eqn:Hm; try (by destruct (lf_poller s)).
    destruct (lf_poller s); intros [= <- <-]; by apply (life_action _ b a rest).
Qed.

Definition life_all (cs : list command) (s : life) : list shop_event * life :=
  foldl (fun a c => match life_do c a.2 with
                    | Some (l, s') => (a.1 ++ option_list l, s')
                    | None => a
                    end) ([], s) cs.

Lemma life_all_ok cs s : life_run s (life_all cs s).1 (life_all cs s).2.
Proof.
  unfold life_all. set (f := fun a c => _).
  assert (forall a, life_run s a.1 a.2 -> life_run s (foldl f a cs).1 (foldl f a cs).2) as H.
  { induction cs as [|c cs IH]; intros a Ha; [done|]. cbn [foldl]. apply IH. unfold f.
    destruct (life_do c a.2) as [[l s']|] eqn:Hd; [|done].
    eapply life_snoc; [done|]. by apply (life_do_ok c). }
  apply H, life_nil.
Qed.

(** A charge is answered; the poller begins a poll and hands the event over; the signal comes, and
    main shuts down without hearing from the poll. *)
Definition calls_of (who : nat + nat) (from n : nat) : list command :=
  (fun j => CCall (who, count_uuid (from + j), Z.of_nat (from + j))) <$> seq 0 n.
Definition last_day : list command :=
  CAccept 0 :: calls_of (inl 0%nat) 1 8 ++ [CTick; CBegin] ++ calls_of (inr 0%nat) 11 5 ++
  [CSignal; CListener; CDrained] ++ replicate 6 CAction.
Definition died : list shop_event * life := life_all last_day (started env0 shop_db two_charges 3).

Lemma process_serializable_witness :
  (exists p, serially env0 two_charges shop_db [(0%nat, p)] (sh_db (lf_shop died.2))) /\
  lf_poller died.2 = Running 0.
Proof.
  assert (commits (for_requests died.1) = [(0%nat, true)]) as H1 by (by vm_compute).
  assert (bool_decide (lf_poller died.2 = Running 0) = true) as H2 by (by vm_compute).
  apply bool_decide_eq_true in H2. split; [|exact H2]. revert H1. unfold died.
  pose proof (life_all_ok last_day (started env0 shop_db two_charges 3)) as Hrun. revert Hrun.
  generalize (life_all last_day (started env0 shop_db two_charges 3)). intros [ls s] Hrun H1.
  cbn [fst snd] in *.
  destruct (process_serializable env0 two_charges shop_db 3 ls s shop_db_wf Hrun)
    as (_ & _ & h & Hh & _ & Hs & _).
  rewrite H1 in Hh. destruct h as [|[i [p b]] [|]]; [done| |done]. injection Hh as -> ->. by exists p.
Defined.


(** [Stop] does not wait: a process may shut down gracefully, report that the poller stopped cleanly,
    and end in the middle of a poll that has handed an event over; the event is still pending, and
    the next process hands it over again. *)
Definition next_day : list shop_event * life :=
  life_all ([CTick; CBegin] ++ calls_of (inr 0%nat) 1 12 ++ [CEnd])
    (started env0 (sh_db (lf_shop died.2)) [] 1).

Theorem stop_does_not_wait :
  exists ls s ls' s',
    life_run (started env0 shop_db two_charges 3) ls s /\ lf_main s = Closing (Some true) [] /\
    "🟢 Outbox Poller daemon stopped cleanly." ∈ lf_log s /\
    life_run (started env0 (sh_db (lf_shop s)) [] 1) ls' s' /\
    (fun x => ev_ID x.2.1) <$> sends ls = (fun x => ev_ID x.2.1) <$> sends ls' /\
    length (sends ls) = 1%nat.
Proof.
  exists died.1, died.2, next_day.1, next_day.2. split; [apply life_all_ok|]. split; [by vm_compute|].
  split; [apply (bool_decide_unpack _); by vm_compute|]. split; [apply life_all_ok|].
  split; [apply (bool_decide_unpack _); by vm_compute|by vm_compute].
Qed.
