(* ===== verification/Redis.v ===== *)
(** * The Redis server behind go-redis

    Redis and its client are not part of the program: the commands the program sends are an
    inductive type, the server is the class [Redis] with the documented behaviour of each command
    as the laws of [RedisLaws], and [mem_redis] is a concrete server for which they hold.  The Lua
    scripts are part of the program; the server runs a script atomically and at one instant of
    its clock. *)
From S2P Require Import Prelude Json GoTime Database Hex.

(** ** Commands, replies, values *)

(** Times to live are in milliseconds, [EXPIRE] counts seconds. *)
Inductive command :=
  | GET (key : string)
  | SET (key value : string) (px : Z) (nx : bool)
  | DEL (key : string)
  | ZREMRANGEBYSCORE (key : string) (min max : Z)
  | ZCARD (key : string)
  | ZADD (key : string) (score : Z) (member : string)
  | EXPIRE (key : string) (seconds : Z).

Inductive reply := RNil | ROK | RBulk (s : string) | RInt (z : Z).

(** A sorted set: the score of each member. *)
Inductive rvalue := RString (s : string) | RZset (members : gmap string Z).

Definition ErrWrongType : error :=
  Errorf "WRONGTYPE Operation against a key holding the wrong kind of value".

(** [redis.Nil] *)
Definition ErrNil : error := Sentinel "redis: nil".

(** Times are the server's, in milliseconds.  [redis_at key t s] is what the
    key holds at [t] when nothing is written after [s]. *)
Class Redis (kv : Type) := {
  redis_do : command -> Z -> kv -> res reply * kv;
  redis_at : string -> Z -> kv -> option rvalue }.

Definition zset_of (v : option rvalue) : option (gmap string Z) :=
  match v with None => Some ∅ | Some (RZset m) => Some m | Some (RString _) => None end.

Section laws.
Context {kv : Type} {R : Redis kv}.

(** From [t] on, [key] holds what [f] says and the other keys what they held. *)
Definition writes (key : string) (t : Z) (f : Z -> option rvalue) (s s' : kv) : Prop :=
  (forall t', t <= t' -> redis_at key t' s' = f t') /\
  (forall k t', k <> key -> t <= t' -> redis_at k t' s' = redis_at k t' s).

Definition reads (t : Z) (s s' : kv) : Prop :=
  forall k t', t <= t' -> redis_at k t' s' = redis_at k t' s.

(** A key keeps its time to live when its value changes, and holds at least one member. *)
Definition updated (f : gmap string Z -> gmap string Z) (key : string) (t : Z) (s : kv) :
    Z -> option rvalue := fun t' =>
  match redis_at key t s with
  | None => let m := f ∅ in if decide (m = ∅) then None else Some (RZset m)
  | Some _ =>
      match redis_at key t' s with
      | Some (RZset m) => let m' := f m in if decide (m' = ∅) then None else Some (RZset m')
      | v => v
      end
  end.
End laws.

(** The documented behaviour of the commands. *)
Class RedisLaws {kv} (R : Redis kv) : Prop := {
  (** A key that expired stays so, and a live key does not change by itself. *)
  redis_keep : forall k t t' s v, t <= t' -> redis_at k t' s = Some v -> redis_at k t s = Some v;
  redis_get : forall k t s,
    (redis_do (GET k) t s).1 =
      match redis_at k t s with
      | None => Ok RNil | Some (RString v) => Ok (RBulk v) | Some (RZset _) => Err ErrWrongType
      end /\
    reads t s (redis_do (GET k) t s).2;
  redis_set : forall k v px t s,
    (redis_do (SET k v px false) t s).1 = Ok ROK /\
    writes k t (fun t' => if t' <? t + px then Some (RString v) else None) s
      (redis_do (SET k v px false) t s).2;
  redis_setnx : forall k v px t s,
    match redis_at k t s with
    | Some _ =>
        (redis_do (SET k v px true) t s).1 = Ok RNil /\
        reads t s (redis_do (SET k v px true) t s).2
    | None =>
        (redis_do (SET k v px true) t s).1 = Ok ROK /\
        writes k t (fun t' => if t' <? t + px then Some (RString v) else None) s
          (redis_do (SET k v px true) t s).2
    end;
  redis_del : forall k t s,
    (redis_do (DEL k) t s).1 = Ok (RInt (if redis_at k t s is Some _ then 1 else 0)) /\
    writes k t (fun _ => None) s (redis_do (DEL k) t s).2;
  redis_zrem : forall k lo hi t s m, zset_of (redis_at k t s) = Some m ->
    is_ok (redis_do (ZREMRANGEBYSCORE k lo hi) t s).1 = true /\
    writes k t (updated (filter (fun x => ~ (lo <= x.2 <= hi))) k t s) s
      (redis_do (ZREMRANGEBYSCORE k lo hi) t s).2;
  redis_zcard : forall k t s m, zset_of (redis_at k t s) = Some m ->
    (redis_do (ZCARD k) t s).1 = Ok (RInt (Z.of_nat (size m))) /\
    reads t s (redis_do (ZCARD k) t s).2;
  redis_zadd : forall k score member t s m, zset_of (redis_at k t s) = Some m ->
    is_ok (redis_do (ZADD k score member) t s).1 = true /\
    writes k t (updated (<[member := score]>) k t s) s (redis_do (ZADD k score member) t s).2;
  redis_expire : forall k sec t s,
    is_ok (redis_do (EXPIRE k sec) t s).1 = true /\
    writes k t (fun t' => if t' <? t + sec * 1000 then redis_at k t s else None) s
      (redis_do (EXPIRE k sec) t s).2 }.

(** ** The client *)
Section client.
Context {kv : Type} (E : Env) {R : Redis kv}.

(** One command. *)
Definition redis_call (c : command) : M (World kv) reply :=
  ext E (fun w =>
    let '(r, s) := redis_do c (kv_clock E (w_ticks w)) (w_kv w) in (r, set_kv s w)).

(** [client.Get(ctx, key).Result()]: a missing key is the error [redis.Nil]. *)
Definition Get (key : string) : M (World kv) string :=
  r ← redis_call (GET key);
  match r with RBulk s => mret s | _ => throw ErrNil end.

(** [client.Set(ctx, key, value, ttl).Err()] *)
Definition Set_ (key value : string) (ttl : Z) : M (World kv) unit :=
  _ ← redis_call (SET key value (ttl / 10 ^ 6) false); mret tt.

(** [client.SetNX(ctx, key, value, ttl).Result()] *)
Definition SetNX (key value : string) (ttl : Z) : M (World kv) bool :=
  r ← redis_call (SET key value (ttl / 10 ^ 6) true);
  mret (match r with ROK => true | _ => false end).

(** [redis.call] inside a script that runs at [t]. *)
Definition script_call (t : Z) (c : command) : M kv reply := redis_do c t.

(** [client.Eval(ctx, script, keys, args...).Result()] *)
Definition Eval_ {A} (script : Z -> M kv A) : M (World kv) A :=
  ext E (fun w =>
    let '(r, s) := script (kv_clock E (w_ticks w)) (w_kv w) in (r, set_kv s w)).
End client.

Section client_facts.
Context {kv : Type} (E : Env) {R : Redis kv}.
Implicit Types (w : World kv).

(** Everything but the Redis server and the tick count is as before. *)
Definition only_kv w w' : Prop :=
  w_db w' = w_db w /\ w_replica w' = w_replica w /\ w_tx w' = w_tx w /\
  w_queue w' = w_queue w /\ (w_ticks w <= w_ticks w')%nat.

#[export] Instance only_kv_preorder : PreOrder only_kv.
Proof.
  split; [intros w; by split_and!|]. intros w1 w2 w3 (?&?&?&?&?) (?&?&?&?&?). split_and!; try congruence. lia.
Qed.

Lemma only_kv_tick w : only_kv w (tick w).
Proof. split_and!; simpl; auto. Qed.

Lemma only_kv_ext {A} (op : World kv -> res A * World kv) w :
  (forall w, only_kv w (op w).2) -> only_kv w (ext E op w).2.
Proof.
  intros Hop. unfold ext. destruct (faults E (w_ticks w)) as [[e|e]|]; simpl;
    [apply only_kv_tick|etrans; [apply only_kv_tick|apply Hop]..].
Qed.

Lemma redis_call_only_kv c w : only_kv w (redis_call E c w).2.
Proof.
  apply only_kv_ext. intros w0. destruct (redis_do _ _ _) as [r s]. by split_and!.
Qed.

Lemma Eval_only_kv {A} (script : Z -> M kv A) w : only_kv w (Eval_ E script w).2.
Proof. apply only_kv_ext. intros w0. destruct (script _ _) as [r s]. by split_and!. Qed.

Lemma only_kv_bind {A B} (m : M (World kv) A) (k : A -> M (World kv) B) w :
  (forall w, only_kv w (m w).2) -> (forall a w, only_kv w (k a w).2) ->
  only_kv w ((m ≫= k) w).2.
Proof.
  intros Hm Hk. specialize (Hm w). unfold mbind, M_bind.
  destruct (m w) as [[a|e] w1]; [|done]. etrans; [exact Hm|apply Hk].
Qed.

Lemma Get_only_kv key w : only_kv w (Get E key w).2.
Proof. apply only_kv_bind; [intros; apply redis_call_only_kv|by intros []]. Qed.

Lemma Set_only_kv key value ttl w : only_kv w (Set_ E key value ttl w).2.
Proof. apply only_kv_bind; [intros; apply redis_call_only_kv|done]. Qed.
End client_facts.

(** ** Single calls *)
Section call_facts.
Context {kv : Type} (E : Env) {R : Redis kv} {RL : RedisLaws R}.
Implicit Types (w : World kv).

(** A lookup of a key that is not lost, by what the key holds. *)
Lemma Get_run key w :
  faults E (w_ticks w) = None ->
  exists s', Get E key w =
      (match redis_at key (kv_clock E (w_ticks (tick w))) (w_kv w) with
       | Some (RString v) => Ok v | Some (RZset _) => Err ErrWrongType | None => Err ErrNil
       end, set_kv s' (tick w)) /\
    (forall k t, kv_clock E (w_ticks (tick w)) <= t -> redis_at k t s' = redis_at k t (w_kv w)).
Proof.
  intros Hf. unfold Get, redis_call, ext, mbind, M_bind. rewrite Hf.
  destruct (redis_get key (kv_clock E (w_ticks (tick w))) (w_kv (tick w))) as [Hr Hs].
  destruct (redis_do _ _ _) as [r s']. simpl in *. subst r.
  exists s'. split; [|done]. by destruct (redis_at key _ _) as [[]|].
Qed.

Lemma Set_run key value ttl w :
  faults E (w_ticks w) = None ->
  exists s', Set_ E key value ttl w = (Ok tt, set_kv s' (tick w)) /\
    writes key (kv_clock E (w_ticks (tick w)))
      (fun t => if t <? kv_clock E (w_ticks (tick w)) + ttl / 10 ^ 6 then Some (RString value)
                else None) (w_kv w) s'.
Proof.
  intros Hf. unfold Set_, redis_call, ext, mbind, M_bind. rewrite Hf.
  destruct (redis_set key value (ttl / 10 ^ 6) (kv_clock E (w_ticks (tick w))) (w_kv (tick w)))
    as [Hr Hs].
  destruct (redis_do _ _ _) as [r s']. simpl in *. subst r. by exists s'.
Qed.

(** The same two calls with any fault. *)
Lemma Get_any key w :
  let w' := (Get E key w).2 in
  w_ticks w' = S (w_ticks w) /\ reads (kv_clock E (w_ticks w')) (w_kv w) (w_kv w').
Proof.
  unfold Get, redis_call, ext, mbind, M_bind.
  pose proof (redis_get key (kv_clock E (S (w_ticks w))) (w_kv w)) as [_ Hs].
  destruct (faults E (w_ticks w)) as [[e|e]|]; cbn; [done|..];
    destruct (redis_do _ _ _) as [[[]|] s']; simpl in *; done.
Qed.

Lemma Set_any key value ttl w :
  let '(r, w') := Set_ E key value ttl w in
  let t := kv_clock E (w_ticks w') in
  w_ticks w' = S (w_ticks w) /\
  (writes key t (fun t' => if t' <? t + ttl / 10 ^ 6 then Some (RString value)
                else None) (w_kv w) (w_kv w') \/ is_ok r = false /\ w_kv w' = w_kv w).
Proof.
  unfold Set_, redis_call, ext, mbind, M_bind.
  pose proof (redis_set key value (ttl / 10 ^ 6) (kv_clock E (S (w_ticks w))) (w_kv w)) as [Hr Hs].
  destruct (faults E (w_ticks w)) as [[e|e]|]; cbn; [by auto|..];
    destruct (redis_do _ _ _) as [r s']; simpl in *; subst r; cbn; by auto.
Qed.
End call_facts.

(** Whatever happened between two states left a key alone. *)
Definition spares {kv} (E : Env) {R : Redis kv} (key : string) (w w' : World kv) : Prop :=
  (w_ticks w <= w_ticks w')%nat /\
  forall t, kv_clock E (w_ticks w') <= t -> redis_at key t (w_kv w') = redis_at key t (w_kv w).

(** The Redis clock does not go back. *)
Class KvMono (E : Env) : Prop :=
  kv_mono : forall n m, (n <= m)%nat -> kv_clock E n <= kv_clock E m.

#[export] Instance spares_preorder {kv} E `{!KvMono E} {R : Redis kv} key :
  PreOrder (spares E key).
Proof.
  split; [done|]. intros w1 w2 w3 [H1 H2] [H3 H4]. split; [lia|]. intros t Ht.
  rewrite H4 by done. apply H2. etrans; [apply kv_mono; exact H3|done].
Qed.

(** ** A concrete server: values with an optional deadline *)
Abbreviation mem := (gmap string (rvalue * option Z)).

Definition alive (t : Z) (e : rvalue * option Z) : bool :=
  match e.2 with None => true | Some d => t <? d end.

Definition mem_entry (key : string) (t : Z) (s : mem) : option (rvalue * option Z) :=
  match s !! key with
  | Some e => if alive t e then Some e else None
  | None => None
  end.

Definition mem_at (key : string) (t : Z) (s : mem) : option rvalue := fst <$> mem_entry key t s.

Definition mem_update (f : gmap string Z -> gmap string Z) (key : string) (t : Z) (s : mem) :
    res reply * mem :=
  match mem_entry key t s with
  | Some (RString _, _) => (Err ErrWrongType, s)
  | e =>
      let '(m, d) := match e with Some (RZset m, d) => (m, d) | _ => (∅, None) end in
      let m' := f m in
      (Ok (RInt (Z.of_nat (size m') - Z.of_nat (size m))),
       if decide (m' = ∅) then delete key s else <[key := (RZset m', d)]> s)
  end.

Definition mem_do (c : command) (t : Z) (s : mem) : res reply * mem :=
  match c with
  | GET k =>
      (match mem_at k t s with
       | None => Ok RNil | Some (RString v) => Ok (RBulk v) | Some (RZset _) => Err ErrWrongType
       end, s)
  | SET k v px nx =>
      match nx, mem_at k t s with
      | true, Some _ => (Ok RNil, s)
      | _, _ => (Ok ROK, <[k := (RString v, Some (t + px))]> s)
      end
  | DEL k => (Ok (RInt (if mem_at k t s is Some _ then 1 else 0)), delete k s)
  | ZREMRANGEBYSCORE k lo hi => mem_update (filter (fun x => ~ (lo <= x.2 <= hi))) k t s
  | ZCARD k =>
      (match mem_at k t s with
       | None => Ok (RInt 0) | Some (RZset m) => Ok (RInt (Z.of_nat (size m)))
       | Some (RString _) => Err ErrWrongType
       end, s)
  | ZADD k score member => mem_update (<[member := score]>) k t s
  | EXPIRE k sec =>
      match mem_entry k t s with
      | None => (Ok (RInt 0), s)
      | Some (v, _) => (Ok (RInt 1), <[k := (v, Some (t + sec * 1000))]> s)
      end
  end.

#[export] Instance mem_redis : Redis mem := {| redis_do := mem_do; redis_at := mem_at |}.

Section mem_facts.
Implicit Types (s : mem).

Lemma mem_at_insert k e t s : mem_at k t (<[k := e]> s) = if alive t e then Some e.1 else None.
Proof. unfold mem_at, mem_entry. rewrite lookup_insert_eq. by destruct (alive t e). Qed.

Lemma mem_at_delete k t s : mem_at k t (delete k s) = None.
Proof. unfold mem_at, mem_entry. by rewrite lookup_delete_eq. Qed.

Lemma mem_at_other k k' e t s : k' <> k -> mem_at k' t (<[k := e]> s) = mem_at k' t s.
Proof. intros H. unfold mem_at, mem_entry. by rewrite lookup_insert_ne. Qed.

Lemma mem_at_delete_other k k' t s : k' <> k -> mem_at k' t (delete k s) = mem_at k' t s.
Proof. intros H. unfold mem_at, mem_entry. by rewrite lookup_delete_ne. Qed.

Lemma mem_writes_insert k e t f s :
  (forall t', t <= t' -> (if alive t' e then Some e.1 else None) = f t') ->
  writes k t f s (<[k := e]> s).
Proof.
  intros Hf. split.
  - intros t' Ht. simpl. rewrite mem_at_insert. auto.
  - intros k' t' Hk _. by apply mem_at_other.
Qed.

Lemma mem_writes_delete k t f s : (forall t', t <= t' -> f t' = None) -> writes k t f s (delete k s).
Proof.
  intros Hf. split.
  - intros t' Ht. simpl. by rewrite mem_at_delete, Hf.
  - intros k' t' Hk _. by apply mem_at_delete_other.
Qed.

Lemma mem_entry_mono k t t' s :
  t <= t' -> mem_entry k t s = None -> mem_entry k t' s = None.
Proof.
  unfold mem_entry. intros Ht. destruct (s !! k) as [[v [d|]]|]; [|done|done].
  unfold alive. simpl. destruct (Z.ltb_spec t d); [done|]. by destruct (Z.ltb_spec t' d); [lia|].
Qed.

Lemma mem_entry_keep k t t' s e :
  mem_entry k t s = Some e -> mem_entry k t' s = if alive t' e then Some e else None.
Proof.
  unfold mem_entry. destruct (s !! k) as [e'|]; [|done].
  destruct (alive t e') eqn:?; [|done]. by intros [= ->].
Qed.

(** The two updates of sorted sets. *)
Lemma mem_update_writes f k t s m :
  zset_of (mem_at k t s) = Some m ->
  is_ok (mem_update f k t s).1 = true /\ writes k t (updated f k t s) s (mem_update f k t s).2.
Proof.
  unfold mem_at, mem_update, updated. cbn [redis_at mem_redis]. unfold mem_at.
  destruct (mem_entry k t s) as [[[v|m0] d]|] eqn:Hk; simpl; [done| |]; intros _; split; try done.
  - destruct (decide (f m0 = ∅)) as [H0|H0].
    + apply mem_writes_delete. intros t' _. rewrite (mem_entry_keep _ _ _ _ _ Hk).
      unfold alive. simpl. destruct d as [d|]; [destruct (t' <? d); [|done]|]; simpl; by rewrite decide_True.
    + apply mem_writes_insert. intros t' _. rewrite (mem_entry_keep _ _ _ _ _ Hk).
      unfold alive. simpl. destruct d as [d|]; [destruct (t' <? d); [|done]|]; simpl; by rewrite decide_False.
  - destruct (decide (f ∅ = ∅)); [by apply mem_writes_delete|by apply mem_writes_insert].
Qed.

#[export] Instance mem_redis_laws : RedisLaws mem_redis.
Proof.
  split; cbn [redis_do redis_at mem_redis mem_do].
  - intros k t t' s v Ht. unfold mem_at. destruct (mem_entry k t s) as [e|] eqn:Hk.
    + rewrite (mem_entry_keep _ _ _ _ _ Hk). by destruct (alive t' e).
    + by rewrite (mem_entry_mono _ _ _ _ Ht Hk).
  - done.
  - intros k v px t s. split; [done|]. by apply mem_writes_insert.
  - intros k v px t s. destruct (mem_at k t s); [done|]. split; [done|]. by apply mem_writes_insert.
  - intros k t s. split; [done|]. by apply mem_writes_delete.
  - intros. by eapply mem_update_writes.
  - intros k t s m. destruct (mem_at k t s) as [[v|m']|]; simpl; [done| |]; by intros [= <-].
  - intros. by eapply mem_update_writes.
  - intros k sec t s. unfold mem_at. destruct (mem_entry k t s) as [[v d]|] eqn:Hk.
    + split; [done|]. simpl. apply mem_writes_insert. intros t' _. done.
    + split; [done|]. simpl. split; [|done]. intros t' Ht. simpl. unfold mem_at.
      rewrite (mem_entry_mono _ _ _ _ Ht Hk). by destruct (_ <? _).
Qed.
End mem_facts.

#[export] Instance ref_kv_mono gen lost : KvMono (ref_env gen lost).
Proof. intros n m H. simpl. lia. Qed.
