(* ===== verification/Lock.v ===== *)
(** * internal/database/redis_lock.go: the distributed lock

    [AcquireLock] and [ReleaseLock] of any number of callers, interleaved with any other traffic
    on the same Redis server, as a step relation; a successful acquisition excludes every other
    one until its release or its time to live. *)
From S2P Require Import Prelude Json GoTime Database Hex Redis.

Definition ErrLockHeld : error :=
  Sentinel "concurrent transaction execution blocked: lock is already held".

Definition lock_key (key : string) : string := "lock:payment:" +:+ key.

Section lock.
Context {kv : Type} (E : Env) {R : Redis kv}.

(** The token is the current time in text. *)
Definition AcquireLock (key : string) (expiration : Z) : M (World kv) string :=
  now ← Now E;
  let token := RFC3339Nano now in
  succeeded ← SetNX E (lock_key key) token expiration;
  if succeeded : bool then mret token else throw ErrLockHeld.

Definition release_script (key token : string) : Z -> M kv reply := fun t =>
  r ← script_call t (GET (lock_key key));
  match r with
  | RBulk v => if decide (v = token) then script_call t (DEL (lock_key key)) else mret (RInt 0)
  | _ => mret (RInt 0)
  end.

Definition ReleaseLock (key token : string) : M (World kv) unit :=
  _ ← Eval_ E (release_script key token); mret tt.

(** ** The traffic on one server *)

(** The steps that do not give back the lock [key] with the token [token]: other callers'
    acquisitions and releases, and any step that leaves the key of the lock alone. *)
Inductive lock_step (key token : string) : World kv -> World kv -> Prop :=
  | step_acquire k expiration w : lock_step key token w (AcquireLock k expiration w).2
  | step_release k tok w :
      (k, tok) <> (key, token) -> lock_step key token w (ReleaseLock k tok w).2
  | step_other w w' : spares E (lock_key key) w w' -> lock_step key token w w'.

(** Until [deadline] the key of the lock holds the token. *)
Definition holds_lock (key token : string) (deadline : Z) (w : World kv) : Prop :=
  forall t, kv_clock E (w_ticks w) <= t -> t < deadline ->
    redis_at (lock_key key) t (w_kv w) = Some (RString token).
End lock.

(** ** What the two operations do *)
Section facts.
Context {kv : Type} (E : Env) {R : Redis kv} `{!RedisLaws R}.
Implicit Types (w : World kv).

Lemma AcquireLock_only_kv key expiration w : only_kv w (AcquireLock E key expiration w).2.
Proof.
  apply only_kv_bind; [intros; apply only_kv_tick|]. intros now w1.
  apply only_kv_bind; [|by intros [] ?].
  intros w2. apply only_kv_bind; [intros; apply redis_call_only_kv|done].
Qed.

Lemma ReleaseLock_only_kv key token w : only_kv w (ReleaseLock E key token w).2.
Proof. apply only_kv_bind; [intros; apply Eval_only_kv|done]. Qed.

(** The state each operation leaves in Redis, with or without a lost answer. *)
Lemma AcquireLock_kv key expiration w :
  let w' := (AcquireLock E key expiration w).2 in
  let token := RFC3339Nano (clock E (w_ticks w)) in
  w_ticks w' = S (S (w_ticks w)) /\
  (w_kv w' = w_kv w \/
   w_kv w' = (redis_do (SET (lock_key key) token (expiration / 10 ^ 6) true)
                (kv_clock E (w_ticks w')) (w_kv w)).2).
Proof.
  unfold AcquireLock, SetNX, redis_call, ext, Now, mbind, M_bind. cbn.
  destruct (faults E (S (w_ticks w))) as [[e|e]|]; cbn.
  - auto.
  - destruct (redis_do _ _ _) as [[[| | |]|] s] eqn:Hd; cbn; rewrite Hd; auto.
  - destruct (redis_do _ _ _) as [[[| | |]|] s] eqn:Hd; cbn; rewrite Hd; auto.
Qed.

Lemma AcquireLock_ok key expiration w token w' :
  AcquireLock E key expiration w = (Ok token, w') ->
  token = RFC3339Nano (clock E (w_ticks w)) /\ w_ticks w' = S (S (w_ticks w)) /\
  redis_do (SET (lock_key key) token (expiration / 10 ^ 6) true)
    (kv_clock E (w_ticks w')) (w_kv w) = (Ok ROK, w_kv w').
Proof.
  unfold AcquireLock, SetNX, redis_call, ext, Now, mbind, M_bind. cbn.
  destruct (faults E (S (w_ticks w))) as [[e|e]|]; cbn; [done|done|].
  destruct (redis_do _ _ _) as [[[| | |]|] s] eqn:Hdo; cbn; try done.
  intros [= <- <-]. done.
Qed.

Lemma ReleaseLock_kv key token w :
  let w' := (ReleaseLock E key token w).2 in
  w_ticks w' = S (w_ticks w) /\
  (w_kv w' = w_kv w \/
   w_kv w' = (release_script key token (kv_clock E (w_ticks w')) (w_kv w)).2).
Proof.
  unfold ReleaseLock, Eval_, ext, mbind, M_bind. cbn.
  destruct (faults E (w_ticks w)) as [[e|e]|]; cbn; [auto|..];
    destruct (release_script _ _ _ _) as [[r|e'] s] eqn:Hs; cbn; rewrite Hs; auto.
Qed.

Lemma lock_key_inj k k' : lock_key k = lock_key k' -> k = k'.
Proof. unfold lock_key. by intros [_ H]%string_app_inj. Qed.

(** What a key holds after the script of a release. *)
Lemma release_script_at key token t s :
  let s' := (release_script key token t s).2 in
  (forall k t', k <> lock_key key -> t <= t' -> redis_at k t' s' = redis_at k t' s) /\
  (redis_at (lock_key key) t s <> Some (RString token) ->
   forall t', t <= t' -> redis_at (lock_key key) t' s' = redis_at (lock_key key) t' s) /\
  (redis_at (lock_key key) t s = Some (RString token) ->
   forall t', t <= t' -> redis_at (lock_key key) t' s' = None).
Proof.
  unfold release_script, script_call, mbind, M_bind.
  destruct (redis_get (lock_key key) t s) as [Hr Hs].
  destruct (redis_do (GET (lock_key key)) t s) as [r s1]. cbn [fst] in Hr. cbn [snd] in Hs. subst r.
  destruct (redis_at (lock_key key) t s) as [[v|m]|] eqn:Hat; cbn.
  - destruct (decide (v = token)) as [->|Hne].
    + destruct (redis_del (lock_key key) t s1) as [_ [Hdel Hoth]].
      destruct (redis_do (DEL _) t s1) as [r2 s2]. cbn [snd] in *. cbn.
      split_and!; [|congruence|auto]. intros. rewrite Hoth by done. by apply Hs.
    + cbn. split_and!; [auto|auto|congruence].
  - split_and!; [auto|auto|congruence].
  - split_and!; [auto|auto|congruence].
Qed.
End facts.

(** The operations leave every other key alone. *)
Section other_keys.
Context {kv : Type} (E : Env) {R : Redis kv} `{!RedisLaws R, !KvMono E}.
Implicit Types (w : World kv).

Lemma AcquireLock_spares key k expiration w :
  key <> lock_key k -> spares E key w (AcquireLock E k expiration w).2.
Proof.
  intros Hne. destruct (AcquireLock_kv E k expiration w) as [Htk Hkv]. cbv zeta in *.
  set (w' := (AcquireLock E k expiration w).2) in *. split; [lia|]. intros t Ht.
  destruct Hkv as [->| ->]; [done|].
  set (t0 := kv_clock E (w_ticks w')) in *. set (tok := RFC3339Nano _).
  pose proof (redis_setnx (lock_key k) tok (expiration / 10 ^ 6) t0 (w_kv w)) as Hs.
  destruct (redis_at (lock_key k) t0 (w_kv w)).
  - destruct Hs as [_ Hs]. by apply Hs.
  - destruct Hs as [_ [_ Hs]]. by apply Hs.
Qed.

Lemma ReleaseLock_spares key k token w :
  key <> lock_key k -> spares E key w (ReleaseLock E k token w).2.
Proof.
  intros Hne. destruct (ReleaseLock_kv E k token w) as [Htk Hkv]. cbv zeta in *.
  set (w' := (ReleaseLock E k token w).2) in *. split; [lia|]. intros t Ht.
  destruct Hkv as [->| ->]; [done|].
  by apply (release_script_at k token (kv_clock E (w_ticks w')) (w_kv w)).
Qed.
End other_keys.

(** ** Mutual exclusion *)
Section exclusion.
Context {kv : Type} (E : Env) {R : Redis kv} `{!RedisLaws R}.
Context `{!KvMono E}.
Implicit Types (w : World kv).

Lemma acquire_keeps key token dl k expiration w :
  holds_lock E key token dl w -> holds_lock E key token dl (AcquireLock E k expiration w).2.
Proof.
  intros Hh t Ht Hdl.
  destruct (AcquireLock_kv E k expiration w) as [Htk Hkv]. cbv zeta in *.
  set (w' := (AcquireLock E k expiration w).2) in *.
  assert (kv_clock E (w_ticks w) <= kv_clock E (w_ticks w')) as Hm by (apply kv_mono; lia).
  destruct Hkv as [-> | ->]; [apply Hh; lia|].
  set (t0 := kv_clock E (w_ticks w')) in *. set (tok := RFC3339Nano _).
  pose proof (redis_setnx (lock_key k) tok (expiration / 10 ^ 6) t0 (w_kv w)) as Hs.
  destruct (decide (k = key)) as [->|Hne].
  - rewrite (Hh t0) in Hs by lia. destruct Hs as [_ Hs]. rewrite Hs by done. apply Hh; lia.
  - assert (lock_key key <> lock_key k) as Hk by (intros ?%lock_key_inj; congruence).
    destruct (redis_at (lock_key k) t0 (w_kv w)).
    + destruct Hs as [_ Hs]. rewrite Hs by done. apply Hh; lia.
    + destruct Hs as [_ [_ Hs]]. rewrite Hs by done. apply Hh; lia.
Qed.

Lemma release_keeps key token dl k tok w :
  (k, tok) <> (key, token) ->
  holds_lock E key token dl w -> holds_lock E key token dl (ReleaseLock E k tok w).2.
Proof.
  intros Hne Hh t Ht Hdl.
  destruct (ReleaseLock_kv E k tok w) as [Htk Hkv]. cbv zeta in *.
  set (w' := (ReleaseLock E k tok w).2) in *.
  assert (kv_clock E (w_ticks w) <= kv_clock E (w_ticks w')) as Hm by (apply kv_mono; lia).
  destruct Hkv as [-> | ->]; [apply Hh; lia|].
  set (t0 := kv_clock E (w_ticks w')) in *.
  destruct (release_script_at k tok t0 (w_kv w)) as (Hoth & Hkeep & _).
  destruct (decide (k = key)) as [->|Hk].
  - rewrite Hkeep; [apply Hh; lia| |done]. rewrite (Hh t0) by lia. congruence.
  - rewrite Hoth; [apply Hh; lia| |done]. intros ?%lock_key_inj. congruence.
Qed.

Lemma lock_step_keeps key token dl w w' :
  lock_step E key token w w' -> holds_lock E key token dl w -> holds_lock E key token dl w'.
Proof.
  intros [k e w0|k tok w0 Hne|w0 w0' [Htk Hsame]] Hh.
  - by apply acquire_keeps.
  - by apply release_keeps.
  - intros t Ht Hdl. rewrite Hsame by done. apply Hh; [|done].
    etrans; [apply kv_mono; exact Htk|done].
Qed.

Lemma lock_steps_keep key token dl w w' :
  rtc (lock_step E key token) w w' -> holds_lock E key token dl w ->
  holds_lock E key token dl w'.
Proof. induction 1; eauto using lock_step_keeps. Qed.

Lemma acquire_holds key expiration w token w' :
  AcquireLock E key expiration w = (Ok token, w') ->
  holds_lock E key token (kv_clock E (w_ticks w') + expiration / 10 ^ 6) w'.
Proof.
  intros (_ & _ & Hdo)%AcquireLock_ok t Ht Hdl.
  pose proof (redis_setnx (lock_key key) token (expiration / 10 ^ 6) (kv_clock E (w_ticks w'))
    (w_kv w)) as Hs.
  rewrite Hdo in Hs. destruct (redis_at _ _ (w_kv w)); [by destruct Hs|].
  destruct Hs as [_ [Hs _]]. simpl in Hs. rewrite Hs by done.
  by destruct (Z.ltb_spec t (kv_clock E (w_ticks w') + expiration / 10 ^ 6)); [|lia].
Qed.

(** While a token holds the lock no acquisition succeeds. *)
Lemma held_blocks key token dl w expiration :
  holds_lock E key token dl w -> kv_clock E (S (S (w_ticks w))) < dl ->
  is_ok (AcquireLock E key expiration w).1 = false.
Proof.
  intros Hh Hdl. destruct (AcquireLock E key expiration w) as [[tok|e] w'] eqn:Ha; [|done].
  apply AcquireLock_ok in Ha as (_ & Htk & Hdo). rewrite Htk in Hdo.
  pose proof (redis_setnx (lock_key key) tok (expiration / 10 ^ 6)
    (kv_clock E (S (S (w_ticks w)))) (w_kv w)) as Hs.
  rewrite (Hh (kv_clock E (S (S (w_ticks w))))) in Hs; [|by apply kv_mono; lia|done].
  rewrite Hdo in Hs. by destruct Hs.
Qed.
End exclusion.

(** An acquisition succeeds when the key is free and the call is not lost. *)
Lemma acquire_free {kv} (E : Env) {R : Redis kv} `{!RedisLaws R} key expiration (w : World kv) :
  calm E w -> redis_at (lock_key key) (kv_clock E (S (S (w_ticks w)))) (w_kv w) = None ->
  is_ok (AcquireLock E key expiration w).1 = true.
Proof.
  intros Hc Hfree. unfold AcquireLock, SetNX, redis_call, ext. run_calm Hc.
  pose proof (redis_setnx (lock_key key) (RFC3339Nano (clock E (w_ticks w)))
    (expiration / 10 ^ 6) (kv_clock E (S (S (w_ticks w)))) (w_kv w)) as Hs.
  rewrite Hfree in Hs. destruct Hs as [Hr _].
  destruct (redis_do _ _ _) as [r s]. simpl in Hr. subst r. by run_calm Hc.
Qed.

(** C21: Mutual exclusion.  Once [AcquireLock] has answered a token, no acquisition of the same
    key succeeds before the time to live has passed on the Redis clock, whatever the other callers
    and the other traffic do and whatever answers are lost, as long as nobody releases the key
    with that token. *)
Theorem lock_mutual_exclusion {kv} (E : Env) {R : Redis kv} (w w1 w2 : World kv) (key token : string)
    (expiration expiration' : Z) :
  RedisLaws R -> KvMono E ->
  AcquireLock E key expiration w = (Ok token, w1) ->
  rtc (lock_step E key token) w1 w2 ->
  kv_clock E (S (S (w_ticks w2))) < kv_clock E (w_ticks w1) + expiration / 10 ^ 6 ->
  is_ok (AcquireLock E key expiration' w2).1 = false.
Proof.
  intros HR Hmono Hacq Hsteps Hdl. eapply (held_blocks E); [|done].
  eapply (lock_steps_keep E); [done|]. by eapply acquire_holds.
Qed.

(** A late release is harmless: a caller whose lock expired and who releases it after
    another caller acquired the key at a different nanosecond does not take the lock away. *)
Theorem stale_release_harmless {kv} (E : Env) {R : Redis kv} (wa wa1 wb wb1 w : World kv)
    (key tokA tokB : string) (ea eb : Z) :
  RedisLaws R -> KvMono E ->
  AcquireLock E key ea wa = (Ok tokA, wa1) -> AcquireLock E key eb wb = (Ok tokB, wb1) ->
  clock E (w_ticks wa) <> clock E (w_ticks wb) ->
  year_ok (clock E (w_ticks wa)) = true -> year_ok (clock E (w_ticks wb)) = true ->
  rtc (lock_step E key tokB) wb1 w ->
  holds_lock E key tokB (kv_clock E (w_ticks wb1) + eb / 10 ^ 6) (ReleaseLock E key tokA w).2.
Proof.
  intros HR Hmono Ha Hb Hne Hya Hyb Hsteps. eapply (release_keeps E).
  - apply AcquireLock_ok in Ha as [-> _], Hb as [-> _].
    intros Heq%(f_equal snd). by apply RFC3339Nano_inj in Heq.
  - eapply (lock_steps_keep E); [done|]. by eapply acquire_holds.
Qed.

(** The key is free after a release that reaches the server, while its token is in place or
    after its time to live. *)
Lemma release_frees {kv} (E : Env) {R : Redis kv} `{!RedisLaws R} key token dl t t' (w : World kv) :
  faults E (w_ticks w) = None -> t = kv_clock E (S (w_ticks w)) -> t <= t' ->
  (forall u, t <= u ->
     redis_at (lock_key key) u (w_kv w) = if u <? dl then Some (RString token) else None) ->
  redis_at (lock_key key) t' (w_kv (ReleaseLock E key token w).2) = None.
Proof.
  intros Hf -> Ht Hat. unfold ReleaseLock, Eval_, ext, mbind, M_bind. rewrite Hf. cbn.
  set (t := kv_clock E (S (w_ticks w))) in *.
  destruct (release_script_at key token t (w_kv w)) as (_ & Hkeep & Hdel).
  destruct (release_script _ _ _ _) as [r s] eqn:Hr; cbn [snd] in *.
  enough (redis_at (lock_key key) t' s = None) by (by destruct r).
  rewrite Hat in Hkeep, Hdel by lia. destruct (Z.ltb_spec t dl); [by apply Hdel|].
  rewrite Hkeep, Hat by done. by destruct (Z.ltb_spec t' dl); [lia|].
Qed.

Lemma acquired_until {kv} (E : Env) {R : Redis kv} `{!RedisLaws R} key expiration (w w' : World kv)
    token t :
  AcquireLock E key expiration w = (Ok token, w') -> kv_clock E (w_ticks w') <= t ->
  redis_at (lock_key key) t (w_kv w') =
    if t <? kv_clock E (w_ticks w') + expiration / 10 ^ 6 then Some (RString token) else None.
Proof.
  intros (_ & _ & Hdo)%AcquireLock_ok Ht.
  pose proof (redis_setnx (lock_key key) token (expiration / 10 ^ 6) (kv_clock E (w_ticks w'))
    (w_kv w)) as Hs.
  rewrite Hdo in Hs. destruct (redis_at _ _ (w_kv w)); [by destruct Hs|].
  destruct Hs as [_ [Hat _]]. by apply Hat.
Qed.

(** The lock does not stay taken: without lost calls the next acquisition succeeds after the
    holder's release, and also, without any release, once the time to live has passed. *)
Theorem lock_available_again {kv} (E : Env) {R : Redis kv} (w w1 w2 : World kv)
    (key token : string) (expiration expiration' : Z) :
  RedisLaws R -> KvMono E ->
  AcquireLock E key expiration w = (Ok token, w1) -> calm E w1 ->
  w_kv w2 = w_kv w1 -> (w_ticks w1 <= w_ticks w2)%nat ->
  kv_clock E (w_ticks w1) + expiration / 10 ^ 6 <= kv_clock E (S (S (w_ticks w2))) ->
  is_ok (AcquireLock E key expiration' (ReleaseLock E key token w1).2).1 = true /\
  is_ok (AcquireLock E key expiration' w2).1 = true.
Proof.
  intros HR Hmono Hacq Hc Hkv Htk Hexp.
  pose proof (fun t => acquired_until E key expiration w w1 token t Hacq) as Hat. split.
  - destruct (ReleaseLock_kv E key token w1) as [Htr _]. cbv zeta in Htr.
    apply (acquire_free E); [intros n Hn; apply Hc; lia|]. rewrite Htr.
    eapply (release_frees E); [apply Hc; lia|done|apply kv_mono; lia|].
    intros u Hu. apply Hat. etrans; [|exact Hu]. apply kv_mono. lia.
  - apply (acquire_free E); [intros n Hn; apply Hc; lia|]. rewrite Hkv, Hat by (apply kv_mono; lia).
    by destruct (Z.ltb_spec (kv_clock E (S (S (w_ticks w2))))
      (kv_clock E (w_ticks w1) + expiration / 10 ^ 6)); [lia|].
Qed.

(** ** Witnesses: two callers of one lock on the concrete server *)
Definition lock_world : World mem := new_world ∅.
Definition lock_run : res string * World mem := AcquireLock env0 "m" (5 * Second) lock_world.

Lemma lock_run_ok : lock_run = (Ok "2023-11-14T22:13:20Z", lock_run.2).
Proof. apply run_split. by vm_compute. Qed.

Lemma lock_mutual_exclusion_witness :
  let other := (ReleaseLock env0 "m" "forged" (AcquireLock env0 "k" Second lock_run.2).2).2 in
  is_ok (AcquireLock env0 "m" Second other).1 = false.
Proof.
  apply (lock_mutual_exclusion env0 lock_world lock_run.2 _ "m" "2023-11-14T22:13:20Z" (5 * Second)
    Second mem_redis_laws _ lock_run_ok); [|by vm_compute].
  eapply rtc_l; [apply step_acquire|]. eapply rtc_once. apply step_release. done.
Defined.

(** The second caller acquires after the first one's five milliseconds. *)
Lemma stale_release_harmless_witness :
  let a := AcquireLock env0 "m" (2 * 10 ^ 6) lock_world in
  let wait := set_tx TxNone (tick (tick a.2)) in
  let b := AcquireLock env0 "m" (5 * Second) wait in
  redis_at (lock_key "m") (kv_clock env0 8) (w_kv (ReleaseLock env0 "m" "2023-11-14T22:13:20Z" b.2).2)
    = Some (RString "2023-11-14T22:13:20.004Z").
Proof.
  intros a wait b.
  assert (a = (Ok "2023-11-14T22:13:20Z", a.2)) as Ha.
  { apply run_split. by vm_compute. }
  assert (b = (Ok "2023-11-14T22:13:20.004Z", b.2)) as Hb.
  { apply run_split. by vm_compute. }
  pose proof (stale_release_harmless env0 lock_world a.2 wait b.2 b.2 "m" _ _ (2 * 10 ^ 6)
    (5 * Second) mem_redis_laws _ Ha Hb ltac:(by vm_compute) ltac:(by vm_compute)
    ltac:(by vm_compute) (rtc_refl _ _)) as H.
  apply H; by vm_compute.
Defined.

Definition short_run : res string * World mem := AcquireLock env0 "m" (3 * 10 ^ 6) lock_world.

Lemma short_run_ok : short_run = (Ok "2023-11-14T22:13:20Z", short_run.2).
Proof. apply run_split. by vm_compute. Qed.

Lemma lock_available_again_witness :
  is_ok (AcquireLock env0 "m" Second (ReleaseLock env0 "m" "2023-11-14T22:13:20Z" short_run.2).2).1
    = true.
Proof.
  refine (proj1 (lock_available_again env0 lock_world short_run.2 (tick (tick short_run.2)) "m" _
    (3 * 10 ^ 6) Second mem_redis_laws _ short_run_ok (calm_env0 _) eq_refl _ _));
    [simpl; lia|by vm_compute].
Defined.
