(* ===== verification/Http.v ===== *)
(** * HTTP requests, responses and handlers

    A handler is a function from a request and the server state to the calls it makes on its
    [http.ResponseWriter], in order, and the new state: no handler of the program reads anything
    back from the writer.  A middleware that wraps the writer sees the calls of the handler below
    it.  [respond] says what a sequence of calls means on the wire: the first [WriteHeader] wins
    and freezes the headers, a [Write] before it implies 200.

    Also [internal/handler/errors.go].  The headers net/http adds by itself (Date,
    Content-Length, a sniffed Content-Type) are not modelled. *)
From S2P Require Import Prelude Json GoTime Database Hex.

(** ** Headers *)
Definition lower (a : Ascii.ascii) : Ascii.ascii :=
  let n := Ascii.nat_of_ascii a in
  if (65 <=? n)%nat && (n <=? 90)%nat then Ascii.ascii_of_nat (n + 32) else a.

Definition upper (a : Ascii.ascii) : Ascii.ascii :=
  let n := Ascii.nat_of_ascii a in
  if (97 <=? n)%nat && (n <=? 122)%nat then Ascii.ascii_of_nat (n - 32) else a.

(** [textproto.CanonicalMIMEHeaderKey] on the field names of the program: a
    capital at the start and after each hyphen. *)
Fixpoint canonical_from (start : bool) (s : string) : string :=
  match s with
  | EmptyString => EmptyString
  | String a s' =>
      String (if start then upper a else lower a)
        (canonical_from (Ascii.eqb a (Ascii.ascii_of_nat 45)) s')
  end.

Definition CanonicalHeaderKey (s : string) : string := canonical_from true s.

Abbreviation header := (gmap string string).

(** The first value of each field, by canonical name; the body is its first JSON value, [None]
    for text that is not JSON. *)
Record Request := mkRequest {
  r_Method : string; r_Path : string; r_Header : header; r_RemoteAddr : string;
  r_Body : option json }.

(** [r.Header.Get(key)] *)
Definition Header_Get (key : string) (r : Request) : string :=
  default "" (r_Header r !! CanonicalHeaderKey key).

(** ** Calls on a writer *)
Inductive wcall :=
  | CSet (key value : string)       (* w.Header().Set *)
  | CDel (key : string)             (* w.Header().Del *)
  | CWriteHeader (code : Z)
  | CWrite (body : string).

#[export] Instance wcall_eq_dec : EqDecision wcall.
Proof. solve_decision. Defined.

Record Response := mkResponse { status : Z; headers : header; body : string }.

(** The writer: the header map being built, what was sent of status and headers, the body. *)
Record wstate := mkWState { ws_header : header; ws_sent : option (Z * header); ws_body : string }.

Definition send (code : Z) (w : wstate) : wstate :=
  match ws_sent w with
  | Some _ => w
  | None => mkWState (ws_header w) (Some (code, ws_header w)) (ws_body w)
  end.

Definition wstep (w : wstate) (c : wcall) : wstate :=
  match c with
  | CSet k v => mkWState (<[CanonicalHeaderKey k := v]> (ws_header w)) (ws_sent w) (ws_body w)
  | CDel k => mkWState (delete (CanonicalHeaderKey k) (ws_header w)) (ws_sent w) (ws_body w)
  | CWriteHeader code => send code w
  | CWrite s =>
      let w' := send 200 w in mkWState (ws_header w') (ws_sent w') (ws_body w' +:+ s)
  end.

Definition respond (cs : list wcall) : Response :=
  let w := send 200 (foldl wstep (mkWState ∅ None "") cs) in
  match ws_sent w with
  | Some (code, h) => mkResponse code h (ws_body w)
  | None => mkResponse 200 ∅ (ws_body w)
  end.

(** What a wrapper of the writer records: the code of the last [WriteHeader], starting from
    [init], and all that was written. *)
Fixpoint last_code (init : Z) (cs : list wcall) : Z :=
  match cs with
  | [] => init
  | CWriteHeader code :: cs' => last_code code cs'
  | _ :: cs' => last_code init cs'
  end.

Fixpoint written (cs : list wcall) : string :=
  match cs with
  | [] => ""
  | CWrite s :: cs' => s +:+ written cs'
  | _ :: cs' => written cs'
  end.

(** ** The usual answers *)

(** [http.Error] *)
Definition http_Error (msg : string) (code : Z) : list wcall :=
  [CDel "Content-Length"; CSet "Content-Type" "text/plain; charset=utf-8";
   CSet "X-Content-Type-Options" "nosniff"; CWriteHeader code; CWrite (msg +:+ newline)].

(** [json.NewEncoder(w).Encode(v)]; nothing is written when [v] has no JSON form. *)
Definition Encode (v : option json) : list wcall :=
  match v with Some j => [CWrite (Print.encode j)] | None => [] end.

(** The JSON answer of the handlers. *)
Definition json_answer (code : Z) (v : option json) : list wcall :=
  [CSet "Content-Type" "application/json"; CWriteHeader code] ++ Encode v.

(** internal/handler/errors.go *)
Definition problem_type (status : Z) : string :=
  if status =? 400 then "https://vaultpay.com/errors/bad-request"
  else if status =? 422 then "https://vaultpay.com/errors/unprocessable-entity"
  else if status =? 404 then "https://vaultpay.com/errors/not-found"
  else "https://vaultpay.com/errors/internal-server-error".

Definition ProblemDetails (type title : string) (status : Z) (detail instance : string) : json :=
  JObj [("type", JStr type); ("title", JStr title); ("status", JInt status);
        ("detail", JStr detail); ("instance", JStr instance)].

Definition WriteProblemResponse (instance : string) (status : Z) (title detail : string) :
    list wcall :=
  [CSet "Content-Type" "application/problem+json"; CWriteHeader status] ++
  Encode (Some (ProblemDetails (problem_type status) title status detail instance)).

(** ** Handlers over a server state *)
Definition Handler (S : Type) : Type := Request -> S -> list wcall * S.
Definition Middleware (S : Type) : Type := Handler S -> Handler S.

(** The server state [S] has a component [X]. *)
Class Has (X S : Type) := { part : S -> X; with_part : X -> S -> S }.
Class HasLaws {X S} (H : Has X S) : Prop := {
  part_with : forall x s, part (with_part x s) = x;
  with_part_id : forall s, with_part (part s) s = s;
  with_with : forall x y s, with_part x (with_part y s) = with_part x s }.

#[export] Instance has_self X : Has X X := {| part := id; with_part := fun x _ => x |}.
#[export] Instance has_self_laws X : HasLaws (has_self X).
Proof. by split. Qed.

(** Two components that do not overlap. *)
Class Apart {X Y S} (HX : Has X S) (HY : Has Y S) : Prop := {
  part_apart_l : forall y s, @part X S HX (@with_part Y S HY y s) = @part X S HX s;
  part_apart_r : forall x s, @part Y S HY (@with_part X S HX x s) = @part Y S HY s }.

#[export] Instance has_fst X Y : Has X (X * Y) :=
  {| part := fst; with_part := fun x s => (x, s.2) |}.
#[export] Instance has_snd X Y : Has Y (X * Y) :=
  {| part := snd; with_part := fun y s => (s.1, y) |}.
#[export] Instance has_fst_laws X Y : HasLaws (has_fst X Y).
Proof. split; try done. by intros []. Qed.
#[export] Instance has_snd_laws X Y : HasLaws (has_snd X Y).
Proof. split; try done. by intros []. Qed.
#[export] Instance fst_apart_snd X Y : Apart (has_fst X Y) (has_snd X Y).
Proof. by split. Qed.

(** A computation on a component, run on the whole state. *)
Definition zoom {X S A} {H : Has X S} (m : M X A) : S -> res A * S := fun s =>
  let '(r, x) := m (part s) in (r, with_part x s).

(** [time.Now()] in a handler. *)
Definition read_clock {kv S} (E : Env) {W : Has (World kv) S} (s : S) : Z * S :=
  (clock E (w_ticks (part s)), with_part (tick (part s)) s).

(** [_, _ = rand.Read(b)] on [n] bytes: a failing read leaves the buffer of zeros. *)
Definition random_bytes {kv S} (E : Env) {W : Has (World kv) S} (n : nat) (s : S) : list N * S :=
  let '(b, s1) := zoom (RandRead E n) s in
  (match b with Ok b => b | Err _ => replicate n 0%N end, s1).

(** ** Facts *)
Lemma random_bytes_apart {kv S Y} (E : Env) {W : Has (World kv) S} {D : Has Y S} {AP : Apart W D}
    n (s : S) :
  part (Has := D) (random_bytes E n s).2 = part s.
Proof.
  unfold random_bytes, zoom. destruct (RandRead E n (part s)) as [[b|e] w]; apply part_apart_r.
Qed.

Lemma random_bytes_ticks {kv S} (E : Env) {W : Has (World kv) S} {WL : HasLaws W} n (s : S) :
  w_ticks (part (Has := W) (random_bytes E n s).2) = Datatypes.S (w_ticks (part (Has := W) s)).
Proof.
  unfold random_bytes, zoom, RandRead, ext.
  by destruct (faults E (w_ticks (part s))) as [[]|]; cbn; rewrite part_with.
Qed.

Lemma foldl_wstep_sent cs w p : ws_sent w = Some p -> ws_sent (foldl wstep w cs) = Some p.
Proof.
  revert w. induction cs as [|c cs IH]; intros w Hw; [done|]. simpl. apply IH.
  by destruct c; simpl; unfold send; rewrite ?Hw.
Qed.

Lemma foldl_wstep_body cs w : ws_body (foldl wstep w cs) = ws_body w +:+ written cs.
Proof.
  revert w. induction cs as [|c cs IH]; intros w; simpl.
  - by rewrite string_app_nil_r.
  - rewrite IH. destruct c; simpl; try done.
    + unfold send. by destruct (ws_sent w).
    + unfold send. destruct (ws_sent w); simpl; by rewrite string_app_assoc.
Qed.

Lemma respond_sent cs code h :
  ws_sent (foldl wstep (mkWState ∅ None "") cs) = Some (code, h) ->
  status (respond cs) = code.
Proof.
  intros H. unfold respond. set (w := foldl _ _ _) in *.
  replace (send 200 w) with w by (unfold send; by rewrite H). by rewrite H.
Qed.

Lemma respond_json code v : status (respond (json_answer code v)) = code.
Proof. eapply respond_sent. unfold json_answer. cbn [foldl app]. apply foldl_wstep_sent. reflexivity. Qed.
