(* ===== verification/Idempotency.v ===== *)
(** * internal/middleware/idempotency.go: replaying the answer of a POST

    The middleware caches the body of a successful answer under the client's key for a day and
    answers a repeated request from the cache, without running the handler. *)
From S2P Require Import Prelude Json GoTime Database Hex Redis Http.

Definition idem_key (key : string) : string := "idem:" +:+ key.

Section idempotency.
Context {kv : Type} (E : Env) {R : Redis kv} {S : Type} {W : Has (World kv) S}.

Definition cached_answer (cachedResponse : string) : list wcall :=
  [CSet "Content-Type" "application/json"; CSet "X-Cache-Idempotent" "true";
   CWriteHeader 200; CWrite cachedResponse].

(** The recorder starts with status code 0: a handler that never calls
    [WriteHeader] is not cached. *)
Definition Handle (next : Handler S) : Handler S := fun r s =>
  if negb (bool_decide (r_Method r = "POST")) then next r s
  else
    let idemKey := Header_Get "Idempotency-Key" r in
    if bool_decide (idemKey = "") then next r s
    else
      let '(cached, s1) := zoom (Get E (idem_key idemKey)) s in
      match cached with
      | Ok cachedResponse => (cached_answer cachedResponse, s1)
      | Err _ =>
          let '(cs, s2) := next r s1 in
          let statusCode := last_code 0 cs in
          if (statusCode =? 200) || (statusCode =? 201) then
            let '(_, s3) := zoom (Set_ E (idem_key idemKey) (written cs) (24 * Hour)) s2 in
            (cs, s3)
          else (cs, s2)
      end.
End idempotency.

Section facts.
Context {kv : Type} (E : Env) {R : Redis kv} {RL : RedisLaws R} {KM : KvMono E}.
Context {S : Type} {W : Has (World kv) S} {WL : HasLaws W}.
Implicit Types (w : World kv).

(** The first request with a key runs the handler; a success leaves the answer in the cache. *)
Lemma Handle_first next r s :
  r_Method r = "POST" -> Header_Get "Idempotency-Key" r <> "" ->
  let key := idem_key (Header_Get "Idempotency-Key" r) in
  calm E (part s) -> redis_at key (kv_clock E (w_ticks (tick (part s)))) (w_kv (part s)) = None ->
  (forall r s, (w_ticks (part s) <= w_ticks (part (next r s).2))%nat) ->
  let '(cs, s') := Handle E next r s in
  last_code 0 cs = 200 \/ last_code 0 cs = 201 ->
  (forall t, kv_clock E (w_ticks (part s')) <= t ->
    redis_at key t (w_kv (part s')) =
      if t <? kv_clock E (w_ticks (part s')) + 24 * Hour / 10 ^ 6 then Some (RString (written cs))
      else None) /\ calm E (part s').
Proof.
  intros Hpost Hkey key Hc Hfresh Htk. subst key. unfold Handle. rewrite bool_decide_true by done. simpl.
  rewrite bool_decide_false by done. unfold zoom.
  set (key := idem_key _) in *.
  destruct (Get_run E key (part s) (calm_now E _ Hc)) as (s1 & -> & _).
  rewrite Hfresh. cbn. specialize (Htk r (with_part (set_kv s1 (tick (part s))) s)).
  destruct (next _ _) as [cs s2]. rewrite part_with in Htk. simpl in Htk.
  destruct ((last_code 0 cs =? 200) || (last_code 0 cs =? 201)) eqn:Hcode.
  2:{ intros Hcode'. apply orb_false_iff in Hcode as [?%Z.eqb_neq ?%Z.eqb_neq]. lia. }
  destruct (Set_run E key (written cs) (24 * Hour) (part s2)) as (s3 & Hset & Hw & _).
  { apply Hc. lia. }
  rewrite Hset. intros _. rewrite part_with. split; [exact Hw|].
  intros n Hn. apply Hc. simpl in Hn. lia.
Qed.

(** A request with a cached key is answered from the cache and changes nothing else. *)
Lemma Handle_replay next r s v :
  r_Method r = "POST" -> Header_Get "Idempotency-Key" r <> "" ->
  faults E (w_ticks (part s)) = None ->
  redis_at (idem_key (Header_Get "Idempotency-Key" r)) (kv_clock E (w_ticks (tick (part s))))
    (w_kv (part s)) = Some (RString v) ->
  exists w', Handle E next r s = (cached_answer v, with_part w' s) /\ only_kv (part s) w'.
Proof.
  intros Hpost Hkey Hf Hat. unfold Handle. rewrite bool_decide_true by done. simpl.
  rewrite bool_decide_false by done. unfold zoom.
  destruct (Get_run E (idem_key (Header_Get "Idempotency-Key" r)) (part s) Hf) as (s1 & -> & _).
  rewrite Hat. eexists. split; [done|]. by split_and!; simpl; auto.
Qed.

Lemma respond_body cs : body (respond cs) = written cs.
Proof.
  unfold respond, send. pose proof (foldl_wstep_body cs (mkWState ∅ None "")) as Hb.
  destruct (foldl wstep _ cs) as [h [[c h']|] b]; simpl in *; by rewrite Hb.
Qed.
End facts.

(** Replay.  When the first POST with an idempotency key succeeded, a later POST with the
    same key within 24 hours gets the same body with status 200, whatever its own body, and the
    handler is not run again: no table, transaction or task queue changes. *)
Theorem idempotent_replay {kv} (E : Env) {R : Redis kv} {S} {W : Has (World kv) S}
    (next : Handler S) (r r' : Request) (s s1 s2 : S) (cs : list wcall) :
  RedisLaws R -> KvMono E -> HasLaws W ->
  r_Method r = "POST" -> r_Method r' = "POST" ->
  Header_Get "Idempotency-Key" r <> "" ->
  Header_Get "Idempotency-Key" r' = Header_Get "Idempotency-Key" r ->
  let key := idem_key (Header_Get "Idempotency-Key" r) in
  calm E (part s) -> redis_at key (kv_clock E (w_ticks (tick (part s)))) (w_kv (part s)) = None ->
  (forall r s, (w_ticks (part s) <= w_ticks (part (next r s).2))%nat) ->
  Handle E next r s = (cs, s1) -> last_code 0 cs = 200 \/ last_code 0 cs = 201 ->
  spares E key (part s1) (part s2) ->
  kv_clock E (w_ticks (tick (part s2))) < kv_clock E (w_ticks (part s1)) + 24 * Hour / 10 ^ 6 ->
  let '(cs', s3) := Handle E next r' s2 in
  status (respond cs') = 200 /\ body (respond cs') = body (respond cs) /\
  exists w', s3 = with_part w' s2 /\ only_kv (part s2) w'.
Proof.
  intros HR HK HW Hpost Hpost' Hne Hsame key Hc Hfresh Htk Hrun Hcode [Hticks Hsp] Hday.
  pose proof (Handle_first E next r s Hpost Hne Hc Hfresh Htk) as Hfirst. rewrite Hrun in Hfirst.
  destruct (Hfirst Hcode) as [Hcached Hc1]. fold key in Hcached.
  destruct (Handle_replay E next r' s2 (written cs)) as (w' & Hrep & Honly); [done|congruence| | |].
  - apply Hc1. lia.
  - rewrite Hsame. fold key.
    assert (kv_clock E (w_ticks (part s2)) <= kv_clock E (w_ticks (tick (part s2)))) as H1
      by (apply kv_mono; simpl; lia).
    assert (kv_clock E (w_ticks (part s1)) <= kv_clock E (w_ticks (part s2))) as H2
      by (apply kv_mono; lia).
    rewrite Hsp, Hcached by lia. by apply Z.ltb_lt in Hday as ->.
  - rewrite Hrep. split; [done|]. split; [|by exists w'].
    rewrite !respond_body. unfold cached_answer. cbn [written]. by rewrite string_app_nil_r.
Qed.

(** C28: Only successes are kept.  After an answer other than 200 or 201 the key is still free, so
    a repeated request runs the handler again. *)
Theorem failures_not_cached {kv} (E : Env) {R : Redis kv} {S} {W : Has (World kv) S}
    (next : Handler S) (r r' : Request) (s s1 s2 : S) (cs : list wcall) :
  RedisLaws R -> KvMono E -> HasLaws W ->
  r_Method r = "POST" -> r_Method r' = "POST" ->
  Header_Get "Idempotency-Key" r <> "" ->
  Header_Get "Idempotency-Key" r' = Header_Get "Idempotency-Key" r ->
  let key := idem_key (Header_Get "Idempotency-Key" r) in
  calm E (part s) -> redis_at key (kv_clock E (w_ticks (tick (part s)))) (w_kv (part s)) = None ->
  (forall r s, spares E key (part s) (part (next r s).2)) ->
  Handle E next r s = (cs, s1) -> last_code 0 cs <> 200 -> last_code 0 cs <> 201 ->
  spares E key (part s1) (part s2) ->
  exists w', only_kv (part s2) w' /\
    (Handle E next r' s2).1 = (next r' (with_part w' s2)).1.
Proof.
  intros HR HK HW Hpost Hpost' Hne Hsame key Hc Hfresh Hnext Hrun H200 H201 Hsp.
  assert (spares E key (part s) (part s1) /\ redis_at key (kv_clock E (w_ticks (tick (part s2))))
    (w_kv (part s)) = None) as [Hs1 Hat].
  { revert Hrun. unfold Handle, zoom. rewrite bool_decide_true by done. simpl.
    rewrite bool_decide_false by done. fold key.
    destruct (Get_run E key (part s) (calm_now E _ Hc)) as (s0 & -> & Hs0). rewrite Hfresh. cbn.
    pose proof (Hnext r (with_part (set_kv s0 (tick (part s))) s)) as Hn.
    destruct (next _ _) as [cs0 s0']. rewrite part_with in Hn. cbn [snd] in Hn.
    destruct ((last_code 0 cs0 =? 200) || (last_code 0 cs0 =? 201)) eqn:Hcode.
    { intros Hrun. exfalso. assert (cs0 = cs) as ->; [|lia].
      by destruct (Set_ _ _ _ _ _); injection Hrun. }
    intros [= -> ->].
    assert (spares E key (part s) (part s1)) as Hs.
    { etrans; [|exact Hn]. split; [simpl; lia|]. intros t Ht. by apply Hs0. }
    split; [done|]. apply eq_None_not_Some. intros [v Hv].
    apply (redis_keep key (kv_clock E (w_ticks (tick (part s))))) in Hv; [congruence|].
    apply kv_mono. destruct Hs, Hsp. simpl. lia. }
  unfold Handle, zoom. rewrite bool_decide_true by done. simpl.
  rewrite bool_decide_false by congruence. rewrite Hsame. fold key.
  assert (faults E (w_ticks (part s2)) = None) as Hf.
  { apply Hc. destruct Hs1, Hsp. lia. }
  destruct (Get_run E key (part s2) Hf) as (s3 & -> & _).
  assert (spares E key (part s) (part s2)) as [_ Hss] by (etrans; [exact Hs1|exact Hsp]).
  rewrite Hss, Hat by (apply kv_mono; simpl; lia). cbn.
  exists (set_kv s3 (tick (part s2))). split; [by split_and!; simpl; auto|].
  destruct (next r' _) as [cs' s4]. destruct ((last_code 0 cs' =? 200) || _); [|done].
  by destruct (Set_ _ _ _ _ _).
Qed.

(** ** Witnesses: a handler that answers its body, refusing bodies that are not objects *)
Definition echo : Handler (World mem) := fun r w =>
  match r_Body r with
  | Some (JObj ms) => (json_answer 201 (Some (JObj ms)), tick w)
  | _ => (http_Error "refused" 422, tick w)
  end.

Definition post0 (b : option json) : Request :=
  mkRequest "POST" "/v1/charges" {[ "Idempotency-Key" := "k1" ]} "10.0.0.1:999" b.

Definition idem_world : World mem := new_world ∅.

Lemma idempotent_replay_witness :
  let first := Handle env0 echo (post0 (Some (JObj [("a", JInt 1)]))) idem_world in
  let second := Handle env0 echo (post0 (Some (JObj []))) first.2 in
  status (respond first.1) = 201 /\ status (respond second.1) = 200 /\
  body (respond second.1) = body (respond first.1).
Proof.
  intros first second. split; [by vm_compute|].
  pose proof (idempotent_replay env0 echo (post0 (Some (JObj [("a", JInt 1)])))
    (post0 (Some (JObj []))) idem_world first.2 first.2 first.1 _ _ _ eq_refl eq_refl
    ltac:(done) eq_refl (calm_env0 _) eq_refl) as H.
  assert (forall r w, (w_ticks (part w) <= w_ticks (part (echo r w).2))%nat) as Htk.
  { intros r w. unfold echo. destruct (r_Body r) as [[]|]; simpl; lia. }
  assert (last_code 0 first.1 = 201) as Hcode by (by vm_compute).
  specialize (H Htk (surjective_pairing _) (or_intror Hcode) (reflexivity _)
    ltac:(by vm_compute)). cbv zeta in H. unfold second.
  destruct (Handle _ _ _ first.2) as [cs s3]. destruct H as (H1 & H2 & _). done.
Defined.

Lemma failures_not_cached_witness :
  let first := Handle env0 echo (post0 (Some JNull)) idem_world in
  status (respond (Handle env0 echo (post0 (Some (JObj []))) first.2).1) = 201.
Proof.
  intros first.
  destruct (failures_not_cached env0 echo (post0 (Some JNull)) (post0 (Some (JObj [])))
    idem_world first.2 first.2 first.1 _ _ _ eq_refl eq_refl ltac:(done) eq_refl (calm_env0 _)
    eq_refl) as (w' & _ & ->); [|apply surjective_pairing|by vm_compute..|done|by vm_compute].
  intros r w. unfold echo.
  destruct (r_Body r) as [[]|]; (split; [simpl; lia|done]).
Defined.
