(* ===== verification/RateLimit.v ===== *)
(** * internal/middleware/rate_limiter.go and repository/limiter.lua: the Redis rate limiter

    The Lua script keeps, per API key, a sorted set of request times in seconds and refuses a
    request when the set holds [limit] members of the last [window] seconds.  A member is its own
    time: requests of one second share a member, so the set never holds more than [window] of
    them.  With 60 seconds and a limit of 1000 no request is ever refused. *)
From S2P Require Import Prelude Json GoTime Database Hex Redis Http.

Section limiter.
Context {kv : Type} (E : Env) {R : Redis kv}.

Definition luaScript (key : string) (now window limit : Z) : Z -> M kv Z := fun t =>
  _ ← script_call t (ZREMRANGEBYSCORE key 0 (now - window));
  current ← script_call t (ZCARD key);
  let current := match current with RInt n => n | _ => 0 end in
  if (limit <=? current) then mret 0
  else
    _ ← script_call t (ZADD key now (itoa now));
    _ ← script_call t (EXPIRE key window);
    mret 1.

Definition limiter_key (apiKey : string) : string := "ratelimit:" +:+ apiKey.

Context {S : Type} {W : Has (World kv) S}.

Definition Limit (next : Handler S) : Handler S := fun r s =>
  let apiKey := Header_Get "X-API-Key" r in
  let apiKey := if bool_decide (apiKey = "") then "anonymous_global_client" else apiKey in
  let redisKey := limiter_key apiKey in
  let window := 60 in
  let limit := 1000 in
  let '(res, s1) :=
    zoom (t ← Now E; Eval_ E (luaScript redisKey (Unix t) window limit)) s in
  match res with
  | Err _ => (http_Error "Rate limiting calculation failure" 500, s1)
  | Ok n =>
      if n =? 0 then
        (CSet "Retry-After" (itoa window) ::
         http_Error "Too Many Requests - Rate limit exceeded. Slow down your pipelines." 429, s1)
      else next r s1
  end.

(** A client that sends these requests one after the other. *)
Fixpoint serve (h : Handler S) (rs : list Request) (s : S) : list (list wcall) :=
  match rs with
  | [] => []
  | r :: rs' => let '(cs, s') := h r s in cs :: serve h rs' s'
  end.

(** The sets hold the times the script puts there, none later than [now]. *)
Definition times_only (now : Z) (w : World kv) : Prop :=
  forall apiKey t v, kv_clock E (w_ticks w) <= t ->
    redis_at (limiter_key apiKey) t (w_kv w) = Some v ->
    exists m, v = RZset m /\ map_Forall (fun member score => member = itoa score /\ 0 < score <= now) m.
End limiter.

(** ** Counting *)

(** Members that are the text of their score, with scores in an interval of [n]
    numbers, are at most [n]. *)
Lemma distinct_times (m : gmap string Z) lo (n : nat) :
  map_Forall (fun member score => member = itoa score /\ lo < score <= lo + Z.of_nat n) m ->
  (size m <= n)%nat.
Proof.
  intros Hm. rewrite <-length_map_to_list, <-(length_fmap snd).
  assert (NoDup (snd <$> map_to_list m)) as Hnd.
  { apply NoDup_fmap_2_strong; [|apply NoDup_map_to_list].
    intros [k v] [k' v'] Hk%elem_of_map_to_list Hk'%elem_of_map_to_list Heq. simpl in Heq. subst v'.
    destruct (Hm _ _ Hk) as [-> _], (Hm _ _ Hk') as [-> _]. done. }
  etrans; [apply submseteq_length, (NoDup_submseteq _ (seqZ (lo + 1) (Z.of_nat n))); [done|]|].
  - intros z [[k v] [-> Hk%elem_of_map_to_list]]%list_elem_of_fmap.
    destruct (Hm _ _ Hk) as [_ Hb]. apply elem_of_seqZ. simpl. lia.
  - rewrite length_seqZ. lia.
Qed.

Section facts.
Context {kv : Type} {R : Redis kv} {RL : RedisLaws R}.
Implicit Types (s : kv).

Lemma updated_now f k t s m :
  zset_of (redis_at k t s) = Some m -> zset_of (updated f k t s t) = Some (f m).
Proof.
  unfold updated. destruct (redis_at k t s) as [[v|m']|]; simpl; [done| |];
    intros [= <-]; by destruct (decide _) as [->|].
Qed.

(** The script on a set of at most 60 recent members: it admits the request. *)
Lemma luaScript_admits key now t s m :
  zset_of (redis_at key t s) = Some m ->
  (size (filter (fun x => ~ (0 <= x.2 <= now - 60)%Z) m) <= 60)%nat ->
  exists s', luaScript key now 60 1000 t s = (Ok 1, s') /\
    (forall k t', k <> key -> t <= t' -> redis_at k t' s' = redis_at k t' s) /\
    (forall t', t <= t' -> redis_at key t' s' = None \/
       redis_at key t' s' =
         Some (RZset (<[itoa now := now]> (filter (fun x => ~ (0 <= x.2 <= now - 60)) m)))).
Proof.
  intros Hm Hsize. unfold luaScript, script_call, mbind, M_bind.
  set (f := filter _ m) in *.
  destruct (redis_zrem key 0 (now - 60) t s m Hm) as [Hr1 [H1 H1']].
  destruct (redis_do (ZREMRANGEBYSCORE _ _ _) t s) as [[r1|] s1]; [|done]. cbn [snd] in *.
  assert (zset_of (redis_at key t s1) = Some f) as Hf.
  { rewrite H1 by lia. by apply updated_now. }
  destruct (redis_zcard key t s1 f Hf) as [Hr2 H2].
  destruct (redis_do (ZCARD _) t s1) as [r2 s2]. cbn [fst snd] in *. subst r2.
  destruct (Z.leb_spec 1000 (Z.of_nat (size f))); [lia|].
  assert (zset_of (redis_at key t s2) = Some f) as Hf2 by (rewrite H2 by lia; done).
  destruct (redis_zadd key now (itoa now) t s2 f Hf2) as [Hr3 [H3 H3']].
  destruct (redis_do (ZADD _ _ _) t s2) as [[r3|] s3]; [|done]. cbn [snd] in *.
  destruct (redis_expire key 60 t s3) as [Hr4 [H4 H4']].
  destruct (redis_do (EXPIRE _ _) t s3) as [[r4|] s4]; [|done]. cbn [snd] in *.
  exists s4. split; [done|]. split.
  - intros k t' Hk Ht. rewrite H4', H3', H2, H1' by done. done.
  - intros t' Ht. rewrite H4 by done. destruct (t' <? t + 60 * 1000); [|by left]. right.
    pose proof (updated_now (<[itoa now:=now]>) key t s2 f Hf2) as Hu.
    rewrite <-H3 in Hu by lia.
    destruct (redis_at key t s3) as [[v|m']|]; simpl in Hu; [done|congruence|].
    exfalso. injection Hu as Hu. symmetry in Hu. by apply insert_non_empty in Hu.
Qed.
End facts.

(** ** The middleware *)
Section limit.
Context {kv : Type} (E : Env) {R : Redis kv} {RL : RedisLaws R} {KM : KvMono E}.
Context {S : Type} {W : Has (World kv) S} {WL : HasLaws W}.
Context (clock_mono : forall n m, (n <= m)%nat -> clock E n <= clock E m).
Context (clock_pos : forall n, 0 < Unix (clock E n)).
Implicit Types (w : World kv).

(** Every set holds times up to the present of the process. *)
Definition limiter_ok w : Prop := times_only E (Unix (clock E (w_ticks w))) w.

Lemma Unix_mono n m : (n <= m)%nat -> Unix (clock E n) <= Unix (clock E m).
Proof. intros H. apply Z.div_le_mono; [done|]. by apply clock_mono. Qed.

Lemma limiter_ok_later w w' :
  (w_ticks w <= w_ticks w')%nat -> w_kv w' = w_kv w -> limiter_ok w -> limiter_ok w'.
Proof.
  intros Ht Hkv Hok k t v Htt. rewrite Hkv. intros Hv.
  destruct (Hok k t v) as (m & -> & Hm); [etrans; [apply kv_mono; exact Ht|done]|done|].
  exists m. split; [done|]. intros mem sc Hsc. destruct (Hm _ _ Hsc) as [-> Hb].
  pose proof (Unix_mono _ _ Ht). split; [done|lia].
Qed.

Lemma limiter_key_inj k k' : limiter_key k = limiter_key k' -> k = k'.
Proof. unfold limiter_key. by intros [_ H]%string_app_inj. Qed.

(** The script at the present on a well-formed server. *)
Lemma luaScript_ok w k :
  limiter_ok w ->
  let now := Unix (clock E (w_ticks w)) in
  let t := kv_clock E (Datatypes.S (Datatypes.S (w_ticks w))) in
  exists s', luaScript (limiter_key k) now 60 1000 t (w_kv w) = (Ok 1, s') /\
    limiter_ok (set_kv s' (tick (tick w))).
Proof.
  intros Hok now t.
  assert (kv_clock E (w_ticks w) <= t) as Ht by (apply kv_mono; lia).
  assert (exists m, zset_of (redis_at (limiter_key k) t (w_kv w)) = Some m /\
    map_Forall (fun member score => member = itoa score /\ 0 < score <= now) m) as (m & Hm & Hall).
  { destruct (redis_at (limiter_key k) t (w_kv w)) as [v|] eqn:Hv; [|by exists ∅].
    destruct (Hok _ _ _ Ht Hv) as (m & -> & Hm). by exists m. }
  set (f := filter (fun x => ~ (0 <= x.2 <= now - 60)) m).
  assert (map_Forall (fun member score => member = itoa score /\
            now - 60 < score <= now - 60 + Z.of_nat 60) f) as Hf.
  { intros mem sc [Hsc Hnot]%map_lookup_filter_Some. destruct (Hall _ _ Hsc) as [-> Hb].
    simpl in Hnot. split; [done|]. lia. }
  destruct (luaScript_admits (limiter_key k) now t (w_kv w) m Hm) as (s' & Hrun & Hoth & Hkey).
  { by eapply distinct_times. }
  exists s'. split; [done|]. intros k' t' v Ht'. cbn in Ht'. cbn [w_kv set_kv tick].
  destruct (decide (k' = k)) as [->|Hk].
  - destruct (Hkey t' Ht') as [->|Hz]; [done|]. rewrite Hz. intros [= <-]. eexists. split; [done|].
    assert (now <= Unix (clock E (Datatypes.S (Datatypes.S (w_ticks w))))) by (apply Unix_mono; lia).
    pose proof (clock_pos (w_ticks w)).
    apply map_Forall_insert_2; [split; [done|cbn; unfold now in *; lia]|].
    intros mem sc Hsc. destruct (Hf _ _ Hsc) as [-> _].
    apply map_lookup_filter_Some in Hsc as [Hsc _]. destruct (Hall _ _ Hsc). split; [done|].
    cbn. lia.
  - rewrite Hoth by (done || (intros ?%limiter_key_inj; done)). intros Hv.
    apply (limiter_ok_later w (tick (tick w))) in Hv; [done|simpl; lia|done|done|done].
Qed.

Lemma Limit_run (next : Handler S) r s :
  limiter_ok (part s) ->
  exists s1, limiter_ok (part s1) /\
    (Limit E next r s = next r s1 \/
     Limit E next r s = (http_Error "Rate limiting calculation failure" 500, s1)).
Proof.
  intros Hok. unfold Limit, zoom, Eval_, ext, Now, mbind, M_bind. cbn.
  set (k := if bool_decide _ then _ else _).
  destruct (luaScript_ok (part s) k Hok) as (s' & Hrun & Hok').
  destruct (faults E (Datatypes.S (w_ticks (part s)))) as [[e|e]|]; cbn;
    rewrite ?Hrun; cbn.
  - eexists. split; [|by right]. rewrite part_with.
    eapply limiter_ok_later; [| |exact Hok]; simpl; [lia|done].
  - eexists. split; [|by right]. by rewrite part_with.
  - eexists. split; [|by left]. by rewrite part_with.
Qed.

Lemma serve_Limit (next : Handler S) rs s :
  (forall r s, limiter_ok (part s) -> limiter_ok (part (next r s).2)) ->
  limiter_ok (part s) ->
  Forall2 (fun r cs => cs = http_Error "Rate limiting calculation failure" 500 \/
                       exists s', cs = (next r s').1) rs (serve (Limit E next) rs s).
Proof.
  intros Hnext. revert s. induction rs as [|r rs IH]; intros s Hok; simpl; [constructor|].
  destruct (Limit_run next r s Hok) as (s1 & Hok1 & [Hrun|Hrun]); rewrite Hrun.
  - specialize (Hnext r s1 Hok1). destruct (next r s1) as [cs s2] eqn:Hn.
    constructor; [right; exists s1; by rewrite Hn|by apply IH].
  - constructor; [by left|by apply IH].
Qed.
End limit.

(** C32: The sliding-window limiter never refuses.  Starting from a server whose limiter keys are
    empty or were written by the script, however many requests arrive with whatever keys and
    whatever calls are lost, every one is passed on, or answered 500 because Redis failed; none
    gets 429, though the code announces a limit of 1000 requests per minute. *)
Theorem limiter_never_blocks {kv} (E : Env) {R : Redis kv} {S} {W : Has (World kv) S}
    (next : Handler S) (rs : list Request) (s : S) :
  RedisLaws R -> KvMono E -> HasLaws W ->
  (forall n m, (n <= m)%nat -> clock E n <= clock E m) ->
  (forall n, 0 < Unix (clock E n)) ->
  (forall r s, limiter_ok E (part s) -> limiter_ok E (part (next r s).2)) ->
  limiter_ok E (part s) ->
  Forall2 (fun r cs => cs = http_Error "Rate limiting calculation failure" 500 \/
                       exists s', cs = (next r s').1) rs (serve (Limit E next) rs s).
Proof. intros HR HK HW Hm Hp Hnext Hok. by apply serve_Limit. Qed.

(** ** Witness: two thousand requests at once *)
Definition yes : Handler (World mem) := fun _ w => ([CWriteHeader 200], w).
Definition get0 : Request := mkRequest "GET" "/v1/payments/1/history" ∅ "10.0.0.1:999" None.

Lemma limiter_never_blocks_witness :
  Forall (fun cs => cs = http_Error "Rate limiting calculation failure" 500 \/
                    cs = [CWriteHeader 200])
    (serve (Limit env0 yes) (replicate 2000 get0) (new_world ∅)).
Proof.
  assert (forall n m, (n <= m)%nat -> clock env0 n <= clock env0 m) as Hm
    by (intros n m Hn; simpl; lia).
  assert (forall n, 0 < Unix (clock env0 n)) as Hp
    by (intros n; apply Z.div_str_pos; unfold Second; simpl; lia).
  assert (limiter_ok env0 (part (new_world ∅ : World mem))) as Hok by (intros k t v _; done).
  pose proof (limiter_never_blocks env0 yes (replicate 2000 get0) (new_world ∅) _ _ _ Hm Hp
    ltac:(done) Hok) as H.
  eapply Forall2_Forall_r; [exact H|]. apply Forall_true.
  intros r cs [->|[s' ->]]; [by left|by right].
Defined.
