(* ===== verification/ClientLimiter.v ===== *)
(** * internal/handler/middleware.go: the in-memory limiter per client address, and CORS

    [clients] is a map from addresses to token buckets guarded by one mutex: the critical section
    of the middleware and the sweep of the background cleaner are each one step.  The bucket is
    golang.org/x/time/rate, described by the class [Limiter]. *)
From S2P Require Import Prelude Json GoTime Database Hex Http.

(** ** net.SplitHostPort *)
Definition colon : Ascii.ascii := Ascii.ascii_of_nat 58.
Definition lbracket : Ascii.ascii := Ascii.ascii_of_nat 91.
Definition rbracket : Ascii.ascii := Ascii.ascii_of_nat 93.

Definition has (a : Ascii.ascii) (l : list Ascii.ascii) : bool := existsb (Ascii.eqb a) l.

(** Cuts at the first [a]. *)
Fixpoint cut (a : Ascii.ascii) (l : list Ascii.ascii) :
    option (list Ascii.ascii * list Ascii.ascii) :=
  match l with
  | [] => None
  | c :: l' =>
      if Ascii.eqb c a then Some ([], l')
      else match cut a l' with Some (x, y) => Some (c :: x, y) | None => None end
  end.

(** Host and port; [None] for the errors (missing port, too many colons, stray brackets). *)
Definition SplitHostPort (hostport : string) : option (string * string) :=
  let l := String.list_ascii_of_string hostport in
  let text := String.string_of_list_ascii in
  match l with
  | c :: rest =>
      if Ascii.eqb c lbracket then
        match cut rbracket rest with
        | Some (host, c' :: port) =>
            if Ascii.eqb c' colon && negb (has colon port) && negb (has lbracket (host ++ port))
               && negb (has rbracket port)
            then Some (text host, text port) else None
        | _ => None
        end
      else
        match cut colon l with
        | Some (host, port) =>
            if has colon port || has lbracket l || has rbracket l then None
            else Some (text host, text port)
        | None => None
        end
  | [] => None
  end.

Example split_v4 : SplitHostPort "10.0.0.1:4711" = Some ("10.0.0.1", "4711").
Proof. reflexivity. Qed.
Example split_v6 : SplitHostPort "[::1]:80" = Some ("::1", "80").
Proof. reflexivity. Qed.
Example split_bad : SplitHostPort "::1:80" = None /\ SplitHostPort "10.0.0.1" = None.
Proof. done. Qed.

(** ** Token buckets *)
Class Limiter (lim : Type) := {
  NewLimiter : Z -> Z -> lim;              (* tokens per second, burst *)
  Allow : Z -> lim -> bool * lim;          (* at a time in nanoseconds *)
  tokens : lim -> Z -> Z;                  (* billionths of a token at a time *)
  quota : lim -> Z * Z }.

(** A bucket starts full, refills at its rate up to its burst, and [Allow] takes one token when
    there is one. *)
Class LimiterLaws {lim} (L : Limiter lim) : Prop := {
  limiter_new : forall r b t,
    tokens (NewLimiter r b) t = b * 10 ^ 9 /\ quota (NewLimiter r b) = (r, b);
  limiter_refill : forall l t t', 0 <= (quota l).1 -> t <= t' ->
    tokens l t' = Z.min ((quota l).2 * 10 ^ 9) (tokens l t + (quota l).1 * (t' - t));
  limiter_allow : forall l t,
    (Allow t l).1 = (10 ^ 9 <=? tokens l t) /\ quota (Allow t l).2 = quota l /\
    tokens (Allow t l).2 t = tokens l t - (if (Allow t l).1 then 10 ^ 9 else 0) }.

Record client {lim : Type} := mkClient { limiter : lim; lastSeen : Z }.
Arguments client lim : clear implicits.
Arguments mkClient {lim} _ _.

Abbreviation clients_map lim := (gmap string (client lim)).

(** ** The middlewares *)
Section middleware.
Context {kv : Type} (E : Env) {lim : Type} {L : Limiter lim}.
Context {S : Type} {W : Has (World kv) S} {C : Has (clients_map lim) S}.

(** The sweep of the background cleaner, once a minute. *)
Definition evict_idle (now : Z) (clients : clients_map lim) : clients_map lim :=
  filter (fun x => ~ (3 * Minute < Sub now (lastSeen x.2))) clients.

Definition BackgroundCleaner (s : S) : S :=
  let '(r, s1) := zoom (Now E) s in
  match r with Ok now => with_part (evict_idle now (part s1)) s1 | Err _ => s1 end.

Definition new_client : client lim := mkClient (NewLimiter 5 10) (-62135596800 * 10 ^ 9).

(** The critical section: [now] stamps the client, [now'] is read by [Allow]. *)
Definition allow_ip (ip : string) (now now' : Z) (clients : clients_map lim) :
    bool * clients_map lim :=
  let c := default new_client (clients !! ip) in
  let '(ok, l) := Allow now' (limiter c) in
  (ok, <[ip := mkClient l now]> clients).

Definition too_many (r : Request) : list wcall :=
  CSet "Retry-After" "1" ::
  WriteProblemResponse (r_Path r) 429 "Rate Limit Exceeded"
    "You have generated too many automated concurrent queries. Please wait before retrying.".

Definition RateLimitMiddleware (next : Handler S) : Handler S := fun r s =>
  match SplitHostPort (r_RemoteAddr r) with
  | None =>
      (WriteProblemResponse (r_Path r) 400 "Invalid Remote Address"
         "Could not evaluate client origin IP pointer mappings.", s)
  | Some (ip, _) =>
      let '(times, s1) := zoom (now ← Now E; now' ← Now E; mret (now, now')) s in
      match times with
      | Err _ => ([], s1)
      | Ok (now, now') =>
          let '(ok, clients') := allow_ip ip now now' (part s1) in
          let s2 := with_part clients' s1 in
          if ok : bool then next r s2 else (too_many r, s2)
      end
  end.

Definition CORSSecurityMiddleware (next : Handler S) : Handler S := fun r s =>
  let cors := [CSet "Access-Control-Allow-Origin" "*";
               CSet "Access-Control-Allow-Methods" "POST, GET, OPTIONS, PUT, DELETE";
               CSet "Access-Control-Allow-Headers" "Content-Type, Authorization"] in
  if bool_decide (r_Method r = "OPTIONS") then (cors ++ [CWriteHeader 200], s)
  else let '(cs, s') := next r s in (cors ++ cs, s').

(** ** Histories of one process: requests, sweeps, and time passing *)
Inductive event := Arrives (r : Request) | Sweeps | Passes.

Definition from (ip : string) (r : Request) : bool :=
  match SplitHostPort (r_RemoteAddr r) with
  | Some (ip', _) => bool_decide (ip' = ip)
  | None => false
  end.

(** The new state and whether a request of [ip] got past the limiter. *)
Definition event_step (next : Handler S) (ip : string) (ev : event) (s : S) : Z * S :=
  match ev with
  | Arrives r =>
      let '(cs, s') := RateLimitMiddleware next r s in
      (if from ip r && negb (bool_decide (cs = too_many r)) then 1 else 0, s')
  | Sweeps => (0, BackgroundCleaner s)
  | Passes => (0, with_part (tick (part s)) s)
  end.

Fixpoint passed (next : Handler S) (ip : string) (evs : list event) (s : S) : Z * S :=
  match evs with
  | [] => (0, s)
  | ev :: evs' =>
      let '(n, s1) := event_step next ip ev s in
      let '(m, s2) := passed next ip evs' s1 in (n + m, s2)
  end.
End middleware.




(** ** The level of a client's bucket *)
Section level.
Context {lim : Type} {L : Limiter lim} {LL : LimiterLaws L}.
Implicit Types (cl : clients_map lim).

Definition full : Z := 10 * 10 ^ 9.

(** A stamped client: its last [Allow], at [u], came within two minutes of its stamp. *)
Definition client_ok (t : Z) (c : client lim) : Prop :=
  quota (limiter c) = (5, 10) /\
  exists u, lastSeen c <= u <= lastSeen c + 2 * Minute /\ u <= t /\ 0 <= tokens (limiter c) u.

Definition all_ok (t : Z) cl : Prop := map_Forall (fun _ c => client_ok t c) cl.

Definition level (ip : string) (t : Z) cl : Z :=
  match cl !! ip with Some c => tokens (limiter c) t | None => full end.

Lemma client_ok_later t t' c : t <= t' -> client_ok t c -> client_ok t' c.
Proof. intros Ht (Hq & u & Hu & Hut & Hpos). split; [done|]. exists u. lia. Qed.

Lemma all_ok_later t t' cl : t <= t' -> all_ok t cl -> all_ok t' cl.
Proof. intros Ht Hok ip c Hc. by eapply client_ok_later; [|apply (Hok ip)]. Qed.

Lemma client_tokens t c : client_ok t c -> 0 <= tokens (limiter c) t <= full.
Proof.
  intros (Hq & u & Hu & Hut & Hpos). pose proof (limiter_refill (limiter c) u t) as Hr.
  rewrite Hq in Hr. specialize (Hr ltac:(done) Hut). unfold full. simpl in Hr. lia.
Qed.

Lemma level_bounds ip t cl : all_ok t cl -> 0 <= level ip t cl <= full.
Proof.
  intros Hok. unfold level. destruct (cl !! ip) as [c|] eqn:Hc; [|by vm_compute].
  apply client_tokens, (Hok ip c Hc).
Qed.

Lemma level_later ip t t' cl :
  all_ok t cl -> t <= t' -> level ip t' cl = Z.min full (level ip t cl + 5 * (t' - t)).
Proof.
  intros Hok Ht. unfold level. destruct (cl !! ip) as [c|] eqn:Hc; [|unfold full; lia].
  destruct (Hok ip c Hc) as [Hq _]. rewrite (limiter_refill _ t t'); [by rewrite Hq..|done].
Qed.

(** A swept bucket was full. *)
Lemma level_evict ip t cl : all_ok t cl -> level ip t (evict_idle t cl) = level ip t cl.
Proof.
  intros Hok. unfold level, evict_idle. rewrite map_lookup_filter.
  destruct (cl !! ip) as [c|] eqn:Hc; simpl; [|done].
  destruct (Hok ip c Hc) as (Hq & u & Hu & Hut & Hpos).
  case_guard as Hidle; simpl; [done|].
  unfold Sub, int64_min, int64_max in Hidle.
  rewrite (limiter_refill _ u t), Hq; [|by rewrite Hq|done]. unfold full. cbn [fst snd].
  assert (3 * Minute = 180 * 10 ^ 9) as E3 by done. assert (2 * Minute = 120 * 10 ^ 9) as E2 by done.
  lia.
Qed.

Lemma all_ok_evict t cl : all_ok t cl -> all_ok t (evict_idle t cl).
Proof. intros Hok ip c [Hc _]%map_lookup_filter_Some. by apply (Hok ip). Qed.

(** One critical section takes a token of its client and of no other. *)
Lemma allow_ip_level ip t now now' cl ok cl' :
  all_ok t cl -> t <= now -> now <= now' <= now + 2 * Minute ->
  allow_ip ip now now' cl = (ok, cl') ->
  ok = (10 ^ 9 <=? level ip now' cl) /\ all_ok now' cl' /\
  forall ip', level ip' now' cl' =
    level ip' now' cl - (if bool_decide (ip' = ip) && ok then 10 ^ 9 else 0).
Proof.
  intros Hok Ht Hnow. unfold allow_ip.
  set (c := default new_client (cl !! ip)).
  assert (tokens (limiter c) now' = level ip now' cl /\ quota (limiter c) = (5, 10) /\
    0 <= level ip now' cl) as (Hlev & Hq & Hpos).
  { pose proof (level_bounds ip now' cl (all_ok_later t now' cl ltac:(lia) Hok)) as Hb.
    unfold c, level in *. destruct (cl !! ip) as [c0|] eqn:Hc; simpl.
    - split; [done|]. split; [apply (Hok ip c0 Hc)|lia].
    - destruct (limiter_new 5 10 now') as [-> ->]. done. }
  destruct (limiter_allow (limiter c) now') as (H1 & H2 & H3).
  destruct (Allow now' (limiter c)) as [ok0 l]. cbn [fst snd] in *. intros [= <- <-].
  rewrite Hlev in H1, H3. split; [done|]. split.
  - apply map_Forall_insert_2; [|by eapply all_ok_later; [|exact Hok]; lia].
    split; [cbn; by rewrite H2|]. exists now'. cbn [limiter lastSeen]. rewrite H3.
    split; [lia|]. split; [lia|]. destruct ok0; [|lia]. symmetry in H1. apply Z.leb_le in H1. lia.
  - intros ip'. unfold level at 1. case_bool_decide as Hip.
    + subst ip'. rewrite lookup_insert_eq. cbn. by rewrite H3.
    + rewrite lookup_insert_ne by done. unfold level. simpl. lia.
Qed.
End level.

(** ** Histories *)
Section history.
Context {kv : Type} (E : Env) {lim : Type} {L : Limiter lim} {LL : LimiterLaws L}.
Context {S : Type} {W : Has (World kv) S} {C : Has (clients_map lim) S}.
Context {WL : HasLaws W} {CL : HasLaws C} {AP : Apart W C}.

(** The clock goes forward, less than two minutes between two readings. *)
Definition steady : Prop :=
  (forall n m, (n <= m)%nat -> clock E n <= clock E m) /\
  forall n, clock E (Datatypes.S n) <= clock E n + 2 * Minute.

Definition spares_clients (next : Handler S) : Prop :=
  forall r s, part (Has := C) (next r s).2 = part s /\
              (w_ticks (part s) <= w_ticks (part (next r s).2))%nat.

Definition time_of (s : S) : Z := clock E (w_ticks (part s)).
Definition level_of (ip : string) (s : S) : Z := level ip (time_of s) (part s).
Definition good (s : S) : Prop := all_ok (time_of s) (part s).

Context (Hsteady : steady).

(** The level of a client after a step: refilled with the time that passed, less one token for
    each request that went through. *)
Definition levels (ip : string) (taken : Z) (s s' : S) : Prop :=
  good s' /\ time_of s <= time_of s' /\
  level_of ip s' <= level_of ip s + 5 * (time_of s' - time_of s) - 10 ^ 9 * taken /\
  level_of ip s - 10 ^ 9 * taken <= level_of ip s'.

Lemma levels_time ip s s' :
  good s -> time_of s <= time_of s' -> part (Has := C) s' = part s -> levels ip 0 s s'.
Proof using LL.
  intros Hok Ht Hcl. unfold levels, level_of, good. rewrite Hcl.
  split; [by eapply all_ok_later|]. split; [done|].
  rewrite (level_later ip (time_of s) (time_of s')) by done.
  pose proof (level_bounds ip _ _ Hok). unfold full in *. lia.
Qed.

Lemma levels_trans ip a b s s1 s2 : levels ip a s s1 -> levels ip b s1 s2 -> levels ip (a + b) s s2.
Proof. intros (?&?&?&?) (?&?&?&?). split_and!; [done|lia..]. Qed.

Lemma sweep_levels ip s : good s -> levels ip 0 s (BackgroundCleaner E s).
Proof using LL WL CL AP Hsteady.
  intros Hok. unfold BackgroundCleaner, zoom, Now. cbn.
  set (s1 := with_part (tick (part s)) s).
  assert (time_of s1 = clock E (Datatypes.S (w_ticks (part s)))) as Ht1
    by (unfold time_of, s1; by rewrite part_with).
  assert (part (Has := C) s1 = part s) as Hc1 by apply part_apart_r.
  assert (time_of s <= time_of s1) as Hle by (rewrite Ht1; apply Hsteady; lia).
  pose proof (levels_time ip s s1 Hok Hle Hc1) as (Hg & _ & Hup & Hlo).
  set (s2 := with_part (evict_idle _ _) s1).
  assert (time_of s2 = time_of s1) as Ht2 by (unfold time_of, s2; by rewrite part_apart_l).
  assert (part (Has := C) s2 = evict_idle (clock E (w_ticks (part s))) (part s)) as Hc2
    by (unfold s2; by rewrite part_with, Hc1).
  assert (level_of ip s2 = level_of ip s1) as Hl.
  { unfold level_of. rewrite Ht2, Hc2, Hc1. rewrite !(level_later ip (time_of s) (time_of s1));
      [|done|done|by apply all_ok_evict|done].
    f_equal. f_equal. by apply level_evict. }
  unfold levels. rewrite Hl, Ht2. split_and!; [|done..].
  unfold good. rewrite Ht2, Hc2. eapply all_ok_later; [exact Hle|]. by apply all_ok_evict.
Qed.

(** A request: whose token it takes, and what is left. *)
Lemma arrive_levels next ip r s :
  spares_clients next -> good s ->
  exists s1 ok, levels ip (if from ip r && ok then 1 else 0) s s1 /\ good s1 /\
    (ok = false -> SplitHostPort (r_RemoteAddr r) = None \/
                   RateLimitMiddleware E next r s = (too_many r, s1)) /\
    (ok = true -> RateLimitMiddleware E next r s = next r s1) /\
    (from ip r = true -> 10 ^ 9 <= level_of ip s -> ok = true).
Proof using LL WL CL AP Hsteady.
  intros Hnext Hok. unfold RateLimitMiddleware, from.
  destruct (SplitHostPort (r_RemoteAddr r)) as [[ip0 port]|] eqn:Hip.
  2:{ exists s, false. split_and!; try done; [|by left]. by apply levels_time. }
  unfold zoom, Now, mbind, M_bind. cbn.
  set (s1 := with_part (tick (tick (part s))) s).
  assert (time_of s1 = clock E (Datatypes.S (Datatypes.S (w_ticks (part s))))) as Ht1
    by (unfold time_of, s1; by rewrite part_with).
  assert (part (Has := C) s1 = part s) as Hc1 by apply part_apart_r.
  change (clock E (w_ticks (part s))) with (time_of s).
  set (now' := clock E (Datatypes.S (w_ticks (part s)))).
  assert (time_of s <= now' <= time_of s + 2 * Minute) as Hnow
    by (split; [apply Hsteady; lia|apply Hsteady]).
  assert (now' <= time_of s1) as Hle by (rewrite Ht1; apply Hsteady; lia).
  destruct (allow_ip ip0 (time_of s) now' (part s1)) as [ok cl'] eqn:Hadm.
  rewrite Hc1 in Hadm.
  destruct (allow_ip_level ip0 (time_of s) (time_of s) now' (part s) ok cl' Hok ltac:(done) Hnow Hadm)
    as (Hverdict & Hok' & Hlev).
  exists (with_part cl' s1), ok.
  assert (part (Has := C) (with_part cl' s1) = cl') as Hc2 by apply part_with.
  assert (time_of (with_part cl' s1) = time_of s1) as Ht2
    by (unfold time_of; by rewrite part_apart_l).
  assert (good (with_part cl' s1)) as Hg.
  { unfold good. rewrite Ht2, Hc2. by eapply all_ok_later. }
  assert (level ip now' (part s) = Z.min full (level_of ip s + 5 * (now' - time_of s))) as Hlv.
  { unfold level_of. apply level_later; [done|]. apply Hnow. }
  pose proof (level_bounds ip _ _ Hok) as Hb. fold (level_of ip s) in Hb.
  split_and!; [|done| |..].
  - unfold levels, level_of. rewrite Ht2, Hc2. split; [done|].
    split; [lia|]. rewrite (level_later ip now' (time_of s1)) by done. rewrite Hlev, Hlv.
    rewrite (bool_decide_ext (ip0 = ip) (ip = ip0)) by done.
    change (level ip (time_of s) (part s)) with (level_of ip s). unfold full in *.
    destruct (bool_decide (ip = ip0) && ok); lia.
  - destruct ok; [done|]. intros _. by right.
  - by intros ->.
  - intros Hfrom%bool_decide_eq_true Hfull. subst ip0. rewrite Hverdict. apply Z.leb_le.
    rewrite Hlv. unfold full in *. lia.
Qed.

Lemma event_levels next ip ev s :
  spares_clients next -> good s ->
  let '(n, s') := event_step E next ip ev s in
  exists taken, n <= taken /\ levels ip taken s s' /\
    ((forall r s, (next r s).1 <> too_many r) -> n = taken).
Proof using LL WL CL AP Hsteady.
  intros Hnext Hok. destruct ev as [r| |]; simpl.
  - destruct (arrive_levels next ip r s Hnext Hok) as (s1 & ok & Hl & Hg1 & Hno & Hyes & _).
    destruct ok.
    + rewrite Hyes by done. destruct (Hnext r s1) as [Hcl Ht].
      pose proof (eq_refl (next r s1).1) as Hcs. revert Hcl Ht Hcs.
      destruct (next r s1) as [cs s'] eqn:Hn. cbn [fst snd]. intros Hcl Ht _.
      exists (if from ip r && true then 1 else 0). split_and!.
      * destruct (from ip r); simpl; [by destruct (negb _)|done].
      * replace (if from ip r && true then 1 else 0) with ((if from ip r && true then 1 else 0) + 0)
          by lia.
        eapply levels_trans; [exact Hl|]. apply levels_time; [done| |done].
        unfold time_of. by apply Hsteady.
      * intros Hnot. specialize (Hnot r s1). rewrite Hn in Hnot. simpl in Hnot.
        by rewrite bool_decide_false.
    + rewrite andb_false_r in Hl. unfold from. destruct Hno as [Hip|Hrun]; [done| |].
      * unfold RateLimitMiddleware in *. rewrite Hip in *. exists 0.
        split_and!; [done| |done]. by apply levels_time.
      * rewrite Hrun. exists 0. rewrite bool_decide_true by done. simpl. rewrite andb_false_r.
        split_and!; done.
  - exists 0. split_and!; [done| |done]. by apply sweep_levels.
  - exists 0. split_and!; [done| |done]. apply levels_time; [done| |apply part_apart_r].
    unfold time_of. rewrite part_with. apply Hsteady. simpl. lia.
Qed.

Lemma passed_levels next ip evs s :
  spares_clients next -> good s ->
  let '(n, s') := passed E next ip evs s in
  exists taken, n <= taken /\ levels ip taken s s' /\
    ((forall r s, (next r s).1 <> too_many r) -> n = taken).
Proof using LL WL CL AP Hsteady.
  intros Hnext. revert s. induction evs as [|ev evs IH]; intros s Hok; cbn [passed].
  - exists 0. split_and!; [done| |done]. by apply levels_time.
  - pose proof (event_levels next ip ev s Hnext Hok) as Hev.
    destruct (event_step E next ip ev s) as [n s1]. destruct Hev as (a & Hn & Hl & Heq).
    specialize (IH s1 (proj1 Hl)). destruct (passed E next ip evs s1) as [m s2].
    destruct IH as (b & Hm & Hl2 & Heq2). exists (a + b). split_and!; [lia| |].
    + by eapply levels_trans.
    + intros Hnot. rewrite Heq, Heq2; done.
Qed.

Lemma good_start s : part (Has := C) s = ∅ -> good s.
Proof. unfold good. intros ->. apply map_Forall_empty. Qed.

Lemma level_start ip s : part (Has := C) s = ∅ -> level_of ip s = full.
Proof. unfold level_of, level. intros ->. by rewrite lookup_empty. Qed.
End history.


(** The burst.  An address with fewer than ten requests let through so far is not refused:
    its next request reaches the handler. *)
Theorem burst_allowed {kv} (E : Env) {lim} {L : Limiter lim} {S} {W : Has (World kv) S}
    {C : Has (clients_map lim) S} (next : Handler S) (ip : string) (evs : list event) (s : S)
    (r : Request) :
  LimiterLaws L -> HasLaws W -> HasLaws C -> Apart W C -> steady E -> spares_clients next ->
  (forall r s, (next r s).1 <> too_many r) ->
  part (Has := C) s = ∅ -> from ip r = true ->
  let '(n, s') := passed E next ip evs s in
  n < 10 -> exists s1, RateLimitMiddleware E next r s' = next r s1.
Proof.
  intros LL WL CL AP Hst Hnext Hnot H0 Hfrom.
  pose proof (passed_levels E Hst next ip evs s Hnext (good_start E s H0)) as H.
  destruct (passed E next ip evs s) as [n s']. destruct H as (taken & _ & (Hg & _ & _ & Hlo) & Heq).
  rewrite <-Heq in Hlo by done. rewrite (level_start E ip s H0) in Hlo. intros Hn.
  destruct (arrive_levels E Hst next ip r s' Hnext Hg) as (s1 & ok & _ & _ & _ & Hyes & Hok).
  exists s1. apply Hyes, Hok; [done|]. unfold full in Hlo. lia.
Qed.

(** The sweep is unobservable: whenever the cleaner runs, the verdict on the next request
    of any address is the one it would have been without the sweep. *)
Theorem sweep_unobservable {kv} (E : Env) {lim} {L : Limiter lim} {S} {W : Has (World kv) S}
    {C : Has (clients_map lim) S} (next : Handler S) (ip : string) (evs : list event) (s : S)
    (now now' : Z) :
  LimiterLaws L -> HasLaws W -> HasLaws C -> Apart W C -> steady E -> spares_clients next ->
  part (Has := C) s = ∅ ->
  let s' := (passed E next ip evs s).2 in
  time_of E s' <= now -> now <= now' <= now + 2 * Minute ->
  forall ip', (allow_ip ip' now now' (evict_idle (time_of E s') (part s'))).1 =
              (allow_ip ip' now now' (part s')).1.
Proof.
  intros LL WL CL AP Hst Hnext H0 s' Hnow Hnow' ip'.
  pose proof (passed_levels E Hst next ip evs s Hnext (good_start E s H0)) as H.
  unfold s' in *. destruct (passed E next ip evs s) as [n s1].
  destruct H as (taken & _ & (Hg & _) & _). cbn [snd] in *.
  destruct (allow_ip ip' now now' (part s1)) as [ok cl] eqn:Ha.
  destruct (allow_ip ip' now now' (evict_idle _ _)) as [ok' cl'] eqn:Ha'.
  apply (allow_ip_level ip' (time_of E s1)) in Ha as [-> _]; [|done..].
  apply (allow_ip_level ip' (time_of E s1)) in Ha' as [-> _]; [|by apply all_ok_evict|done..].
  simpl. rewrite !(level_later ip' (time_of E s1) now'); [|done|lia|by apply all_ok_evict|lia].
  by rewrite level_evict.
Qed.

(** ** A concrete bucket *)

(** [bk_last = None] is a bucket nobody used: it is full. *)
Record bucket := mkBucket { bk_rate : Z; bk_burst : Z; bk_tokens : Z; bk_last : option Z }.

Definition bucket_tokens (l : bucket) (t : Z) : Z :=
  match bk_last l with
  | None => bk_burst l * 10 ^ 9
  | Some u => Z.min (bk_burst l * 10 ^ 9) (bk_tokens l + bk_rate l * (t - u))
  end.

Definition bucket_allow (t : Z) (l : bucket) : bool * bucket :=
  let n := bucket_tokens l t in
  let ok := 10 ^ 9 <=? n in
  (ok, mkBucket (bk_rate l) (bk_burst l) (n - if ok then 10 ^ 9 else 0) (Some t)).

#[export] Instance bucket_limiter : Limiter bucket := {|
  NewLimiter := fun r b => mkBucket r b 0 None; Allow := bucket_allow;
  tokens := bucket_tokens; quota := fun l => (bk_rate l, bk_burst l) |}.

#[export] Instance bucket_laws : LimiterLaws bucket_limiter.
Proof.
  split; cbn [tokens quota Allow NewLimiter bucket_limiter].
  - done.
  - intros [r b tok [u|]] t t' Hr Ht; unfold bucket_tokens; cbn in *; nia.
  - intros [r b tok last] t. unfold bucket_allow. cbn. split_and!; [done..|].
    unfold bucket_tokens. cbn. rewrite Z.sub_diag, Z.mul_0_r.
    destruct last; cbn; destruct (10 ^ 9 <=? _); lia.
Qed.

(** ** Witnesses: twelve requests within 40 milliseconds *)
Definition proc0 : World unit * clients_map bucket := (new_world tt, ∅).
Definition visit : Request := mkRequest "POST" "/v1/refunds" ∅ "10.0.0.1:4711" None.
Definition fine : Handler (World unit * clients_map bucket) := fun _ s => ([CWriteHeader 204], s).
Definition twelve : list event := [Sweeps] ++ replicate 12 (Arrives visit) ++ [Passes; Sweeps].

Lemma steady_env0 : steady env0.
Proof.
  split.
  - intros n m H. simpl. lia.
  - intros n. unfold Minute, Second. simpl. lia.
Qed.

Lemma fine_spares : spares_clients (kv := unit) fine.
Proof. intros r s. split; [done|simpl; lia]. Qed.

Lemma proc0_empty : part (Has := has_snd (World unit) (clients_map bucket)) proc0 = ∅.
Proof. reflexivity. Qed.


Lemma burst_allowed_witness :
  let '(n, s') := passed env0 fine "10.0.0.1" (replicate 9 (Arrives visit)) proc0 in
  n = 9 /\ (RateLimitMiddleware env0 fine visit s').1 = [CWriteHeader 204].
Proof.
  assert ((passed env0 fine "10.0.0.1" (replicate 9 (Arrives visit)) proc0).1 = 9) as Hn
    by (by vm_compute).
  pose proof (burst_allowed env0 fine "10.0.0.1" (replicate 9 (Arrives visit)) proc0 visit
    _ _ _ _ steady_env0 fine_spares (fun _ _ => ltac:(done)) proc0_empty eq_refl) as H.
  destruct (passed env0 fine "10.0.0.1" (replicate 9 (Arrives visit)) proc0) as [n s'].
  simpl in Hn. subst n. split; [done|]. destruct (H ltac:(lia)) as [s1 ->]. done.
Defined.

Lemma sweep_unobservable_witness :
  let s' := (passed env0 fine "10.0.0.1" twelve proc0).2 in
  let now := time_of env0 s' + 200 * 10 ^ 9 in
  (allow_ip "10.0.0.1" now now (evict_idle (time_of env0 s') (part s'))).1 =
  (allow_ip "10.0.0.1" now now (part s')).1.
Proof.
  intros s' now. refine (sweep_unobservable env0 fine "10.0.0.1" twelve proc0 now now
    _ _ _ _ steady_env0 fine_spares proc0_empty _ _ "10.0.0.1").
  - unfold now, s'. lia.
  - unfold Minute, Second. lia.
Defined.
