(* ===== verification/PaymentHandler.v ===== *)
(** * internal/handler/payment_handler.go: the charge and refund endpoints

    The handlers validate the request, guard a charge with the user's distributed lock, call the
    service and answer.  Tracing spans are not modelled. *)
From S2P Require Import Prelude Json GoTime Database Hex PaymentRepo OutboxRepo PaymentService.
From S2P Require Import Redis Lock Http.

Record ChargeRequest := mkChargeRequest {
  cr_UserID : string; cr_Amount : Z; cr_Currency : string }.

Definition charge_fields : list (field ChargeRequest) :=
  [StringField "user_id" (fun v q => mkChargeRequest v (cr_Amount q) (cr_Currency q));
   Int64Field "amount" (fun v q => mkChargeRequest (cr_UserID q) v (cr_Currency q));
   StringField "currency" (fun v q => mkChargeRequest (cr_UserID q) (cr_Amount q) v)].

Record RefundRequest := mkRefundRequest { rr_PaymentID : string }.

Definition refund_fields : list (field RefundRequest) :=
  [StringField "payment_id" (fun v _ => mkRefundRequest v)].

(** The JSON form of a [Payment]. *)
Definition Payment_json (p : Payment) : option json :=
  created ← time_json (p_CreatedAt p);
  updated ← time_json (p_UpdatedAt p);
  Some (JObj [("id", JStr (p_ID p)); ("user_id", JStr (p_UserID p)); ("amount", JInt (p_Amount p));
              ("currency", JStr (p_Currency p)); ("status", JStr (p_Status p));
              ("created_at", created); ("updated_at", updated)]).

Section handlers.
Context {kv : Type} (E : Env) {PR : PaymentRepository kv} {OR : OutboxRepository kv}.
Context {R : Redis kv} {S : Type} {W : Has (World kv) S}.

Definition CreateChargeHandler : Handler S := fun r s =>
  match Decode charge_fields (mkChargeRequest "" 0 "") (r_Body r) with
  | Err _ => (http_Error "Malformed JSON layout string" 400, s)
  | Ok req =>
      if bool_decide (cr_UserID req = "") then
        (http_Error "user_id is a mandatory required field" 422, s)
      else if cr_Amount req <=? 0 then
        (http_Error "transaction amount must be strictly positive" 422, s)
      else if bool_decide (cr_Currency req <> "USD") && bool_decide (cr_Currency req <> "INR") then
        (http_Error "Invalid currency. Only USD and INR are supported." 422, s)
      else
        let lockKey := cr_UserID req in
        let '(lockToken, s1) := zoom (AcquireLock E lockKey (5 * Second)) s in
        match lockToken with
        | Err err =>
            if errors_Is err ErrLockHeld then
              ([CSet "Content-Type" "application/json"; CWriteHeader 409;
                CWrite ("{" +:+ dquote +:+ "error" +:+ dquote +:+ ": " +:+ dquote +:+
                  "Transaction processing in progress. Please don't double click." +:+ dquote
                  +:+ "}")], s1)
            else (http_Error "Internal concurrency lock malfunction" 500, s1)
        | Ok lockToken =>
            let '(payment, s2) :=
              zoom (ProcessCharge E (cr_UserID req) (cr_Amount req) (cr_Currency req)) s1 in
            let out := match payment with
                       | Err err => http_Error (Error err) 422
                       | Ok payment => json_answer 200 (Payment_json payment)
                       end in
            (* deferred: the lock is released whatever the outcome *)
            let '(_, s3) := zoom (ReleaseLock E lockKey lockToken) s2 in
            (out, s3)
        end
  end.

Definition CreateRefundHandler : Handler S := fun r s =>
  match Decode refund_fields (mkRefundRequest "") (r_Body r) with
  | Err _ => (http_Error "Malformed JSON layout payload string" 400, s)
  | Ok req =>
      if bool_decide (rr_PaymentID req = "") then
        (http_Error "payment_id is a mandatory tracking field" 422, s)
      else
        let '(payment, s1) := zoom (ProcessRefund (rr_PaymentID req)) s in
        match payment with
        | Err err => (http_Error (Error err) 422, s1)
        | Ok payment => (json_answer 200 (Payment_json payment), s1)
        end
  end.
End handlers.

(** ** Answers *)
Lemma http_Error_status msg code : status (respond (http_Error msg code)) = code.
Proof. done. Qed.

(** ** Facts *)
Section facts.
Context {kv : Type} (E : Env) {PR : PaymentRepository kv} {OR : OutboxRepository kv}.
Context {PL : PaymentRepositoryLaws E PR} {OL : OutboxRepositoryLaws OR}.
Context {R : Redis kv} {S : Type} {W : Has (World kv) S} {WL : HasLaws W}.

(** A request that passes the validation. *)
Definition valid_charge (q : ChargeRequest) : Prop :=
  cr_UserID q <> "" /\ 0 < cr_Amount q /\ (cr_Currency q = "USD" \/ cr_Currency q = "INR").

Definition charge_request (r : Request) : res ChargeRequest :=
  Decode charge_fields (mkChargeRequest "" 0 "") (r_Body r).

(** The handler, after its validation. *)
Lemma CreateChargeHandler_cases r s :
  (exists code msg, (code = 400 \/ code = 422) /\
     (CreateChargeHandler E r s) = (http_Error msg code, s) /\
     forall q, charge_request r = Ok q -> ~ valid_charge q) \/
  exists q, charge_request r = Ok q /\ valid_charge q /\
    CreateChargeHandler E r s =
      (let '(lockToken, s1) := zoom (AcquireLock E (cr_UserID q) (5 * Second)) s in
       match lockToken with
       | Err err =>
           (if errors_Is err ErrLockHeld then
              [CSet "Content-Type" "application/json"; CWriteHeader 409;
                CWrite ("{" +:+ dquote +:+ "error" +:+ dquote +:+ ": " +:+ dquote +:+
                  "Transaction processing in progress. Please don't double click." +:+ dquote
                  +:+ "}")]
            else http_Error "Internal concurrency lock malfunction" 500, s1)
       | Ok lockToken =>
           let '(payment, s2) :=
             zoom (ProcessCharge E (cr_UserID q) (cr_Amount q) (cr_Currency q)) s1 in
           (match payment with
            | Err err => http_Error (Error err) 422
            | Ok payment => json_answer 200 (Payment_json payment)
            end, (zoom (ReleaseLock E (cr_UserID q) lockToken) s2).2)
       end).
Proof.
  unfold CreateChargeHandler. fold (charge_request r).
  destruct (charge_request r) as [q|e] eqn:Hq.
  2:{ left. do 2 eexists. split; [by left|]. split; [done|]. by intros q' [=]. }
  case_bool_decide as Huser.
  { left. do 2 eexists. split; [by right|]. split; [done|]. intros q' [= <-] (? & _). done. }
  destruct (Z.leb_spec (cr_Amount q) 0).
  { left. do 2 eexists. split; [by right|]. split; [done|]. intros q' [= <-] (_ & ? & _). lia. }
  destruct (bool_decide (cr_Currency q <> "USD") && bool_decide (cr_Currency q <> "INR")) eqn:Hcur.
  { left. do 2 eexists. split; [by right|]. split; [done|]. intros q' [= <-] (_ & _ & Hc).
    apply andb_true_iff in Hcur as [?%bool_decide_eq_true ?%bool_decide_eq_true]. tauto. }
  right. exists q. split; [done|]. split.
  { split_and!; [done|lia|]. apply andb_false_iff in Hcur as [Hc|Hc];
      apply bool_decide_eq_false, dec_stable in Hc; auto. }
  destruct (zoom (AcquireLock E _ _) s) as [[tok|err] s1].
  - destruct (zoom (ProcessCharge E _ _ _) s1) as [p s2].
    by destruct (zoom (ReleaseLock E _ _) s2).
  - by destruct (errors_Is err ErrLockHeld).
Qed.

Lemma zoom_run {A} (m : M (World kv) A) s :
  zoom m s = ((m (part s)).1, with_part (m (part s)).2 s).
Proof. unfold zoom. by destruct (m (part s)). Qed.

(** What a charge request may have done to the tables. *)
Definition charge_done (r : Request) (d : DB) (p : Payment) (d' : DB) : Prop :=
  exists q, charge_request r = Ok q /\ valid_charge q /\
    charge_effect E d (cr_UserID q) (cr_Amount q) (cr_Currency q) p d'.

Lemma CreateChargeHandler_truthful r s cs s' :
  CreateChargeHandler E r s = (cs, s') -> w_tx (part s) = TxNone ->
  w_tx (part s') = TxNone /\
  ((exists p, status (respond cs) = 200 /\ cs = json_answer 200 (Payment_json p) /\
      charge_done r (w_db (part s)) p (w_db (part s'))) \/
   (In (status (respond cs)) [400; 409; 422; 500] /\
    (w_db (part s') = w_db (part s) \/
     lossy E /\ exists p, charge_done r (w_db (part s)) p (w_db (part s'))))).
Proof.
  intros Hrun Htx.
  destruct (CreateChargeHandler_cases r s) as [(code & msg & Hcode & Heq & _)|(q & Hq & Hv & Heq)];
    rewrite Heq in Hrun.
  { injection Hrun as <- <-. split; [done|]. right. split; [|by left].
    rewrite http_Error_status. destruct Hcode as [->| ->]; simpl; auto. }
  rewrite !zoom_run in Hrun.
  pose proof (AcquireLock_only_kv E (cr_UserID q) (5 * Second) (part s)) as (Hdb & _ & Ht & _).
  destruct (AcquireLock E (cr_UserID q) (5 * Second) (part s)) as [[tok|err] w1]; cbn [fst snd] in *.
  2:{ injection Hrun as <- <-. rewrite part_with. split; [congruence|]. right.
      split; [|by left]. destruct (errors_Is err ErrLockHeld); vm_compute; auto. }
  rewrite !zoom_run, !part_with in Hrun. cbn [fst snd] in Hrun.
  pose proof (ProcessCharge_wp E (cr_UserID q) (cr_Amount q) (cr_Currency q) w1) as Hp.
  unfold wp in Hp. destruct (ProcessCharge E _ _ _ w1) as [res w2]. cbn [fst snd] in *.
  destruct Hp as (_ & Htx2 & Heff).
  destruct (ReleaseLock_only_kv E (cr_UserID q) tok w2) as (Hdb3 & _ & Ht3 & _).
  injection Hrun as <- <-. rewrite part_with. split; [rewrite Ht3; apply Htx2; congruence|].
  rewrite Hdb3. rewrite <-Hdb.
  destruct res as [p|err].
  - left. exists p. split; [apply respond_json|]. split; [done|].
    exists q. split; [done|]. split; [done|]. apply Heff.
  - right. rewrite http_Error_status. split; [simpl; auto|].
    destruct Heff as [?|[Hl [p Heff]]]; [by left|right]. split; [done|].
    exists p, q. split; [done|]. split; [done|]. apply Heff.
Qed.

Lemma CreateRefundHandler_truthful r s cs s' :
  CreateRefundHandler r s = (cs, s') -> w_tx (part s) = TxNone ->
  let refund p := exists q t, Decode refund_fields (mkRefundRequest "") (r_Body r) = Ok q /\
    refunds E t (w_db (part s)) (rr_PaymentID q) p (w_db (part s')) in
  w_tx (part s') = TxNone /\
  ((exists p, status (respond cs) = 200 /\ cs = json_answer 200 (Payment_json p) /\ refund p) \/
   (In (status (respond cs)) [400; 422] /\
    (w_db (part s') = w_db (part s) \/ lossy E /\ exists p, refund p))).
Proof using PL WL.
  intros Hrun Htx refund. revert refund. unfold CreateRefundHandler in Hrun.
  destruct (Decode refund_fields _ _) as [q|e] eqn:Hq.
  2:{ injection Hrun as <- <-. split; [done|]. right. vm_compute. auto. }
  case_bool_decide as Hid.
  { injection Hrun as <- <-. split; [done|]. right. vm_compute. auto. }
  rewrite zoom_run in Hrun.
  pose proof (ProcessRefund_wp E (rr_PaymentID q) (part s)) as Hp. unfold wp in Hp.
  destruct (ProcessRefund (rr_PaymentID q) (part s)) as [[p|err] w1]; cbn [fst snd] in *;
    destruct Hp as (_ & Htx1 & Heff); injection Hrun as <- <-; rewrite part_with;
    (split; [by apply Htx1|]).
  - left. exists p. split; [apply respond_json|]. split; [done|].
    destruct Heff as [t Heff]. by exists q, t.
  - right. rewrite http_Error_status. split; [simpl; auto|].
    destruct Heff as [?|[Hl (p & t & Heff)]]; [by left|right]. split; [done|]. by exists p, q, t.
Qed.

(** A charge while somebody holds the lock of the user. *)
Lemma CreateChargeHandler_blocked `{!RedisLaws R, !KvMono E} r s q token dl :
  charge_request r = Ok q -> valid_charge q ->
  holds_lock E (cr_UserID q) token dl (part s) ->
  kv_clock E (Datatypes.S (Datatypes.S (w_ticks (part s)))) < dl ->
  let '(cs, s') := CreateChargeHandler E r s in
  (status (respond cs) = 409 \/ status (respond cs) = 500) /\ only_kv (part s) (part s').
Proof using WL.
  intros Hq Hv Hh Hdl.
  destruct (CreateChargeHandler_cases r s) as [(? & ? & _ & _ & Hno)|(q' & Hq' & _ & Heq)].
  { by destruct (Hno q Hq). }
  assert (q' = q) as -> by congruence. rewrite Heq, zoom_run.
  pose proof (held_blocks E (cr_UserID q) token dl (part s) (5 * Second) Hh Hdl) as Hb.
  pose proof (AcquireLock_only_kv E (cr_UserID q) (5 * Second) (part s)) as Hk.
  destruct (AcquireLock E (cr_UserID q) (5 * Second) (part s)) as [[tok|err] w1]; [done|].
  cbn [fst snd] in *. rewrite part_with. split; [|done].
  destruct (errors_Is err ErrLockHeld); vm_compute; auto.
Qed.

(** Without lost calls a request gives every lock back that it takes. *)
Lemma CreateChargeHandler_releases `{!RedisLaws R, !KvMono E} r s u :
  calm E (part s) ->
  (forall t, kv_clock E (w_ticks (part s)) <= t ->
     redis_at (lock_key u) t (w_kv (part s)) = None) ->
  let s' := (CreateChargeHandler E r s).2 in
  forall t, kv_clock E (w_ticks (part s')) <= t ->
    redis_at (lock_key u) t (w_kv (part s')) = None.
Proof using PL OL WL.
  intros Hc Hfree s' t Ht. unfold s' in *. clear s'. revert Ht.
  destruct (CreateChargeHandler_cases r s) as [(? & ? & _ & -> & _)|(q & _ & _ & ->)];
    [apply Hfree|].
  rewrite !zoom_run. set (k := cr_UserID q).
  pose proof (acquire_free E k (5 * Second) (part s) Hc) as Hok.
  pose proof (AcquireLock_only_kv E k (5 * Second) (part s)) as (_ & _ & _ & _ & Htk1).
  pose proof (fun H => AcquireLock_spares E (lock_key u) k (5 * Second) (part s) H) as Hsp1.
  destruct (AcquireLock E k (5 * Second) (part s)) as [[tok|err] w1] eqn:Hacq; cbn [fst snd] in *.
  - rewrite !zoom_run, !part_with. cbn [fst snd].
    pose proof (ProcessCharge_wp E k (cr_Amount q) (cr_Currency q) w1) as Hp. unfold wp in Hp.
    destruct (ProcessCharge E _ _ _ w1) as [res w2]. cbn [fst snd] in *.
    destruct Hp as ([_ Hkv2 _ Htk2] & _). rewrite part_with. intros Ht.
    destruct (decide (u = k)) as [->|Hne].
    + destruct (ReleaseLock_kv E k tok w2) as [Htk3 _]. cbv zeta in Htk3. rewrite Htk3 in Ht.
      eapply (release_frees E); [apply Hc; lia|done|exact Ht|].
      intros t' Ht'. rewrite Hkv2. eapply (acquired_until E); [exact Hacq|].
      etrans; [|exact Ht']. apply kv_mono. lia.
    + assert (lock_key u <> lock_key k) as Hk by (intros ?%lock_key_inj; done).
      destruct (ReleaseLock_spares E (lock_key u) k tok w2 Hk) as [Htk3 ->]; [|done].
      destruct (Hsp1 Hk) as [_ Hs1]. rewrite Hkv2, Hs1.
      * apply Hfree. etrans; [|exact Ht]. apply kv_mono. lia.
      * etrans; [|exact Ht]. apply kv_mono. lia.
  - rewrite part_with. intros Ht. destruct (decide (u = k)) as [->|Hne].
    + exfalso. enough (false = true) by done. apply Hok, Hfree, kv_mono. lia.
    + destruct Hsp1 as [_ ->]; [by intros ?%lock_key_inj| |done].
      apply Hfree. etrans; [|exact Ht]. by apply kv_mono.
Qed.
End facts.

(** C20: A charge request is answered truthfully, over any repositories that keep their contracts
    and any pattern of lost calls: 200 carries the payment of a charge that is in the tables with
    the requested user, amount and currency; 400, 409, 422 and 500 mean the tables are as before,
    unless the answer of the commit itself was lost; no transaction stays open. *)
Theorem charge_answers_truthfully {kv} (E : Env) (PR : PaymentRepository kv)
    (OR : OutboxRepository kv) {R : Redis kv} {S} {W : Has (World kv) S} (r : Request) (s s' : S)
    (cs : list wcall) :
  PaymentRepositoryLaws E PR -> OutboxRepositoryLaws OR -> HasLaws W ->
  CreateChargeHandler E r s = (cs, s') -> w_tx (part s) = TxNone ->
  w_tx (part s') = TxNone /\
  ((exists p, status (respond cs) = 200 /\ cs = json_answer 200 (Payment_json p) /\
      charge_done E r (w_db (part s)) p (w_db (part s'))) \/
   (In (status (respond cs)) [400; 409; 422; 500] /\
    (w_db (part s') = w_db (part s) \/
     lossy E /\ exists p, charge_done E r (w_db (part s)) p (w_db (part s'))))).
Proof. intros HPR HOR HW. apply (CreateChargeHandler_truthful E). Qed.

(** A refund request is answered truthfully: 200 carries the payment refunded in the tables;
    400 and 422 mean the tables are as before, unless the answer of the commit was lost. *)
Theorem refund_answers_truthfully {kv} (E : Env) (PR : PaymentRepository kv) {S}
    {W : Has (World kv) S} (r : Request) (s s' : S) (cs : list wcall) :
  PaymentRepositoryLaws E PR -> HasLaws W ->
  CreateRefundHandler r s = (cs, s') -> w_tx (part s) = TxNone ->
  let refund p := exists q t, Decode refund_fields (mkRefundRequest "") (r_Body r) = Ok q /\
    refunds E t (w_db (part s)) (rr_PaymentID q) p (w_db (part s')) in
  w_tx (part s') = TxNone /\
  ((exists p, status (respond cs) = 200 /\ cs = json_answer 200 (Payment_json p) /\ refund p) \/
   (In (status (respond cs)) [400; 422] /\
    (w_db (part s') = w_db (part s) \/ lossy E /\ exists p, refund p))).
Proof. intros HPR HW. apply (CreateRefundHandler_truthful E). Qed.

(** A double click is refused: while a first request for a user holds the user's lock (for
    at most five seconds, whatever else happens on the server), a second charge request for the
    same user is answered 409, or 500 when Redis fails, and changes no table. *)
Theorem double_click_refused {kv} (E : Env) (PR : PaymentRepository kv)
    (OR : OutboxRepository kv) {R : Redis kv} {S} {W : Has (World kv) S} (r : Request) (s : S)
    (q : ChargeRequest) (w w1 : World kv) (token : string) :
  RedisLaws R -> KvMono E -> HasLaws W ->
  charge_request r = Ok q -> valid_charge q ->
  AcquireLock E (cr_UserID q) (5 * Second) w = (Ok token, w1) ->
  rtc (lock_step E (cr_UserID q) token) w1 (part s) ->
  kv_clock E (Datatypes.S (Datatypes.S (w_ticks (part s)))) < kv_clock E (w_ticks w1) + 5000 ->
  let '(cs, s') := CreateChargeHandler E r s in
  (status (respond cs) = 409 \/ status (respond cs) = 500) /\ only_kv (part s) (part s').
Proof.
  intros HR HK HW Hq Hv Hacq Hsteps Hdl.
  eapply (CreateChargeHandler_blocked E); [done|done| |exact Hdl].
  eapply (lock_steps_keep E); [done|]. by eapply (acquire_holds E _ (5 * Second)).
Qed.

(** C24: No lock leaks: when no call is lost, a charge request leaves every lock that was free
    before it free, on every path through the handler, so the next request can run. *)
Theorem charge_locks_released {kv} (E : Env) (PR : PaymentRepository kv)
    (OR : OutboxRepository kv) {R : Redis kv} {S} {W : Has (World kv) S} (r : Request) (s : S)
    (u : string) :
  PaymentRepositoryLaws E PR -> OutboxRepositoryLaws OR -> RedisLaws R -> KvMono E -> HasLaws W ->
  calm E (part s) ->
  (forall t, kv_clock E (w_ticks (part s)) <= t ->
     redis_at (lock_key u) t (w_kv (part s)) = None) ->
  let s' := (CreateChargeHandler E r s).2 in
  forall t, kv_clock E (w_ticks (part s')) <= t ->
    redis_at (lock_key u) t (w_kv (part s')) = None.
Proof. intros HPR HOR HR HK HW. apply (CreateChargeHandler_releases E). Qed.

(** ** Witnesses *)
Definition shop_world : World mem := mkWorld db0 db0 TxNone ∅ [] 10.
Definition charge_body (amount : Z) : json :=
  JObj [("user_id", JStr (uuid_text u0)); ("amount", JInt amount); ("currency", JStr "INR")].
Definition charge_post (amount : Z) : Request :=
  mkRequest "POST" "/v1/charges" ∅ "10.0.0.1:1" (Some (charge_body amount)).
Definition refund_post (id : string) : Request :=
  mkRequest "POST" "/v1/refunds" ∅ "10.0.0.1:1" (Some (JObj [("payment_id", JStr id)])).

Definition shop_charge (amount : Z) (w : World mem) : list wcall * World mem :=
  @CreateChargeHandler mem env0 (sqlPaymentRepository env0 mem) (sqlOutboxRepository env0 mem)
    mem_redis (World mem) (has_self _) (charge_post amount) w.

Lemma charge_answers_truthfully_witness :
  let '(cs, w') := shop_charge 300 shop_world in
  status (respond cs) = 200 /\ (exists p, cs = json_answer 200 (Payment_json p) /\
    charge_done env0 (charge_post 300) db0 p (w_db w')).
Proof.
  assert (status (respond (shop_charge 300 shop_world).1) = 200) as H200 by (by vm_compute).
  destruct (shop_charge 300 shop_world) as [cs w'] eqn:Hrun.
  destruct (charge_answers_truthfully env0 _ _ (charge_post 300) shop_world w' cs _ _ _ Hrun eq_refl)
    as [_ [(p & _ & Hcs & Hd)|[Hin _]]]; cbn [fst] in H200.
  - split; [exact H200|]. exists p. split; [exact Hcs|exact Hd].
  - exfalso. rewrite H200 in Hin. simpl in Hin. lia.
Defined.

Lemma refund_answers_truthfully_witness :
  let '(cs, w') := @CreateRefundHandler mem (sqlPaymentRepository env0 mem) (World mem)
                     (has_self _) (refund_post "nonsense") shop_world in
  status (respond cs) = 422 /\ w_db w' = db0.
Proof.
  assert (status (respond (@CreateRefundHandler mem (sqlPaymentRepository env0 mem) (World mem)
    (has_self _) (refund_post "nonsense") shop_world).1) = 422) as H422 by (by vm_compute).
  destruct (CreateRefundHandler _ _) as [cs w'] eqn:Hrun.
  destruct (refund_answers_truthfully env0 _ (refund_post "nonsense") shop_world w' cs _ _ Hrun
    eq_refl) as [_ [(p & H200 & _)|[_ Hdb]]]; cbn [fst] in H422.
  - exfalso. congruence.
  - split; [done|]. destruct Hdb as [Hdb|[[n [e He]] _]]; [exact Hdb|done].
Defined.

Lemma double_click_refused_witness :
  let first := AcquireLock env0 (uuid_text u0) (5 * Second) shop_world in
  status (respond (shop_charge 300 first.2).1) = 409.
Proof.
  intros first.
  assert (AcquireLock env0 (uuid_text u0) (5 * Second) shop_world =
    (Ok "2023-11-14T22:13:20.01Z", first.2)) as Hacq by (apply run_split; by vm_compute).
  assert (charge_request (charge_post 300) = Ok (mkChargeRequest (uuid_text u0) 300 "INR")) as Hq
    by (by vm_compute).
  assert (valid_charge (mkChargeRequest (uuid_text u0) 300 "INR")) as Hv
    by (split; [by vm_compute|]; split; [done|by right]).
  assert (kv_clock env0 (S (S (w_ticks first.2))) < kv_clock env0 (w_ticks first.2) + 5000) as Ht
    by (by vm_compute).
  assert (status (respond (shop_charge 300 first.2).1) <> 500) as H500 by (by vm_compute).
  clearbody first.
  pose proof (double_click_refused env0 (sqlPaymentRepository env0 mem)
    (sqlOutboxRepository env0 mem) (W := has_self (World mem)) (charge_post 300) first.2
    _ shop_world first.2 "2023-11-14T22:13:20.01Z" _ _ _ Hq Hv Hacq (rtc_refl _ _) Ht) as H.
  fold (shop_charge 300 first.2) in H.
  destruct (shop_charge 300 first.2) as [cs w']. destruct H as [[H|H] _]; [exact H|by destruct H500].
Defined.

Lemma charge_locks_released_witness :
  redis_at (lock_key (uuid_text u0)) (1700000000 * 10 ^ 3 + 1000)
    (w_kv (shop_charge 300 shop_world).2) = None.
Proof.
  assert (forall t, kv_clock env0 (w_ticks (part shop_world)) <= t ->
    redis_at (lock_key (uuid_text u0)) t (w_kv (part shop_world)) = None) as Hfree
    by (intros; reflexivity).
  assert (kv_clock env0 (w_ticks (shop_charge 300 shop_world).2) <= 1700000000 * 10 ^ 3 + 1000)
    as Ht by (by vm_compute).
  exact (charge_locks_released env0 (sqlPaymentRepository env0 mem) (sqlOutboxRepository env0 mem)
    (W := has_self (World mem)) (charge_post 300) shop_world (uuid_text u0) _ _ _ _ _
    (calm_env0 _) Hfree _ Ht).
Defined.
