(* ===== verification/Endpoints.v ===== *)
(** * Charge and refund requests at once, call by call

    [POST /v1/charges] runs as [Handle] around [CreateChargeHandler]: a lookup in Redis, the user's
    lock, the charge, the release, the store of the answer; [POST /v1/refunds] is the refund alone.
    Here a request is a machine whose steps are these calls; run alone it is the middleware around
    the handler ([Handle_staged], [refund_staged]).  In a rush the calls of any number of requests
    interleave: those to Redis are steps of the machine, those to the database the steps of the
    threads of Concurrent.v, among the polls of Pollers.v and any other traffic of Redis.

    Those files carry over to the endpoints: the charges and refunds are serializable, and answered
    truthfully ([endpoints_serializable]), no money is made or lost ([endpoints_conserve_money]), and
    no request waits for ever ([endpoints_progress]).  UserLock.v adds what the lock of the user promises, SameKey.v what an
    idempotency key does. *)
From S2P Require Import Prelude Json GoTime Database Hex PaymentRepo OutboxRepo PaymentService.
From S2P Require Import OutboxWorker UserRepo Ledger Concurrent Pollers.
From S2P Require Import Redis Lock Http Idempotency PaymentHandler.

(** ** A request as a machine *)

Inductive endpoint := Charges | Refunds.

(** The next call of the request; [out] is the answer so far. *)
Inductive stage :=
  | AtLookup
  | AtLock (q : ChargeRequest)
  | AtCharge (q : ChargeRequest) (lockToken : string)
  | AtRelease (q : ChargeRequest) (lockToken : string) (out : list wcall)
  | AtStore (out : list wcall)
  | AtRefund (q : RefundRequest)
  | Done (out : list wcall).

Definition key_of (r : Request) : string := idem_key (Header_Get "Idempotency-Key" r).

Definition keyed (r : Request) : bool :=
  bool_decide (r_Method r = "POST") && negb (bool_decide (Header_Get "Idempotency-Key" r = "")).

Definition stored_code (out : list wcall) : bool :=
  (last_code 0 out =? 200) || (last_code 0 out =? 201).

(** The charge handler has answered. *)
Definition finish (r : Request) (out : list wcall) : stage :=
  if keyed r && stored_code out then AtStore out else Done out.

(** The validation of the charge handler, and of the refund handler. *)
Definition enter (r : Request) : stage :=
  match charge_request r with
  | Err _ => finish r (http_Error "Malformed JSON layout string" 400)
  | Ok req =>
      if bool_decide (cr_UserID req = "") then
        finish r (http_Error "user_id is a mandatory required field" 422)
      else if cr_Amount req <=? 0 then
        finish r (http_Error "transaction amount must be strictly positive" 422)
      else if bool_decide (cr_Currency req <> "USD") && bool_decide (cr_Currency req <> "INR") then
        finish r (http_Error "Invalid currency. Only USD and INR are supported." 422)
      else AtLock req
  end.

Definition refund_request (r : Request) : res RefundRequest :=
  Decode refund_fields (mkRefundRequest "") (r_Body r).

Definition enter_refund (r : Request) : stage :=
  match refund_request r with
  | Err _ => Done (http_Error "Malformed JSON layout payload string" 400)
  | Ok req =>
      if bool_decide (rr_PaymentID req = "") then
        Done (http_Error "payment_id is a mandatory tracking field" 422)
      else AtRefund req
  end.

Definition begin (a : endpoint * Request) : stage :=
  match a with
  | (Charges, r) => if keyed r then AtLookup else enter r
  | (Refunds, r) => enter_refund r
  end.

(** The answer for the outcome of the service. *)
Definition payment_answer (payment : res Payment) : list wcall :=
  match payment with
  | Err err => http_Error (Error err) 422
  | Ok payment => json_answer 200 (Payment_json payment)
  end.

Definition lock_refusal (err : error) : list wcall :=
  if errors_Is err ErrLockHeld then
    [CSet "Content-Type" "application/json"; CWriteHeader 409;
     CWrite ("{" +:+ dquote +:+ "error" +:+ dquote +:+ ": " +:+ dquote +:+
       "Transaction processing in progress. Please don't double click." +:+ dquote +:+ "}")]
  else http_Error "Internal concurrency lock malfunction" 500.

Definition is_done (st : stage) : bool := match st with Done _ => true | _ => false end.

(** The request is in the service, whose outcome [resume] takes. *)
Definition in_service (st : stage) : bool :=
  match st with AtCharge _ _ | AtRefund _ => true | _ => false end.

Definition resume (st : stage) (payment : res Payment) : stage :=
  match st with
  | AtCharge q lockToken => AtRelease q lockToken (payment_answer payment)
  | AtRefund _ => Done (payment_answer payment)
  | _ => st
  end.

Section machine.
Context {kv : Type} (E : Env) {PR : PaymentRepository kv} {OR : OutboxRepository kv} {R : Redis kv}.
Implicit Types (w : World kv).

(** A call to Redis. *)
Definition call_step (r : Request) (st : stage) (w : World kv) : stage * World kv :=
  match st with
  | AtLookup =>
      let '(cached, w1) := Get E (key_of r) w in
      match cached with
      | Ok cachedResponse => (Done (cached_answer cachedResponse), w1)
      | Err _ => (enter r, w1)
      end
  | AtLock q =>
      let '(lockToken, w1) := AcquireLock E (cr_UserID q) (5 * Second) w in
      match lockToken with
      | Err err => (finish r (lock_refusal err), w1)
      | Ok lockToken => (AtCharge q lockToken, w1)
      end
  | AtRelease q lockToken out =>
      let '(_, w1) := ReleaseLock E (cr_UserID q) lockToken w in (finish r out, w1)
  | AtStore out =>
      let '(_, w1) := Set_ E (key_of r) (written out) (24 * Hour) w in (Done out, w1)
  | _ => (st, w)
  end.

(** Alone, the service runs from its call to its return. *)
Definition stage_step (r : Request) (st : stage) (w : World kv) : stage * World kv :=
  match st with
  | AtCharge q _ =>
      let '(payment, w1) := ProcessCharge E (cr_UserID q) (cr_Amount q) (cr_Currency q) w in
      (resume st payment, w1)
  | AtRefund q => let '(payment, w1) := ProcessRefund (rr_PaymentID q) w in (resume st payment, w1)
  | _ => call_step r st w
  end.

Fixpoint stages (n : nat) (r : Request) (st : stage) (w : World kv) : stage * World kv :=
  match n with
  | O => (st, w)
  | S n => let '(st1, w1) := stage_step r st w in stages n r st1 w1
  end.

(** What the middleware does with an answer of the handler. *)
Definition store (r : Request) (out : list wcall) w : World kv :=
  if keyed r && stored_code out then (Set_ E (key_of r) (written out) (24 * Hour) w).2 else w.

Lemma stages_done n r out w : stages n r (Done out) w = (Done out, w).
Proof. by induction n. Qed.

Lemma stages_more n r st w out w' :
  stages n r st w = (Done out, w') -> stages (S n) r st w = (Done out, w').
Proof.
  revert st w. induction n as [|n IH]; intros st w H; [by injection H as -> ->|].
  cbn [stages] in H |- *. destruct (stage_step r st w) as [st1 w1]. by apply IH.
Qed.

Lemma stages_finish n r out w : stages (S n) r (finish r out) w = (Done out, store r out w).
Proof.
  unfold finish, store. destruct (keyed r && stored_code out); [|apply stages_done].
  cbn. destruct (Set_ _ _ _ _ _). apply stages_done.
Qed.

Lemma stages_handler r w :
  stages 4 r (enter r) w =
  let '(out, w1) := CreateChargeHandler E r w in (Done out, store r out w1).
Proof.
  unfold enter, CreateChargeHandler, zoom. fold (charge_request r).
  destruct (charge_request r) as [q|e]; [|apply stages_finish].
  case_bool_decide; [apply stages_finish|]. destruct (cr_Amount q <=? 0); [apply stages_finish|].
  destruct (bool_decide _ && bool_decide _); [apply stages_finish|].
  change (part w) with w. cbn [stages stage_step call_step].
  destruct (AcquireLock E _ _ w) as [[tok|err] w1]; cbn [part with_part has_self].
  - cbn [stage_step]. change (id w1) with w1. destruct (ProcessCharge E _ _ _ w1) as [p w2].
    cbn [resume stage_step call_step]. change (id w2) with w2.
    destruct (ReleaseLock E _ _ w2) as [u w3]. destruct p; apply (stages_finish 0).
  - unfold lock_refusal. destruct (errors_Is err ErrLockHeld); apply (stages_finish 2).
Qed.

(** Run alone, the machine is the middleware around the handler. *)
Theorem Handle_staged (r : Request) w :
  let '(out, w') := Handle E (CreateChargeHandler E) r w in
  stages 5 r (begin (Charges, r)) w = (Done out, w').
Proof.
  unfold Handle, begin. destruct (keyed r) eqn:Hk.
  - unfold keyed in Hk. apply andb_true_iff in Hk as [Hp Hn]. rewrite Hp. cbn [negb].
    apply negb_true_iff in Hn. rewrite Hn. unfold zoom. cbn [part with_part has_self].
    cbn [stages stage_step call_step]. fold (key_of r). change (id w) with w.
    destruct (Get E (key_of r) w) as [[v|e] w1]; [by destruct (cached_answer v)|].
    pose proof (stages_handler r w1) as H. cbn [stages] in H. rewrite H.
    destruct (CreateChargeHandler E r w1) as [out w2]. unfold store, keyed. rewrite Hp, Hn. cbn.
    unfold stored_code. destruct ((_ =? 200) || _); [|done]. by destruct (Set_ _ _ _ _ _).
  - pose proof (stages_handler r w) as H. destruct (CreateChargeHandler E r w) as [out w2] eqn:Hrun.
    unfold store in H. rewrite Hk in H. cbn [andb] in H.
    apply stages_more in H. unfold keyed in Hk.
    apply andb_false_iff in Hk as [->|Hk%negb_false_iff]; cbn [negb]; [done|].
    destruct (negb _); [done|]. by rewrite Hk.
Qed.

Theorem refund_staged (r : Request) w :
  let '(out, w') := CreateRefundHandler r w in
  stages 1 r (begin (Refunds, r)) w = (Done out, w').
Proof.
  unfold CreateRefundHandler, begin, enter_refund, zoom. fold (refund_request r).
  destruct (refund_request r) as [q|e]; [|done]. case_bool_decide; [done|].
  change (part w) with w. cbn. destruct (ProcessRefund _ w) as [[p|e] w1]; done.
Qed.
End machine.

(** ** A rush of requests *)

(** Of [ru_redis] the Redis server and the count of calls matter; the tables are those of the shop. *)
Record rush {kv : Type} := mkRush {
  ru_redis : World kv; ru_shop : shop; ru_stages : list stage }.
Arguments rush kv : clear implicits.
Arguments mkRush {kv} _ _ _.

(** What the request asks of the service; a request that fails the validation never gets there. *)
Definition request_of (a : endpoint * Request) : request :=
  match a with
  | (Charges, r) =>
      match charge_request r with
      | Ok q => Charge (cr_UserID q) (cr_Amount q) (cr_Currency q)
      | Err _ => Charge "" 0 ""
      end
  | (Refunds, r) =>
      match refund_request r with Ok q => Refund (rr_PaymentID q) | Err _ => Refund "" end
  end.

(** What a step was: request [i] went to its next stage, a call to the database, traffic elsewhere. *)
Inductive rush_label := Moved (i : nat) | Called (e : shop_event) | Elsewhere.

Definition event_of (l : rush_label) : option shop_event :=
  match l with Called e => Some e | _ => None end.
Definition events (ls : list rush_label) : list shop_event := omap event_of ls.

Definition is_move (l : rush_label) : bool := match l with Moved _ => true | _ => false end.

Section rushes.
Context {kv : Type} (E : Env) {R : Redis kv}.
(** The requests, and what the other clients of Redis may do. *)
Context (reqs : list (endpoint * Request)) (other : World kv -> World kv -> Prop).
Implicit Types (w : World kv) (s : rush kv).

Inductive rush_step : rush kv -> rush_label -> rush kv -> Prop :=
  | rush_call w x ss i a st :
      reqs !! i = Some a -> ss !! i = Some st -> in_service st = false -> is_done st = false ->
      rush_step (mkRush w x ss) (Moved i)
        (mkRush (call_step E a.2 st w).2 x (<[i := (call_step E a.2 st w).1]> ss))
  | rush_database w x ss i st o x' :
      ss !! i = Some st -> in_service st = true -> shop_step x (OfRequest i o) x' ->
      rush_step (mkRush w x ss) (Called (OfRequest i o)) (mkRush (tick w) x' ss)
  | rush_return w x ss i st p c :
      ss !! i = Some st -> in_service st = true ->
      sh_requests x !! i = Some (mkThread (PRet p) c) ->
      rush_step (mkRush w x ss) (Moved i) (mkRush w x (<[i := resume st p]> ss))
  | rush_background w x ss e x' :
      of_request e = false -> shop_step x e x' ->
      rush_step (mkRush w x ss) (Called e) (mkRush (tick w) x' ss)
  | rush_other w w' x ss :
      other w w' -> rush_step (mkRush w x ss) Elsewhere (mkRush w' x ss).

Inductive rush_run s : list rush_label -> rush kv -> Prop :=
  | rush_nil : rush_run s [] s
  | rush_snoc ls s1 l s2 :
      rush_run s ls s1 -> rush_step s1 l s2 -> rush_run s (ls ++ [l]) s2.

(** The requests arrive, with at most [n] polls of the outbox to come. *)
Definition arrived (w : World kv) (d : DB) (n : nat) : rush kv :=
  mkRush w (open_shop E d (request_of <$> reqs) n) (begin <$> reqs).

Lemma events_snoc ls l : events (ls ++ [l]) = events ls ++ option_list (event_of l).
Proof. unfold events. rewrite omap_app. by destruct l. Qed.

(** ** Where a request is, and what its thread has done *)

Definition begun (ls : list shop_event) (i : nat) : Prop := exists o, OfRequest i o ∈ ls.

(** The validated request of a charge. *)
Definition asks (a : endpoint * Request) (q : ChargeRequest) : Prop :=
  a.1 = Charges /\ charge_request a.2 = Ok q /\ valid_charge q.

(** Before the service. *)
Definition waiting_in (a : endpoint * Request) (st : stage) : Prop :=
  match st with AtLookup => a.1 = Charges | AtLock q => asks a q | _ => False end.

Definition refused (out : list wcall) : Prop := In (status (respond out)) [400; 409; 422; 500].

Definition carries (st : stage) (out : list wcall) : Prop := st = AtStore out \/ st = Done out.

(** A request and its thread: not begun, in the service, answered by it, refused before it, or
    answered from the cache. *)
Inductive staged (a : endpoint * Request) (ls : list shop_event) (i : nat) :
    stage -> thread Payment -> Prop :=
  | staged_new st :
      waiting_in a st -> ~ begun ls i -> staged a ls i st (mkThread (prog_of E (request_of a)) Idle)
  | staged_charge q lockToken t : asks a q -> staged a ls i (AtCharge q lockToken) t
  | staged_refund q t : staged a ls i (AtRefund q) t
  | staged_release q lockToken p c :
      staged a ls i (AtRelease q lockToken (payment_answer p)) (mkThread (PRet p) c)
  | staged_answer st p c :
      carries st (payment_answer p) -> staged a ls i st (mkThread (PRet p) c)
  | staged_refused out :
      refused out -> ~ begun ls i ->
      staged a ls i (Done out) (mkThread (prog_of E (request_of a)) Idle)
  | staged_cached v :
      ~ begun ls i ->
      staged a ls i (Done (cached_answer v)) (mkThread (prog_of E (request_of a)) Idle).

Lemma finish_carries r out : carries (finish r out) out.
Proof. unfold finish, carries. destruct (_ && _); auto. Qed.

Lemma finish_refused r out :
  stored_code out = false -> finish r out = Done out.
Proof. unfold finish. intros ->. by rewrite andb_false_r. Qed.

(** The validation lets a request through or refuses it. *)
Lemma enter_cases r :
  (exists out, enter r = Done out /\ refused out) \/
  exists q, enter r = AtLock q /\ charge_request r = Ok q /\ valid_charge q.
Proof.
  assert (forall msg code, code = 400 \/ code = 422 ->
    exists out, finish r (http_Error msg code) = Done out /\ refused out) as Href.
  { intros msg code Hc. exists (http_Error msg code). split.
    - apply finish_refused. by destruct Hc as [->| ->].
    - destruct Hc as [->| ->]; vm_compute; auto. }
  unfold enter. destruct (charge_request r) as [q|e]; [|left; apply Href; auto].
  case_bool_decide as Hu; [left; apply Href; auto|].
  destruct (Z.leb_spec (cr_Amount q) 0); [left; apply Href; auto|].
  destruct (bool_decide _ && bool_decide _) eqn:Hc; [left; apply Href; auto|].
  right. exists q. split; [done|]. split; [done|]. split; [done|]. split; [lia|].
  apply andb_false_iff in Hc as [Hc|Hc]; apply bool_decide_eq_false, dec_stable in Hc; auto.
Qed.

Lemma enter_staged a ls i :
  a.1 = Charges -> ~ begun ls i ->
  staged a ls i (enter a.2) (mkThread (prog_of E (request_of a)) Idle).
Proof.
  intros Ha Hb. destruct (enter_cases a.2) as [(out & -> & Hr)|(q & -> & Hq & Hv)].
  - by apply staged_refused.
  - by apply staged_new.
Qed.

Lemma begin_staged a i : staged a [] i (begin a) (mkThread (prog_of E (request_of a)) Idle).
Proof.
  assert (~ begun [] i) as Hb by (by intros (o & ?%not_elem_of_nil)).
  destruct a as [[] r]; cbn [begin].
  - destruct (keyed r); [by apply staged_new|]. by apply enter_staged.
  - unfold enter_refund. destruct (refund_request r) as [q|e] eqn:Hq.
    + case_bool_decide; [apply staged_refused; [vm_compute; auto|done]|]. apply staged_refund.
    + apply staged_refused; [vm_compute; auto|done].
Qed.

(** A call to Redis. *)
Lemma call_staged a ls i st t w :
  in_service st = false -> staged a ls i st t -> staged a ls i (call_step E a.2 st w).1 t.
Proof.
  intros Hst Hs. destruct Hs as [st Hw Hb|q tok t Ha|q t|q tok p c|st p c Hans|out Hr Hb|v Hb];
    try done; cbn.
  - destruct st as [|q|q tok|q tok out|out|q|out]; try done; cbn.
    + destruct (Get E (key_of a.2) w) as [[v|e] w1]; [by apply staged_cached|by apply enter_staged].
    + destruct (AcquireLock E _ _ w) as [[tok|e] w1]; [by apply staged_charge|]. cbn.
      rewrite finish_refused by (unfold lock_refusal; by destruct (errors_Is e ErrLockHeld)).
      apply staged_refused; [|done]. unfold lock_refusal.
      destruct (errors_Is e ErrLockHeld); vm_compute; auto.
  - destruct (ReleaseLock E _ _ w). apply staged_answer, finish_carries.
  - destruct Hans as [-> | ->]; cbn; [|apply staged_answer; by right].
    destruct (Set_ E _ _ _ w). apply staged_answer. by right.
  - by apply staged_refused.
  - by apply staged_cached.
Qed.

Lemma resume_staged a ls i st p c :
  in_service st = true -> staged a ls i (resume st p) (mkThread (PRet p) c).
Proof. destruct st; try done; intros _; [apply staged_release|]. apply staged_answer. by right. Qed.

(** A label that does not concern the request changes nothing for it. *)
Lemma staged_snoc a ls i st t l :
  (forall o, l <> Some (OfRequest i o)) -> staged a ls i st t -> staged a (ls ++ option_list l) i st t.
Proof.
  intros Hl. assert (~ begun ls i -> ~ begun (ls ++ option_list l) i) as Hb.
  { intros Hn (o & [H|H]%elem_of_app); [by apply Hn; exists o|].
    destruct l as [l|]; cbn in H; [|by apply not_elem_of_nil in H].
    apply list_elem_of_singleton in H as <-. by apply (Hl o). }
  intros []; [apply staged_new|apply staged_charge|apply staged_refund|apply staged_release
    |apply staged_answer|apply staged_refused|apply staged_cached]; auto.
Qed.

Lemma in_service_staged a ls ls' i st t t' :
  in_service st = true -> staged a ls i st t -> staged a ls' i st t'.
Proof.
  intros Hst Hs. destruct st as [|q|q tok|q tok out|out|q|out]; try done; [|apply staged_refund].
  inversion Hs as [st Hw|q' tok' t0 Hq| | |st p c [Hc|Hc]| |]; subst; [done|by apply staged_charge|done..].
Qed.

(** What holds throughout a rush. *)
Record rush_sound (d : DB) (n : nat) (ls : list shop_event) (s : rush kv) : Prop := mkRushSound {
  rs_shop : shop_run (open_shop E d (request_of <$> reqs) n) ls (ru_shop s);
  rs_length : length (ru_stages s) = length reqs;
  rs_stage : forall i st, ru_stages s !! i = Some st -> exists a t,
    reqs !! i = Some a /\ sh_requests (ru_shop s) !! i = Some t /\ staged a ls i st t }.

Lemma arrived_sound w d n : rush_sound d n [] (arrived w d n).
Proof.
  constructor; cbn; [constructor|apply length_fmap|]. intros i st Hst. rewrite list_lookup_fmap in Hst.
  destruct (reqs !! i) as [a|] eqn:Ha; [|done]. injection Hst as <-.
  exists a, (mkThread (prog_of E (request_of a)) Idle). split; [done|]. split; [|apply begin_staged].
  unfold start. by rewrite !list_lookup_fmap, Ha.
Qed.

Lemma rush_step_sound d n ls s l s' :
  rush_sound d n ls s -> rush_step s l s' ->
  rush_sound d n (ls ++ option_list (event_of l)) s'.
Proof.
  intros [Hshop Hlen Hst] Hstep. constructor.
  2:{ rewrite <- Hlen. destruct Hstep; cbn; by rewrite ?length_insert. }
  { destruct Hstep; cbn; rewrite ?app_nil_r; try done; by eapply shop_snoc. }
  destruct Hstep as [w x ss i a st Ha Hi Hin Hd|w x ss i st o x' Hi Hin Hx|w x ss i st p c Hi Hin Hp
    |w x ss e x' He Hx|w w' x ss Ho]; cbn in *.
  - rewrite app_nil_r. intros j st' [(-> & <- & _)|[Hne Hj]]%list_lookup_insert_Some; [|by apply Hst].
    destruct (Hst j st Hi) as (a' & t & Ha' & Ht & Hs). assert (a' = a) as -> by congruence.
    exists a, t. split; [done|]. split; [done|]. by apply call_staged.
  - destruct (request_step _ _ _ _ Hx) as (_ & t & t' & Ht & _ & ->). intros j st' Hj.
    destruct (Hst j st' Hj) as (a & u & Ha & Hu & Hs). exists a. destruct (decide (j = i)) as [->|Hne].
    + exists t'. split; [done|]. split; [rewrite list_lookup_insert_eq; [done|by eapply lookup_lt_Some]|].
      assert (st' = st) as -> by congruence. by eapply in_service_staged.
    + exists u. split; [done|]. split; [by rewrite list_lookup_insert_ne|].
      apply (staged_snoc _ _ _ _ _ (Some (OfRequest i o))); [|done]. by intros o' [= ->].
  - rewrite app_nil_r. intros j st' [(-> & <- & _)|[Hne Hj]]%list_lookup_insert_Some; [|by apply Hst].
    destruct (Hst j st Hi) as (a & t & Ha & Ht & Hs). exists a, (mkThread (PRet p) c).
    split; [done|]. split; [done|]. by apply resume_staged.
  - intros j st Hj. destruct (Hst j st Hj) as (a & t & Ha & Ht & Hs). exists a, t. split; [done|].
    split.
    + destruct e as [i o|i o|]; [done| |].
      * by destruct (poll_call _ _ _ _ Hx) as [-> _].
      * by inversion Hx; subst.
    + apply (staged_snoc _ _ _ _ _ (Some e)); [|done]. by intros o [= ->].
  - rewrite app_nil_r. exact Hst.
Qed.

Lemma rush_run_sound w d n ls s : rush_run (arrived w d n) ls s -> rush_sound d n (events ls) s.
Proof.
  induction 1; [apply arrived_sound|]. rewrite events_snoc. by eapply rush_step_sound.
Qed.

(** In the service is the validated request. *)
Lemma charge_asked d n ls s i q lockToken :
  rush_sound d n ls s -> ru_stages s !! i = Some (AtCharge q lockToken) ->
  valid_charge q /\ exists a, reqs !! i = Some a /\
    request_of a = Charge (cr_UserID q) (cr_Amount q) (cr_Currency q).
Proof.
  intros [_ _ Hst] Hi. destruct (Hst i _ Hi) as (a & t & Ha & _ & Hs).
  inversion Hs as [st Hw|q' tok' t0 (Hc & Hq & Hv)| | |st p c [|]| |]; subst; try done.
  split; [done|]. exists a. split; [done|]. destruct a as [e r]. cbn in Hc, Hq. subst e.
  cbn. by rewrite Hq.
Qed.

(** A commit of a request is one of its calls. *)
Lemma commit_begun i b ls : (i, b) ∈ commits (for_requests ls) -> begun ls i.
Proof.
  intros (l & Hl & Hc)%list_elem_of_omap. apply list_elem_of_omap in Hl as (e & He & Hl).
  destruct e as [j o|j o|]; cbn in Hl.
  - injection Hl as <-. destruct o; try done. injection Hc as -> ->. by eexists.
  - destruct o; try done. by injection Hl as <-.
  - by injection Hl as <-.
Qed.

Lemma not_begun_history h ls i :
  answers_of h = commits (for_requests ls) -> ~ begun ls i -> forall x, (i, x) ∉ h.
Proof.
  intros Hh Hb [p b] Hin. apply Hb, (commit_begun i b). rewrite <- Hh.
  by apply (list_elem_of_fmap_2 (fun x => (x.1, x.2.2)) h (i, (p, b))).
Qed.

(** A request that is not in the service holds no row. *)
Lemma outside_holds_nothing d n ls s h i st t `{!UuidLaws E} :
  rush_sound d n ls s ->
  sound E (request_of <$> reqs) d h (sh_db (ru_shop s)) (sh_requests (ru_shop s)) ->
  ru_stages s !! i = Some st -> sh_requests (ru_shop s) !! i = Some t -> in_service st = false ->
  held_by (t_conn t) = [].
Proof.
  intros [_ _ Hst] Hh Hi Ht Hin. destruct (Hst i st Hi) as (a & t' & _ & Ht' & Hs).
  assert (t' = t) as -> by congruence.
  assert (forall p c, t = mkThread (PRet p) c -> held_by (t_conn t) = []) as Hret.
  { intros p c ->. destruct (so_thread _ _ _ _ _ _ Hh i _ Ht) as (rq & _ & Hrg).
    by destruct (Hrg _ (agree_refl _ _) (so_wf _ _ _ _ _ _ Hh)) as (_ & H & _). }
  by destruct Hs; try done; eapply Hret.
Qed.
End rushes.

(** ** The theorems *)

(** C4: From the HTTP requests to the tables.  However the calls of any number of charge and refund
    requests interleave, with polls, new merchants and other traffic of Redis in between and any
    calls failing: the tables are those of running the committed requests one after the other; and
    a request answered 200 by the service is one of them and carries its payment, one answered from
    the cache asked the service nothing, and one answered 400, 409, 422 or 500 is not among them,
    unless it was the answer of its commit that was lost. *)
Theorem endpoints_serializable {kv} (E : Env) `{!UuidLaws E} {R : Redis kv}
    (reqs : list (endpoint * Request)) (other : World kv -> World kv -> Prop) (w : World kv) (d0 : DB)
    (n : nat) (ls : list rush_label) (s : rush kv) :
  wf E d0 -> rush_run E reqs other (arrived E reqs w d0 n) ls s ->
  exists h, answers_of h = commits (for_requests (events ls)) /\ NoDup (fst <$> h) /\
    serially E (request_of <$> reqs) d0 (payments_of h) (sh_db (ru_shop s)) /\
    wf E (sh_db (ru_shop s)) /\
    forall i out, ru_stages s !! i = Some (Done out) ->
      (exists p, out = json_answer 200 (Payment_json p) /\ (i, (p, true)) ∈ h) \/
      (exists v, out = cached_answer v /\ forall x, (i, x) ∉ h) \/
      (refused out /\ forall p, (i, (p, true)) ∉ h).
Proof.
  intros Hwf Hrun. pose proof (rush_run_sound E reqs other _ _ _ _ _ Hrun) as [Hshop _ Hst].
  pose proof (ss_run _ _ _ _ _ (shop_run_sound E _ _ _ _ _ Hwf Hshop)) as H.
  destruct (process_run_sound E _ _ _ _ _ Hwf H) as (h & Hh & Ha). exists h.
  split; [done|]. split; [apply Hh|]. split; [apply Hh|]. split; [apply Hh|].
  intros i out Hi. destruct (Hst i _ Hi) as (a & t & _ & Ht & Hs).
  inversion Hs as [st Hw| | | |st p c [Hc|Hc]|out' Hr Hb|v Hb]; subst; [done|done| | |].
  - injection Hc as ->. pose proof (sound_answer E _ _ _ _ _ _ _ _ Hh Ht) as Hp.
    destruct p as [p|e]; [left; by exists p|]. right. right. split; [vm_compute; auto|].
    intros p Hin. by specialize (Hp _ _ Hin).
  - right. right. split; [done|]. intros p. by eapply not_begun_history.
  - right. left. exists v. split; [done|]. by eapply not_begun_history.
Qed.


(** The stages still to come. *)
Definition stage_rank (st : stage) : nat :=
  match st with
  | AtLookup => 5 | AtLock _ => 4 | AtCharge _ _ => 3 | AtRelease _ _ _ => 2
  | AtStore _ | AtRefund _ => 1 | Done _ => 0
  end.

Lemma finish_rank r out : (stage_rank (finish r out) <= 1)%nat.
Proof. unfold finish. destruct (_ && _); cbn; lia. Qed.

Lemma enter_rank r : (stage_rank (enter r) <= 4)%nat.
Proof. destruct (enter_cases r) as [(out & -> & _)|(q & -> & _)]; cbn; lia. Qed.

Lemma begin_rank a : (stage_rank (begin a) <= 5)%nat.
Proof.
  destruct a as [[] r]; cbn.
  - destruct (keyed r); [done|]. pose proof (enter_rank r). lia.
  - unfold enter_refund. destruct (refund_request r); [|cbn; lia]. case_bool_decide; cbn; lia.
Qed.

Lemma resume_rank st p : in_service st = true -> (stage_rank (resume st p) < stage_rank st)%nat.
Proof. destruct st; try done; cbn; lia. Qed.

Lemma call_rank {kv} (E : Env) {R : Redis kv} r st (w : World kv) :
  in_service st = false -> is_done st = false ->
  (stage_rank (call_step E r st w).1 < stage_rank st)%nat.
Proof.
  destruct st as [|q|q tok|q tok out|out|q|out]; try done; intros _ _; cbn.
  - destruct (Get E (key_of r) w) as [[v|e] w1]; cbn; [lia|]. pose proof (enter_rank r). lia.
  - destruct (AcquireLock E _ _ w) as [[tok|e] w1]; cbn; [lia|].
    pose proof (finish_rank r (lock_refusal e)). lia.
  - destruct (ReleaseLock E _ _ w). cbn. pose proof (finish_rank r out). lia.
  - destruct (Set_ E _ _ _ w). cbn. lia.
Qed.

(** What counts as progress: a request goes to its next stage, or makes a call that does not
    fail, or a poll that holds a row does. *)
Definition progress {kv} (s : rush kv) (l : rush_label) : Prop :=
  match l with
  | Moved _ => True
  | Called (OfRequest _ o) => o <> Lost /\ o <> Committed false
  | Called (OfPoll i o) => o <> Lost /\ o <> Committed false /\
      exists t, sh_polls (ru_shop s) !! i = Some t /\ held_by (t_conn t) <> []
  | Called NewUser | Elsewhere => False
  end.

Section progress_facts.
Context {kv : Type} (E : Env) `{!UuidLaws E} {R : Redis kv}.
Context (reqs : list (endpoint * Request)) (other : World kv -> World kv -> Prop).
Context (d0 : DB) (n : nat) (ls : list shop_event) (s : rush kv) (h : list (nat * (Payment * bool))).
Context (Hr : rush_sound E reqs d0 n ls s).
Context (Hs : shop_sound E (request_of <$> reqs) d0 ls (ru_shop s)).
Context (Hh : sound E (request_of <$> reqs) d0 h (sh_db (ru_shop s)) (sh_requests (ru_shop s))).

#[local] Abbreviation moves_on := (exists l s', rush_step E reqs other s l s' /\ progress s l).

(** Outside the service, or back from it. *)
Lemma stage_moves_on i st t :
  ru_stages s !! i = Some st -> sh_requests (ru_shop s) !! i = Some t -> is_done st = false ->
  in_service st = false \/ answered t = true -> moves_on.
Proof using Hr.
  clear Hs Hh. intros Hi Ht Hd Hcase. exists (Moved i). destruct (in_service st) eqn:Hin.
  - destruct Hcase as [?|Ha]; [done|]. destruct s as [w x ss], t as [[p| | | | | | | |] c]; try done.
    eexists. split; [by eapply rush_return|done].
  - destruct (rs_stage _ _ _ _ _ _ Hr i st Hi) as (a & _ & Ha & _). destruct s as [w x ss].
    eexists. split; [by eapply rush_call|done].
Qed.

Lemma holding_poll_moves_on j p :
  sh_polls (ru_shop s) !! j = Some p -> held_by (t_conn p) <> [] -> moves_on.
Proof using UuidLaws0 Hs Hh.
  clear Hr. intros Hj Hheld. pose proof (ss_poll _ _ _ _ _ Hs j p Hj) as Hok.
  pose proof (so_wf _ _ _ _ _ _ Hh) as Hwf. destruct (answered p) eqn:Hpa.
  { by destruct Hheld; eapply (answered_poll_holds E). }
  destruct (poll_goes_on E (all_locked (sh_requests (ru_shop s)) ++ locked_by_others j (sh_polls (ru_shop s)))
    _ _ _ _ Hwf Hok Hpa) as (o & d' & p' & Hstep & Ho).
  destruct s as [w [d ts ps] ss]. exists (Called (OfPoll j o)). eexists.
  split; [eapply rush_background; [done|by eapply shop_poll]|].
  split; [apply Ho|]. split; [apply Ho|]. by exists p.
Qed.

(** In the service, while no poll holds a row. *)
Lemma service_moves_on i st t u :
  (forall t k, t ∈ sh_requests (ru_shop s) -> k ∈ held_by (t_conn t) -> row_uuid k <> u) ->
  all_locked (sh_polls (ru_shop s)) = [] ->
  ru_stages s !! i = Some st -> in_service st = true ->
  sh_requests (ru_shop s) !! i = Some t -> answered t = false -> moves_on.
Proof using UuidLaws0 Hr Hh.
  clear Hs. intros Hu Hnone Hi Hin Ht Ha.
  destruct (waits_end_at E _ _ _ _ _ u Hh ltac:(intros j t' k Hj; apply Hu; by eapply list_elem_of_lookup_2)
    3 i t Ht Ha ltac:(by left)) as (j & t' & Hj & Hor & Hgo).
  destruct (request_goes_on (ru_shop s) j Hnone Hgo) as (o & x' & Hx & Ho).
  assert (exists st', ru_stages s !! j = Some st' /\ in_service st' = true) as (st' & Hst' & Hin').
  { destruct Hor as [->|Hheld]; [by exists st|].
    destruct (so_thread _ _ _ _ _ _ Hh j t' Hj) as (rq & Hrq & _).
    apply lookup_lt_Some in Hrq. rewrite length_fmap, <- (rs_length _ _ _ _ _ _ Hr) in Hrq.
    apply lookup_lt_is_Some in Hrq as [st' Hst']. exists st'. split; [done|].
    destruct (in_service st') eqn:Hin'; [done|]. destruct Hheld. by eapply (outside_holds_nothing E). }
  destruct s as [w x ss]. exists (Called (OfRequest j o)). eexists. by split; [eapply rush_database|].
Qed.
End progress_facts.

(** A move lowers the rank of one stage, any other step keeps the stages. *)
Lemma rush_rank {kv} (E : Env) {R : Redis kv} reqs other (s s' : rush kv) l :
  rush_step E reqs other s l s' ->
  ((if is_move l then 1 else 0) + sum_list (stage_rank <$> ru_stages s') <=
    sum_list (stage_rank <$> ru_stages s))%nat.
Proof.
  assert (forall (ss : list stage) i st st', ss !! i = Some st -> (stage_rank st' < stage_rank st)%nat ->
    (1 + sum_list (stage_rank <$> <[i := st']> ss) <= sum_list (stage_rank <$> ss))%nat) as Hins.
  { intros ss i st st' Hi Hlt. rewrite list_fmap_insert.
    pose proof (sum_insert (stage_rank <$> ss) i (stage_rank st) (stage_rank st')) as H.
    rewrite list_lookup_fmap, Hi in H. specialize (H eq_refl). lia. }
  intros []; cbn; try lia; eapply Hins; [done|by apply call_rank|done|by apply resume_rank].
Qed.

Lemma rush_run_rank {kv} (E : Env) {R : Redis kv} reqs other (s s' : rush kv) ls :
  rush_run E reqs other s ls s' ->
  (length (List.filter is_move ls) + sum_list (stage_rank <$> ru_stages s') <=
    sum_list (stage_rank <$> ru_stages s))%nat.
Proof.
  induction 1 as [|ls s1 l s2 _ IH Hstep]; [done|]. rewrite List.filter_app, length_app.
  pose proof (rush_rank _ _ _ _ _ _ Hstep). cbn. destruct (is_move l); cbn in *; lia.
Qed.

Lemma begin_ranks reqs : (sum_list (stage_rank <$> (begin <$> reqs)) <= 5 * length reqs)%nat.
Proof. induction reqs as [|a reqs IH]; [done|]. pose proof (begin_rank a). cbn in *. lia. Qed.

(** C23: Every request comes to its answer.  In any state of a rush, as long as a request has no answer,
    some request, or a poll that holds a row, can make progress (given, as in Concurrent.v, an
    identifier no open transaction has inserted); and no rush has more than eight calls to the
    database and five changes of stage per request. *)
Theorem endpoints_progress {kv} (E : Env) `{!UuidLaws E} {R : Redis kv}
    (reqs : list (endpoint * Request)) (other : World kv -> World kv -> Prop) (w : World kv) (d0 : DB)
    (n : nat) (ls : list rush_label) (s : rush kv) (u : uuid) :
  wf E d0 -> rush_run E reqs other (arrived E reqs w d0 n) ls s ->
  (forall t k, t ∈ sh_requests (ru_shop s) -> k ∈ held_by (t_conn t) -> row_uuid k <> u) ->
  (forallb is_done (ru_stages s) = true \/ exists l s', rush_step E reqs other s l s' /\ progress s l) /\
  (length (List.filter of_request (events ls)) <= 8 * length reqs)%nat /\
  (length (List.filter is_move ls) <= 5 * length reqs)%nat.
Proof.
  intros Hwf Hrun Hu. pose proof (rush_run_sound E reqs other _ _ _ _ _ Hrun) as Hr.
  pose proof (shop_run_sound E _ _ _ _ _ Hwf (rs_shop _ _ _ _ _ _ Hr)) as Hs.
  split; [|split].
  - destruct (process_run_sound E _ _ _ _ _ Hwf (ss_run _ _ _ _ _ Hs)) as (h & Hh & _).
    destruct (forallb is_done (ru_stages s)) eqn:Hall; [by left|right].
    apply forallb_exists_false in Hall as (i & st & Hi & Hd).
    destruct (rs_stage _ _ _ _ _ _ Hr i st Hi) as (a & t & _ & Ht & _).
    destruct (in_service st) eqn:Hin; [|eapply stage_moves_on; [done..|by left]].
    destruct (answered t) eqn:Ha; [eapply stage_moves_on; [done..|by right]|].
    destruct (all_locked (sh_polls (ru_shop s))) as [|k ks] eqn:Hpolls; [by eapply (service_moves_on E)|].
    assert (k ∈ all_locked (sh_polls (ru_shop s))) as (j & p & Hj & Hk)%elem_of_locked
      by (rewrite Hpolls; by left).
    eapply (holding_poll_moves_on E); [done|done|exact Hj|]. intros Hnil. rewrite Hnil in Hk.
    by apply not_elem_of_nil in Hk.
  - destruct (run_bounded E _ _ _ _ _ (ss_run _ _ _ _ _ Hs)) as (ns & _ & H).
    rewrite length_fmap, thread_steps_requests in H. lia.
  - pose proof (rush_run_rank _ _ _ _ _ _ Hrun) as H. pose proof (begin_ranks reqs). cbn in H. lia.
Qed.

(** ** A scheduler that runs without failures *)
Section schedule.
Context {kv : Type} (E : Env) {R : Redis kv} (reqs : list (endpoint * Request)).
Context (other : World kv -> World kv -> Prop).
Implicit Types (s : rush kv).

(** The next step of request [i], if it need not wait; as in [drive_thread] the server of the
    database draws [u] and its clocks say [z]. *)
Definition rush_do (x : nat * uuid * Z) s : option (rush_label * rush kv) :=
  let '(i, u, z) := x in
  a ← reqs !! i;
  st ← ru_stages s !! i;
  t ← sh_requests (ru_shop s) !! i;
  if is_done st then None
  else if in_service st then
    match t_prog t with
    | PRet p => Some (Moved i, mkRush (ru_redis s) (ru_shop s) (<[i := resume st p]> (ru_stages s)))
    | _ => y ← drive_shop (ru_shop s) (inl i, u, z);
           Some (Called y.1, mkRush (tick (ru_redis s)) y.2 (ru_stages s))
    end
  else
    let '(st', w) := call_step E a.2 st (ru_redis s) in
    Some (Moved i, mkRush w (ru_shop s) (<[i := st']> (ru_stages s))).

Lemma drive_shop_request (x : shop) i u z l x' :
  drive_shop x (inl i, u, z) = Some (l, x') -> exists o, l = OfRequest i o.
Proof.
  cbn. destruct (sh_requests x !! i) as [t|]; cbn; [|done].
  destruct (drive_thread _ _ _ _ _); cbn; [|done]. intros [= <- <-]. by eexists.
Qed.

#[local] Arguments drive_shop : simpl never.

Lemma rush_do_ok x s l s' : rush_do x s = Some (l, s') -> rush_step E reqs other s l s'.
Proof.
  destruct s as [w x0 ss], x as [[i u] z]. unfold rush_do. cbn [ru_redis ru_shop ru_stages].
  destruct (reqs !! i) as [a|] eqn:Ha; cbn; [|done]. destruct (ss !! i) as [st|] eqn:Hi; cbn; [|done].
  destruct (sh_requests x0 !! i) as [t|] eqn:Ht; cbn; [|done].
  destruct (is_done st) eqn:Hd; [done|]. destruct (in_service st) eqn:Hin.
  2:{ pose proof (rush_call E reqs other w x0 ss i a st Ha Hi Hin Hd) as H.
      destruct (call_step E a.2 st w) as [st' w']. intros [= <- <-]. exact H. }
  assert (forall y, drive_shop x0 (inl i, u, z) = Some y ->
    rush_step E reqs other (mkRush w x0 ss) (Called y.1) (mkRush (tick w) y.2 ss)) as Hdb.
  { intros [e x1] Hy. destruct (drive_shop_request _ _ _ _ _ _ Hy) as [o ->].
    eapply rush_database; [done|done|]. by eapply drive_shop_ok. }
  destruct t as [p c]. cbn [t_prog].
  destruct p; try (destruct (drive_shop x0 _) as [y|]; cbn; [intros [= <- <-]; by apply Hdb|done]).
  intros [= <- <-]. by eapply rush_return.
Qed.

Definition rush_all (xs : list (nat * uuid * Z)) s : list rush_label * rush kv :=
  foldl (fun a x => match rush_do x a.2 with
                    | Some (l, s') => (a.1 ++ [l], s')
                    | None => a
                    end) ([], s) xs.

Lemma rush_all_ok xs s : rush_run E reqs other s (rush_all xs s).1 (rush_all xs s).2.
Proof.
  unfold rush_all. set (f := fun a x => _).
  assert (forall a, rush_run E reqs other s a.1 a.2 ->
    rush_run E reqs other s (foldl f a xs).1 (foldl f a xs).2) as H.
  { induction xs as [|x xs IH]; intros a Ha; [done|]. cbn [foldl]. apply IH. unfold f.
    destruct (rush_do x a.2) as [[l s']|] eqn:Hd; [|done].
    eapply rush_snoc; [done|]. by eapply rush_do_ok. }
  apply H, rush_nil.
Qed.
End schedule.

(** Request [i] as often as it occurs in the list. *)
Definition turns (order : list nat) : list (nat * uuid * Z) :=
  imap (fun n i => (i, count_uuid (n + 1), Z.of_nat n)) order.

Definition statuses (ss : list stage) : list (option Z) :=
  (fun st => match st with Done out => Some (status (respond out)) | _ => None end) <$> ss.

(** ** Witnesses: a double click and a refund

    The second charge of the merchant comes while the first is in its transaction; then the refund of
    the payment. *)
Definition gate : World mem := new_world ∅.
Definition morning : list (endpoint * Request) :=
  [(Charges, charge_post 300); (Charges, charge_post 500);
   (Refunds, refund_post (uuid_text (count_uuid 6)))].
Definition morning_rush : list rush_label * rush mem :=
  rush_all env0 morning (turns ([0; 0; 0; 1] ++ replicate 10 0 ++ replicate 10 2)%nat)
    (arrived env0 morning gate shop_db 0).

Lemma endpoints_serializable_witness :
  statuses (ru_stages morning_rush.2) = [Some 200; Some 409; Some 200] /\
  exists p p', serially env0 (request_of <$> morning) shop_db [(0%nat, p); (2%nat, p')]
    (sh_db (ru_shop morning_rush.2)).
Proof.
  assert (statuses (ru_stages morning_rush.2) = [Some 200; Some 409; Some 200]) as H1 by (by vm_compute).
  assert (commits (for_requests (events morning_rush.1)) = [(0%nat, true); (2%nat, true)]) as H2 by (by vm_compute).
  split; [exact H1|]. revert H2. unfold morning_rush.
  match goal with |- context [rush_all ?E ?r ?x ?s] =>
    pose proof (rush_all_ok E r (fun _ _ => False) x s) as Hrun; revert Hrun; generalize (rush_all E r x s)
  end.
  intros [ls s] Hrun H2. cbn [fst snd] in *.
  destruct (endpoints_serializable env0 morning _ gate shop_db 0 ls s shop_db_wf Hrun)
    as (h & Hh & _ & Hs & _).
  rewrite H2 in Hh. destruct h as [|[i [p b]] [|[j [p' b']] [|]]]; try (exfalso; clear -Hh; discriminate).
  injection Hh as -> -> -> ->. by exists p, p'.
Defined.

(** Two charges of one merchant in a row: the second finds the wallet too low. *)
Definition spree : list (endpoint * Request) := [(Charges, charge_post 300); (Charges, charge_post 800)].
Definition spree_rush : list rush_label * rush mem :=
  rush_all env0 spree (turns (replicate 14 0 ++ replicate 14 1)%nat)
    (arrived env0 spree gate shop_db 0).


(** In the middle, the second charge has been refused and the first waits in its transaction. *)
Definition mid_rush : list rush_label * rush mem :=
  rush_all env0 morning (turns [0; 0; 0; 1]%nat) (arrived env0 morning gate shop_db 0).

Lemma endpoints_progress_witness :
  forallb is_done (ru_stages mid_rush.2) = false /\
  (exists l s', rush_step env0 morning (fun _ _ => False) mid_rush.2 l s' /\ progress mid_rush.2 l) /\
  (length (List.filter is_move mid_rush.1) <= 15)%nat.
Proof.
  assert (forallb is_done (ru_stages mid_rush.2) = false) as H1 by (by vm_compute).
  assert (forallb (fun t => forallb (fun k => negb (bool_decide (row_uuid k = count_uuid 99)))
    (held_by (t_conn t))) (sh_requests (ru_shop mid_rush.2)) = true) as H2 by (by vm_compute).
  split; [exact H1|]. revert H1 H2. unfold mid_rush.
  match goal with |- context [rush_all ?E ?r ?x ?s] =>
    pose proof (rush_all_ok E r (fun _ _ => False) x s) as Hrun; revert Hrun; generalize (rush_all E r x s)
  end.
  intros [ls s] Hrun H1 H2. cbn [fst snd] in *.
  destruct (endpoints_progress env0 morning _ gate shop_db 0 ls s (count_uuid 99) shop_db_wf Hrun)
    as ([Hall|H] & _ & Hn); [|congruence|by split].
  intros t k Ht Hk. rewrite forallb_forall in H2. specialize (H2 t ltac:(by apply list_elem_of_In)).
  rewrite forallb_forall in H2. specialize (H2 k ltac:(by apply list_elem_of_In)).
  by apply negb_true_iff, bool_decide_eq_false in H2.
Defined.
