(* ===== verification/UserLock.v ===== *)
(** * The lock of the user, at the endpoints

    In a rush of Endpoints.v every charge passes [AcquireLock] on its user and ends with
    [ReleaseLock].  Here the operations of Lock.v are followed through the whole rush: which keys of
    Redis a call of a request writes, that two requests never hold the same token, and so that a
    charge is alone in its section as long as its lock lives ([charges_exclusive]). *)
From S2P Require Import Prelude Json GoTime Database Hex PaymentRepo OutboxRepo PaymentService.
From S2P Require Import OutboxWorker Ledger Concurrent Pollers Redis Lock Http Idempotency.
From S2P Require Import PaymentHandler Endpoints.

(** ** The keys of Redis that a request writes *)

Definition touches (r : Request) (st : stage) : option string :=
  match st with
  | AtLock q | AtRelease q _ _ => Some (lock_key (cr_UserID q))
  | AtStore _ => Some (key_of r)
  | _ => None
  end.

Definition token_of (st : stage) : option string :=
  match st with AtCharge _ tok | AtRelease _ tok _ => Some tok | _ => None end.

(** The request holds, as far as it knows, the lock of the user. *)
Definition in_section (u : string) (st : stage) : bool :=
  match st with AtCharge q _ | AtRelease q _ _ => bool_decide (cr_UserID q = u) | _ => false end.

Definition over (st : stage) : bool := match st with AtStore _ | Done _ => true | _ => false end.

Lemma idem_not_lock k u : idem_key k <> lock_key u.
Proof. done. Qed.

Lemma enter_outside r : token_of (enter r) = None.
Proof. by destruct (enter_cases r) as [(out & -> & _)|(q & -> & _)]. Qed.

Lemma finish_over r out : over (finish r out) = true.
Proof. unfold finish. by destruct (_ && _). Qed.

Lemma over_no_token st : over st = true -> token_of st = None.
Proof. by destruct st. Qed.

Lemma over_outside u st : over st = true -> in_section u st = false.
Proof. by destruct st. Qed.

Lemma section_token u st : in_section u st = true -> exists tok, token_of st = Some tok.
Proof. destruct st; try done; intros _; by eexists. Qed.

Section keys.
Context {kv : Type} (E : Env) {R : Redis kv} {RL : RedisLaws R} {KM : KvMono E}.
Implicit Types (w : World kv) (s : rush kv).

Lemma call_spares key r st w : touches r st <> Some key -> spares E key w (call_step E r st w).2.
Proof.
  intros Hk. destruct st as [|q|q tok|q tok out|out|q|out]; cbn; cbn in Hk; try reflexivity.
  - pose proof (Get_any E (key_of r) w) as [Htk Hr]. destruct (Get E (key_of r) w) as [[v|e] w1];
      cbn in *; (split; [lia|]); intros t Ht; by apply Hr.
  - pose proof (AcquireLock_spares E key (cr_UserID q) (5 * Second) w ltac:(congruence)) as H.
    by destruct (AcquireLock E _ _ w) as [[tok|e] w1].
  - pose proof (ReleaseLock_spares E key (cr_UserID q) tok w ltac:(congruence)) as H.
    by destruct (ReleaseLock E _ _ w) as [x w1].
  - pose proof (Set_any E (key_of r) (written out) (24 * Hour) w) as H.
    destruct (Set_ E _ _ _ w) as [x w1]. destruct H as [Htk H]. cbn. split; [lia|]. intros t Ht.
    destruct H as [[_ H]|[_ ->]]; [|done]. apply H; [congruence|]. by rewrite Htk in *.
Qed.

Lemma call_ticks r st w : (w_ticks w <= w_ticks (call_step E r st w).2)%nat.
Proof. apply (call_spares "" r st w). by destruct st. Qed.

Lemma tick_spares key w : spares E key w (tick w).
Proof. by split; [simpl; lia|]. Qed.

(** A lock token is new. *)
Lemma call_token r st w tok :
  in_service st = false -> token_of (call_step E r st w).1 = Some tok ->
  exists q, st = AtLock q /\ AcquireLock E (cr_UserID q) (5 * Second) w = (Ok tok, (call_step E r st w).2).
Proof.
  destruct st as [|q|q tk|q tk out|out|q|out]; try done; intros _; cbn.
  - destruct (Get E (key_of r) w) as [[v|e] w1]; cbn; [done|]. by rewrite enter_outside.
  - destruct (AcquireLock E _ _ w) as [[tk|e] w1] eqn:Ha; cbn.
    + intros [= ->]. by exists q.
    + by rewrite (over_no_token _ (finish_over _ _)).
  - destruct (ReleaseLock E _ _ w). cbn. by rewrite (over_no_token _ (finish_over _ _)).
  - by destruct (Set_ E _ _ _ w).
Qed.

Lemma call_section r st w u :
  in_section u (call_step E r st w).1 = true -> in_section u st = false ->
  exists q tok, st = AtLock q /\ cr_UserID q = u /\ (call_step E r st w).1 = AtCharge q tok /\
    AcquireLock E u (5 * Second) w = (Ok tok, (call_step E r st w).2).
Proof.
  intros Hs Hn. destruct (in_service st) eqn:Hin; [by destruct st; cbn in *; congruence|].
  destruct (section_token _ _ Hs) as [tok Htok].
  destruct (call_token r st w tok Hin Htok) as (q & -> & Ha). exists q, tok. split; [done|].
  revert Hs Ha. cbn. destruct (AcquireLock E (cr_UserID q) _ w) as [[tk|e] w1] eqn:Hacq; cbn.
  - intros Hq%bool_decide_eq_true. subst u. rewrite Hacq. by intros [= ->].
  - by rewrite (over_outside _ _ (finish_over _ _)).
Qed.

(** ** The tokens are different while the clock gives different readings *)
Context (reqs : list (endpoint * Request)) (other : World kv -> World kv -> Prop).
Context (Hother : forall u w w', other w w' -> spares E (lock_key u) w w').

Lemma rush_ticks s l s' :
  rush_step E reqs other s l s' -> (w_ticks (ru_redis s) <= w_ticks (ru_redis s'))%nat.
Proof using All.
  intros [w x ss i a st Ha Hi Hin Hd| | | |w w' x ss Ho]; cbn; try lia; [apply call_ticks|].
  apply (Hother "" _ _ Ho).
Qed.

(** The clock of the process up to a tick: distinct readings, in years of four digits. *)
Definition distinct_readings (N : nat) : Prop :=
  (forall n, (n < N)%nat -> year_ok (clock E n) = true) /\
  forall m n, (m < n < N)%nat -> clock E m <> clock E n.

Record tokens_ok s : Prop := mkTokensOk {
  to_past : forall i st tok, ru_stages s !! i = Some st -> token_of st = Some tok ->
    exists n, (n < w_ticks (ru_redis s))%nat /\ tok = RFC3339Nano (clock E n);
  to_apart : forall i j st st' tok, i <> j -> ru_stages s !! i = Some st ->
    ru_stages s !! j = Some st' -> token_of st = Some tok -> token_of st' <> Some tok }.

Lemma tokens_arrived w d n : tokens_ok (arrived E reqs w d n).
Proof.
  assert (forall i st, ru_stages (arrived E reqs w d n) !! i = Some st -> token_of st = None) as Hnone.
  { intros i st. cbn. rewrite list_lookup_fmap. destruct (reqs !! i) as [[[] r]|]; [| |done];
      cbn; intros [= <-].
    - destruct (keyed r); [done|apply enter_outside].
    - unfold enter_refund. destruct (refund_request r); [|done]. by case_bool_decide. }
  constructor.
  - intros i st tok Hi. by rewrite (Hnone i st Hi).
  - intros i j st st' tok _ Hi. by rewrite (Hnone i st Hi).
Qed.

(** When no request gets a new token. *)
Lemma tokens_kept s s' :
  tokens_ok s -> (w_ticks (ru_redis s) <= w_ticks (ru_redis s'))%nat ->
  (forall i st tok, ru_stages s' !! i = Some st -> token_of st = Some tok ->
     exists st0, ru_stages s !! i = Some st0 /\ token_of st0 = Some tok) ->
  tokens_ok s'.
Proof.
  intros [Hp Ha] Ht Hold. constructor.
  - intros i st tok Hi Htok. destruct (Hold i st tok Hi Htok) as (st0 & Hi0 & Htok0).
    destruct (Hp i st0 tok Hi0 Htok0) as (n & Hn & ->). exists n. split; [lia|done].
  - intros i j st st' tok Hne Hi Hj Htok Htok'.
    destruct (Hold i st tok Hi Htok) as (st0 & Hi0 & Htok0).
    destruct (Hold j st' tok Hj Htok') as (st1 & Hj0 & Htok1). by apply (Ha i j st0 st1 tok).
Qed.

Lemma tokens_step s l s' :
  tokens_ok s -> rush_step E reqs other s l s' -> distinct_readings (w_ticks (ru_redis s')) ->
  tokens_ok s'.
Proof using All.
  intros Hok Hstep [Hy Hdist]. pose proof (rush_ticks _ _ _ Hstep) as Ht.
  destruct Hstep as [w x ss i a st Ha Hi Hin Hd|w x ss i st o x' Hi Hin Hx|w x ss i st p c Hi Hin Hp
    |w x ss l x' Hl Hx|w w' x ss Ho]; cbn [ru_redis] in *.
  1:{ destruct (token_of (call_step E a.2 st w).1) as [tok|] eqn:Htok.
    - destruct (call_token _ _ _ _ Hin Htok) as (q & -> & Hacq).
      destruct (AcquireLock_ok E _ _ _ _ _ Hacq) as (-> & Htk & _). destruct Hok as [Hpast Hap].
      assert (forall j st', j <> i -> ss !! j = Some st' ->
        token_of st' <> Some (RFC3339Nano (clock E (w_ticks w)))) as Hnew.
      { intros j st' Hne Hj Htok'. destruct (Hpast j st' _ Hj Htok') as (n & Hn & Heq). cbn in Hn.
        apply RFC3339Nano_inj in Heq; [|apply Hy; lia..]. apply (Hdist n (w_ticks w)); [lia|done]. }
      constructor; cbn [ru_stages ru_redis].
      + intros j st' tok [(<- & <- & _)|[Hne Hj]]%list_lookup_insert_Some Htok'.
        * exists (w_ticks w). split; [lia|]. congruence.
        * destruct (Hpast j st' tok Hj Htok') as (n & Hn & ->). exists n. cbn in Hn. split; [lia|done].
      + intros j k st1 st2 tok Hjk [(<- & <- & _)|[Hne Hj]]%list_lookup_insert_Some
          [(<- & <- & _)|[Hne' Hk]]%list_lookup_insert_Some H1 H2; [done| | |by apply (Hap j k st1 st2 tok)].
        * rewrite Htok in H1. injection H1 as <-. by apply (Hnew k st2).
        * rewrite Htok in H2. injection H2 as <-. by apply (Hnew j st1).
    - eapply tokens_kept; [exact Hok|exact Ht|]. cbn.
      intros j st' tok [(<- & <- & _)|[Hne Hj]]%list_lookup_insert_Some H; [congruence|by exists st']. }
  2:{ eapply tokens_kept; [exact Hok|exact Ht|]. cbn.
    intros j st' tok [(<- & <- & _)|[Hne Hj]]%list_lookup_insert_Some H; [|by exists st'].
    exists st. split; [done|]. by destruct st. }
  all: eapply tokens_kept; [exact Hok|exact Ht|]; cbn; intros j st' tok Hj H; by exists st'.
Qed.

Definition moves s s' : Prop := exists l, rush_step E reqs other s l s'.

Lemma moves_ticks s s' : rtc moves s s' -> (w_ticks (ru_redis s) <= w_ticks (ru_redis s'))%nat.
Proof using All. induction 1 as [|s s1 s' [l Hs] _ IH]; [done|]. pose proof (rush_ticks _ _ _ Hs). lia. Qed.

Lemma distinct_before N M : distinct_readings N -> (M <= N)%nat -> distinct_readings M.
Proof. intros [Hy Hd] HM. split; [intros n Hn; apply Hy; lia|intros m n Hn; apply Hd; lia]. Qed.

Lemma tokens_moves s s' :
  rtc moves s s' -> tokens_ok s -> distinct_readings (w_ticks (ru_redis s')) -> tokens_ok s'.
Proof using All.
  induction 1 as [|s s1 s' [l Hs] Hrun IH]; [done|]. intros Hok Hd. apply IH; [|done].
  eapply tokens_step; [done..|]. eapply distinct_before; [done|]. by apply moves_ticks.
Qed.

(** ** The lock at the endpoint *)

(** Request [i] keeps the lock of [u] with the token until [deadline], or has left. *)
Definition guarded (u tok : string) (deadline : Z) (i : nat) s : Prop :=
  exists st, ru_stages s !! i = Some st /\
    (over st = true \/
     in_section u st = true /\ token_of st = Some tok /\ holds_lock E u tok deadline (ru_redis s)).

Lemma spared_holds u tok dl w w' :
  spares E (lock_key u) w w' -> holds_lock E u tok dl w -> holds_lock E u tok dl w'.
Proof using All. intros H. eapply (lock_step_keeps E), step_other. exact H. Qed.

Lemma held_call u tok dl r st w :
  holds_lock E u tok dl w -> token_of st <> Some tok ->
  holds_lock E u tok dl (call_step E r st w).2.
Proof using All.
  intros Hh Htok. destruct st as [|q|q tk|q tk out|out|q|out]; try exact Hh.
  - eapply spared_holds; [by apply call_spares|done].
  - pose proof (acquire_keeps E u tok dl (cr_UserID q) (5 * Second) w Hh) as H. cbn.
    by destruct (AcquireLock E _ _ w) as [[tk|e] w1].
  - pose proof (release_keeps E u tok dl (cr_UserID q) tk w) as H. cbn.
    destruct (ReleaseLock E _ _ w) as [x w1]. apply H; [|done]. cbn in Htok. congruence.
  - eapply spared_holds; [by apply call_spares|done].
Qed.

Lemma guarded_step u tok dl i s l s' :
  tokens_ok s -> guarded u tok dl i s -> rush_step E reqs other s l s' -> guarded u tok dl i s'.
Proof using All.
  intros Hok (st & Hst & Hg) Hstep.
  destruct Hstep as [w x ss j a st' Ha Hj Hin Hd|w x ss j st' o x' Hj Hin Hx|w x ss j st' p c Hj Hin Hp
    |w x ss l x' Hl Hx|w w' x ss Ho]; cbn in Hst; unfold guarded; cbn [ru_stages ru_redis] in *.
  - destruct (decide (j = i)) as [->|Hne].
    + assert (st' = st) as -> by congruence. eexists.
      rewrite list_lookup_insert_eq by (by eapply lookup_lt_Some). split; [done|]. left.
      destruct st as [|q|q tk|q tk out|out|q|out]; try done; cbn;
        [by destruct Hg as [|(? & _)]|by destruct Hg as [|(? & _)]| |].
      * destruct (ReleaseLock E _ _ w). apply finish_over.
      * by destruct (Set_ E _ _ _ w).
    + exists st. rewrite list_lookup_insert_ne by done. split; [done|].
      destruct Hg as [?|(Hsec & Htok & Hh)]; [by left|right]. split; [done|]. split; [done|].
      apply held_call; [done|]. by apply (to_apart _ Hok i j st st').
  - exists st. split; [done|]. destruct Hg as [?|(Hsec & Htok & Hh)]; [by left|right].
    split; [done|]. split; [done|]. eapply spared_holds; [apply tick_spares|done].
  - destruct (decide (j = i)) as [->|Hne].
    + assert (st' = st) as -> by congruence. eexists.
      rewrite list_lookup_insert_eq by (by eapply lookup_lt_Some). split; [done|].
      by destruct Hg as [?|(Hsec & Htok & Hh)]; destruct st; try done; right.
    + exists st. by rewrite list_lookup_insert_ne.
  - exists st. split; [done|]. destruct Hg as [?|(Hsec & Htok & Hh)]; [by left|right].
    split; [done|]. split; [done|]. eapply spared_holds; [apply tick_spares|done].
  - exists st. split; [done|]. destruct Hg as [?|(Hsec & Htok & Hh)]; [by left|right].
    split; [done|]. split; [done|]. eapply spared_holds; [by apply Hother|done].
Qed.

Lemma guarded_moves u tok dl i s s' :
  rtc moves s s' -> tokens_ok s -> distinct_readings (w_ticks (ru_redis s')) ->
  guarded u tok dl i s -> guarded u tok dl i s'.
Proof using All.
  induction 1 as [|s s1 s' [l Hs] Hrun IH]; [done|]. intros Hok Hd Hg. apply IH; [|done|].
  - eapply tokens_step; [done..|]. eapply distinct_before; [done|]. by apply moves_ticks.
  - by eapply guarded_step.
Qed.

Definition holds_section (u : string) s (i : nat) : Prop :=
  exists st, ru_stages s !! i = Some st /\ in_section u st = true.

(** The way into the section is the lock. *)
Lemma section_entered u i s s' :
  moves s s' -> ~ holds_section u s i -> holds_section u s' i ->
  exists tok q, AcquireLock E u (5 * Second) (ru_redis s) = (Ok tok, ru_redis s') /\
    ru_stages s' !! i = Some (AtCharge q tok) /\ cr_UserID q = u.
Proof.
  intros [l Hstep] Hn (st & Hst & Hsec).
  assert (forall st0, ru_stages s !! i = Some st0 -> in_section u st0 = false) as Hout.
  { intros st0 H0. destruct (in_section u st0) eqn:?; [|done]. by destruct Hn; exists st0. }
  destruct Hstep as [w x ss j a st' Ha Hj Hin Hd|w x ss j st' o x' Hj Hin Hx|w x ss j st' p c Hj Hin Hp
    |w x ss l x' Hl Hx|w w' x ss Ho]; cbn in *; try (by rewrite Hout in Hsec).
  - apply list_lookup_insert_Some in Hst as Hcase. destruct Hcase as [(-> & <- & _)|[Hne H]];
      [|by rewrite Hout in Hsec].
    destruct (call_section _ _ _ _ Hsec (Hout _ Hj)) as (q & tok & -> & Hq & Heq & Hacq).
    exists tok, q. rewrite Heq in Hst. split; [exact Hacq|]. by split; [rewrite Heq|].
  - apply list_lookup_insert_Some in Hst as [(-> & <- & _)|[Hne H]]; [|by rewrite Hout in Hsec].
    specialize (Hout _ Hj). destruct st'; cbn in *; congruence.
Qed.
End keys.

(** ** The theorem *)

(** C22: One charge of a user at a time.  However the calls of any number of requests interleave, with
    any calls failing: once a request has taken the lock of its user, no other charge of that user
    gets past the lock while the first is in its charge or has not given the lock back, for five
    seconds on the clock of Redis; given that the clocks, up to then, never read the same nanosecond
    twice. *)
Theorem charges_exclusive {kv} (E : Env) {R : Redis kv} (reqs : list (endpoint * Request))
    (other : World kv -> World kv -> Prop) (w : World kv) (d0 : DB) (n : nat)
    (s1 s2 s3 s4 : rush kv) (u : string) (i j : nat) :
  RedisLaws R -> KvMono E -> (forall u w w', other w w' -> spares E (lock_key u) w w') ->
  distinct_readings E (w_ticks (ru_redis s4)) ->
  let moves := moves E reqs other in
  rtc moves (arrived E reqs w d0 n) s1 ->
  moves s1 s2 -> ~ holds_section u s1 i -> holds_section u s2 i ->
  rtc moves s2 s3 -> holds_section u s3 i ->
  moves s3 s4 -> ~ holds_section u s3 j -> holds_section u s4 j ->
  kv_clock E (w_ticks (ru_redis s2)) + 5000 <= kv_clock E (w_ticks (ru_redis s4)).
Proof.
  intros HR HK Hother Hdist moves Hrun Hin Hi1 Hi2 Hmid Hi3 Hin' Hj3 Hj4.
  assert (forall s s', moves s s' -> (w_ticks (ru_redis s) <= w_ticks (ru_redis s'))%nat) as Htk.
  { intros s s' H. apply (moves_ticks E reqs other Hother). by apply rtc_once. }
  assert (tokens_ok E s2) as Hok.
  { eapply (tokens_moves E reqs other Hother); [exact (rtc_r _ _ _ Hrun Hin)|apply tokens_arrived|].
    eapply (distinct_before E); [done|]. etrans; [by apply (moves_ticks E reqs other Hother)|by apply Htk]. }
  destruct (section_entered E reqs other u i s1 s2 Hin Hi1 Hi2) as (tok & q & Hacq & Hst & Hq).
  assert (guarded E u tok (kv_clock E (w_ticks (ru_redis s2)) + 5000) i s2) as Hg.
  { exists (AtCharge q tok). split; [done|]. right. split; [by apply bool_decide_true|].
    split; [done|]. exact (acquire_holds E _ _ _ _ _ Hacq). }
  apply (guarded_moves E reqs other Hother _ _ _ _ s2 s3) in Hg; [|done|done|].
  2:{ eapply (distinct_before E); [done|]. by apply Htk. }
  destruct Hg as (st & Hst3 & [Hover|(_ & _ & Hh)]).
  { destruct Hi3 as (st' & Hst' & Hsec). assert (st' = st) as -> by congruence.
    by rewrite over_outside in Hsec. }
  destruct (section_entered E reqs other u j s3 s4 Hin' Hj3 Hj4) as (tok' & q' & Hacq' & _ & _).
  destruct (Z.lt_ge_cases (kv_clock E (w_ticks (ru_redis s4))) (kv_clock E (w_ticks (ru_redis s2)) + 5000))
    as [Hlt|]; [exfalso|done].
  destruct (AcquireLock_ok E _ _ _ _ _ Hacq') as (_ & Htk4 & _). rewrite Htk4 in Hlt.
  pose proof (held_blocks E u tok _ (ru_redis s3) (5 * Second) Hh Hlt) as Hb. by rewrite Hacq' in Hb.
Qed.

(** ** Witness *)

Lemma rush_all_moves {kv} (E : Env) {R : Redis kv} reqs other xs (s : rush kv) :
  rtc (moves E reqs other) s (rush_all E reqs xs s).2.
Proof.
  generalize (rush_all_ok E reqs other xs s). generalize (rush_all E reqs xs s). intros [ls s'] Hrun.
  cbn in *. induction Hrun as [|ls s1 l s2 _ IH Hstep]; [done|]. eapply rtc_r; [exact IH|]. by exists l.
Qed.

(** A clock of Redis that counts seconds. *)
Definition slow_env : Env :=
  mkEnv (clock env0) (server_clock env0) (fun n => 1000 * Z.of_nat n) (faults env0) (gen_random_uuid env0)
    (row_locked env0) (rand_read env0) (uuid_in env0) (uuid_out env0) (text_lt env0).

#[local] Instance slow_kv_mono : KvMono slow_env.
Proof. intros n m H. cbn. lia. Qed.

(** A pause of four seconds while the first charge is in its transaction: then the second charge of
    the merchant gets past the lock, two seconds later. *)
Definition four_ticks (w : World mem) : World mem := tick (tick (tick (tick w))).
Definition pausing (w w' : World mem) : Prop := w' = four_ticks w.

Definition slow_start : rush mem := arrived slow_env morning gate shop_db 0.
Definition slow_first : rush mem := (rush_all slow_env morning (turns [0%nat]) slow_start).2.
Definition slow_wait : rush mem :=
  mkRush (four_ticks (ru_redis slow_first)) (ru_shop slow_first) (ru_stages slow_first).
Definition slow_second : rush mem := (rush_all slow_env morning (turns [1%nat]) slow_wait).2.

Lemma pausing_spares u w w' : pausing w w' -> spares slow_env (lock_key u) w w'.
Proof. intros ->. split; [cbn; lia|]. done. Qed.

Lemma slow_readings : distinct_readings slow_env 8.
Proof.
  split; [|intros m n Hn; cbn; lia]. intros n Hn. do 8 (destruct n; [by vm_compute|]). lia.
Qed.

(** One turn is one move. *)
Definition can_move {kv} (E : Env) {R : Redis kv} reqs (s : rush kv) (i : nat) : bool :=
  match rush_do E reqs (i, count_uuid 1, 0) s with Some _ => true | None => false end.

Lemma turn_moves {kv} (E : Env) {R : Redis kv} reqs other (s : rush kv) (i : nat) :
  can_move E reqs s i = true -> moves E reqs other s (rush_all E reqs (turns [i]) s).2.
Proof.
  unfold can_move, turns, rush_all. cbn [imap foldl snd fst]. unfold compose. cbn [Nat.add Z.of_nat].
  destruct (rush_do E reqs _ s) as [[l s']|] eqn:H; [|done]. intros _. exists l. cbn. by eapply rush_do_ok.
Qed.

Definition charging (s : rush mem) (i : nat) : bool :=
  match ru_stages s !! i with Some (AtCharge q _) => bool_decide (cr_UserID q = uuid_text u0) | _ => false end.

Lemma charging_holds s i : charging s i = true -> holds_section (uuid_text u0) s i.
Proof.
  unfold charging. destruct (ru_stages s !! i) as [st|] eqn:Hi; [|done].
  intros H. exists st. split; [done|]. by destruct st.
Qed.

Definition locking (s : rush mem) (i : nat) : bool :=
  match ru_stages s !! i with Some (AtLock _) => true | _ => false end.

Lemma locking_outside s i : locking s i = true -> ~ holds_section (uuid_text u0) s i.
Proof. unfold locking. intros Hl (st & Hst & H). rewrite Hst in Hl. by destruct st. Qed.

Lemma charges_exclusive_witness :
  charging slow_wait 0 = true /\ charging slow_second 1 = true /\
  kv_clock slow_env (w_ticks (ru_redis slow_first)) + 5000 <=
    kv_clock slow_env (w_ticks (ru_redis slow_second)).
Proof.
  assert (charging slow_first 0 = true) as H0 by (by vm_compute).
  assert (charging slow_wait 0 = true) as H1 by (by vm_compute).
  assert (charging slow_second 1 = true) as H2 by (by vm_compute).
  split; [exact H1|]. split; [exact H2|].
  apply (charges_exclusive slow_env morning pausing gate shop_db 0 slow_start slow_first slow_wait
    slow_second (uuid_text u0) 0 1 _ _ pausing_spares slow_readings).
  - apply rtc_refl.
  - apply turn_moves. by vm_compute.
  - apply locking_outside. by vm_compute.
  - by apply charging_holds.
  - apply rtc_once. exists Elsewhere. unfold slow_wait. generalize slow_first. intros [w x ss].
    by apply rush_other.
  - by apply charging_holds.
  - apply turn_moves. by vm_compute.
  - apply locking_outside. by vm_compute.
  - by apply charging_holds.
Defined.
