(* ===== verification/SameKey.v ===== *)
(** * Charges with one idempotency key

    What the key promises, in a rush of Endpoints.v: once an answer is stored, a request that looks it
    up afterwards gets that answer and does not reach the service ([stored_answer_replayed]).  What it
    does not: two requests whose lookups both come before the first store can both charge
    ([same_key_charged_twice]). *)
From S2P Require Import Prelude Json GoTime Database Hex PaymentRepo OutboxRepo PaymentService.
From S2P Require Import OutboxWorker UserRepo Ledger Concurrent Pollers Redis Lock Http Idempotency.
From S2P Require Import PaymentHandler Endpoints UserLock.

Section stored.
Context {kv : Type} (E : Env) {R : Redis kv} {RL : RedisLaws R} {KM : KvMono E}.
Context (reqs : list (endpoint * Request)) (other : World kv -> World kv -> Prop) (k : string).
Context (Hother : forall w w', other w w' -> spares E (idem_key k) w w').
Implicit Types (w : World kv) (s : rush kv).

(** The key holds, until [deadline], an answer that a charge request with the key got. *)
Definition remembered (deadline : Z) s : Prop :=
  deadline <= kv_clock E (w_ticks (ru_redis s)) + 24 * Hour / 10 ^ 6 /\
  exists i r out, reqs !! i = Some (Charges, r) /\ key_of r = idem_key k /\
    ru_stages s !! i = Some (Done out) /\ stored_code out = true /\
    forall t, kv_clock E (w_ticks (ru_redis s)) <= t -> t < deadline ->
      redis_at (idem_key k) t (w_kv (ru_redis s)) = Some (RString (written out)).

(** Only charges store, and only successes. *)
Definition only_successes s : Prop :=
  forall i out, ru_stages s !! i = Some (AtStore out) ->
    stored_code out = true /\ exists r, reqs !! i = Some (Charges, r).

(** Only charges get to the stages that can lead there. *)
Definition charge_stage (st : stage) : bool :=
  match st with AtLookup | AtLock _ | AtCharge _ _ | AtRelease _ _ _ | AtStore _ => true | _ => false end.

Definition routed s : Prop :=
  forall i st, ru_stages s !! i = Some st -> charge_stage st = true ->
    exists r, reqs !! i = Some (Charges, r).

Lemma finish_success r out o : finish r out = AtStore o -> stored_code o = true.
Proof.
  unfold finish. destruct (keyed r); cbn; [|done]. destruct (stored_code out) eqn:Hc; [|done].
  by intros [= <-].
Qed.

Lemma call_success r st w o : (call_step E r st w).1 = AtStore o -> is_done st = false ->
  in_service st = false -> stored_code o = true.
Proof.
  destruct st as [|q|q tok|q tok out|out|q|out]; try done; cbn; intros H _ _.
  - destruct (Get E (key_of r) w) as [[v|e] w1]; [done|]. cbn in H.
    by destruct (enter_cases r) as [(out & Heq & _)|(q & Heq & _)]; rewrite Heq in H.
  - destruct (AcquireLock E _ _ w) as [[tok|e] w1]; [done|]. by eapply finish_success.
  - destruct (ReleaseLock E _ _ w). by eapply finish_success.
  - by destruct (Set_ E _ _ _ w).
Qed.

Lemma moves_routed s s' : routed s -> moves E reqs other s s' -> routed s'.
Proof.
  intros Hr [l Hstep]. destruct Hstep as [w x ss i a st Ha Hi Hin Hd| |w x ss i st p c Hi Hin Hp| |];
    try exact Hr; intros j st'; cbn;
    intros [(-> & <- & _)|[_ Hj]]%list_lookup_insert_Some Hc; try (by eapply Hr).
  - apply (Hr j st Hi). by destruct st.
  - apply (Hr j st Hi). by destruct st.
Qed.

Lemma moves_successes s s' :
  routed s -> only_successes s -> moves E reqs other s s' -> only_successes s'.
Proof.
  intros Hr Hs Hm. pose proof (moves_routed _ _ Hr Hm) as Hr'. intros i out Hi.
  split; [|by apply (Hr' i _ Hi)]. destruct Hm as [l Hstep]. revert Hi.
  destruct Hstep as [w x ss j a st Ha Hj Hin Hd| |w x ss j st p c Hj Hin Hp| |]; cbn;
    try (intros Hi; by apply (Hs i)).
  - intros [(-> & H & _)|[_ H]]%list_lookup_insert_Some; [by eapply call_success|by apply (Hs i)].
  - intros [(-> & H & _)|[_ H]]%list_lookup_insert_Some; [by destruct st|by apply (Hs i)].
Qed.

Lemma begin_charges a : charge_stage (begin a) = true -> a.1 = Charges.
Proof.
  destruct a as [[] r]; [done|]. cbn. unfold enter_refund. destruct (refund_request r); [|done].
  by case_bool_decide.
Qed.

Lemma arrived_routed w d n : routed (arrived E reqs w d n).
Proof.
  intros i st Hi. cbn in Hi. rewrite list_lookup_fmap in Hi.
  destruct (reqs !! i) as [[e r]|]; [|done]. injection Hi as <-. intros He%(begin_charges (e, r)).
  cbn in He. subst e. by exists r.
Qed.

Lemma arrived_successes w d n : only_successes (arrived E reqs w d n).
Proof.
  intros i out Hi. exfalso. cbn in Hi. rewrite list_lookup_fmap in Hi.
  destruct (reqs !! i) as [[[] r]|]; [| |done]; cbn in Hi; injection Hi as Hi.
  - destruct (keyed r); [done|].
    by destruct (enter_cases r) as [(o & Heq & _)|(q & Heq & _)]; rewrite Heq in Hi.
  - revert Hi. unfold enter_refund. destruct (refund_request r); [|done]. by case_bool_decide.
Qed.

(** An answer stays while its key is spared. *)
Lemma remembered_spared dl s s' :
  remembered dl s -> spares E (idem_key k) (ru_redis s) (ru_redis s') ->
  (forall i out, ru_stages s !! i = Some (Done out) -> ru_stages s' !! i = Some (Done out)) ->
  remembered dl s'.
Proof using KM.
  intros (Hdl & i & r & out & Hr & Hk & Hi & Hc & Hat) [Htk Hsp] Hdone.
  pose proof (kv_mono (E := E) _ _ Htk). split; [lia|]. exists i, r, out. split_and!; auto.
  intros t Ht Hd. rewrite Hsp by done. apply Hat; lia.
Qed.

Lemma done_insert (ss : list stage) j st st' i out :
  ss !! j = Some st -> is_done st = false ->
  ss !! i = Some (Done out) -> <[j := st']> ss !! i = Some (Done out).
Proof. intros Hj Hd Hi. rewrite list_lookup_insert_ne; [done|]. intros ->. by rewrite Hj in Hi; injection Hi as ->. Qed.

(** A request stores its answer under the key. *)
Lemma remembered_stored dl s i r out :
  remembered dl s -> reqs !! i = Some (Charges, r) -> key_of r = idem_key k ->
  ru_stages s !! i = Some (AtStore out) -> stored_code out = true ->
  remembered dl (mkRush (call_step E r (AtStore out) (ru_redis s)).2 (ru_shop s)
    (<[i := (call_step E r (AtStore out) (ru_redis s)).1]> (ru_stages s))).
Proof using RL KM.
  intros Hrem Hr Hk Hi Hc. pose proof (Set_any E (key_of r) (written out) (24 * Hour) (ru_redis s)) as H.
  cbn. destruct (Set_ E _ _ _ (ru_redis s)) as [x w1]. destruct H as [Htk [[Hat _]|[_ Hkv]]].
  - destruct Hrem as (Hdl & _). pose proof (kv_mono (E := E) (w_ticks (ru_redis s)) (w_ticks w1) ltac:(lia)).
    split; cbn; [lia|]. exists i, r, out. split; [done|]. split; [done|]. split.
    { rewrite list_lookup_insert_eq; [done|by eapply lookup_lt_Some]. }
    split; [done|]. intros t Ht Hd. rewrite <- Hk, Hat by done. rewrite (proj2 (Z.ltb_lt _ _)); [done|lia].
  - eapply remembered_spared; [exact Hrem| |].
    + split; cbn; [lia|]. intros t _. by rewrite Hkv.
    + intros j o. by apply (done_insert _ _ (AtStore out)).
Qed.

Lemma remembered_step dl s s' :
  routed s -> only_successes s -> remembered dl s -> moves E reqs other s s' -> remembered dl s'.
Proof using All.
  intros Hro Hok Hrem [l Hstep]. revert Hro Hok Hrem.
  destruct Hstep as [w x ss i a st Ha Hi Hin Hd|w x ss i st o x' Hi Hin Hx|w x ss i st p c Hi Hin Hp
    |w x ss l x' Hl Hx|w w' x ss Ho]; intros Hro Hok Hrem.
  - assert ((exists o, st = AtStore o /\ key_of a.2 = idem_key k) \/ touches a.2 st <> Some (idem_key k))
      as [(o & -> & Hk)|Hno].
    { destruct st; try (by right). destruct (decide (key_of a.2 = idem_key k));
        [left; by eexists|right; cbn; congruence]. }
    + destruct (Hok i o Hi) as (Hc & r & Hr). assert (a = (Charges, r)) as -> by congruence.
      by apply (remembered_stored dl (mkRush w x ss) i r o).
    + eapply remembered_spared; [exact Hrem|by apply call_spares|]. intros j out.
      by apply (done_insert _ _ st).
  - eapply remembered_spared; [exact Hrem|apply tick_spares|done].
  - eapply remembered_spared; [exact Hrem|done|]. intros j out. apply (done_insert _ _ st); [done|].
    by destruct st.
  - eapply remembered_spared; [exact Hrem|apply tick_spares|done].
  - eapply remembered_spared; [exact Hrem|by apply Hother|done].
Qed.

Lemma moves_keep s s' :
  rtc (moves E reqs other) s s' -> routed s -> only_successes s -> routed s' /\ only_successes s'.
Proof. induction 1; eauto using moves_routed, moves_successes. Qed.

Lemma moves_remember dl s s' :
  rtc (moves E reqs other) s s' -> routed s -> only_successes s -> remembered dl s -> remembered dl s'.
Proof using All. induction 1; eauto using moves_routed, moves_successes, remembered_step. Qed.
End stored.

(** C27: A stored answer is the last word.  However the calls of any number of charge and refund
    requests interleave, with polls and other traffic and any calls lost: once a charge has stored
    its answer, for 24 hours every charge request with the same key whose lookup comes through gets
    the answer of a successful charge request with that key, and does not reach the service. *)
Theorem stored_answer_replayed {kv} (E : Env) {R : Redis kv} (reqs : list (endpoint * Request))
    (other : World kv -> World kv -> Prop) (k : string) (w : World kv) (d0 : DB) (n : nat)
    (s1 s3 : rush kv) (i j : nat) (r r' : Request) (out : list wcall) :
  RedisLaws R -> KvMono E -> (forall w w', other w w' -> spares E (idem_key k) w w') ->
  let moves := moves E reqs other in
  rtc moves (arrived E reqs w d0 n) s1 ->
  reqs !! i = Some (Charges, r) -> Header_Get "Idempotency-Key" r = k ->
  ru_stages s1 !! i = Some (AtStore out) -> faults E (w_ticks (ru_redis s1)) = None ->
  let s2 := mkRush (call_step E r (AtStore out) (ru_redis s1)).2 (ru_shop s1)
              (<[i := Done out]> (ru_stages s1)) in
  rtc moves s2 s3 ->
  reqs !! j = Some (Charges, r') -> Header_Get "Idempotency-Key" r' = k ->
  ru_stages s3 !! j = Some AtLookup -> faults E (w_ticks (ru_redis s3)) = None ->
  kv_clock E (w_ticks (tick (ru_redis s3))) < kv_clock E (w_ticks (ru_redis s2)) + 24 * Hour / 10 ^ 6 ->
  exists x rx outx w4, reqs !! x = Some (Charges, rx) /\ Header_Get "Idempotency-Key" rx = k /\
    ru_stages s3 !! x = Some (Done outx) /\ stored_code outx = true /\
    call_step E r' AtLookup (ru_redis s3) = (Done (cached_answer (written outx)), w4).
Proof.
  intros HR HK Hother moves Hrun1 Hi Hr Hst Hf s2 Hrun2 Hj Hr' Hlk Hf3 Hday.
  destruct (moves_keep E reqs other _ _ Hrun1 (arrived_routed E reqs w d0 n)
    (arrived_successes E reqs w d0 n)) as [Hro1 Hok1].
  pose proof (Set_run E (key_of r) (written out) (24 * Hour) (ru_redis s1) Hf) as (kv' & Hset & Hw & _).
  assert (moves s1 s2) as Hm.
  { exists (Moved i). destruct s1 as [w1 x ss]. unfold s2. cbn [ru_redis ru_shop ru_stages] in *.
    pose proof (rush_call E reqs other w1 x ss i (Charges, r) (AtStore out) Hi Hst eq_refl eq_refl) as H.
    revert H. cbn. by rewrite Hset. }
  destruct (moves_keep E reqs other _ _ (rtc_once _ _ Hm) Hro1 Hok1) as [Hro2 Hok2].
  assert (remembered E reqs k (kv_clock E (w_ticks (ru_redis s2)) + 24 * Hour / 10 ^ 6) s2) as Hrem.
  { split; [lia|]. exists i, r, out. split; [done|]. split; [by unfold key_of; rewrite Hr|].
    split; [cbn; rewrite list_lookup_insert_eq; [done|by eapply lookup_lt_Some]|].
    split; [by apply (Hok1 i)|]. cbn. rewrite Hset. cbn. intros t Ht Hd. rewrite <- Hr. fold (key_of r).
    rewrite Hw by done. by rewrite (proj2 (Z.ltb_lt _ _)). }
  apply (moves_remember E reqs other k Hother _ _ _ Hrun2 Hro2 Hok2) in Hrem.
  destruct Hrem as (_ & x & rx & outx & Hx & Hkx & Htx & Hcx & Hat).
  destruct (Get_run E (key_of r') (ru_redis s3) Hf3) as (kv3 & Hget & _).
  exists x, rx, outx, (set_kv kv3 (tick (ru_redis s3))). split; [done|]. split; [by injection Hkx|].
  split; [done|]. split; [done|]. cbn. rewrite Hget. unfold key_of. rewrite Hr', Hat; [done| |done].
  apply kv_mono. simpl. lia.
Qed.

(** ** Two charges with one key *)
Definition keyed_post (amount : Z) : Request :=
  mkRequest "POST" "/v1/charges" {[ "Idempotency-Key" := "k1" ]} "10.0.0.1:1" (Some (charge_body amount)).
Definition twins : list (endpoint * Request) := [(Charges, keyed_post 300); (Charges, keyed_post 300)].
Definition twins_start : rush mem := arrived env0 twins gate shop_db 0.
Definition twins_run (order : list nat) : rush mem := (rush_all env0 twins (turns order) twins_start).2.

(** Both are looked up before either answer is stored: both are answered 200 and the wallet is
    charged twice. *)
Theorem same_key_charged_twice :
  exists s, rtc (moves env0 twins (spares env0 (idem_key "k1"))) twins_start s /\
    statuses (ru_stages s) = [Some 200; Some 200] /\
    (u_balance <$> users (sh_db (ru_shop s)) !! u0) = Some 100.
Proof.
  exists (twins_run ([0; 1] ++ replicate 11 0 ++ replicate 12 1 ++ [0])%nat).
  split; [apply rush_all_moves|]. split; by vm_compute.
Qed.

(** ** Witness: the first request has its answer and stores it, then the second looks it up *)
Definition twins_first : rush mem := twins_run (replicate 11 0%nat).

Definition stored_first (s : rush mem) : rush mem :=
  match ru_stages s with
  | AtStore out :: _ =>
      mkRush (call_step env0 (keyed_post 300) (AtStore out) (ru_redis s)).2 (ru_shop s)
        (<[0%nat := Done out]> (ru_stages s))
  | _ => s
  end.

Lemma stored_answer_replayed_witness :
  let s := stored_first twins_first in
  exists out, ru_stages s !! 0%nat = Some (Done out) /\ status (respond out) = 200 /\
    (call_step env0 (keyed_post 300) AtLookup (ru_redis s)).1 = Done (cached_answer (written out)).
Proof.
  assert (match ru_stages twins_first with [AtStore out; AtLookup] => status (respond out) | _ => 0 end = 200)
    as Hst by (by vm_compute).
  assert (kv_clock env0 (w_ticks (tick (tick (ru_redis twins_first)))) <
    kv_clock env0 (w_ticks (tick (ru_redis twins_first))) + 24 * Hour / 10 ^ 6) as Ht by (by vm_compute).
  assert (rtc (moves env0 twins (spares env0 (idem_key "k1"))) twins_start twins_first) as Hrun
    by apply rush_all_moves.
  revert Hst Ht Hrun. generalize twins_first.
  intros [w x ss] Hst Ht Hrun. cbn [ru_redis ru_stages] in *.
  destruct ss as [|[| | | |out| |] [|[] []]]; try (exfalso; clear -Hst; discriminate).
  cbn [stored_first ru_redis ru_shop ru_stages]. exists out. split; [done|]. split; [exact Hst|].
  pose proof (Set_run env0 (key_of (keyed_post 300)) (written out) (24 * Hour) w eq_refl)
    as (kv' & Hset & _).
  destruct (stored_answer_replayed env0 twins (spares env0 (idem_key "k1")) "k1" gate shop_db 0
    (mkRush w x [AtStore out; AtLookup]) (mkRush (call_step env0 (keyed_post 300) (AtStore out) w).2 x [Done out; AtLookup])
    0 1 (keyed_post 300) (keyed_post 300) out _ _ (fun _ _ H => H) Hrun eq_refl ltac:(by vm_compute) eq_refl
    eq_refl (rtc_refl _ _) eq_refl ltac:(by vm_compute) eq_refl eq_refl)
    as (y & rx & outx & w4 & Hx & _ & Hdone & _ & Hstep).
  { cbn [ru_redis call_step]. rewrite Hset. exact Ht. }
  destruct y as [|[|y]]; [|exfalso; clear -Hdone; discriminate..]. cbn in Hdone. injection Hdone as <-. cbn [ru_redis] in Hstep.
  cbn [ru_redis]. by rewrite Hstep.
Defined.
