(* ===== verification/Text.v ===== *)
(** * The functions of package strings the handlers use

    [strings.Trim] and [strings.TrimSpace] remove whole characters from both ends of a text; a
    character is its UTF-8 bytes.  [strings.ToLower] is modelled on ASCII: outside it only two
    letters (U+0130 and U+212A) have an ASCII lower case, i and k, which no caller looks for. *)
From S2P Require Import Prelude Json GoTime Database Hex Http.

Abbreviation chars := (list Ascii.ascii).

Definition to_chars (s : string) : chars := String.list_ascii_of_string s.
Definition of_chars (l : chars) : string := String.string_of_list_ascii l.

Fixpoint is_prefix (p l : chars) : bool :=
  match p, l with
  | [], _ => true
  | a :: p', b :: l' => Ascii.eqb a b && is_prefix p' l'
  | _, [] => false
  end.

(** Drops characters of [cut] from the front; the length of [l] is enough fuel, since every
    member of [cut] has a byte. *)
Fixpoint drop_cut (fuel : nat) (cut : list chars) (l : chars) : chars :=
  match fuel with
  | O => l
  | S n =>
      match List.find (fun c => is_prefix c l) cut with
      | Some c => drop_cut n cut (drop (length c) l)
      | None => l
      end
  end.

Definition trim_left (cut : list chars) (l : chars) : chars := drop_cut (length l) cut l.
Definition trim_right (cut : list chars) (l : chars) : chars :=
  rev (trim_left (map (@rev _) cut) (rev l)).
Definition trim (cut : list chars) (s : string) : string :=
  of_chars (trim_right cut (trim_left cut (to_chars s))).

(** [strings.Trim] with a cutset of ASCII characters. *)
Definition Trim (s cutset : string) : string := trim (map (fun a => [a]) (to_chars cutset)) s.

Definition bytes_char (l : list nat) : chars := map Ascii.ascii_of_nat l.

(** The characters of [unicode.IsSpace]. *)
Definition spaces : list chars :=
  map bytes_char
    ([[9]; [10]; [11]; [12]; [13]; [32]; [194; 133]; [194; 160]; [225; 154; 128]]%nat ++
     map (fun n => [226; 128; n]%nat) (seq 128 11) ++
     [[226; 128; 168]; [226; 128; 169]; [226; 128; 175]; [226; 129; 159]; [227; 128; 128]]%nat).

Definition TrimSpace (s : string) : string := trim spaces s.

Definition ToLower (s : string) : string := of_chars (map lower (to_chars s)).
Definition HasPrefix (s prefix : string) : bool := is_prefix (to_chars prefix) (to_chars s).

(** [s[n:]] of a string with at least [n] bytes. *)
Definition slice_from (n : nat) (s : string) : string := of_chars (drop n (to_chars s)).

(** ** Facts *)
Lemma of_to_chars s : of_chars (to_chars s) = s.
Proof. apply String.string_of_list_ascii_of_string. Qed.

Lemma to_of_chars l : to_chars (of_chars l) = l.
Proof. apply String.list_ascii_of_string_of_list_ascii. Qed.

Lemma to_chars_app s s' : to_chars (s +:+ s') = to_chars s ++ to_chars s'.
Proof.
  induction s as [|a s IH]; [done|].
  change (a :: to_chars (s +:+ s') = a :: (to_chars s ++ to_chars s')). by rewrite IH.
Qed.

Lemma is_prefix_app p l : is_prefix p (p ++ l) = true.
Proof. induction p as [|a p IH]; [done|]. simpl. by rewrite Ascii.eqb_refl. Qed.

(** A character that [cut] removes wherever it stands, and one that starts no member of it. *)
Definition cut_by (cut : list chars) (a : Ascii.ascii) : Prop :=
  forall l, List.find (fun c => is_prefix c (a :: l)) cut = Some [a].
Definition kept_by (cut : list chars) (a : Ascii.ascii) : Prop :=
  forallb (fun c => match c with b :: _ => negb (Ascii.eqb a b) | [] => false end) cut = true.

Lemma kept_find cut a l : kept_by cut a -> List.find (fun c => is_prefix c (a :: l)) cut = None.
Proof.
  unfold kept_by. induction cut as [|[|b c] cut IH]; simpl; [done|done|].
  intros [Hb%negb_true_iff Hc]%andb_true_iff. rewrite Ascii.eqb_sym, Hb. simpl. by apply IH.
Qed.

Lemma drop_cut_kept n cut l : from_option (kept_by cut) True (head l) -> Forall (fun c => c <> []) cut ->
  drop_cut n cut l = l.
Proof.
  intros Hl Hne. destruct n as [|n]; [done|]. destruct l as [|a l]; simpl in *.
  - destruct (List.find _ cut) as [c|] eqn:Hf; [|done]. apply List.find_some in Hf as [Hin Hp].
    rewrite Forall_forall in Hne. specialize (Hne c).
    destruct c as [|b c]; [|done]. destruct Hne; [by apply list_elem_of_In|done].
  - by rewrite kept_find.
Qed.

Lemma drop_cut_pad n cut pad l :
  Forall (cut_by cut) pad -> from_option (kept_by cut) True (head l) ->
  Forall (fun c => c <> []) cut -> (length pad <= n)%nat -> drop_cut n cut (pad ++ l) = l.
Proof.
  intros Hp Hl Hne. revert n. induction Hp as [|a pad Ha _ IH]; intros n Hn.
  - by apply drop_cut_kept.
  - destruct n as [|n]; simpl in Hn; [lia|]. cbn [app drop_cut]. rewrite Ha. apply IH. lia.
Qed.

(** Both ends of a text are trimmed up to the first and the last character that are kept. *)
Lemma trim_pads cut pad core pad' a l b m :
  Forall (cut_by cut) pad -> Forall (cut_by (map (@rev _) cut)) pad' ->
  core = a :: l -> rev core = b :: m -> kept_by cut a -> kept_by (map (@rev _) cut) b ->
  Forall (fun c => c <> []) cut ->
  trim_right cut (trim_left cut (pad ++ core ++ pad')) = core.
Proof.
  intros Hp Hp' Ha Hb Hka Hkb Hne. unfold trim_right, trim_left.
  rewrite drop_cut_pad; [|done|by rewrite Ha|done|rewrite length_app; lia].
  rewrite rev_app_distr, drop_cut_pad.
  - apply rev_involutive.
  - apply Forall_rev, Hp'.
  - by rewrite Hb.
  - apply Forall_map. eapply Forall_impl; [exact Hne|]. intros c Hc Hr. apply Hc.
    rewrite <-(rev_involutive c). simpl in Hr. by rewrite Hr.
  - rewrite !length_rev, length_app. rewrite length_rev. lia.
Qed.

Lemma cut_by_single cut a : In a cut -> cut_by (map (fun b => [b]) cut) a.
Proof.
  intros Hin l. induction cut as [|b cut IH]; simpl in *; [done|].
  destruct (Ascii.eqb b a) eqn:Hba; simpl.
  - apply Ascii.eqb_eq in Hba as ->. done.
  - destruct Hin as [->|Hin]; [by rewrite Ascii.eqb_refl in Hba|by apply IH].
Qed.

Lemma map_rev_singles cut :
  map (@rev Ascii.ascii) (map (fun b => [b]) cut) = map (fun b => [b]) cut.
Proof. rewrite map_map. done. Qed.
