(* ===== verification/Jwt.v ===== *)
(** * internal/service/jwt_auth.go and internal/handler/jwt_handler.go

    Signing and parsing belong to golang-jwt and are the class [JWT], with what the code relies
    on as the laws of [JWTLaws]: a token the key pair signed parses back to its claims until its
    [exp], never from then on, and consists of URL-safe characters.  Reading and parsing the two PEM
    files is the class [KeyFiles]. *)
From S2P Require Import Prelude Json GoTime Database Hex Redis Http Text.

Definition ErrTokenRevoked : error :=
  Sentinel "authentication token has been explicitly revoked and blacklisted".
Definition ErrInvalidToken : error :=
  Sentinel "cryptographic signature mismatch or token expired".

(** ** The token library *)
Inductive signing_method :=
  | SigningMethodHMAC | SigningMethodRSA | SigningMethodRSAPSS | SigningMethodECDSA
  | SigningMethodEd25519 | SigningMethodNone.

Abbreviation MapClaims := (gmap string json).
Record Token := mkToken { Claims : MapClaims; Valid : bool }.

Class JWT := {
  PrivateKey : Type; PublicKey : Type;
  (** [jwt.NewWithClaims(jwt.SigningMethodRS256, claims).SignedString(key)] *)
  SignedString : PrivateKey -> MapClaims -> res string;
  (** [jwt.Parse(tokenStr, keyfunc)] at a time *)
  Parse : string -> (signing_method -> res PublicKey) -> Z -> res Token }.

Definition token_char (a : Ascii.ascii) : bool :=
  let n := Ascii.nat_of_ascii a in
  (((48 <=? n) && (n <=? 57)) || ((65 <=? n) && (n <=? 90)) || ((97 <=? n) && (n <=? 122)) ||
   (n =? 45) || (n =? 46) || (n =? 95))%nat.

(** A number claim keeps its value through JSON up to [2 ^ 53]. *)
Definition exp_is (claims : MapClaims) (e : Z) : Prop :=
  claims !! "exp" = Some (JInt e) /\ claims !! "nbf" = None /\ 0 <= e <= 2 ^ 53.

Class JWTLaws (J : JWT) (priv : PrivateKey) (pub : PublicKey) : Prop := {
  jwt_parse : forall claims e token keyfunc now,
    SignedString priv claims = Ok token -> exp_is claims e -> now < e * Second ->
    keyfunc SigningMethodRSA = Ok pub -> Parse token keyfunc now = Ok (mkToken claims true);
  jwt_expired : forall claims e token keyfunc now,
    SignedString priv claims = Ok token -> exp_is claims e -> e * Second <= now ->
    is_ok (Parse token keyfunc now) = false;
  jwt_chars : forall claims token,
    SignedString priv claims = Ok token ->
    token <> "" /\ Forall (fun a => token_char a = true) (to_chars token) }.

(** ** The service *)

(** Reading the key files and parsing their PEM text. *)
Class KeyFiles (J : JWT) := {
  ReadFile : string -> res string;
  ParseRSAPrivateKeyFromPEM : string -> res PrivateKey;
  ParseRSAPublicKeyFromPEM : string -> res PublicKey }.

(** Both keys, or the first error. *)
Definition NewJWTAuthService {J : JWT} {F : KeyFiles J} (privateKeyPath publicKeyPath : string) :
    res (PrivateKey * PublicKey) :=
  match ReadFile privateKeyPath with
  | Err e => Err e
  | Ok privBytes =>
      match ParseRSAPrivateKeyFromPEM privBytes with
      | Err e => Err e
      | Ok privKey =>
          match ReadFile publicKeyPath with
          | Err e => Err e
          | Ok pubBytes =>
              match ParseRSAPublicKeyFromPEM pubBytes with
              | Err e => Err e
              | Ok pubKey => Ok (privKey, pubKey)
              end
          end
      end
  end.

Section service.
Context {kv : Type} (E : Env) {R : Redis kv} {J : JWT} (privateKey : PrivateKey)
  (publicKey : PublicKey).

Definition access_claims (userID clientType : string) (exp iat : Z) : MapClaims :=
  <["sub" := JStr userID]> (<["client_type" := JStr clientType]>
    (<["exp" := JInt exp]> (<["iat" := JInt iat]> ∅))).

Definition GenerateAccessToken (userID clientType : string) : M (World kv) string :=
  t1 ← Now E;
  t2 ← Now E;
  lift (SignedString privateKey
          (access_claims userID clientType (Unix (t1 + 15 * Minute)) (Unix t2))).

Definition blacklist_key (tokenStr : string) : string := "blacklist:" +:+ tokenStr.

Definition RevokeToken (tokenStr : string) (ttl : Z) : M (World kv) unit :=
  Set_ E (blacklist_key tokenStr) "true" ttl.

(** The key function: only RSA tokens get the public key. *)
Definition keyfunc (method : signing_method) : res PublicKey :=
  match method with SigningMethodRSA => Ok publicKey | _ => Err ErrInvalidToken end.

(** The library reads the clock while it parses. *)
Definition ValidateAccessToken (tokenStr : string) : M (World kv) MapClaims :=
  blacklisted ← observe (Get E (blacklist_key tokenStr));
  if bool_decide (match blacklisted with Ok v => v | Err _ => "" end = "true")
  then throw ErrTokenRevoked
  else
    now ← Now E;
    match Parse tokenStr keyfunc now with
    | Err _ => throw ErrInvalidToken
    | Ok token => if Valid token then mret (Claims token) else throw ErrInvalidToken
    end.
End service.

(** ** The handlers *)
Record TokenRequest := mkTokenRequest { tr_ClientID : string; tr_Secret : string }.

Definition token_fields : list (field TokenRequest) :=
  [StringField "client_id" (fun v q => mkTokenRequest v (tr_Secret q));
   StringField "client_secret" (fun v q => mkTokenRequest (tr_ClientID q) v)].

(** The answer, with the keys of the Go map in the order encoding/json writes them. *)
Definition token_answer (token : string) : list wcall :=
  CSet "Content-Type" "application/json" ::
  Encode (Some (JObj [("access_token", JStr token); ("expires_in", JStr "900");
                      ("token_type", JStr "Bearer")])).

(** The token of an Authorization header, or the text of the refusal. *)
Definition bearer_token (authHeader : string) : string + string :=
  let authHeader := Trim authHeader (dquote +:+ " ") in
  if negb (HasPrefix (ToLower authHeader) "bearer ") then
    inr "Missing token target reference format"
  else
    let tokenStr := TrimSpace (slice_from 7 authHeader) in
    if bool_decide (tokenStr = "") then inr "Empty token payload asset reference"
    else inl tokenStr.

Section handlers.
Context {kv : Type} (E : Env) {R : Redis kv} {J : JWT} (privateKey : PrivateKey).
Context {S : Type} {W : Has (World kv) S}.

Definition IssueTokenHandler : Handler S := fun r s =>
  match Decode token_fields (mkTokenRequest "" "") (r_Body r) with
  | Err _ => (http_Error "Malformed token body request payload" 400, s)
  | Ok req =>
      let '(token, s1) :=
        zoom (GenerateAccessToken E privateKey (tr_ClientID req) "machine-to-machine") s in
      match token with
      | Err _ => (http_Error "Failed to cryptographically sign token asset" 500, s1)
      | Ok token => (token_answer token, s1)
      end
  end.

Definition RevokeTokenHandler : Handler S := fun r s =>
  match bearer_token (Header_Get "Authorization" r) with
  | inr msg => (http_Error msg 400, s)
  | inl tokenStr =>
      let '(err, s1) := zoom (RevokeToken E tokenStr (15 * Minute)) s in
      match err with
      | Err _ => (http_Error "Failed to register revocation signature state" 500, s1)
      | Ok _ => ([CWriteHeader 204], s1)
      end
  end.
End handlers.

(** ** The header *)

(** What a client may put around a token: quotes and spaces. *)
Definition padding (s : string) : Prop :=
  Forall (fun a => In a (to_chars (dquote +:+ " "))) (to_chars s).

(** The header carries the token after a [Bearer] in any case. *)
Definition carries (tok authHeader : string) : Prop :=
  exists pre bearer pad post, authHeader = pre +:+ bearer +:+ pad +:+ tok +:+ post /\
    padding pre /\ padding post /\ ToLower bearer = "bearer " /\
    Forall (fun a => a = Ascii.ascii_of_nat 32) (to_chars pad).

(** A class of characters none of which starts a member of [cut]. *)
Lemma class_kept (p : Ascii.ascii -> bool) cut a :
  forallb (fun n => negb (p (Ascii.ascii_of_nat n)) ||
             forallb (fun c => match c with
                               | b :: _ => negb (Ascii.eqb (Ascii.ascii_of_nat n) b)
                               | [] => false
                               end) cut) (seq 0 256) = true ->
  p a = true -> kept_by cut a.
Proof.
  intros Hall Ha. rewrite forallb_forall in Hall.
  specialize (Hall (Ascii.nat_of_ascii a)). rewrite Ascii.ascii_nat_embedding, Ha in Hall.
  apply Hall, in_seq. pose proof (Ascii.nat_ascii_bounded a). lia.
Qed.

Lemma token_ends tok : tok <> "" -> Forall (fun a => token_char a = true) (to_chars tok) ->
  exists a l b m, to_chars tok = a :: l /\ rev (to_chars tok) = b :: m /\
    token_char a = true /\ token_char b = true.
Proof.
  intros Hne Hf. assert (rev (to_chars tok) <> []) as Hr.
  { intros Hr. apply Hne. rewrite <-(of_to_chars tok), <-(rev_involutive (to_chars tok)), Hr. done. }
  destruct (to_chars tok) as [|a l] eqn:Ht; [done|].
  destruct (rev (a :: l)) as [|b m] eqn:Hb; [done|]. exists a, l, b, m.
  split_and!; try done; rewrite Forall_forall in Hf; apply Hf; [left|].
  apply list_elem_of_In, in_rev. rewrite Hb. by left.
Qed.

Lemma bearer_token_carries tok authHeader :
  tok <> "" -> Forall (fun a => token_char a = true) (to_chars tok) ->
  carries tok authHeader -> bearer_token authHeader = inl tok.
Proof.
  intros Hne Hf (pre & bearer & pad & post & -> & Hpre & Hpost & Hb & Hpad).
  destruct (token_ends tok Hne Hf) as (a & l & b & m & Ha & Hr & Hca & Hcb).
  assert (exists c1 cs, to_chars bearer = c1 :: cs /\ lower c1 = Ascii.ascii_of_nat 98 /\
            length cs = 6%nat) as (c1 & cs & Hbs & Hc1 & Hcs).
  { unfold ToLower in Hb. apply (f_equal to_chars) in Hb. rewrite to_of_chars in Hb.
    destruct (to_chars bearer) as [|c1 cs]; [done|]. exists c1, cs.
    injection Hb as Hc1 Hb. apply (f_equal length) in Hb. rewrite length_map in Hb. done. }
  assert (Trim (pre +:+ bearer +:+ pad +:+ tok +:+ post) (dquote +:+ " ") =
          bearer +:+ pad +:+ tok) as HT.
  { unfold Trim, trim. rewrite !to_chars_app.
    replace (to_chars pre ++ to_chars bearer ++ to_chars pad ++ to_chars tok ++ to_chars post)
      with (to_chars pre ++ to_chars (bearer +:+ pad +:+ tok) ++ to_chars post)
      by (rewrite !to_chars_app, <-!app_assoc; done).
    erewrite (trim_pads _ _ _ _ c1 _ b); [apply of_to_chars|..].
    - eapply Forall_impl; [exact Hpre|]. intros x Hx. by apply cut_by_single.
    - rewrite map_rev_singles. eapply Forall_impl; [exact Hpost|]. intros x Hx. by apply cut_by_single.
    - rewrite to_chars_app, Hbs. reflexivity.
    - rewrite !to_chars_app, !rev_app_distr, Hr. reflexivity.
    - apply (class_kept (fun x => Ascii.eqb (lower x) (Ascii.ascii_of_nat 98)));
        [by vm_compute|]. by rewrite Hc1.
    - rewrite map_rev_singles. apply (class_kept token_char); [by vm_compute|done].
    - apply (bool_decide_unpack _). by vm_compute. }
  unfold bearer_token. rewrite HT.
  assert (HasPrefix (ToLower (bearer +:+ pad +:+ tok)) "bearer " = true) as ->.
  { unfold HasPrefix, ToLower. rewrite to_chars_app, map_app, to_of_chars.
    unfold ToLower in Hb. apply (f_equal to_chars) in Hb. rewrite to_of_chars in Hb. rewrite Hb.
    apply is_prefix_app. }
  cbn [negb]. assert (slice_from 7 (bearer +:+ pad +:+ tok) = pad +:+ tok) as ->.
  { unfold slice_from. rewrite to_chars_app, Hbs. cbn [app drop].
    rewrite drop_app_length' by done. apply of_to_chars. }
  assert (TrimSpace (pad +:+ tok) = tok) as ->.
  { unfold TrimSpace, trim. rewrite to_chars_app, <-(app_nil_r (to_chars tok)).
    erewrite (trim_pads _ _ _ [] a _ b); [apply of_to_chars|..]; try done.
    - eapply Forall_impl; [exact Hpad|]. intros x ->. intros l'. reflexivity.
    - apply (class_kept token_char); [by vm_compute|done].
    - apply (class_kept token_char); [by vm_compute|done].
    - apply (bool_decide_unpack _). by vm_compute. }
  by rewrite bool_decide_false.
Qed.

(** ** Revocation *)

(** The application's clock and the Redis server's are one clock, which does not go back; Redis
    counts milliseconds. *)
Class OneClock (E : Env) : Prop := {
  clock_mono : forall n m, (n <= m)%nat -> clock E n <= clock E m;
  kv_clock_ms : forall n, kv_clock E n = clock E n / 10 ^ 6 }.

#[export] Instance one_clock_kv E `{!OneClock E} : KvMono E.
Proof. intros n m H. rewrite !kv_clock_ms. apply Z.div_le_mono; [lia|]. by apply clock_mono. Qed.

#[export] Instance ref_one_clock gen lost : OneClock (ref_env gen lost).
Proof.
  split; simpl; [lia|]. intros n. rewrite <-(Z.div_mul (1700000000 * 10 ^ 3 + Z.of_nat n) (10 ^ 6)) by lia.
  f_equal. lia.
Qed.

(** What may happen between a revocation and a validation: revocations of any token, validations
    of any token, and any traffic that leaves the key of this one alone. *)
Inductive token_step {kv} (E : Env) {R : Redis kv} {J : JWT} (publicKey : PublicKey) (tok : string) :
    World kv -> World kv -> Prop :=
  | step_revoke t w : token_step E publicKey tok w (RevokeToken E t (15 * Minute) w).2
  | step_validate t w : token_step E publicKey tok w (ValidateAccessToken E publicKey t w).2
  | step_traffic w w' : spares E (blacklist_key tok) w w' -> token_step E publicKey tok w w'.

Section revocation.
Context {kv : Type} (E : Env) {R : Redis kv} {RL : RedisLaws R} {OC : OneClock E} {J : JWT}.
Context (privateKey : PrivateKey) (publicKey : PublicKey) {JL : JWTLaws J privateKey publicKey}.
Implicit Types (w : World kv).

Lemma blacklist_key_inj t t' : blacklist_key t = blacklist_key t' -> t = t'.
Proof. unfold blacklist_key. by intros [_ H]%string_app_inj. Qed.

Definition blacklisted_until (tok : string) (dl : Z) w : Prop :=
  forall t, kv_clock E (w_ticks w) <= t -> t < dl ->
    redis_at (blacklist_key tok) t (w_kv w) = Some (RString "true").

Lemma Generate_run userID clientType w :
  GenerateAccessToken E privateKey userID clientType w =
  (SignedString privateKey (access_claims userID clientType
     (Unix (clock E (w_ticks w) + 15 * Minute)) (Unix (clock E (S (w_ticks w))))), tick (tick w)).
Proof. done. Qed.

Lemma Validate_ticks tok w :
  (S (w_ticks w) <= w_ticks (ValidateAccessToken E publicKey tok w).2)%nat /\
  reads (kv_clock E (S (w_ticks w))) (w_kv w) (w_kv (ValidateAccessToken E publicKey tok w).2).
Proof using RL.
  pose proof (Get_any E (blacklist_key tok) w) as [Htk Hr].
  unfold ValidateAccessToken, observe, mbind, M_bind.
  destruct (Get E (blacklist_key tok) w) as [r w1]. cbn [snd] in *. rewrite Htk in Hr.
  destruct (bool_decide _); cbn; [split; [lia|exact Hr]|].
  destruct (Parse _ _ _) as [[c [|]]|e]; cbn; (split; [lia|exact Hr]).
Qed.

Lemma revoke_blacklists tok w w' :
  RevokeToken E tok (15 * Minute) w = (Ok tt, w') ->
  blacklisted_until tok (kv_clock E (w_ticks w') + 900000) w'.
Proof using RL.
  intros Hrev t Ht Hdl. pose proof (Set_any E (blacklist_key tok) "true" (15 * Minute) w) as H.
  unfold RevokeToken in Hrev. rewrite Hrev in H. destruct H as [_ [[Hw _]|[? _]]]; [|done].
  rewrite Hw by done. change (15 * Minute / 10 ^ 6) with 900000.
  destruct (Z.ltb_spec t (kv_clock E (w_ticks w') + 900000)); [done|lia].
Qed.

Lemma token_step_keeps tok dl w w' :
  token_step E publicKey tok w w' -> dl <= kv_clock E (w_ticks w) + 900000 ->
  blacklisted_until tok dl w ->
  blacklisted_until tok dl w' /\ dl <= kv_clock E (w_ticks w') + 900000.
Proof using RL OC.
  assert (forall x y : World kv, (w_ticks x <= w_ticks y)%nat ->
            kv_clock E (w_ticks x) <= kv_clock E (w_ticks y)) as Hm by (intros; by apply kv_mono).
  intros [tok' w0|tok' w0|w0 w0' [Htk Hsame]] Hdl Hb; clear w w'.
  - pose proof (Set_any E (blacklist_key tok') "true" (15 * Minute) w0) as H.
    unfold RevokeToken. destruct (Set_ _ _ _ _ w0) as [r w']. destruct H as [Htk H]. cbn [snd].
    pose proof (Hm w0 w' ltac:(lia)) as Hmw. split; [|lia]. intros t Ht Htd.
    change (15 * Minute / 10 ^ 6) with 900000 in H.
    destruct H as [[Hw Ho]|[_ ->]]; [|apply Hb; lia].
    destruct (decide (tok' = tok)) as [->|Hne].
    + assert (t < kv_clock E (w_ticks w') + 900000) as Hin by lia.
      rewrite Hw by done. apply Z.ltb_lt in Hin. by rewrite Hin.
    + rewrite Ho; [apply Hb; lia| |done]. by intros ?%blacklist_key_inj.
  - destruct (Validate_ticks tok' w0) as [Htk Hr]. pose proof (Hm w0 (ValidateAccessToken E publicKey tok' w0).2 ltac:(lia)) as Hmw.
    split; [|lia]. intros t Ht Htd. rewrite Hr; [apply Hb; lia|].
    etrans; [|exact Ht]. by apply kv_mono.
  - pose proof (Hm w0 w0' Htk) as Hmw. split; [|lia]. intros t Ht Htd.
    rewrite Hsame by done. apply Hb; lia.
Qed.
End revocation.

Lemma revocation_lasts {kv} (E : Env) {R : Redis kv} {J : JWT} (pub : PublicKey) tok dl
    (w w' : World kv) :
  RedisLaws R -> OneClock E -> rtc (token_step E pub tok) w w' ->
  dl <= kv_clock E (w_ticks w) + 900000 -> blacklisted_until E tok dl w ->
  blacklisted_until E tok dl w'.
Proof.
  intros HR HO Hs. induction Hs as [w|w1 w2 w3 Hstep _ IH]; intros Hdl Hb; [done|].
  destruct (token_step_keeps E pub tok dl w1 w2 Hstep Hdl Hb) as [Hb2 Hdl2]. by apply IH.
Qed.

Lemma access_claims_exp a b e i : 0 <= e <= 2 ^ 53 -> exp_is (access_claims a b e i) e.
Proof. intros He. by split_and!; try lia. Qed.

Lemma Set_unit {kv} (E : Env) {R : Redis kv} key v ttl (w : World kv) u w' :
  Set_ E key v ttl w = (Ok u, w') -> Set_ E key v ttl w = (Ok tt, w').
Proof. by destruct u. Qed.

(** What a lookup of the token at the next tick of the server's clock would find. *)
Definition revoked {kv} (E : Env) {R : Redis kv} (tok : string) (w : World kv) : bool :=
  match redis_at (blacklist_key tok) (kv_clock E (S (w_ticks w))) (w_kv w) with
  | Some (RString v) => bool_decide (v = "true")
  | _ => false
  end.

(** The result of a validation whose Redis answer arrives. *)
Lemma Validate_run {kv} (E : Env) {R : Redis kv} {RL : RedisLaws R} {J : JWT} (pub : PublicKey)
    tok (w : World kv) :
  faults E (w_ticks w) = None ->
  (ValidateAccessToken E pub tok w).1 =
    if revoked E tok w then Err ErrTokenRevoked
    else match Parse tok (keyfunc pub) (clock E (S (w_ticks w))) with
         | Ok token => if Valid token then Ok (Claims token) else Err ErrInvalidToken
         | Err _ => Err ErrInvalidToken
         end.
Proof.
  intros Hf. destruct (Get_run E (blacklist_key tok) w Hf) as (s1 & Hg & _).
  unfold ValidateAccessToken, observe, mbind, M_bind, revoked. rewrite Hg. cbn.
  destruct (redis_at _ _ _) as [[v|m]|]; cbn.
  - repeat case_bool_decide; try done. cbn. by destruct (Parse _ _ _) as [[c [|]]|e].
  - rewrite bool_decide_false by done. cbn. by destruct (Parse _ _ _) as [[c [|]]|e].
  - rewrite bool_decide_false by done. cbn. by destruct (Parse _ _ _) as [[c [|]]|e].
Qed.

(** A validation whose Redis answer is lost only looks at the token. *)
Lemma Validate_lost {kv} (E : Env) {R : Redis kv} {J : JWT} (pub : PublicKey) tok (w : World kv) :
  faults E (w_ticks w) <> None ->
  (ValidateAccessToken E pub tok w).1 =
    match Parse tok (keyfunc pub) (clock E (S (w_ticks w))) with
    | Ok token => if Valid token then Ok (Claims token) else Err ErrInvalidToken
    | Err _ => Err ErrInvalidToken
    end.
Proof.
  intros Hf. unfold ValidateAccessToken, Get, redis_call, ext, observe, mbind, M_bind.
  destruct (faults E (w_ticks w)) as [[e|e]|]; [| |done]; cbn;
    rewrite bool_decide_false by done; cbn.
  - destruct (Parse _ _ _) as [[c [|]]|e']; done.
  - destruct (redis_do _ _ _) as [r s]. destruct (Parse _ _ _) as [[c [|]]|e']; done.
Qed.

(** A token issued at [a] has expired when fifteen minutes have passed, in whole milliseconds,
    since some [b] after [a]: the [exp] claim is rounded down to a second. *)
Lemma expired_after a b c :
  a <= b -> b / 10 ^ 6 + 900000 <= c / 10 ^ 6 -> Unix (a + 15 * Minute) * Second <= c.
Proof.
  intros Hab Hbc. unfold Unix, Minute, Second.
  change (15 * (60 * 10 ^ 9)) with (900 * 10 ^ 9). rewrite Z.div_add by done.
  assert (a / 10 ^ 9 * 1000 <= b / 10 ^ 6) as Hab'.
  { apply Z.div_le_lower_bound; [done|]. pose proof (Z.mul_div_le a (10 ^ 9)). lia. }
  pose proof (Z.mul_div_le c (10 ^ 6)). lia.
Qed.

Lemma exp_bounds a :
  0 <= a -> a + 15 * Minute <= 2 ^ 53 * Second -> 0 <= Unix (a + 15 * Minute) <= 2 ^ 53.
Proof.
  intros H0 H1. unfold Unix. split.
  - apply Z.div_pos; unfold Minute, Second; lia.
  - apply Z.div_le_upper_bound; [done|]. unfold Second in *. lia.
Qed.


(** C31: A token the endpoint issues validates to the requesting client's claims until it expires,
    whatever secret the request carried, as long as Redis does not answer that it is revoked: also
    when the answer of Redis is lost. *)
Theorem issued_token_validates {kv} (E : Env) {R : Redis kv} {J : JWT} (priv : PrivateKey)
    (pub : PublicKey) {S} {W : Has (World kv) S} (r : Request) (s s' : S) (cs : list wcall) :
  RedisLaws R -> JWTLaws J priv pub ->
  IssueTokenHandler E priv r s = (cs, s') -> status (respond cs) = 200 ->
  let now := clock E (w_ticks (part s)) in
  0 <= now -> now + 15 * Minute <= 2 ^ 53 * Second ->
  exists req tok, Decode token_fields (mkTokenRequest "" "") (r_Body r) = Ok req /\
    cs = token_answer tok /\
    let claims := access_claims (tr_ClientID req) "machine-to-machine" (Unix (now + 15 * Minute))
                    (Unix (clock E (Datatypes.S (w_ticks (part s))))) in
    forall w : World kv,
      clock E (Datatypes.S (w_ticks w)) < Unix (now + 15 * Minute) * Second ->
      revoked E tok w = false \/ faults E (w_ticks w) <> None ->
      (ValidateAccessToken E pub tok w).1 = Ok claims.
Proof.
  intros HR HJ Hiss H200 now Hn0 Hn1. unfold IssueTokenHandler, zoom in Hiss.
  destruct (Decode token_fields _ _) as [req|e]; [|by injection Hiss as <- <-].
  rewrite Generate_run in Hiss.
  destruct (SignedString _ _) as [tok|e] eqn:Hsig; injection Hiss as <- <-; [|done].
  exists req, tok. split_and!; [done..|]. intros claims w Hexp Hrd.
  assert (Parse tok (keyfunc pub) (clock E (Datatypes.S (w_ticks w))) = Ok (mkToken claims true))
    as HP.
  { eapply jwt_parse; [exact Hsig| |exact Hexp|done]. by apply access_claims_exp, exp_bounds. }
  destruct (faults E (w_ticks w)) eqn:Hf; [|destruct Hrd as [Hrd|]; [|done]].
  - rewrite Validate_lost by congruence. by rewrite HP.
  - rewrite Validate_run by done. by rewrite Hrd, HP.
Qed.

(** ** A concrete token library: the key and the claims in binary digits

    It signs the claims of [GenerateAccessToken] only. *)
Fixpoint bits (p : positive) : string :=
  match p with
  | xH => "1"
  | xO p' => String (Ascii.ascii_of_nat 48) (bits p')
  | xI p' => String (Ascii.ascii_of_nat 49) (bits p')
  end.

Fixpoint parse_bits (s : string) : option positive :=
  match s with
  | EmptyString => None
  | String a EmptyString => Some xH
  | String a s' =>
      p ← parse_bits s';
      Some (if Ascii.eqb a (Ascii.ascii_of_nat 48) then xO p else xI p)
  end.

Definition plain_sign (key : N) (c : MapClaims) : res string :=
  match c !! "sub", c !! "client_type", c !! "exp", c !! "iat" with
  | Some (JStr a), Some (JStr b), Some (JInt e), Some (JInt i) =>
      if (size c =? 4)%nat then Ok (bits (encode (key, (a, b), (e, i))))
      else Err (Errorf "unsupported claims")
  | _, _, _, _ => Err (Errorf "unsupported claims")
  end.

Definition plain_parse (token : string) (keyfunc : signing_method -> res N) (now : Z) : res Token :=
  key ← keyfunc SigningMethodRSA;
  match parse_bits token with
  | Some p =>
      match decode p with
      | Some (k, (a, b), (e, i)) =>
          if (k =? key)%N && (now <? e * Second) then Ok (mkToken (access_claims a b e i) true)
          else Err (Errorf "token is expired")
      | None => Err (Errorf "token is malformed")
      end
  | None => Err (Errorf "token is malformed")
  end.

#[export] Instance plain_jwt : JWT :=
  {| PrivateKey := N; PublicKey := N; SignedString := plain_sign; Parse := plain_parse |}.

Lemma parse_bits_bits p : parse_bits (bits p) = Some p.
Proof.
  assert (forall p, exists a s, bits p = String a s) as Hne by (intros []; simpl; eauto).
  induction p as [p IH|p IH|]; [| |done]; simpl;
    destruct (Hne p) as (a & s & Hs); rewrite Hs in *; by rewrite IH.
Qed.

Lemma bits_chars p : Forall (fun a => token_char a = true) (to_chars (bits p)).
Proof. induction p; simpl; by constructor. Qed.

Lemma bits_not_empty p : bits p <> "".
Proof. by destruct p. Qed.

Lemma plain_sign_ok key c tok :
  plain_sign key c = Ok tok ->
  exists a b e i, c = access_claims a b e i /\ tok = bits (encode (key, (a, b), (e, i))).
Proof.
  unfold plain_sign.
  destruct (c !! "sub") as [[| | | |a| |]|] eqn:Ha; try done.
  destruct (c !! "client_type") as [[| | | |b| |]|] eqn:Hb; try done.
  destruct (c !! "exp") as [[| |e| | | |]|] eqn:He; try done.
  destruct (c !! "iat") as [[| |i| | | |]|] eqn:Hi; try done.
  destruct (Nat.eqb_spec (size c) 4) as [Hs|]; [|done]. intros [= <-].
  exists a, b, e, i. split; [|done]. symmetry. apply map_subseteq_size_eq; [|by rewrite Hs].
  unfold access_claims. repeat (apply insert_subseteq_l; [done|]). apply map_empty_subseteq.
Qed.

#[export] Instance plain_jwt_laws (key : N) : JWTLaws plain_jwt key key.
Proof.
  split; simpl.
  - intros c x tok kf now (a & b & e & i & -> & ->)%plain_sign_ok (He & _ & _) Hnow Hkf.
    change (Some (JInt e) = Some (JInt x)) in He. injection He as <-. unfold plain_parse, mbind, res_bind.
    rewrite Hkf, parse_bits_bits, decode_encode, N.eqb_refl. apply Z.ltb_lt in Hnow. by rewrite Hnow.
  - intros c x tok kf now (a & b & e & i & -> & ->)%plain_sign_ok (He & _ & _) Hnow.
    change (Some (JInt e) = Some (JInt x)) in He. injection He as <-. unfold plain_parse, mbind, res_bind. destruct (kf SigningMethodRSA); [|done].
    rewrite parse_bits_bits, decode_encode. apply Z.ltb_ge in Hnow. by rewrite Hnow, andb_false_r.
  - intros c tok (a & b & e & i & -> & ->)%plain_sign_ok. split; [apply bits_not_empty|apply bits_chars].
Qed.

(** ** Witnesses *)
Definition bank : World mem := new_world ∅.
Definition issue_post : Request :=
  mkRequest "POST" "/v1/auth/token" ∅ "10.0.0.1:1"
    (Some (JObj [("client_id", JStr "shop"); ("client_secret", JStr "wrong")])).
Definition issued : res string * World mem :=
  @GenerateAccessToken mem env0 plain_jwt 7%N "shop" "machine-to-machine" bank.
Definition issued_token : string := match issued.1 with Ok t => t | Err _ => "" end.
(** The header as a browser form might send it: quoted, lower case, two blanks. *)
Definition revoke_post : Request :=
  mkRequest "POST" "/v1/auth/revoke"
    {[ "Authorization" := dquote +:+ "bearer " +:+ " " +:+ issued_token +:+ dquote ]}
    "10.0.0.1:1" None.
Definition revoking : list wcall * World mem :=
  @RevokeTokenHandler mem env0 mem_redis (World mem) (has_self _) revoke_post issued.2.

Lemma issued_ok : issued = (Ok issued_token, issued.2).
Proof. apply run_split. by vm_compute. Qed.

Lemma revoke_post_carries : carries issued_token (Header_Get "Authorization" revoke_post).
Proof.
  exists dquote, "bearer ", " ", dquote. split_and!; [by vm_compute|..].
  - constructor; [by left|constructor].
  - constructor; [by left|constructor].
  - by vm_compute.
  - by constructor.
Qed.


Definition issuing : list wcall * World mem :=
  @IssueTokenHandler mem env0 plain_jwt 7%N (World mem) (has_self _) issue_post bank.

Lemma issued_token_validates_witness :
  exists tok claims, issuing.1 = token_answer tok /\ claims !! "sub" = Some (JStr "shop") /\
    (@ValidateAccessToken mem env0 mem_redis plain_jwt 7%N tok issuing.2).1 = Ok claims.
Proof.
  assert (status (respond issuing.1) = 200) as H200 by (by vm_compute).
  destruct (issued_token_validates (J := plain_jwt) (W := has_self (World mem)) env0 7%N 7%N
    issue_post bank issuing.2 issuing.1 mem_redis_laws _ (surjective_pairing _) H200
    ltac:(by vm_compute) ltac:(by vm_compute)) as (req & tok & Hreq & Hcs & Hval).
  exists tok. eexists. split; [exact Hcs|]. split; [|apply Hval].
  - by injection Hreq as <-.
  - by vm_compute.
  - left. unfold revoked. replace (w_kv issuing.2) with (∅ : mem) by (by vm_compute).
    unfold redis_at, mem_redis, mem_at, mem_entry. by rewrite lookup_empty.
Defined.
