(* ===== verification/Breaker.v ===== *)
(** * internal/database/cluster.go: the circuit breaker and RetryQuery

    The breaker is a record guarded by a mutex; each critical section is one operation on it.
    [RetryQuery] runs an operation up to three times with a doubling pause.  The state keeps a
    log of the operation's outcomes and of the pauses, so that the theorems can speak about them.
    Cancellation of the context is decided by the environment, at every look at it. *)
From S2P Require Import Prelude Json GoTime Database Hex.

Inductive BreakerState := StateClosed | StateOpen | StateHalfOpen.

#[export] Instance breaker_state_eq_dec : EqDecision BreakerState.
Proof. solve_decision. Defined.

Record CircuitBreaker := mkBreaker {
  state : BreakerState; failureCount : Z; threshold : Z; cooldown : Z; lastStateLog : Z }.

(** The breaker of [InitCluster]; the zero time for [lastStateLog]. *)
Definition ReplicaBreaker : CircuitBreaker :=
  mkBreaker StateClosed 0 5 (15 * Second) (-62135596800 * 10 ^ 9).

Definition set_state (st : BreakerState) (t : Z) (cb : CircuitBreaker) : CircuitBreaker :=
  mkBreaker st (failureCount cb) (threshold cb) (cooldown cb) t.

(** ** Critical sections: [now] and [now'] are the readings of the clock *)

(** Under the read lock: a closed breaker answers at once. *)
Definition CanExecute_read (cb : CircuitBreaker) : bool := bool_decide (state cb = StateClosed).

(** Under the write lock. *)
Definition CanExecute_write (now now' : Z) (cb : CircuitBreaker) : bool * CircuitBreaker :=
  match state cb with
  | StateOpen =>
      if cooldown cb <? Sub now (lastStateLog cb) then (true, set_state StateHalfOpen now' cb)
      else (false, cb)
  | _ => (true, cb)
  end.

Definition RecordFailure (now : Z) (cb : CircuitBreaker) : CircuitBreaker :=
  let cb := mkBreaker (state cb) (wrap64 (failureCount cb + 1)) (threshold cb) (cooldown cb)
              (lastStateLog cb) in
  if bool_decide (state cb = StateHalfOpen) || (threshold cb <=? failureCount cb)
  then set_state StateOpen now cb else cb.

Definition RecordSuccess (cb : CircuitBreaker) : CircuitBreaker :=
  mkBreaker StateClosed 0 (threshold cb) (cooldown cb) (lastStateLog cb).

(** Any interleaving of the sections of any number of goroutines. *)
Inductive breaker_step : CircuitBreaker -> CircuitBreaker -> Prop :=
  | step_read cb : breaker_step cb cb
  | step_write now now' cb : breaker_step cb (CanExecute_write now now' cb).2
  | step_failure now cb : breaker_step cb (RecordFailure now cb)
  | step_success cb : breaker_step cb (RecordSuccess cb).

(** ** RetryQuery *)
Record Retry {kv : Type} := mkRetry {
  rt_world : World kv; rt_breaker : CircuitBreaker;
  rt_outcomes : list (res unit); rt_pauses : list Z }.
Arguments Retry kv : clear implicits.
Arguments mkRetry {kv} _ _ _ _.

Section retry.
Context {kv : Type} (E : Env).
(** What [ctx.Err()] answers at a tick. *)
Context (ctx_Err : nat -> option error).
Implicit Types (s : Retry kv).

Definition tick_retry s : Retry kv :=
  mkRetry (tick (rt_world s)) (rt_breaker s) (rt_outcomes s) (rt_pauses s).

Definition with_breaker (cb : CircuitBreaker) s : Retry kv :=
  mkRetry (rt_world s) cb (rt_outcomes s) (rt_pauses s).

Definition now_at s : Z := clock E (w_ticks (rt_world s)).

Definition CanExecute s : bool * Retry kv :=
  if CanExecute_read (rt_breaker s) then (true, s)
  else
    let s1 := tick_retry s in
    let '(ok, cb) := CanExecute_write (now_at s) (now_at s1) (rt_breaker s) in
    (ok, with_breaker cb (tick_retry s1)).

(** The operation is called, its outcome logged. *)
Definition call (operation : M (World kv) unit) s : res unit * Retry kv :=
  let '(r, w) := operation (rt_world s) in
  (r, mkRetry w (rt_breaker s) (rt_outcomes s ++ [r]) (rt_pauses s)).

(** [select] between the cancellation and the timer. *)
Definition pause (backoff : Z) s : option error * Retry kv :=
  match ctx_Err (w_ticks (rt_world s)) with
  | Some e => (Some e, tick_retry s)
  | None => (None, mkRetry (tick (rt_world s)) (rt_breaker s) (rt_outcomes s)
                     (rt_pauses s ++ [backoff]))
  end.

(** The loop with [n] attempts left; [err] is the last error. *)
Fixpoint attempts (operation : M (World kv) unit) (n : nat) (backoff : Z) (err : error) s :
    res unit * Retry kv :=
  match n with
  | O =>
      let s1 := with_breaker (RecordFailure (now_at s) (rt_breaker s)) (tick_retry s) in
      (Err (Wrapf "breaker pipeline intercepted failure: " err ""), s1)
  | S n' =>
      match call operation s with
      | (Ok _, s1) => (Ok tt, with_breaker (RecordSuccess (rt_breaker s1)) s1)
      | (Err err, s1) =>
          match ctx_Err (w_ticks (rt_world s1)) with
          | Some e => (Err e, tick_retry s1)
          | None =>
              match pause backoff (tick_retry s1) with
              | (Some e, s2) => (Err e, s2)
              | (None, s2) => attempts operation n' (wrap64 (backoff * 2)) err s2
              end
          end
      end
  end.

Definition maxRetries : nat := 3.

Definition RetryQuery (operation : M (World kv) unit) s : res unit * Retry kv :=
  let '(ok, s1) := CanExecute s in
  if ok : bool then attempts operation maxRetries (100 * 10 ^ 6) (Errorf "") s1
  else call operation s1.
End retry.

(** ** The breaker *)

(** A closed breaker has seen fewer failures than its threshold since its last success. *)
Definition breaker_ok (cb : CircuitBreaker) : Prop :=
  0 < threshold cb <= int64_max /\
  (state cb = StateClosed -> 0 <= failureCount cb < threshold cb).

Lemma breaker_step_ok cb cb' : breaker_step cb cb' -> breaker_ok cb -> breaker_ok cb'.
Proof.
  intros [cb0|now now' cb0|now cb0|cb0] [Ht Hc]; [exact (conj Ht Hc)| | |].
  - assert ((CanExecute_write now now' cb0).2 = cb0 \/
            (CanExecute_write now now' cb0).2 = set_state StateHalfOpen now' cb0) as [-> | ->].
    { unfold CanExecute_write. repeat case_match; auto. }
    + exact (conj Ht Hc).
    + split; [exact Ht|done].
  - unfold RecordFailure. cbn [state threshold failureCount].
    destruct (bool_decide (state cb0 = StateHalfOpen) || _) eqn:Hb; [split; [exact Ht|done]|].
    apply orb_false_iff in Hb as [_ Hb%Z.leb_gt]. split; [exact Ht|]. intros Hs. cbn in *.
    specialize (Hc Hs). rewrite wrap64_id in * by (unfold int64_min, int64_max in *; lia). lia.
  - split; [exact Ht|]. cbn. lia.
Qed.

(** [n] failures in a row. *)
Fixpoint failures (times : list Z) (cb : CircuitBreaker) : CircuitBreaker :=
  match times with [] => cb | t :: ts => failures ts (RecordFailure t cb) end.

Lemma failures_closed times cb :
  state cb = StateClosed -> 0 <= failureCount cb -> threshold cb <= int64_max ->
  failureCount cb + Z.of_nat (length times) < threshold cb ->
  failures times cb = mkBreaker StateClosed (failureCount cb + Z.of_nat (length times))
                        (threshold cb) (cooldown cb) (lastStateLog cb).
Proof.
  revert cb. induction times as [|t ts IH]; intros [st n th cd lg] Hs Hpos Hmax Hlt; simpl in *.
  - subst. by rewrite Z.add_0_r.
  - unfold RecordFailure. cbn. subst st. rewrite wrap64_id by (unfold int64_min, int64_max in *; lia).
    destruct (Z.leb_spec th (n + 1)); [lia|]. cbn.
    rewrite (bool_decide_false (StateClosed = StateHalfOpen)) by done. cbn [orb].
    rewrite IH; cbn [state failureCount threshold cooldown lastStateLog]; [|done|lia..].
    f_equal. lia.
Qed.

(** The breaker trips exactly at its threshold: whatever the goroutines interleave, a closed
    breaker counts fewer failures than its threshold; then the failures still missing to the
    threshold leave it closed up to the last one, which opens it at its time, and from then on
    requests are refused until the cooldown has passed. *)
Theorem breaker_trips (cb : CircuitBreaker) (times : list Z) (t now now' : Z) :
  rtc breaker_step ReplicaBreaker cb -> state cb = StateClosed ->
  failureCount cb + Z.of_nat (length times) + 1 = threshold cb ->
  state (failures times cb) = StateClosed /\
  let cb' := failures (times ++ [t]) cb in
  state cb' = StateOpen /\ lastStateLog cb' = t /\
  CanExecute_write now now' cb' =
    (if cooldown cb <? Sub now t then (true, set_state StateHalfOpen now' cb') else (false, cb')).
Proof.
  intros Hreach Hs Hn.
  assert (breaker_ok cb) as [Ht Hc].
  { assert (breaker_ok ReplicaBreaker) as H0 by (split; vm_compute; intuition congruence).
    revert H0. induction Hreach as [|x y z Hstep _ IH]; intros H0; [done|].
    apply IH; [done|done|]. by eapply breaker_step_ok. }
  specialize (Hc Hs).
  pose proof (failures_closed times cb Hs ltac:(lia) ltac:(lia) ltac:(lia)) as Hf.
  rewrite Hf. split; [done|]. intros cb'.
  assert (cb' = mkBreaker StateOpen (threshold cb) (threshold cb) (cooldown cb) t) as ->.
  { unfold cb'. assert (failures (times ++ [t]) cb = RecordFailure t (failures times cb)) as ->.
    { clear. revert cb. induction times as [|u us IH]; intros cb; [done|]. simpl. apply IH. }
    rewrite Hf. unfold RecordFailure. cbn. rewrite Hn.
    rewrite wrap64_id by (unfold int64_min, int64_max in *; lia).
    destruct (Z.leb_spec (threshold cb) (threshold cb)); [done|lia]. }
  split; [done|]. split; [done|]. unfold CanExecute_write. cbn. by destruct (_ <? _).
Qed.

(** Recovery.  After the cooldown an open breaker lets requests through half-open; a success
    closes it and clears the count, one failure opens it again whatever the count. *)
Theorem breaker_recovers (cb : CircuitBreaker) (now now' t : Z) :
  state cb = StateOpen -> cooldown cb < Sub now (lastStateLog cb) ->
  let '(ok, cb') := CanExecute_write now now' cb in
  ok = true /\ state cb' = StateHalfOpen /\
  (state (RecordSuccess cb') = StateClosed /\ failureCount (RecordSuccess cb') = 0) /\
  (state (RecordFailure t cb') = StateOpen /\ lastStateLog (RecordFailure t cb') = t).
Proof.
  intros Hs Hcool. unfold CanExecute_write. rewrite Hs. apply Z.ltb_lt in Hcool as ->.
  by split_and!.
Qed.

(** ** RetryQuery *)
Section retry_facts.
Context {kv : Type} (E : Env) (ctx_Err : nat -> option error).
Implicit Types (s : Retry kv).

(** What the attempts add to the logs: [outs] and [pauses], from a breaker [cb]. *)
Record attempted (n : nat) (backoffs : list Z) (r : res unit) (err : error) (s s' : Retry kv)
    (outs : list (res unit)) (pauses : list Z) : Prop := mkAttempted {
  at_outs : rt_outcomes s' = rt_outcomes s ++ outs;
  at_pauses : rt_pauses s' = rt_pauses s ++ pauses;
  at_count : (Nat.min 1 n <= length outs <= n)%nat;
  at_prefix : pauses `prefix_of` backoffs;
  at_result :
    (exists fails, outs = fails ++ [Ok tt] /\ Forall (fun o => is_ok o = false) fails /\
       r = Ok tt /\ rt_breaker s' = RecordSuccess (rt_breaker s)) \/
    (Forall (fun o => is_ok o = false) outs /\
     ((exists k e, ctx_Err k = Some e /\ r = Err e /\ rt_breaker s' = rt_breaker s) \/
      (length outs = n /\ pauses = backoffs /\
       (exists t, rt_breaker s' = RecordFailure t (rt_breaker s)) /\
       r = Err (Wrapf "breaker pipeline intercepted failure: "
                  (default err (last outs ≫= fun o => match o with Err e => Some e | _ => None end))
                  "")))) }.

Fixpoint backoffs (n : nat) (b : Z) : list Z :=
  match n with O => [] | S n' => b :: backoffs n' (wrap64 (b * 2)) end.

Lemma attempts_spec operation n b err s :
  let '(r, s') := attempts E ctx_Err operation n b err s in
  exists outs pauses, attempted n (backoffs n b) r err s s' outs pauses.
Proof.
  revert b err s. induction n as [|n IH]; intros b err s; cbn [attempts backoffs].
  { exists [], []. constructor; simpl; rewrite ?app_nil_r; auto. right. split; [done|]. right.
    split_and!; eauto. }
  unfold call. destruct (operation (rt_world s)) as [[[]|e] w].
  { exists [Ok tt], []. constructor; simpl; rewrite ?app_nil_r; auto; [lia|apply prefix_nil|].
    left. by exists []. }
  cbn [rt_world]. destruct (ctx_Err (w_ticks w)) as [c|] eqn:Hc.
  { exists [Err e], []. constructor; simpl; rewrite ?app_nil_r; auto; [lia|apply prefix_nil|].
    right. split; [by repeat constructor|]. left. by exists (w_ticks w), c. }
  unfold pause. cbn [rt_world tick_retry w_ticks tick].
  destruct (ctx_Err (S (w_ticks w))) as [c|] eqn:Hc'.
  { exists [Err e], []. constructor; simpl; rewrite ?app_nil_r; auto; [lia|apply prefix_nil|].
    right. split; [by repeat constructor|]. left. by exists (S (w_ticks w)), c. }
  set (s2 := mkRetry _ _ _ _). specialize (IH (wrap64 (b * 2)) e s2).
  destruct (attempts E ctx_Err operation n (wrap64 (b * 2)) e s2) as [r s'].
  destruct IH as (outs & pauses & [Ho Hp Hn Hpre Hr]).
  exists (Err e :: outs), (b :: pauses). constructor; simpl.
  - rewrite Ho. simpl. by rewrite <-app_assoc.
  - rewrite Hp. simpl. by rewrite <-app_assoc.
  - lia.
  - by apply prefix_cons.
  - destruct Hr as [(fails & -> & Hf & -> & Hb)|(Hf & Hr)].
    + left. exists (Err e :: fails). split_and!; [done|by constructor|done|done].
    + right. split; [by constructor|]. destruct Hr as [?|(<- & -> & Hb & ->)]; [by left|right].
      split_and!; [done|done|done|]. f_equal. f_equal.
      destruct outs as [|o outs]; [done|]. rewrite last_cons_cons.
      destruct (last_is_Some (o :: outs)) as [_ [x Hx]]; [done|]. rewrite Hx.
      rewrite Forall_forall in Hf. specialize (Hf x (last_Some_elem_of _ _ Hx)).
      by destruct x.
Qed.
End retry_facts.

(** C36: RetryQuery is bounded and honest.  With the breaker letting it through it runs the
    operation one to three times and pauses at most 100, 200 and 400 milliseconds in this order;
    it answers success exactly when the last run succeeded, and then resets the breaker; it
    answers the context's error when cancelled; otherwise it has failed three times, answers the
    last error wrapped, and records one failure.  With the breaker open it runs the operation
    once and reports its outcome, without touching the breaker. *)
Theorem retry_query_bounded {kv} (E : Env) (ctx_Err : nat -> option error)
    (operation : M (World kv) unit) (s s' : Retry kv) (r : res unit) :
  RetryQuery E ctx_Err operation s = (r, s') ->
  let '(allowed, s1) := CanExecute E s in
  exists outs pauses,
    rt_outcomes s' = rt_outcomes s ++ outs /\ rt_pauses s' = rt_pauses s ++ pauses /\
    (1 <= length outs <= 3)%nat /\
    if allowed then
      pauses `prefix_of` [100 * 10 ^ 6; 200 * 10 ^ 6; 400 * 10 ^ 6] /\
      ((exists fails, outs = fails ++ [Ok tt] /\ Forall (fun o => is_ok o = false) fails /\
          r = Ok tt /\ rt_breaker s' = RecordSuccess (rt_breaker s1)) \/
       (exists k e, ctx_Err k = Some e /\ r = Err e /\ rt_breaker s' = rt_breaker s1 /\
          Forall (fun o => is_ok o = false) outs) \/
       (exists e1 e2 e3 t, outs = [Err e1; Err e2; Err e3] /\ length pauses = 3%nat /\
          r = Err (Wrapf "breaker pipeline intercepted failure: " e3 "") /\
          rt_breaker s' = RecordFailure t (rt_breaker s1)))
    else outs = [r] /\ pauses = [] /\ rt_breaker s' = rt_breaker s1.
Proof.
  unfold RetryQuery. intros Hrun.
  assert (rt_outcomes (CanExecute E s).2 = rt_outcomes s /\
          rt_pauses (CanExecute E s).2 = rt_pauses s) as [Ho1 Hp1].
  { unfold CanExecute. destruct (CanExecute_read _); [done|]. by destruct (CanExecute_write _ _ _). }
  destruct (CanExecute E s) as [[|] s1]; cbn [snd] in *.
  - pose proof (attempts_spec E ctx_Err operation maxRetries (100 * 10 ^ 6) (Errorf "") s1) as H.
    rewrite Hrun in H. destruct H as (outs & pauses & [Ho Hp Hn Hpre Hr]).
    exists outs, pauses. rewrite Ho, Hp, Ho1, Hp1. split; [done|]. split; [done|].
    split; [unfold maxRetries in Hn; simpl in Hn; lia|]. split; [exact Hpre|].
    destruct Hr as [(fails & Hr)|(Hf & [(k & e & ? & ? & ?)|(Hlen & -> & [t Hb] & ->)])].
    + left. by exists fails.
    + right. left. by exists k, e.
    + right. right. destruct outs as [|[|e1] [|[|e2] [|[|e3] [|]]]]; try done;
        rewrite ?Forall_cons in Hf; try (by destruct_and! Hf).
      by exists e1, e2, e3, t.
  - unfold call in Hrun. destruct (operation (rt_world s1)) as [r0 w]. injection Hrun as <- <-.
    exists [r0], []. cbn. rewrite Ho1, Hp1, app_nil_r. split_and!; (done || lia).
Qed.

(** ** Witnesses *)
Lemma breaker_trips_witness :
  let cb := RecordFailure 7 (RecordSuccess (RecordFailure 1 ReplicaBreaker)) in
  state (failures [8; 9; 10] cb) = StateClosed /\
  state (failures [8; 9; 10; 11] cb) = StateOpen /\
  CanExecute_write (12 * Second) (12 * Second) (failures [8; 9; 10; 11] cb) =
    (false, failures [8; 9; 10; 11] cb).
Proof.
  intros cb.
  assert (rtc breaker_step ReplicaBreaker cb) as Hreach.
  { eapply rtc_l; [apply (step_failure 1)|]. eapply rtc_l; [apply step_success|].
    apply rtc_once, step_failure. }
  destruct (breaker_trips cb [8; 9; 10] 11 (12 * Second) (12 * Second) Hreach eq_refl eq_refl)
    as (H1 & H2 & _ & H3).
  split; [exact H1|]. split; [exact H2|]. exact H3.
Defined.

Lemma breaker_recovers_witness :
  let cb := failures [1; 2; 3; 4; 5] ReplicaBreaker in
  (CanExecute_write (16 * Second) (16 * Second) cb).1 = true.
Proof.
  intros cb.
  pose proof (breaker_recovers cb (16 * Second) (16 * Second) 0 eq_refl ltac:(by vm_compute)) as H.
  destruct (CanExecute_write _ _ cb) as [ok cb']. apply H.
Defined.

(** An operation that fails until its third run. *)
Definition third_time (w : World unit) : res unit * World unit :=
  (if (w_ticks w <? 4)%nat then Err (Errorf "replica down") else Ok tt, tick w).

Lemma retry_query_bounded_witness :
  let '(r, s') := RetryQuery env0 (fun _ => None) third_time
                    (mkRetry (new_world tt) ReplicaBreaker [] []) in
  r = Ok tt /\ exists outs pauses, rt_outcomes s' = outs /\ rt_pauses s' = pauses /\
    (1 <= length outs <= 3)%nat /\ pauses `prefix_of` [100 * 10 ^ 6; 200 * 10 ^ 6; 400 * 10 ^ 6].
Proof.
  assert ((RetryQuery env0 (fun _ => None) third_time
             (mkRetry (new_world tt) ReplicaBreaker [] [])).1 = Ok tt) as Hr by (by vm_compute).
  destruct (RetryQuery _ _ _ _) as [r s'] eqn:Hrun. cbn [fst] in Hr. split; [exact Hr|].
  destruct (retry_query_bounded env0 _ third_time _ s' r Hrun) as (outs & pauses & Ho & Hp & Hn & H & _).
  exists outs, pauses. split; [exact Ho|]. split; [exact Hp|]. split; [exact Hn|exact H].
Defined.
