(* ===== verification/Dispute.v ===== *)
(** * internal/service/dispute.go and internal/handler/dispute_handler.go

    The dispute service keeps two [sync.Map]s.  Their operations are atomic, [CreateDispute] is
    not: between its [Load] and its [Store] another call may run.  The service is modelled twice:
    as a function, for calls that do not overlap, and as a step relation on the threads of one
    process, which the function refines. *)
From S2P Require Import Prelude Json GoTime Database Hex Http.

Definition ErrPaymentAlreadyDisputed : error :=
  Sentinel "payment is already locked in an active dispute case".
Definition ErrPaymentNotFound : error :=
  Sentinel "target payment transaction reference does not exist".

Record Dispute := mkDispute {
  d_ID : string; d_PaymentID : string; d_Reason : string; d_Status : string; d_CreatedAt : Z }.

Record DisputeService := mkService {
  disputesMap : gmap string Dispute; paymentsMap : gmap string string }.

Definition NewDisputeService : DisputeService := mkService ∅ {[ "ch_test_99" := "SUCCESS" ]}.

Definition store_payment (paymentID status : string) (s : DisputeService) : DisputeService :=
  mkService (disputesMap s) (<[paymentID := status]> (paymentsMap s)).
Definition store_dispute (d : Dispute) (s : DisputeService) : DisputeService :=
  mkService (<[d_ID d := d]> (disputesMap s)) (paymentsMap s).

(** The two checks on what [Load] found. *)
Definition check_payment (status : option string) : res unit :=
  match status with
  | None => Err ErrPaymentNotFound
  | Some st => if bool_decide (st = "DISPUTED") then Err ErrPaymentAlreadyDisputed else Ok tt
  end.

Definition new_dispute (id paymentID reason : string) (now : Z) : Dispute :=
  mkDispute id paymentID reason "OPEN" now.

(** ** Threads *)

(** The program points of one call. *)
Inductive thread :=
  | Called (id paymentID reason : string)
  | Checked (id paymentID reason : string)
  | Marked (id paymentID reason : string)
  | Created (d : Dispute)
  | Returned (r : res Dispute).

Inductive thread_step : thread * DisputeService -> thread * DisputeService -> Prop :=
  | t_load id p reason s :
      check_payment (paymentsMap s !! p) = Ok tt ->
      thread_step (Called id p reason, s) (Checked id p reason, s)
  | t_refuse id p reason s e :
      check_payment (paymentsMap s !! p) = Err e ->
      thread_step (Called id p reason, s) (Returned (Err e), s)
  | t_mark id p reason s :
      thread_step (Checked id p reason, s) (Marked id p reason, store_payment p "DISPUTED" s)
  | t_create id p reason now s :
      thread_step (Marked id p reason, s) (Created (new_dispute id p reason now), s)
  | t_store d s : thread_step (Created d, s) (Returned (Ok d), store_dispute d s).

(** One thread of the process moves. *)
Inductive process_step : list thread * DisputeService -> list thread * DisputeService -> Prop :=
  | process_thread ts1 t t' ts2 s s' :
      thread_step (t, s) (t', s') -> process_step (ts1 ++ t :: ts2, s) (ts1 ++ t' :: ts2, s').

(** ** The handler *)
Record DisputeRequest := mkDisputeRequest { dr_PaymentID : string; dr_Reason : string }.

Definition dispute_fields : list (field DisputeRequest) :=
  [StringField "payment_id" (fun v q => mkDisputeRequest v (dr_Reason q));
   StringField "reason" (fun v q => mkDisputeRequest (dr_PaymentID q) v)].

Definition Dispute_json (d : Dispute) : option json :=
  created ← time_json (d_CreatedAt d);
  Some (JObj [("id", JStr (d_ID d)); ("payment_id", JStr (d_PaymentID d));
              ("reason", JStr (d_Reason d)); ("status", JStr (d_Status d));
              ("created_at", created)]).

Section handler.
Context {kv : Type} (E : Env).
Context {S : Type} {W : Has (World kv) S} {D : Has DisputeService S}.

(** A call that no other call overlaps. *)
Definition CreateDispute (id paymentID reason : string) : M S Dispute := fun s =>
  match check_payment (paymentsMap (part s) !! paymentID) with
  | Err e => (Err e, s)
  | Ok _ =>
      let s1 := with_part (store_payment paymentID "DISPUTED" (part s)) s in
      let '(now, s2) := read_clock E s1 in
      let dispute := new_dispute id paymentID reason now in
      (Ok dispute, with_part (store_dispute dispute (part s2)) s2)
  end.

Definition CreateDisputeHandler : Handler S := fun r s =>
  match Decode dispute_fields (mkDisputeRequest "" "") (r_Body r) with
  | Err _ => (http_Error "Malformed dispute payload json structure" 400, s)
  | Ok req =>
      let '(b, s1) := random_bytes E 8 s in
      let disputeID := "dp_" +:+ EncodeToString b in
      let '(res, s2) := CreateDispute disputeID (dr_PaymentID req) (dr_Reason req) s1 in
      match res with
      | Err err =>
          (http_Error (Error err) (if bool_decide (err = ErrPaymentNotFound) then 404 else 409), s2)
      | Ok dispute => (json_answer 201 (Dispute_json dispute), s2)
      end
  end.

(** The answers to a sequence of requests, one at a time. *)
Fixpoint answers (h : Handler S) (rs : list Request) (s : S) : list (Request * Response) :=
  match rs with
  | [] => []
  | r :: rs' => let '(cs, s') := h r s in (r, respond cs) :: answers h rs' s'
  end.

(** The request is a well-formed dispute of a payment. *)
Definition disputes (p : string) (r : Request) : bool :=
  match Decode dispute_fields (mkDisputeRequest "" "") (r_Body r) with
  | Ok req => bool_decide (dr_PaymentID req = p)
  | Err _ => false
  end.

Definition opened (p : string) (l : list (Request * Response)) : nat :=
  length (List.filter (fun '(r, a) => disputes p r && (status a =? 201)) l).
End handler.

(** ** Calls that do not overlap *)
Section sequential.
Context {kv : Type} (E : Env).
Context {S : Type} {W : Has (World kv) S} {D : Has DisputeService S}.
Context {WL : HasLaws W} {DL : HasLaws D} {AP : Apart W D}.
Implicit Types (s : S).

Definition status_of (p : string) s : option string := paymentsMap (part s) !! p.

(** What one call does to the status of the payments. *)
Lemma CreateDispute_status id p reason s q :
  let '(r, s') := CreateDispute E id p reason s in
  match check_payment (status_of p s) with
  | Ok _ => is_ok r = true /\ status_of p s' = Some "DISPUTED"
  | Err e => r = Err e /\ s' = s
  end /\ (q <> p -> status_of q s' = status_of q s).
Proof using WL DL AP.
  unfold CreateDispute, read_clock, status_of.
  destruct (check_payment (paymentsMap (part s) !! p)) as [[]|e]; [|done].
  cbn [is_ok]. rewrite !part_with, (part_apart_r (HX := W) (HY := D)), part_with. cbn.
  split; [split; [done|by rewrite lookup_insert_eq]|]. intros Hq. by rewrite lookup_insert_ne.
Qed.

Lemma check_payment_ok st : check_payment st = Ok tt -> st <> Some "DISPUTED".
Proof. intros H ->. done. Qed.

(** One request. *)
Lemma handler_step p r s :
  let '(cs, s') := CreateDisputeHandler E r s in
  if disputes p r then
    match check_payment (status_of p s) with
    | Ok _ => status (respond cs) = 201 /\ status_of p s' = Some "DISPUTED"
    | Err _ => status (respond cs) <> 201 /\ status_of p s' = status_of p s
    end
  else status_of p s' = status_of p s.
Proof using WL DL AP.
  unfold CreateDisputeHandler, disputes.
  destruct (Decode dispute_fields _ _) as [q|e]; [|done].
  pose proof (random_bytes_apart (D := D) E 8 s) as Hsv.
  destruct (random_bytes E 8 s) as [b s1]. cbn [snd] in Hsv.
  pose proof (CreateDispute_status ("dp_" +:+ EncodeToString b) (dr_PaymentID q) (dr_Reason q) s1 p)
    as Hc.
  destruct (CreateDispute E _ _ _ s1) as [res s2].
  assert (forall x, status_of x s1 = status_of x s) as Hs1 by (intros x; unfold status_of; by rewrite Hsv).
  rewrite !Hs1 in Hc. destruct Hc as [Hc Hother]. case_bool_decide as Hp.
  - subst p. destruct (check_payment (status_of (dr_PaymentID q) s)) as [[]|e].
    + destruct Hc as [Hok Hst]. destruct res; [|done]. split; [apply respond_json|done].
    + destruct Hc as [-> ->]. split; [|done]. by destruct (bool_decide (e = ErrPaymentNotFound)).
  - destruct res as [d|e]; rewrite Hother; done.
Qed.

Lemma opened_cons p r a l :
  opened p ((r, a) :: l) =
  ((if disputes p r && (status a =? 201)%Z then 1 else 0) + opened p l)%nat.
Proof. unfold opened. simpl. by destruct (disputes p r && (status a =? 201)). Qed.

Lemma answers_opened p rs s :
  opened p (answers (CreateDisputeHandler E) rs s) =
  match check_payment (status_of p s) with
  | Ok _ => if existsb (disputes p) rs then 1%nat else 0%nat
  | Err _ => 0%nat
  end.
Proof using WL DL AP.
  revert s. induction rs as [|r rs IH]; intros s; simpl.
  - by destruct (check_payment (status_of p s)).
  - pose proof (handler_step p r s) as Hstep.
    destruct (CreateDisputeHandler E r s) as [cs s']. rewrite opened_cons, IH.
    destruct (disputes p r); simpl; [|by rewrite Hstep].
    destruct (check_payment (status_of p s)) as [[]|e] eqn:Hch; destruct Hstep as [Hcode ->].
    + by rewrite Hcode.
    + rewrite Hch. by destruct (Z.eqb_spec (status (respond cs)) 201).
Qed.
End sequential.

(** ** Overlapping calls *)
Section threads.

(** What is known at a program point: [known] are the payments of the start. *)
Definition thread_ok (known : gmap string string) (s : DisputeService) (t : thread) : Prop :=
  match t with
  | Called _ _ _ | Returned (Err _) => True
  | Checked _ p _ => is_Some (known !! p)
  | Marked _ p _ => is_Some (known !! p) /\ paymentsMap s !! p = Some "DISPUTED"
  | Created d | Returned (Ok d) =>
      is_Some (known !! d_PaymentID d) /\ paymentsMap s !! d_PaymentID d = Some "DISPUTED"
  end.

Record process_ok (known : gmap string string) (c : list thread * DisputeService) : Prop :=
  mkProcessOk {
    ok_threads : Forall (thread_ok known c.2) c.1;
    ok_known : forall p, is_Some (paymentsMap c.2 !! p) <-> is_Some (known !! p);
    ok_disputes : map_Forall (fun _ d => is_Some (known !! d_PaymentID d) /\
                    paymentsMap c.2 !! d_PaymentID d = Some "DISPUTED") (disputesMap c.2) }.

(** A step keeps what the other threads know. *)
Lemma thread_ok_mono known s s' t :
  (forall p, paymentsMap s !! p = Some "DISPUTED" -> paymentsMap s' !! p = Some "DISPUTED") ->
  thread_ok known s t -> thread_ok known s' t.
Proof. intros H. destruct t as [| | |d|[d|e]]; simpl; try done; intros []; auto. Qed.

Lemma thread_step_ok known t s t' s' :
  thread_step (t, s) (t', s') -> thread_ok known s t ->
  (forall p, is_Some (paymentsMap s !! p) <-> is_Some (known !! p)) ->
  map_Forall (fun _ d => is_Some (known !! d_PaymentID d) /\
    paymentsMap s !! d_PaymentID d = Some "DISPUTED") (disputesMap s) ->
  thread_ok known s' t' /\
  (forall p, paymentsMap s !! p = Some "DISPUTED" -> paymentsMap s' !! p = Some "DISPUTED") /\
  (forall p, is_Some (paymentsMap s' !! p) <-> is_Some (known !! p)) /\
  map_Forall (fun _ d => is_Some (known !! d_PaymentID d) /\
    paymentsMap s' !! d_PaymentID d = Some "DISPUTED") (disputesMap s').
Proof.
  intros Hstep Ht Hk Hd. inversion Hstep as [id p reason s0 Hc|id p reason s0 e Hc|id p reason s0|
    id p reason now s0|d s0]; subst; simpl in *.
  - split_and!; try done. apply Hk. destruct (paymentsMap s' !! p); [done|by simpl in Hc].
  - done.
  - assert (forall q, paymentsMap s !! q = Some "DISPUTED" ->
              <[p := "DISPUTED"]> (paymentsMap s) !! q = Some "DISPUTED") as Hmono.
    { intros q Hq. destruct (decide (q = p)) as [->|Hne];
        [by rewrite lookup_insert_eq|by rewrite lookup_insert_ne]. }
    split_and!; [done|by rewrite lookup_insert_eq|exact Hmono| |].
    + intros q. rewrite <-Hk. destruct (decide (q = p)) as [->|Hne];
        [rewrite lookup_insert_eq|by rewrite lookup_insert_ne].
      split; [|done]. intros _. by apply Hk.
    + intros i d Hi. destruct (Hd i d Hi) as [H1 H2]. split; [done|]. by apply Hmono.
  - done.
  - split_and!; try done; [apply Ht..|]. by apply map_Forall_insert_2.
Qed.

Lemma process_step_ok known c c' :
  process_step c c' -> process_ok known c -> process_ok known c'.
Proof.
  intros [ts1 t t' ts2 s s' Hstep] [Hts Hk Hd]. simpl in *.
  apply Forall_app in Hts as [H1 [Ht H2]%Forall_cons].
  destruct (thread_step_ok known t s t' s' Hstep Ht Hk Hd) as (Ht' & Hmono & Hk' & Hd').
  constructor; simpl; [|done|done]. apply Forall_app. split.
  - eapply Forall_impl; [exact H1|]. intros x. by apply thread_ok_mono.
  - constructor; [done|]. eapply Forall_impl; [exact H2|]. intros x. by apply thread_ok_mono.
Qed.

Lemma process_steps_ok known c c' :
  rtc process_step c c' -> process_ok known c -> process_ok known c'.
Proof. induction 1; eauto using process_step_ok. Qed.
End threads.

(** C35: One dispute per payment.  When requests are handled one at a time, a payment that is
    known and not disputed gets exactly one 201 among all the requests that name it, whatever they
    interleave with; any other payment gets none. *)
Theorem one_dispute_per_payment {kv} (E : Env) {S} {W : Has (World kv) S}
    {D : Has DisputeService S} (p : string) (rs : list Request) (s : S) :
  HasLaws W -> HasLaws D -> Apart W D ->
  opened p (answers (CreateDisputeHandler E) rs s) =
  match paymentsMap (part s) !! p with
  | Some st => if bool_decide (st = "DISPUTED") then 0%nat
               else if existsb (disputes p) rs then 1%nat else 0%nat
  | None => 0%nat
  end.
Proof.
  intros WL DL AP. rewrite (answers_opened E). unfold check_payment, status_of.
  destruct (paymentsMap (part s) !! p) as [st|]; [|done]. by case_bool_decide.
Qed.

(** Under any interleaving of calls of [CreateDispute], a call succeeds only for a payment
    that was known at the start, and from then on that payment is marked DISPUTED, as is the
    payment of every stored dispute; so a call that starts after another one returned for the
    same payment is refused. *)
Theorem disputes_interleaved (calls : list (string * string * string)) (s0 s : DisputeService)
    (ts : list thread) (d : Dispute) :
  disputesMap s0 = ∅ ->
  rtc process_step (map (fun '(id, p, reason) => Called id p reason) calls, s0) (ts, s) ->
  Returned (Ok d) ∈ ts ->
  is_Some (paymentsMap s0 !! d_PaymentID d) /\
  paymentsMap s !! d_PaymentID d = Some "DISPUTED" /\
  map_Forall (fun _ d => paymentsMap s !! d_PaymentID d = Some "DISPUTED") (disputesMap s) /\
  forall id reason t' s', thread_step (Called id (d_PaymentID d) reason, s) (t', s') ->
    t' = Returned (Err ErrPaymentAlreadyDisputed).
Proof.
  intros H0 Hsteps Hd.
  assert (process_ok (paymentsMap s0) (ts, s)) as [Hts _ Hds].
  { eapply process_steps_ok; [exact Hsteps|]. constructor; simpl; [|done|by rewrite H0].
    apply Forall_map, Forall_true. by intros [[id p] reason]. }
  simpl in *. rewrite Forall_forall in Hts. destruct (Hts _ Hd) as [Hk Hst].
  split_and!; [done|done| |].
  - eapply map_Forall_impl; [exact Hds|]. by intros i x [_ ?].
  - intros id reason t' s' Hstep. inversion Hstep as [? ? ? ? Hc|? ? ? ? e Hc| | |]; subst;
      rewrite Hst in Hc; [done|]. by injection Hc as <-.
Qed.

(** The check and the mark are not one step: two calls for one payment can both pass the check
    and both open a dispute. *)
Theorem dispute_race (a b : string) (now now' : Z) :
  a <> b ->
  let d := new_dispute a "ch_test_99" "fraud" now in
  let d' := new_dispute b "ch_test_99" "fraud" now' in
  rtc process_step
    ([Called a "ch_test_99" "fraud"; Called b "ch_test_99" "fraud"], NewDisputeService)
    ([Returned (Ok d); Returned (Ok d')],
     mkService {[ b := d'; a := d ]} {[ "ch_test_99" := "DISPUTED" ]}).
Proof.
  intros Hab d d'.
  assert (forall t t' u s s', thread_step (t, s) (t', s') ->
    process_step ([t; u], s) ([t'; u], s')) as Hl
    by (intros; by apply (process_thread [] t t' [u])).
  assert (forall t t' u s s', thread_step (t, s) (t', s') ->
    process_step ([u; t], s) ([u; t'], s')) as Hr
    by (intros; by apply (process_thread [u] t t' [])).
  eapply rtc_l; [apply Hl, t_load; reflexivity|].
  eapply rtc_l; [apply Hr, t_load; reflexivity|].
  eapply rtc_l; [apply Hl, t_mark|]. eapply rtc_l; [apply Hr, t_mark|].
  eapply rtc_l; [apply Hl, (t_create _ _ _ now)|]. eapply rtc_l; [apply Hr, (t_create _ _ _ now')|].
  eapply rtc_l; [apply Hl, t_store|]. eapply rtc_l; [apply Hr, t_store|].
  apply rtc_refl.
Qed.

(** ** Witnesses *)
Definition dispute_post (p : string) : Request :=
  mkRequest "POST" "/v1/disputes" ∅ "10.0.0.1:1"
    (Some (JObj [("payment_id", JStr p); ("reason", JStr "fraud")])).
Definition dispute_server : World unit * DisputeService := (new_world tt, NewDisputeService).

Lemma one_dispute_per_payment_witness :
  opened "ch_test_99" (answers (CreateDisputeHandler env0)
    [dispute_post "nope"; dispute_post "ch_test_99"; dispute_post "ch_test_99"] dispute_server)
    = 1%nat.
Proof. by rewrite (one_dispute_per_payment env0 _ _ _ _ _ _). Defined.

Lemma disputes_interleaved_witness :
  exists s, paymentsMap s !! "ch_test_99" = Some "DISPUTED" /\
    forall t' s', thread_step (Called "dp_9" "ch_test_99" "again", s) (t', s') ->
      t' = Returned (Err ErrPaymentAlreadyDisputed).
Proof.
  pose proof (dispute_race "dp_1" "dp_2" 5 6 ltac:(done)) as Hrace. eexists.
  destruct (disputes_interleaved [("dp_1", "ch_test_99", "fraud"); ("dp_2", "ch_test_99", "fraud")]
    NewDisputeService _ _ (new_dispute "dp_1" "ch_test_99" "fraud" 5) eq_refl Hrace
    ltac:(apply list_elem_of_here)) as (_ & H1 & _ & H2).
  split; [exact H1|]. intros. by eapply H2.
Defined.
