(* ===== verification/EventLog.v ===== *)
(** * internal/repository/audit_repository.go and postgres_payment_event.go: the event log

    Events are appended to [payment_events] on the master and read back from the replica, in
    order ([ReplayHistory]) or with their position and predecessor ([AnalyzeTransitions]).  What
    the server does to values on the way is the class [PgValues].  A failed insert may use up a
    number of the sequence; the model leaves that gap out, since nothing reads it.

    The session's time zone is UTC, so lib/pq delivers a timestamp that prints with [Z]. *)
From S2P Require Import Prelude Json GoTime Database Hex OutboxRepo.

(** ** The server's value conversions *)
Class PgValues := {
  jsonb_in : json -> option json;        (* the input of the jsonb type; None when refused *)
  jsonb_out : json -> string;
  timestamptz_out : Z -> string;         (* created_at::text *)
  unordered : forall A, list A -> list A (* the order of a result without ORDER BY *) }.
Arguments unordered {_} {A} l.

Class PgValuesLaws (P : PgValues) : Prop :=
  unordered_perm : forall A (l : list A), unordered l ≡ₚ l.

Record PaymentEvent := mkPaymentEvent {
  pe_ID : Z; pe_PaymentID : string; pe_EventType : string; pe_Payload : string;
  pe_CreatedAt : string }.

Record StateTransitionAnalysis := mkAnalysis {
  a_ID : Z; a_EventType : string; a_CreatedAt : string; a_SequenceNumber : Z;
  a_PreviousState : string }.

Definition Analysis_json (a : StateTransitionAnalysis) : json :=
  JObj [("event_id", JInt (a_ID a)); ("event_type", JStr (a_EventType a));
        ("changed_at", JStr (a_CreatedAt a)); ("sequence_number", JInt (a_SequenceNumber a));
        ("previous_state", JStr (a_PreviousState a))].

Definition by_id (x y : EventRow) : Prop := e_id x <= e_id y.
#[export] Instance by_id_dec : RelDecision by_id.
Proof. intros x y. unfold by_id. apply _. Defined.

Section log.
Context {kv : Type} (E : Env) {P : PgValues}.

(** ** Statements *)

(** The largest number of the sequence of a [SERIAL] column. *)
Definition int4_max : Z := 2 ^ 31 - 1.

(** [INSERT INTO payment_events (payment_id, event_type, payload) VALUES ($1, $2, $3)] *)
Definition insert_event (paymentID eventType : string) (payload : json) : stmt unit := fun q d =>
  pid ← varchar 50 paymentID;
  et ← varchar 50 eventType;
  match jsonb_in payload with
  | None => Err (Errorf "pq: unsupported Unicode escape sequence")
  | Some p =>
      if event_seq d <=? int4_max then
        mret (tt, set_payment_events
                    (payment_events d ++ [mkEventRow (event_seq d) pid et p (sq_now q)])
                    (event_seq d + 1) d)
      else Err (Errorf "pq: nextval: reached maximum value of sequence payment_events_id_seq")
  end.

(** The rows of a payment [ORDER BY id ASC]. *)
Definition events_of (paymentID : string) (d : DB) : list EventRow :=
  merge_sort by_id
    (List.filter (fun r => bool_decide (e_payment_id r = paymentID)) (payment_events d)).

Definition select_history (paymentID : string) : stmt (list EventRow) := fun _ d =>
  mret (events_of paymentID d, d).

(** [ROW_NUMBER()] and [LAG(event_type, 1, 'START')] over the rows in their order. *)
Definition window (rows : list EventRow) : list (EventRow * Z * string) :=
  imap (fun i r =>
    (r, Z.of_nat i + 1,
     match i with
     | O => "START"
     | S j => from_option e_event_type "START" (rows !! j)
     end)) rows.

Definition select_transitions (paymentID : string) : stmt (list (EventRow * Z * string)) :=
  fun _ d => mret (unordered (window (events_of paymentID d)), d).

(** ** The repository *)
Definition ErrMarshal : error := Errorf "json: unsupported value".

(** [payloadData] is [None] for a value [json.Marshal] refuses. *)
Definition LogEvent (paymentID eventType : string) (payloadData : option json) :
    M (World kv) unit :=
  jsonPayload ← wrap_err "failed to marshal event payload: "
    (lift (match payloadData with Some j => Ok j | None => Err ErrMarshal end));
  master_stmt E (insert_event paymentID eventType jsonPayload).

Definition scan_history (r : EventRow) : PaymentEvent :=
  mkPaymentEvent (e_id r) (e_payment_id r) (e_event_type r) (jsonb_out (e_payload r))
    (RFC3339Nano (e_created_at r)).

Definition ReplayHistory (paymentID : string) : M (World kv) (list PaymentEvent) :=
  rows ← replica_query E (select_history paymentID);
  rows_loop E (scan_history <$> rows).

Definition scan_analysis (x : EventRow * Z * string) : StateTransitionAnalysis :=
  let '(r, n, prev) := x in
  mkAnalysis (e_id r) (e_event_type r) (timestamptz_out (e_created_at r)) n prev.

Definition AnalyzeTransitions (paymentID : string) : M (World kv) (list StateTransitionAnalysis) :=
  rows ← replica_query E (select_transitions paymentID);
  rows_loop E (scan_analysis <$> rows).
End log.

(** ** The second repository, against the columns the migrations create *)

Abbreviation schema := (gmap string (list string)).

Definition create_table_if_not_exists (table : string) (columns : list string) (s : schema) :
    schema :=
  match s !! table with Some _ => s | None => <[table := columns]> s end.

(** [payment_events] as [000001_init_schema] and then [000005_create_payment_events_table] say. *)
Definition migrated : schema :=
  create_table_if_not_exists "payment_events"
    ["id"; "payment_id"; "event_type"; "previous_state"; "current_state"; "payload"; "created_at"]
    (create_table_if_not_exists "payment_events"
       ["id"; "payment_id"; "event_type"; "payload"; "created_at"] ∅).

(** The analysis of a statement that names columns of a table. *)
Definition analyse {A} (table : string) (columns : list string) (q : stmt A) : stmt A := fun e d =>
  match migrated !! table with
  | None => Err (Errorf ("pq: relation does not exist: " +:+ table))
  | Some cols =>
      match List.find (fun c => negb (bool_decide (c ∈ cols))) columns with
      | Some c => Err (Errorf ("pq: column does not exist: " +:+ c))
      | None => q e d
      end
  end.

Record PaymentAuditLog := mkAuditLog {
  al_ID : string; al_PaymentID : string; al_EventType : string; al_PreviousState : string;
  al_CurrentState : string; al_Payload : json; al_CreatedAt : Z }.

Section audit_log.
Context {kv : Type} (E : Env) {P : PgValues}.

(** The analysis fails before anything is inserted, so what the rest of the statement would do
    is left to a parameter; likewise for the query. *)
Context (insert_audit : PaymentAuditLog -> stmt (string * Z)).
Context (select_audit : string -> stmt (list PaymentAuditLog)).

(** The pointer argument is updated with the identifier and the time. *)
Definition CreateEvent (event : PaymentAuditLog) : M (World kv) PaymentAuditLog :=
  row ← master_stmt E (analyse "payment_events"
          ["payment_id"; "event_type"; "previous_state"; "current_state"; "payload"; "id";
           "created_at"] (insert_audit event));
  mret (mkAuditLog row.1 (al_PaymentID event) (al_EventType event) (al_PreviousState event)
          (al_CurrentState event) (al_Payload event) row.2).

Definition GetHistoryByPaymentID (paymentID : string) : M (World kv) (list PaymentAuditLog) :=
  rows ← master_stmt E (analyse "payment_events"
          ["id"; "payment_id"; "event_type"; "previous_state"; "current_state"; "payload";
           "created_at"] (select_audit paymentID));
  rows_loop E rows.

(** Migration 000005 creates nothing, so the second repository never answers anything but an
    error and never writes. *)
Theorem second_repository_unusable event paymentID (w : World kv) :
  is_ok (CreateEvent event w).1 = false /\ w_db (CreateEvent event w).2 = w_db w /\
  is_ok (GetHistoryByPaymentID paymentID w).1 = false.
Proof.
  assert (forall A cols (q : stmt A), List.find (fun c => negb (bool_decide (c ∈
      ["id"; "payment_id"; "event_type"; "payload"; "created_at"]))) cols = Some "previous_state" ->
    forall w : World kv, exists e, master_stmt E (analyse "payment_events" cols q) w = (Err e, tick w))
    as Hfail.
  { intros A cols q Hf w'. unfold master_stmt, ext, analyse.
    replace (migrated !! "payment_events")
      with (Some ["id"; "payment_id"; "event_type"; "payload"; "created_at"]) by (by vm_compute).
    rewrite Hf. destruct (faults E (w_ticks w')) as [[e|e]|]; simpl; eauto. }
  unfold CreateEvent, GetHistoryByPaymentID, mbind, M_bind.
  edestruct Hfail as [e1 ->]; [by vm_compute|]. edestruct Hfail as [e2 ->]; [by vm_compute|]. done.
Qed.
End audit_log.

(** ** The log as a sequence *)

(** The table in the order of the identifiers, all below the sequence. *)
Definition log_ok (d : DB) : Prop :=
  StronglySorted Z.lt (e_id <$> payment_events d) /\
  Forall (fun r => e_id r < event_seq d) (payment_events d).

Definition of_payment (paymentID : string) (rows : list EventRow) : list EventRow :=
  List.filter (fun r => bool_decide (e_payment_id r = paymentID)) rows.

(** A chain of transitions: numbered from [n], each after the type of the one before. *)
Fixpoint chain {P : PgValues} (prev : string) (n : Z) (rows : list EventRow) :
    list StateTransitionAnalysis :=
  match rows with
  | [] => []
  | r :: rs =>
      mkAnalysis (e_id r) (e_event_type r) (timestamptz_out (e_created_at r)) n prev ::
      chain (e_event_type r) (n + 1) rs
  end.

Definition event_call : Type := string * string * option json.

(** The row a call leaves. *)
Definition is_row_of {P : PgValues} (c : event_call) (r : EventRow) : Prop :=
  let '(pid, et, payload) := c in
  e_payment_id r = pid /\ e_event_type r = et /\ payload ≫= jsonb_in = Some (e_payload r).

(** The rows left by a sequence of calls: every call answered without an error left one, and a
    call that reported an error left one at most. *)
Inductive recorded {P : PgValues} : list event_call -> list (res unit) -> list EventRow -> Prop :=
  | recorded_nil : recorded [] [] []
  | recorded_in c cs r rs row rows :
      is_row_of c row -> recorded cs rs rows -> recorded (c :: cs) (r :: rs) (row :: rows)
  | recorded_out c cs e rs rows :
      recorded cs rs rows -> recorded (c :: cs) (Err e :: rs) rows.

Fixpoint log_all {kv} (E : Env) {P : PgValues} (cs : list event_call) (w : World kv) :
    list (res unit) * World kv :=
  match cs with
  | [] => ([], w)
  | (pid, et, payload) :: cs' =>
      let '(r, w1) := LogEvent E pid et payload w in
      let '(rs, w2) := log_all E cs' w1 in (r :: rs, w2)
  end.

Section facts.
Context {kv : Type} (E : Env) {P : PgValues}.
Implicit Types (w : World kv).

#[local] Instance by_id_total : Total by_id.
Proof. intros x y. unfold by_id. lia. Qed.
#[local] Instance by_id_trans : Transitive by_id.
Proof. intros x y z. unfold by_id. lia. Qed.

Lemma insert_event_ok pid et j q d d' p :
  insert_event pid et j q d = Ok (tt, d') -> p = Some j -> log_ok d ->
  log_ok d' /\ exists row, payment_events d' = payment_events d ++ [row] /\ is_row_of (pid, et, p) row.
Proof.
  unfold insert_event, mbind, res_bind. intros H -> [Hs Hb].
  destruct (varchar 50 pid) eqn:H1; [|done]. apply varchar_ok in H1 as [_ ->].
  destruct (varchar 50 et) eqn:H2; [|done]. apply varchar_ok in H2 as [_ ->].
  destruct (jsonb_in j) as [j'|] eqn:Hj; [|done]. destruct (_ <=? _); [|done].
  injection H as <-. split; [split|]; cbn.
  - rewrite fmap_app. apply StronglySorted_app. split_and!; [|done|repeat constructor].
    intros x y (r & -> & Hr)%list_elem_of_fmap ->%list_elem_of_singleton.
    rewrite Forall_forall in Hb. by apply Hb.
  - apply Forall_app. split; [|repeat constructor; cbn; lia].
    eapply Forall_impl; [exact Hb|]. intros r Hr. cbn in *. lia.
  - eexists. split; [done|]. split_and!; done.
Qed.

(** One call: an answer without an error means the row is there; the log stays in order. *)
Definition logged (c : event_call) (d : DB) (r : res unit) (d' : DB) : Prop :=
  log_ok d' /\
  ((exists row, payment_events d' = payment_events d ++ [row] /\ is_row_of c row) \/
   is_ok r = false /\ d' = d).

Lemma LogEvent_wp pid et payload w :
  log_ok (w_db w) ->
  wp (LogEvent E pid et payload) (fun r w' => logged (pid, et, payload) (w_db w) r (w_db w')) w.
Proof.
  intros Hok. unfold LogEvent. wp_step. wp_step. unfold wp, lift. cbn.
  destruct payload as [j|]; cbn; [|split; [done|by right]].
  apply wp_master_stmt.
  - intros env [] d' Hq. destruct (insert_event_ok _ _ _ _ _ _ (Some j) Hq) as [Hl Hr]; [done..|].
    split; [done|by left].
  - intros env e [] d' _ Hq. destruct (insert_event_ok _ _ _ _ _ _ (Some j) Hq) as [Hl Hr]; [done..|].
    split; [done|by left].
  - intros e. split; [done|by right].
Qed.

Lemma log_all_recorded cs w :
  log_ok (w_db w) ->
  let '(rs, w') := log_all E cs w in
  log_ok (w_db w') /\ exists rows, recorded cs rs rows /\
    payment_events (w_db w') = payment_events (w_db w) ++ rows.
Proof.
  revert w. induction cs as [|[[pid et] payload] cs IH]; intros w Hok; cbn.
  { split; [done|]. exists []. split; [constructor|by rewrite app_nil_r]. }
  pose proof (LogEvent_wp pid et payload w Hok) as Hw. unfold wp in Hw.
  destruct (LogEvent E pid et payload w) as [r w1]. destruct Hw as [Hok1 Hrow]. cbn [fst snd] in *.
  specialize (IH w1 Hok1). destruct (log_all E cs w1) as [rs w2].
  destruct IH as (Hok2 & rows & Hrec & Hev). split; [done|].
  destruct Hrow as [(row & Hrow & His)|[Hr Hsame]].
  - exists (row :: rows). split; [by constructor|]. by rewrite Hev, Hrow, <-app_assoc.
  - exists rows. destruct r as [|e]; [done|]. split; [by constructor|]. by rewrite Hev, Hsame.
Qed.

Lemma ids_sorted_cons r rows :
  StronglySorted Z.lt (e_id <$> r :: rows) <->
  StronglySorted Z.lt (e_id <$> rows) /\ (forall x, x ∈ rows -> e_id r < e_id x).
Proof.
  rewrite fmap_cons. split.
  - intros [Hs Hr]%StronglySorted_inv. split; [done|]. intros x Hx.
    rewrite Forall_forall in Hr. apply Hr, list_elem_of_fmap. eauto.
  - intros [Hs Hr]. constructor; [done|]. rewrite Forall_forall.
    intros y (x & -> & Hx)%list_elem_of_fmap. by apply Hr.
Qed.

Lemma ids_sorted_filter pid rows :
  StronglySorted Z.lt (e_id <$> rows) -> StronglySorted Z.lt (e_id <$> of_payment pid rows).
Proof.
  induction rows as [|r rows IH]; [done|]. intros [Hs Hr]%ids_sorted_cons. unfold of_payment. cbn.
  destruct (bool_decide _); [|by apply IH]. apply ids_sorted_cons. split; [by apply IH|].
  intros x [Hx _]%list_elem_of_In%List.filter_In. by apply Hr, list_elem_of_In.
Qed.

Lemma ids_sorted_by_id rows : StronglySorted Z.lt (e_id <$> rows) -> StronglySorted by_id rows.
Proof.
  induction rows as [|r rows IH]; [constructor|]. intros [Hs Hr]%ids_sorted_cons.
  constructor; [by apply IH|]. rewrite Forall_forall. intros x Hx. unfold by_id.
  specialize (Hr x Hx). lia.
Qed.

Lemma ids_sorted_antisym rows x y :
  StronglySorted Z.lt (e_id <$> rows) -> x ∈ rows -> y ∈ rows -> by_id x y -> by_id y x -> x = y.
Proof.
  unfold by_id. induction rows as [|r rows IH]; [by intros _ ?%elem_of_nil|].
  intros [Hs Hr]%ids_sorted_cons [->|Hx]%elem_of_cons [->|Hy]%elem_of_cons H1 H2; [done|..|by apply IH].
  - specialize (Hr y Hy). lia.
  - specialize (Hr x Hx). lia.
Qed.

(** In an ordered log the rows of a payment need no sorting. *)
Lemma events_of_log pid d : log_ok d -> events_of pid d = of_payment pid (payment_events d).
Proof.
  intros [Hs _]. apply (ids_sorted_filter pid) in Hs. unfold events_of.
  fold (of_payment pid (payment_events d)).
  apply (StronglySorted_unique_strong by_id).
  - intros x y. rewrite (merge_sort_Permutation by_id). by apply ids_sorted_antisym.
  - apply (StronglySorted_merge_sort _).
  - by apply ids_sorted_by_id.
  - apply merge_sort_Permutation.
Qed.

Lemma window_chain_from prev n rows before :
  n = Z.of_nat (length before) + 1 ->
  prev = match last before with Some r => e_event_type r | None => "START" end ->
  scan_analysis <$> drop (length before) (window (before ++ rows)) = chain prev n rows.
Proof.
  intros -> ->. revert before. induction rows as [|r rows IH]; intros before.
  - rewrite app_nil_r, drop_ge; [done|]. unfold window. rewrite length_imap. lia.
  - specialize (IH (before ++ [r])). rewrite last_snoc, length_app in IH. cbn [length] in IH.
    rewrite <-app_assoc in IH. cbn [app] in IH.
    erewrite drop_S.
    2:{ unfold window. rewrite list_lookup_imap, lookup_app_r, Nat.sub_diag by lia. reflexivity. }
    replace (length before + 1)%nat with (S (length before)) in IH by lia.
    rewrite fmap_cons, IH. cbn [chain scan_analysis]. f_equal; [|f_equal; lia].
    f_equal. destruct before as [|b before] using rev_ind; [done|]. clear IHbefore.
    rewrite last_snoc, length_app. cbn [length]. rewrite Nat.add_1_r.
    rewrite <-app_assoc, lookup_app_r, Nat.sub_diag by lia. done.
Qed.

Lemma window_chain rows : scan_analysis <$> window rows = chain "START" 1 rows.
Proof. by apply (window_chain_from "START" 1 rows []). Qed.
End facts.

(** C37: The audit trail is faithful.  After any sequence of [LogEvent] calls, with any calls lost,
    and once the replica has caught up, the history of a payment is what it was before followed by
    the rows of the calls for it, in the order of the calls: each call that answered without an
    error left one row, one that reported an error at most one.  The transitions of the payment
    are that same history, numbered from 1, each with the type of its predecessor. *)
Theorem audit_trail_faithful {kv} (E : Env) {P : PgValues} (calls : list event_call)
    (w : World kv) (pid : string) :
  PgValuesLaws P -> log_ok (w_db w) ->
  let '(rs, w1) := log_all E calls w in
  exists rows, recorded calls rs rows /\
    let trail := events_of pid (w_db w) ++ of_payment pid rows in
    forall w2 : World kv, w_replica w2 = w_db w1 -> calm E w2 ->
      (ReplayHistory E pid w2).1 = Ok (scan_history <$> trail) /\
      exists a, (AnalyzeTransitions E pid w2).1 = Ok a /\ a ≡ₚ chain "START" 1 trail.
Proof.
  intros HP Hok. pose proof (log_all_recorded E calls w Hok) as H.
  destruct (log_all E calls w) as [rs w1]. destruct H as (Hok1 & rows & Hrec & Hev).
  exists rows. split; [done|]. intros trail w2 Hrep Hc.
  assert (events_of pid (w_replica w2) = trail) as Htr.
  { unfold trail. rewrite Hrep, !events_of_log, Hev by done. unfold of_payment.
    by rewrite List.filter_app. }
  unfold ReplayHistory, AnalyzeTransitions, mbind, M_bind.
  rewrite !replica_query_calm by done. cbn. rewrite Htr.
  assert (calm E (tick w2)) as Hc2 by (eapply calm_frame; [apply frame_tick|done]).
  rewrite !rows_loop_calm by done. split; [done|]. eexists. split; [done|].
  rewrite <-window_chain. by rewrite (HP _ (window trail)).
Qed.

(** ** Witness *)
#[export] Instance plain_values : PgValues := {|
  jsonb_in := Some; jsonb_out := Print.marshal; timestamptz_out := RFC3339Nano;
  unordered := fun _ l => rev l |}.

#[export] Instance plain_values_laws : PgValuesLaws plain_values.
Proof. intros A l. symmetry. apply Permutation_rev. Qed.

Definition three_events : list event_call :=
  [("p1", "PAYMENT_CREATED", Some (JInt 1)); ("p2", "PAYMENT_CREATED", Some JNull);
   ("p1", "PAYMENT_FAILED", Some (JInt 2))].

Definition logged_events : list (res unit) * World unit :=
  log_all env0 three_events (new_world tt).

Lemma audit_trail_faithful_witness :
  let w2 := mkWorld (w_db logged_events.2) (w_db logged_events.2) TxNone tt [] 9 in
  exists rows, recorded three_events [Ok tt; Ok tt; Ok tt] rows /\
    (ReplayHistory env0 "p1" w2).1 = Ok (scan_history <$> of_payment "p1" rows) /\
    exists a, (AnalyzeTransitions env0 "p1" w2).1 = Ok a /\
      a ≡ₚ chain "START" 1 (of_payment "p1" rows).
Proof.
  pose proof (audit_trail_faithful env0 three_events (new_world tt) "p1" _
    (conj (SSorted_nil _) (List.Forall_nil _))) as H.
  fold logged_events in H. cbv zeta in *.
  assert (logged_events.1 = [Ok tt; Ok tt; Ok tt]) as Hrs by (by vm_compute).
  destruct logged_events as [rs w1]. cbn [fst snd] in *. subst rs.
  destruct H as (rows & Hrec & H). exists rows. split; [exact Hrec|].
  apply H; [done|apply calm_env0].
Defined.
