(* ===== verification/Keys.v ===== *)
(** * internal/service/auth_service.go and internal/handler/auth_handler.go: API keys

    A key is a prefix and sixteen random bytes in hexadecimal; the tables get its bcrypt hash.
    bcrypt is the class [Bcrypt], with its documented behaviour as [BcryptLaws]. *)
From S2P Require Import Prelude Json GoTime Database Hex PaymentRepo UserRepo Http Text.

Class Bcrypt := {
  (** [bcrypt.GenerateFromPassword]; the salt is random, so the call is indexed. *)
  GenerateFromPassword : nat -> string -> Z -> res string;
  CompareHashAndPassword : string -> string -> bool }.

Class BcryptLaws (B : Bcrypt) : Prop := {
  bcrypt_long : forall n pw cost, (72 < String.length pw)%nat ->
    is_ok (GenerateFromPassword n pw cost) = false;
  bcrypt_compare : forall n pw cost hash, GenerateFromPassword n pw cost = Ok hash ->
    CompareHashAndPassword hash pw = true;
  bcrypt_version : forall n pw cost hash, GenerateFromPassword n pw cost = Ok hash ->
    HasPrefix hash "$2a$" = true }.

Definition DefaultCost : Z := 10.

Section service.
Context {kv : Type} (E : Env) {B : Bcrypt}.

(** The text of a key from its random bytes. *)
Definition plain_key (bytes : list N) : string := "vpay_live_" +:+ EncodeToString bytes.

Definition bcrypt_hash (pw : string) : M (World kv) string :=
  ext E (fun w => (GenerateFromPassword (w_ticks w) pw DefaultCost, w)).

Definition GenerateAPIKey (userID label : string) : M (World kv) string :=
  bytes ← wrap_err "failed to generate secure random source bytes: " (RandRead E 16);
  let plainKey := plain_key bytes in
  keyHash ← wrap_err "failed to cryptographically protect plain key: " (bcrypt_hash plainKey);
  _ ← wrap_err "auth_service failed to persist key configuration: "
        (InsertKey E userID keyHash label);
  mret plainKey.
End service.

Record KeyRequest := mkKeyRequest { kr_UserID : string; kr_Label : string }.

Definition key_fields : list (field KeyRequest) :=
  [StringField "user_id" (fun v q => mkKeyRequest v (kr_Label q));
   StringField "label" (fun v q => mkKeyRequest (kr_UserID q) v)].

Definition key_answer (plainKey : string) : list wcall :=
  json_answer 201 (Some (JObj
    [("api_key", JStr plainKey);
     ("note", JStr "Copy this secret key down! It will never be shown in plaintext again.")])).

Section handler.
Context {kv : Type} (E : Env) {B : Bcrypt} {S : Type} {W : Has (World kv) S}.

Definition CreateAPIKeyHandler : Handler S := fun r s =>
  match Decode key_fields (mkKeyRequest "" "") (r_Body r) with
  | Err _ => (http_Error "Invalid JSON payload syntax" 400, s)
  | Ok req =>
      if bool_decide (kr_UserID req = "") then
        (http_Error "Missing required payload field: user_id" 400, s)
      else
        let '(plainKey, s1) := zoom (GenerateAPIKey E (kr_UserID req) (kr_Label req)) s in
        match plainKey with
        | Err _ => (http_Error "Internal system failure generating access key" 500, s1)
        | Ok plainKey => (key_answer plainKey, s1)
        end
  end.
End handler.

(** ** Facts *)
Lemma EncodeToString_cons b l : EncodeToString (b :: l) = hex_fixed 2 b +:+ EncodeToString l.
Proof. done. Qed.

Lemma length_EncodeToString l : String.length (EncodeToString l) = (2 * length l)%nat.
Proof.
  induction l as [|b l IH]; [done|].
  rewrite EncodeToString_cons, string_app_length, length_hex_fixed, IH. simpl. lia.
Qed.

(** Bytes are recovered from their hexadecimal text. *)
Lemma EncodeToString_inj l l' :
  Forall (fun b => b < 256)%N l -> Forall (fun b => b < 256)%N l' ->
  EncodeToString l = EncodeToString l' -> l = l'.
Proof.
  intros Hl. revert l'. induction Hl as [|b l Hb _ IH]; intros [|b' l'] Hl' Heq; try done.
  apply Forall_cons in Hl' as [Hb' Hl']. rewrite !EncodeToString_cons in Heq.
  apply string_app_inj in Heq as [Hbb Hll]; [|by rewrite !length_hex_fixed].
  f_equal; [|by apply IH].
  apply (f_equal (fun s => parse_hex s 0)) in Hbb. rewrite !parse_hex_fixed in Hbb.
  injection Hbb as Hbb. change (16 ^ N.of_nat 2)%N with 256%N in Hbb.
  rewrite !N.mod_small in Hbb by done. lia.
Qed.

Lemma plain_key_inj l l' :
  Forall (fun b => b < 256)%N l -> Forall (fun b => b < 256)%N l' ->
  plain_key l = plain_key l' -> l = l'.
Proof.
  intros Hl Hl' Heq. apply EncodeToString_inj; [done..|].
  by apply (string_app_inj "vpay_live_" "vpay_live_") in Heq as [_ ?].
Qed.

(** A new key: its row holds a hash that verifies it, under the requested user and label. *)
Definition key_issued (E : Env) {B : Bcrypt} (userID label key : string) (d d' : DB) : Prop :=
  exists bytes hash, length bytes = 16%nat /\ key = plain_key bytes /\
    key_added E d userID hash label d' /\ CompareHashAndPassword hash key = true /\ hash <> key.

Section facts.
Context {kv : Type} (E : Env) {B : Bcrypt} {BL : BcryptLaws B}.
Implicit Types (w : World kv).

Lemma wp_ext_pure {A} (f : World kv -> res A) (Q : res A -> World kv -> Prop) w :
  (forall a, (exists w0, f w0 = Ok a) -> Q (Ok a) (tick w)) -> (forall e, Q (Err e) (tick w)) ->
  wp (ext E (fun w => (f w, w))) Q w.
Proof.
  unfold wp, ext. intros H1 H2. destruct (faults E (w_ticks w)) as [[e|e]|]; simpl; auto.
  destruct (f (tick w)) eqn:Hf; eauto.
Qed.

Lemma GenerateAPIKey_wp userID label w :
  wp (GenerateAPIKey E userID label)
    (fun r w' => settles E (fun key d' => key_issued E userID label key (w_db w) d') w r w') w.
Proof using BL.
  unfold GenerateAPIKey. wp_step. wp_step. unfold RandRead. apply wp_ext_pure.
  2:{ intros e. apply settles_unopened; [auto with vaultpay|done]. }
  intros bytes [w0 [= Hbytes]]. wp_step. wp_step. unfold bcrypt_hash. apply wp_ext_pure.
  2:{ intros e. apply settles_unopened; [auto with vaultpay|done]. }
  intros hash [w1 Hhash]. wp_step. wp_step. unfold InsertKey. wp_step.
  assert (forall d d', insert_key E userID hash label d (w_db w) = Ok (tt, d') ->
            key_issued E userID label (plain_key bytes) (w_db w) d') as Hiss.
  { intros env d' Hins. apply insert_key_ok in Hins. exists bytes, hash.
    split; [by rewrite <-Hbytes, length_resize|]. split; [done|]. split; [done|].
    split; [by eapply bcrypt_compare|]. intros ->. by apply bcrypt_version in Hhash. }
  apply wp_master_stmt.
  - intros env [] d' Hins. apply wp_ret. split; [|split; [done|]].
    + apply quiet_set_db. apply frame_quiet. auto with vaultpay.
    + by eapply Hiss.
  - intros env e [] d' Hlost Hins. split; [|split; [done|]].
    + apply quiet_set_db. apply frame_quiet. auto with vaultpay.
    + right. split; [done|]. eexists. by eapply Hiss.
  - intros e. apply settles_unopened; [auto with vaultpay|done].
Qed.
End facts.


(** ** Witness *)
#[export] Instance plain_bcrypt : Bcrypt := {|
  GenerateFromPassword := fun _ pw _ =>
    if (String.length pw <=? 72)%nat then Ok ("$2a$10$" +:+ pw)
    else Err (Errorf "bcrypt: password length exceeds 72 bytes");
  CompareHashAndPassword := fun hash pw => bool_decide (hash = "$2a$10$" +:+ pw) |}.

#[export] Instance plain_bcrypt_laws : BcryptLaws plain_bcrypt.
Proof.
  split; simpl; intros n pw cost.
  - intros H. by destruct (Nat.leb_spec (String.length pw) 72); [lia|].
  - intros hash. destruct (_ <=? _)%nat; [|done]. intros [= <-]. by apply bool_decide_true.
  - intros hash. destruct (_ <=? _)%nat; [|done]. by intros [= <-].
Qed.

Definition key_post : Request :=
  mkRequest "POST" "/v1/auth/keys" ∅ "10.0.0.1:1"
    (Some (JObj [("user_id", JStr (uuid_text u0)); ("label", JStr "Production Key")])).
Definition key_run : list wcall * World unit :=
  @CreateAPIKeyHandler unit env0 plain_bcrypt (World unit) (has_self _) key_post
    (mkWorld db0 db0 TxNone tt [] 10).

