(* ===== verification/Webhook.v ===== *)
(** * internal/service/webhook_worker.go and internal/tasks/webhook_tasks.go: delivery

    The worker POSTs the payload of each task to the merchant and reports an error unless the
    answer is a 2xx, so that asynq, the task server, runs the task again.  asynq is not part of
    the program: what it does with a task and the handler's answer is the step relation
    [asynq_step], any order of the queue and a crash before the acknowledgement included.  The
    network is the class [Internet]. *)
From S2P Require Import Prelude Json GoTime Database Hex PaymentRepo OutboxRepo OutboxWorker.
From S2P Require Import Http Text.

Record Outbound := mkOutbound {
  ob_Method : string; ob_URL : string; ob_Header : header; ob_Body : json }.

(** The status of the answer to the [n]-th external call, where [Err] covers the ten-second
    timeout; and what the mux of asynq reports for a task without a handler. *)
Class Internet := { Do : nat -> Outbound -> res Z; NotFound : Task -> error }.

(** internal/tasks/webhook_tasks.go; marshalling three strings cannot fail. *)
Definition WebhookPayload (paymentID url status : string) : json :=
  JObj [("payment_id", JStr paymentID); ("target_url", JStr url); ("event_status", JStr status)].

Definition NewWebhookDispatchTask (paymentID url status : string) : Task :=
  mkTask TypeWebhookRetryEvent (WebhookPayload paymentID url status).

(** The worker's state: the attempts made so far, with their answers. *)
Record Courier := mkCourier { c_ticks : nat; c_attempts : list (Outbound * res Z) }.

Section worker.
Context {I : Internet}.

Definition targetMerchantURL : string := "http://httpbin.org/post".

(** Building a request from these constants cannot fail. *)
Definition webhook_request (payload : json) : Outbound :=
  mkOutbound "POST" targetMerchantURL
    (<["Content-Type" := "application/json"]>
       (<["User-Agent" := "VaultPay-Webhook-Dispatcher/1.0"]> ∅)) payload.

Definition send_request (req : Outbound) : M Courier Z := fun c =>
  let r := Do (c_ticks c) req in (r, mkCourier (S (c_ticks c)) (c_attempts c ++ [(req, r)])).

Definition ProcessWebhookTask (t : Task) : M Courier unit :=
  StatusCode ← wrap_err "network delivery failure: " (send_request (webhook_request (task_payload t)));
  if (StatusCode <? 200) || (300 <=? StatusCode)
  then throw (Errorf ("merchant unhealthy response status: " +:+ itoa StatusCode))
  else mret tt.

(** The mux of [main]: handlers are found by a prefix of the task's type. *)
Definition mux_ProcessTask (t : Task) : M Courier unit :=
  if HasPrefix (task_type t) TypeWebhookRetryEvent then ProcessWebhookTask t
  else throw (NotFound t).

(** ** The task server *)

(** Queued tasks with the number of their failed runs, and the tasks given up. *)
Record asynq := mkAsynq {
  queued : list (Task * nat); archived : list Task; courier : Courier }.

Context (max_retry : nat).

Inductive asynq_step : asynq -> asynq -> Prop :=
  | asynq_enqueue t q a c : asynq_step (mkAsynq q a c) (mkAsynq (q ++ [(t, O)]) a c)
  | asynq_done q1 t n q2 a c c' :
      mux_ProcessTask t c = (Ok tt, c') ->
      asynq_step (mkAsynq (q1 ++ (t, n) :: q2) a c) (mkAsynq (q1 ++ q2) a c')
  | asynq_crash q1 t n q2 a c r c' :
      mux_ProcessTask t c = (r, c') ->
      asynq_step (mkAsynq (q1 ++ (t, n) :: q2) a c) (mkAsynq (q1 ++ (t, n) :: q2) a c')
  | asynq_retry q1 t n q2 a c e c' :
      mux_ProcessTask t c = (Err e, c') -> (n < max_retry)%nat ->
      asynq_step (mkAsynq (q1 ++ (t, n) :: q2) a c) (mkAsynq (q1 ++ q2 ++ [(t, S n)]) a c')
  | asynq_archive q1 t n q2 a c e c' :
      mux_ProcessTask t c = (Err e, c') -> (max_retry <= n)%nat ->
      asynq_step (mkAsynq (q1 ++ (t, n) :: q2) a c) (mkAsynq (q1 ++ q2) (a ++ [t]) c').

(** One run after another, from the head of the queue; a failed task goes to its end. *)
Fixpoint work (fuel : nat) (q : list (Task * nat)) (a : list Task) (c : Courier) : asynq :=
  match fuel, q with
  | S fuel', (t, n) :: q' =>
      match mux_ProcessTask t c with
      | (Ok _, c') => work fuel' q' a c'
      | (Err _, c') =>
          if (n <? max_retry)%nat then work fuel' (q' ++ [(t, S n)]) a c'
          else work fuel' q' (a ++ [t]) c'
      end
  | _, _ => mkAsynq q a c
  end.
End worker.

(** ** No task is lost *)
Ltac in_list :=
  cbn [queued archived courier] in *;
  rewrite ?elem_of_app, ?elem_of_cons, ?list_elem_of_singleton in *; intuition (subst; eauto).

Definition acknowledged (r : res Z) : bool :=
  match r with Ok code => (200 <=? code) && (code <? 300) | Err _ => false end.

Definition is_webhook (t : Task) : Prop := task_type t = TypeWebhookRetryEvent.

(** The merchant acknowledged a request with the payload of the task. *)
Definition delivered (t : Task) (c : Courier) : Prop :=
  exists r, (webhook_request (task_payload t), r) ∈ c_attempts c /\ acknowledged r = true.

(** At least [n] requests with the payload of the task were not acknowledged. *)
Definition failed_runs (t : Task) (n : nat) (c : Courier) : Prop :=
  exists l, l `sublist_of` c_attempts c /\ length l = n /\
    Forall (fun x => x.1 = webhook_request (task_payload t) /\ acknowledged x.2 = false) l.

Section facts.
Context {I : Internet} (max_retry : nat).

(** A run of a webhook task makes one attempt and succeeds when it is acknowledged. *)
Lemma run_attempt t c r c' :
  is_webhook t -> mux_ProcessTask t c = (r, c') ->
  let answer := Do (c_ticks c) (webhook_request (task_payload t)) in
  c_ticks c' = S (c_ticks c) /\
  c_attempts c' = c_attempts c ++ [(webhook_request (task_payload t), answer)] /\
  is_ok r = acknowledged answer.
Proof.
  unfold mux_ProcessTask. intros ->. change (HasPrefix _ _) with true. cbn iota.
  unfold ProcessWebhookTask, send_request, wrap_err, mbind, M_bind.
  destruct (Do _ _) as [code|e]; cbn; [|by intros [= <- <-]].
  destruct ((code <? 200) || (300 <=? code)) eqn:Hc; intros [= <- <-]; (split; [done|]); split; try done;
    cbn; lia.
Qed.

Lemma run_grows t c r c' :
  mux_ProcessTask t c = (r, c') -> exists l, c_attempts c' = c_attempts c ++ l.
Proof.
  unfold mux_ProcessTask. destruct (HasPrefix _ _).
  2:{ intros [= <- <-]. exists []. by rewrite app_nil_r. }
  unfold ProcessWebhookTask, send_request, wrap_err, mbind, M_bind.
  destruct (Do _ _) as [code|e]; cbn; [|intros [= <- <-]; eauto].
  destruct (_ || _); intros [= <- <-]; eauto.
Qed.

Lemma delivered_grows t c c' l : c_attempts c' = c_attempts c ++ l -> delivered t c -> delivered t c'.
Proof. intros Hc (r & Hr & Ha). exists r. rewrite Hc, elem_of_app. auto. Qed.

Lemma failed_runs_grows t n c c' l :
  c_attempts c' = c_attempts c ++ l -> failed_runs t n c -> failed_runs t n c'.
Proof. intros Hc (k & Hk & Hn & Hf). exists k. rewrite Hc. split; [by apply sublist_inserts_r|done]. Qed.

Lemma failed_run t n c e c' :
  is_webhook t -> mux_ProcessTask t c = (Err e, c') -> failed_runs t n c -> failed_runs t (S n) c'.
Proof.
  intros Ht Hrun (k & Hk & Hn & Hf). apply run_attempt in Hrun as (_ & Hc & Ha); [|done].
  eexists (k ++ [_]). rewrite Hc. split; [by apply sublist_app|]. split; [rewrite length_app, Hn; simpl; lia|].
  apply Forall_app. split; [done|]. repeat constructor. by simpl.
Qed.

(** Where a tracked task is: queued, given up after all its runs failed, or delivered. *)
Definition tracked (t : Task) (s : asynq) : Prop :=
  (exists n, (t, n) ∈ queued s) \/ t ∈ archived s \/ delivered t (courier s).

Definition counted (s : asynq) : Prop :=
  (forall t n, (t, n) ∈ queued s -> is_webhook t -> failed_runs t n (courier s)) /\
  (forall t, t ∈ archived s -> is_webhook t -> failed_runs t (S max_retry) (courier s)).

Lemma counted_step s s' : asynq_step max_retry s s' -> counted s -> counted s'.
Proof.
  intros Hstep [Hq Ha].
  destruct Hstep as [t q a c|q1 t n q2 a c c' Hr|q1 t n q2 a c r c' Hr|q1 t n q2 a c e c' Hr Hn
                    |q1 t n q2 a c e c' Hr Hn]; cbn [queued archived courier] in *.
  - split; [|done]. intros t' n' [Hin|[= -> ->]%list_elem_of_singleton]%elem_of_app Ht'; [by apply Hq|].
    exists []. split; [apply sublist_nil_l|by split].
  - destruct (run_grows _ _ _ _ Hr) as [l Hl].
    split; [intros t' n' Hin Ht'|intros t' Hin Ht']; (eapply failed_runs_grows; [exact Hl|]); [|by apply Ha].
    apply Hq; [in_list|done].
  - destruct (run_grows _ _ _ _ Hr) as [l Hl]. split; intros; eapply failed_runs_grows; eauto.
  - pose proof (run_grows _ _ _ _ Hr) as [l Hl]. split; [|intros; eapply failed_runs_grows; eauto].
    intros t' n' Hin Ht'. rewrite app_assoc in Hin.
    apply elem_of_app in Hin as [Hin|[= -> ->]%list_elem_of_singleton].
    + eapply failed_runs_grows; [done|]. apply Hq; [in_list|done].
    + eapply failed_run; [done..|]. apply Hq; [in_list|done].
  - pose proof (run_grows _ _ _ _ Hr) as [l Hl]. split.
    + intros t' n' Hin Ht'. eapply failed_runs_grows; [done|]. apply Hq; [in_list|done].
    + intros t' [Hin|Heq%list_elem_of_singleton]%elem_of_app Ht'; [by eapply failed_runs_grows; eauto|].
      subst t'. destruct (failed_run t n c e c' Ht' Hr) as (k & Hk & Hlen & Hf); [apply Hq; [in_list|done]|].
      exists (take (S max_retry) k). split_and!; [|rewrite length_take; lia|by apply Forall_take].
      etrans; [apply sublist_take|done].
Qed.

Lemma tracked_step t s s' :
  is_webhook t -> asynq_step max_retry s s' -> tracked t s -> tracked t s'.
Proof.
  intros Ht Hstep. unfold tracked.
  destruct Hstep as [t1 q a c|q1 t1 n q2 a c c' Hr|q1 t1 n q2 a c r c' Hr|q1 t1 n q2 a c e c' Hr Hn
                    |q1 t1 n q2 a c e c' Hr Hn]; cbn [queued archived courier];
    try (pose proof (run_grows _ _ _ _ Hr) as [l Hl]);
    (intros [[m Hm]|[Ha|Hd]];
      [|right; left; try done; rewrite elem_of_app; by left
       |right; right; try done; by eapply delivered_grows]).
  - left. exists m. rewrite elem_of_app. by left.
  - apply elem_of_app in Hm as [Hm|[[= -> ->]|Hm]%elem_of_cons];
      [left; exists m; in_list| |left; exists m; in_list].
    right; right. apply run_attempt in Hr as (_ & Hc & Hok); [|done]. cbn in Hok.
    eexists. rewrite Hc, elem_of_app. split; [right; by left|done].
  - left. exists m. in_list.
  - left. apply elem_of_app in Hm as [Hm|[[= -> ->]|Hm]%elem_of_cons];
      [exists m; in_list|exists (S n); in_list|exists m; in_list].
  - apply elem_of_app in Hm as [Hm|[[= -> ->]|Hm]%elem_of_cons];
      [left; exists m; in_list|right; left; in_list|left; exists m; in_list].
Qed.

Lemma steps_keep t s s' :
  is_webhook t -> rtc (asynq_step max_retry) s s' -> tracked t s -> counted s ->
  tracked t s' /\ counted s'.
Proof.
  intros Ht Hsteps. induction Hsteps as [s|s1 s2 s3 Hstep _ IH]; [done|].
  intros Htr Hc. apply IH; [by eapply tracked_step|by eapply counted_step].
Qed.

(** An outage of at most [k] runs costs no task, when tasks may be retried that often. *)
Lemma work_outage fuel q a c k :
  Forall (fun x => is_webhook x.1 /\ (x.2 + k <= max_retry)%nat) q ->
  (forall n req, (c_ticks c + k <= n)%nat -> acknowledged (Do n req) = true) ->
  (k + length q <= fuel)%nat ->
  exists c' l, work max_retry fuel q a c = mkAsynq [] a c' /\ c_attempts c' = c_attempts c ++ l /\
    (List.filter (fun x => acknowledged x.2) l).*1 ≡ₚ webhook_request ∘ task_payload <$> q.*1.
Proof.
  revert q a c k. induction fuel as [|fuel IH]; intros q a c k Hq Hdo Hfuel.
  { destruct q; simpl in *; [|lia]. exists c, []. by rewrite app_nil_r. }
  destruct q as [|[t n] q]. { exists c, []. by rewrite app_nil_r. }
  apply Forall_cons in Hq as [[Ht Hn] Hq]. cbn [fst snd length] in *. cbn [work].
  destruct (mux_ProcessTask t c) as [r c1] eqn:Hr.
  apply run_attempt in Hr as (Htk & Hat & Hok); [|done]. set (req := webhook_request _) in *.
  assert (forall n req, (c_ticks c1 + pred k <= n)%nat -> acknowledged (Do n req) = true) as Hdo1
    by (intros; apply Hdo; lia).
  assert (Forall (fun x => is_webhook x.1 /\ (x.2 + pred k <= max_retry)%nat) q) as Hq1.
  { eapply Forall_impl; [exact Hq|]. intros x [? ?]. split; [done|lia]. }
  destruct r as [u|e]; cbn [is_ok] in Hok.
  - destruct (IH q a c1 (pred k) Hq1 Hdo1 ltac:(lia)) as (c' & l & -> & Hc' & Hl).
    exists c', ((req, Do (c_ticks c) req) :: l). split; [done|]. split; [by rewrite Hc', Hat, <-app_assoc|].
    cbn. rewrite <-Hok. cbn. by rewrite Hl.
  - assert (k <> 0)%nat as Hk.
    { intros ->. rewrite Hdo in Hok by lia. done. }
    destruct (Nat.ltb_spec n max_retry); [|lia].
    destruct (IH (q ++ [(t, S n)]) a c1 (pred k)) as (c' & l & -> & Hc' & Hl); [|done|..].
    + apply Forall_app. split; [done|]. repeat constructor; simpl; [done|lia].
    + rewrite length_app. simpl. lia.
    + exists c', ((req, Do (c_ticks c) req) :: l). split; [done|].
      split; [by rewrite Hc', Hat, <-app_assoc|]. cbn. rewrite <-Hok. cbn. rewrite Hl.
      rewrite !fmap_app. cbn. by rewrite Permutation_app_comm.
Qed.
End facts.



(** ** Witnesses *)

(** A merchant that is down for the first two requests. *)
#[local] Instance flaky : Internet := {|
  Do := fun n _ => if (n <? 2)%nat then Ok 503 else Ok 204;
  NotFound := fun t => Errorf ("handler not found for task " +:+ task_type t) |}.

Definition hook1 : Task := NewWebhookDispatchTask "p1" "http://shop/hook" "succeeded".
Definition hook_queue : asynq := mkAsynq [(hook1, O)] [] (mkCourier 0 []).


