(* ===== verification/Float.v ===== *)
(** * The binary64 arithmetic of the currency and proration code

    Go's [float64] is [spec_float] of the Standard Library at precision 53 and maximal exponent
    1024; conversions from [int64] round to nearest even, conversions to [int64] truncate.  The
    compiler may fuse a product and a sum on some targets; on amd64 (GOAMD64=v1), the target of
    the Dockerfile, it does not, and neither does the model.

    The theory below gives each operation on normal numbers as one rounding [rnd] of the exact
    result, as integers: the value of a float is scaled by the unit [2 ^ 3000], finer than every
    product of two floats. *)
From S2P Require Import Prelude.
From Stdlib Require Export SpecFloat.

Definition prec : Z := 53.
Definition emax : Z := 1024.

Abbreviation float64 := spec_float.

Definition Fmul : float64 -> float64 -> float64 := SFmul prec emax.
Definition Fdiv : float64 -> float64 -> float64 := SFdiv prec emax.
Definition Fsub : float64 -> float64 -> float64 := SFsub prec emax.

(** [float64(z)] *)
Definition of_int64 (z : Z) : float64 := binary_normalize prec emax z 0 false.

(** The integer part of a finite float. *)
Definition truncate (x : float64) : Z :=
  match x with
  | S754_finite s m e =>
      let v := if 0 <=? e then Z.pos m * 2 ^ e else Z.pos m / 2 ^ (- e) in if s then - v else v
  | _ => 0
  end.

Definition is_finite (x : float64) : bool :=
  match x with S754_zero _ | S754_finite _ _ _ => true | _ => false end.

(** The result of [int64(x)] for an [x] out of range depends on the machine. *)
Class Overflow := { overflow : float64 -> Z }.

(** [int64(x)] *)
Definition to_int64 {O : Overflow} (x : float64) : Z :=
  if is_finite x && in_int64 (truncate x) then truncate x else overflow x.

Example half_rupee : Fmul (of_int64 101) (Fdiv (of_int64 167) (of_int64 2)) =
  Fdiv (of_int64 16867) (of_int64 2).
Proof. reflexivity. Qed.

(** ** Rounding a fraction to an integer, ties to even *)
Definition loc (N D : Z) : location :=
  if N mod D =? 0 then loc_Exact else loc_Inexact (2 * (N mod D) ?= D).

Definition rne (N D : Z) : Z := round_nearest_even (N / D) (loc N D).

Section rne.
Context (N D : Z) (HD : 0 < D).

Lemma rne_cases :
  (rne N D = N / D /\ 2 * (N mod D) <= D) \/ (rne N D = N / D + 1 /\ D <= 2 * (N mod D)).
Proof using HD.
  pose proof (Z.mod_pos_bound N D HD) as Hr. unfold rne, loc.
  destruct (Z.eqb_spec (N mod D) 0) as [H0|H0]; simpl; [left; split; [done|lia]|].
  destruct (Z.compare_spec (2 * (N mod D)) D); simpl; [|left; split; [done|lia]|right; split; [done|lia]].
  destruct (Z.even (N / D)); [left|right]; (split; [done|lia]).
Qed.

Lemma rne_error : 2 * Z.abs (rne N D * D - N) <= D.
Proof using HD.
  pose proof (Z.div_mod N D ltac:(lia)) as Hd. pose proof (Z.mod_pos_bound N D HD).
  destruct rne_cases as [[-> H1]|[-> H1]]; lia.
Qed.

Lemma rne_exact : N mod D = 0 -> rne N D = N / D.
Proof using HD. intros H. unfold rne, loc. by rewrite H. Qed.

Lemma rne_lower c : c * D <= N -> c <= rne N D.
Proof using HD.
  intros Hc. assert (c <= N / D) by (apply Z.div_le_lower_bound; lia).
  destruct rne_cases as [[-> _]|[-> _]]; lia.
Qed.

Lemma rne_upper c : N <= c * D -> rne N D <= c.
Proof using HD.
  intros Hc. destruct (Z.eq_dec (N mod D) 0) as [H0|H0].
  - rewrite rne_exact by done. apply Z.div_le_upper_bound; lia.
  - assert (N / D < c).
    { apply Z.div_lt_upper_bound; [done|]. pose proof (Z.div_mod N D ltac:(lia)).
      destruct (Z.eq_dec N (c * D)) as [->|]; [|lia]. rewrite Z.mod_mul in H0 by lia. done. }
    destruct rne_cases as [[-> _]|[-> _]]; lia.
Qed.

(** Rounding depends on the fraction only. *)
Lemma rne_scale k : 0 < k -> rne (N * k) (D * k) = rne N D.
Proof using HD.
  intros Hk. unfold rne, loc. rewrite Z.div_mul_cancel_r by lia.
  rewrite Zmult_mod_distr_r. f_equal.
  destruct (Z.eqb_spec (N mod D) 0) as [->|H0]; [done|].
  destruct (Z.eqb_spec (N mod D * k) 0) as [H1|_]; [nia|]. f_equal.
  destruct (Z.compare_spec (2 * (N mod D)) D), (Z.compare_spec (2 * (N mod D * k)) (D * k));
    done || nia.
Qed.
End rne.

Lemma rne_mono N N' D : 0 < D -> N <= N' -> rne N D <= rne N' D.
Proof.
  intros HD HN. destruct (Z.eq_dec N N') as [->|Hne]; [done|].
  assert (N / D <= N' / D) as Hq by (apply Z.div_le_mono; lia).
  pose proof (Z.div_mod N D ltac:(lia)). pose proof (Z.div_mod N' D ltac:(lia)).
  destruct (rne_cases N D HD) as [[-> H1]|[-> H1]], (rne_cases N' D HD) as [[-> H2]|[-> H2]]; try lia.
  destruct (Z.eq_dec (N / D) (N' / D)) as [Heq|]; [|lia]. rewrite Heq in *. lia.
Qed.

(** ** Rounding a positive fraction to 53 bits *)
Definition ulp_exp (N D : Z) : Z := Z.log2 (N / D) - 52.
Definition rnd (N D : Z) : Z := let f := ulp_exp N D in rne N (D * 2 ^ f) * 2 ^ f.

(** The fractions [rnd] rounds: positive, with enough bits before the point. *)
Definition fine (N D : Z) : Prop := 0 < D /\ 2 ^ 52 <= N / D.

Section rnd.
Context (N D : Z) (HF : fine N D).
#[local] Abbreviation f := (ulp_exp N D).

Lemma ulp_exp_nonneg : 0 <= f.
Proof using HF.
  destruct HF as [_ H]. unfold ulp_exp. apply Z.log2_le_mono in H.
  rewrite Z.log2_pow2 in H by lia. lia.
Qed.

Lemma fine_den : 0 < D * 2 ^ f.
Proof using HF. destruct HF as [HD _]. pose proof ulp_exp_nonneg. nia. Qed.

(** [N / D] lies in the binade of 53-bit integers times [2 ^ f]. *)
Lemma binade : 2 ^ 52 * (D * 2 ^ f) <= N /\ N < 2 ^ 53 * (D * 2 ^ f).
Proof using HF.
  destruct HF as [HD Hq]. pose proof ulp_exp_nonneg as Hf.
  pose proof (Z.log2_spec (N / D) ltac:(lia)) as [Hlo Hhi].
  replace (Z.log2 (N / D)) with (52 + f) in * by (unfold ulp_exp; lia).
  rewrite Z.pow_add_r in Hlo by lia.
  replace (Z.succ (52 + f)) with (53 + f) in Hhi by lia. rewrite Z.pow_add_r in Hhi by lia.
  pose proof (Z.mul_div_le N D HD). pose proof (Z.mul_succ_div_gt N D HD).
  generalize dependent (2 ^ f). intros p. generalize dependent (N / D). intros. split; nia.
Qed.

Lemma rnd_bounds : 2 ^ 52 * 2 ^ f <= rnd N D <= 2 ^ 53 * 2 ^ f.
Proof using HF.
  pose proof binade as [Hlo Hhi]. pose proof fine_den as Hd. pose proof ulp_exp_nonneg as Hf.
  unfold rnd. cbv zeta. split; apply Z.mul_le_mono_nonneg_r; try lia.
  - by apply rne_lower.
  - apply rne_upper; lia.
Qed.

(** A relative error of half a unit in the last place. *)
Lemma rnd_error : 2 ^ 53 * Z.abs (rnd N D * D - N) <= N.
Proof using HF.
  pose proof binade as [Hlo _]. pose proof (rne_error N (D * 2 ^ f) fine_den) as He.
  unfold rnd. cbv zeta. replace (rne N (D * 2 ^ f) * 2 ^ f * D) with (rne N (D * 2 ^ f) * (D * 2 ^ f)) by lia.
  set (d := D * 2 ^ f) in *. clearbody d. lia.
Qed.
End rnd.

(** A bound on a fraction holds of a larger one. *)
Lemma frac_le N N' D D' c :
  0 < D -> 0 < D' -> N * D' <= N' * D -> c * D <= N -> c * D' <= N'.
Proof.
  intros HD HD' Hle Hc. apply (Z.mul_le_mono_pos_l _ _ D HD).
  assert (c * D * D' <= N * D') by (apply Z.mul_le_mono_nonneg_r; lia). lia.
Qed.

Lemma div_mono_frac N N' D D' : 0 < D -> 0 < D' -> N * D' <= N' * D -> N / D <= N' / D'.
Proof.
  intros HD HD' Hle. apply Z.div_le_lower_bound; [done|]. rewrite Z.mul_comm.
  apply (frac_le N N' D D'); [done..|]. rewrite Z.mul_comm. by apply Z.mul_div_le.
Qed.

Lemma fine_mono N N' D D' : 0 < D' -> fine N D -> N * D' <= N' * D -> fine N' D'.
Proof.
  intros HD' [HD HN] Hle. split; [done|]. etrans; [exact HN|]. by apply div_mono_frac.
Qed.

Lemma rnd_mono N N' D D' : 0 < D' -> fine N D -> N * D' <= N' * D -> rnd N D <= rnd N' D'.
Proof.
  intros HD' HF Hle. pose proof (fine_mono N N' D D' HD' HF Hle) as HF'.
  pose proof (proj1 HF) as HD.
  assert (ulp_exp N D <= ulp_exp N' D') as Hf.
  { unfold ulp_exp. pose proof (Z.log2_le_mono _ _ (div_mono_frac N N' D D' HD HD' Hle)). lia. }
  pose proof (ulp_exp_nonneg N D HF) as Hf0.
  destruct (Z.eq_dec (ulp_exp N D) (ulp_exp N' D')) as [Heq|Hne].
  - unfold rnd. cbv zeta. rewrite <-Heq. set (p := 2 ^ ulp_exp N D). assert (0 < p) as Hp by (by apply Z.pow_pos_nonneg).
    apply Z.mul_le_mono_nonneg_r; [lia|].
    rewrite <-(rne_scale N (D * p) ltac:(nia) D' HD'), <-(rne_scale N' (D' * p) ltac:(nia) D HD).
    replace (D' * p * D) with (D * p * D') by lia. apply rne_mono; [nia|done].
  - destruct (rnd_bounds N D HF) as [_ H1]. destruct (rnd_bounds N' D' HF') as [H2 _].
    etrans; [exact H1|]. etrans; [|exact H2].
    rewrite <-!Z.pow_add_r by lia. apply Z.pow_le_mono_r; lia.
Qed.

(** Numbers of 53 bits are not rounded. *)
Lemma rnd_exact c j D : 0 < D -> 0 < c <= 2 ^ 53 -> 0 <= j -> fine (c * 2 ^ j * D) D ->
  rnd (c * 2 ^ j * D) D = c * 2 ^ j.
Proof.
  intros HD Hc Hj HF. pose proof (ulp_exp_nonneg _ _ HF) as Hf.
  pose proof (binade _ _ HF) as [Hlo _]. unfold rnd. cbv zeta.
  set (f := ulp_exp (c * 2 ^ j * D) D) in *.
  assert (2 ^ 52 * 2 ^ f <= c * 2 ^ j) as Hle by nia.
  assert (f <= j \/ f = j + 1 /\ c = 2 ^ 53) as Hfj.
  { destruct (Z.le_gt_cases f j) as [|Hgt]; [by left|right].
    replace f with (j + (f - j)) in Hle by lia. rewrite Z.pow_add_r in Hle by lia.
    assert (2 ^ 52 * 2 ^ (f - j) <= c) as Hcl by (assert (0 < 2 ^ j) by (by apply Z.pow_pos_nonneg); nia).
    destruct (Z.eq_dec f (j + 1)) as [->|Hn].
    - replace (j + 1 - j) with 1 in Hcl by lia. split; [done|]. lia.
    - assert (2 ^ 2 <= 2 ^ (f - j)) by (apply Z.pow_le_mono_r; lia). lia. }
  assert (exists q, c * 2 ^ j = q * 2 ^ f) as [q Hq].
  { destruct Hfj as [Hfj|[-> ->]].
    - exists (c * 2 ^ (j - f)). rewrite <-Z.mul_assoc, <-Z.pow_add_r by lia. do 2 f_equal. lia.
    - exists (2 ^ 52). rewrite <-!Z.pow_add_r by lia. f_equal. lia. }
  assert (0 < D * 2 ^ f) as Hden by (apply fine_den; done).
  rewrite Hq. replace (q * 2 ^ f * D) with (q * (D * 2 ^ f)) by lia.
  rewrite rne_exact by (done || (by rewrite Z.mod_mul by lia)). by rewrite Z.div_mul by lia.
Qed.

(** ** The rounding of the Standard Library *)
Definition record_of (N D : Z) : shr_record := shr_record_of_loc (N / D) (loc N D).

Lemma shr_1_spec m r s : 0 <= m -> shr_1 (Build_shr_record m r s) = Build_shr_record (m / 2) (Z.odd m) (r || s).
Proof.
  intros Hm. rewrite <-Z.div2_div. destruct m as [|[p|p|]|p]; [done..|lia].
Qed.

Lemma shr_1_record N D : 0 <= N -> 0 < D -> shr_1 (record_of N D) = record_of N (D * 2).
Proof.
  intros HN HD. unfold record_of, loc.
  pose proof (Z.mod_pos_bound N D HD) as Hr. pose proof (Z.div_pos N D HN HD) as Hq.
  rewrite (Z.rem_mul_r N D 2) by lia. rewrite <-Z.div_div by lia.
  set (q := N / D) in *. set (r := N mod D) in *.
  assert (shr_1 (shr_record_of_loc q (if r =? 0 then loc_Exact else loc_Inexact (2 * r ?= D))) =
          Build_shr_record (q / 2) (Z.odd q) (negb (r =? 0))) as ->.
  { destruct (r =? 0); [by apply shr_1_spec|]. destruct (2 * r ?= D); simpl shr_record_of_loc;
      by rewrite shr_1_spec. }
  rewrite Zmod_odd. destruct (Z.odd q), (Z.eqb_spec r 0) as [->|H0]; simpl negb.
  - destruct (Z.eqb_spec (0 + D * 1) 0); [lia|]. destruct (Z.compare_spec (2 * (0 + D * 1)) (D * 2)); done || lia.
  - destruct (Z.eqb_spec (r + D * 1) 0); [lia|]. destruct (Z.compare_spec (2 * (r + D * 1)) (D * 2)); done || lia.
  - destruct (Z.eqb_spec (0 + D * 0) 0); [done|lia].
  - destruct (Z.eqb_spec (r + D * 0) 0); [lia|]. destruct (Z.compare_spec (2 * (r + D * 0)) (D * 2)); done || lia.
Qed.

Lemma iter_record N D p : 0 <= N -> 0 < D ->
  SpecFloat.iter_pos shr_1 p (record_of N D) = record_of N (D * 2 ^ Z.pos p).
Proof.
  intros HN. revert D. induction p as [p IH|p IH|]; intros D HD; cbn [SpecFloat.iter_pos].
  - rewrite shr_1_record by lia. rewrite !IH by nia.
    replace (Z.pos p~1) with (1 + Z.pos p + Z.pos p) by lia. rewrite !Z.pow_add_r by lia. f_equal. ring.
  - rewrite !IH by nia. replace (Z.pos p~0) with (Z.pos p + Z.pos p) by lia.
    rewrite Z.pow_add_r by lia. f_equal. ring.
  - by rewrite shr_1_record.
Qed.

Lemma record_loc N D : loc_of_shr_record (record_of N D) = loc N D.
Proof. unfold record_of. by destruct (loc N D) as [|[| |]]. Qed.

Lemma record_m N D : shr_m (record_of N D) = N / D.
Proof. unfold record_of. by destruct (loc N D) as [|[| |]]. Qed.

Lemma digits_log2 m : 0 < m -> Zdigits2 m = Z.log2 m + 1.
Proof.
  destruct m as [|p|]; [lia| |lia]. intros _. cbn.
  assert (Z.pos (digits2_pos p) = Z.log2 (Z.pos p) + 1) as ->; [|done].
  induction p as [p IH|p IH|]; [| |done]; cbn [digits2_pos]; rewrite Pos2Z.inj_succ, IH.
  - rewrite Pos2Z.inj_xI, Z.log2_succ_double by lia. lia.
  - rewrite Pos2Z.inj_xO, Z.log2_double by lia. lia.
Qed.

(** The value of a finite float, in units of [2 ^ -3000]. *)
Definition unit_exp : Z := 3000.
Definition val (x : float64) : Z :=
  match x with
  | S754_finite s m e => (if s then -1 else 1) * Z.pos m * 2 ^ (e + unit_exp)
  | _ => 0
  end.

Lemma shr_fexp_record N D e :
  0 <= N -> 0 < D ->
  let k := Z.max 0 (fexp prec emax (Zdigits2 (N / D) + e) - e) in
  shr_fexp prec emax (N / D) e (loc N D) = (record_of N (D * 2 ^ k), e + k).
Proof.
  intros HN HD k. unfold shr_fexp. fold (record_of N D). unfold shr.
  destruct (fexp prec emax (Zdigits2 (N / D) + e) - e) as [|p|p] eqn:Hk; unfold k; simpl Z.max.
  - by rewrite Z.pow_0_r, Z.mul_1_r, Z.add_0_r.
  - by rewrite iter_record.
  - by rewrite Z.pow_0_r, Z.mul_1_r, Z.add_0_r.
Qed.

Lemma loc_1 m : loc m 1 = loc_Exact.
Proof. unfold loc. by rewrite Z.mod_1_r. Qed.

(** The last step: the rounded mantissa fits, or is a power of two. *)
Lemma renormalize M e :
  2 ^ 52 <= M <= 2 ^ 53 -> -1074 <= e <= 970 -> 
  exists m e', shr_fexp prec emax M e loc_Exact = (Build_shr_record (Z.pos m) false false, e') /\
    Z.log2 (Z.pos m) = 52 /\
    e <= e' <= 971 /\ Z.pos m * 2 ^ (e' + unit_exp) = M * 2 ^ (e + unit_exp).
Proof.
  intros HM He. pose proof (shr_fexp_record M 1 e ltac:(lia) ltac:(lia)) as H.
  cbv zeta in H. rewrite Z.div_1_r, loc_1, digits_log2, Z.mul_1_l in H by lia. rewrite H. clear H.
  unfold fexp, emin, prec, emax in *.
  destruct (Z.eq_dec M (2 ^ 53)) as [->|Hne].
  - rewrite Z.log2_pow2 by lia.
    replace (Z.max 0 _) with 1 by lia. exists (2 ^ 52)%positive, (e + 1).
    split; [reflexivity|]. split; [reflexivity|]. split; [lia|]. unfold unit_exp.
    replace (e + 1 + 3000) with (1 + (e + 3000)) by lia. rewrite (Z.pow_add_r 2 1) by lia. lia.
  - assert (Z.log2 M < 53) as Hl by (apply Z.log2_lt_pow2; lia).
    replace (Z.max 0 _) with 0 by lia. destruct M as [|m|]; [lia| |lia]. exists m, e.
    rewrite Z.add_0_r. split; [|split; [|split; [lia|done]]].
    2:{ assert (52 <= Z.log2 (Z.pos m)) by (apply Z.log2_le_pow2; lia). lia. }
    unfold record_of. by rewrite Z.pow_0_r, loc_1, Z.div_1_r.
Qed.

(** Zero, or a number with all its 53 bits. *)
Definition normal (x : float64) : Prop :=
  match x with
  | S754_zero _ => True
  | S754_finite _ m e => Z.log2 (Z.pos m) = 52 /\ -1074 <= e <= 971
  | _ => False
  end.

Definition sign (s : bool) : Z := if s then -1 else 1.

Lemma log2_shift N D j : 0 < D -> 0 < N / D -> 0 <= j -> Z.log2 (N * 2 ^ j / D) = Z.log2 (N / D) + j.
Proof.
  intros HD Hq Hj. apply Z.log2_unique; [pose proof (Z.log2_nonneg (N / D)); lia|].
  pose proof (Z.log2_spec _ Hq) as [Hlo Hhi]. rewrite Z.pow_succ_r in Hhi by apply Z.log2_nonneg.
  rewrite Z.pow_succ_r, Z.pow_add_r by (pose proof (Z.log2_nonneg (N / D)); lia).
  assert (0 < 2 ^ j) as Hp by (by apply Z.pow_pos_nonneg).
  pose proof (Z.mul_div_le N D HD). pose proof (Z.mul_succ_div_gt N D HD).
  generalize dependent (2 ^ j). intros p Hp. generalize dependent (2 ^ Z.log2 (N / D)). intros a Ha Hb.
  split.
  - apply Z.div_le_lower_bound; [done|]. assert (D * a <= N) by nia. nia.
  - apply Z.div_lt_upper_bound; [done|]. assert (N < D * (2 * a)) by nia. nia.
Qed.

Lemma round_aux_val s N D e :
  0 < D -> 2 ^ 52 <= N / D -> -1022 <= Z.log2 (N / D) + e <= 1000 -> -2000 <= e ->
  let x := binary_round_aux prec emax s (N / D) e (loc N D) in
  normal x /\ val x = sign s * rnd (N * 2 ^ (e + unit_exp)) D.
Proof.
  intros HD Hq Hrange He x. set (l := Z.log2 (N / D)) in *.
  assert (52 <= l) as Hl by (apply Z.log2_le_pow2; lia).
  assert (0 <= N) as HN. { pose proof (Z.mul_div_le N D HD). nia. }
  unfold x, binary_round_aux. rewrite shr_fexp_record by done.
  rewrite digits_log2 by lia. fold l. unfold fexp, emin.
  replace (Z.max 0 _) with (l - 52) by (unfold prec, emax; lia).
  rewrite record_m, record_loc. fold (rne N (D * 2 ^ (l - 52))).
  set (j := e + unit_exp). assert (0 <= j) as Hj by (unfold j, unit_exp; lia).
  assert (fine N D) as HF by done.
  assert (ulp_exp N D = l - 52) as Hulp by done.
  pose proof (binade N D HF) as [Hlo Hhi]. pose proof (fine_den N D HF) as Hden. rewrite Hulp in *.
  destruct (renormalize (rne N (D * 2 ^ (l - 52))) (e + (l - 52))) as (m & e' & -> & Hm & He' & Hv).
  { split; [by apply rne_lower|apply rne_upper; lia]. }
  { lia. }
  cbn [shr_m]. replace (e' <=? emax - prec) with true by (symmetry; apply Z.leb_le; unfold emax, prec; lia).
  split; [split; [done|lia]|]. unfold val. rewrite <-Z.mul_assoc, Hv. fold (sign s). f_equal.
  unfold rnd, ulp_exp. rewrite log2_shift by lia. fold l. cbv zeta.
  replace (l + j - 52) with ((l - 52) + j) by lia.
  replace (D * 2 ^ (l - 52 + j)) with (D * 2 ^ (l - 52) * 2 ^ j)
    by (rewrite Z.pow_add_r by lia; ring).
  rewrite rne_scale by (done || by apply Z.pow_pos_nonneg). f_equal. f_equal. unfold j. lia.
Qed.

Lemma rnd_scale N D k : fine N D -> 0 < k -> rnd (N * k) (D * k) = rnd N D.
Proof.
  intros HF Hk. pose proof (fine_den N D HF). destruct HF as [HD _].
  unfold rnd, ulp_exp. rewrite Z.div_mul_cancel_r by lia. cbv zeta. fold (ulp_exp N D).
  replace (D * k * 2 ^ ulp_exp N D) with (D * 2 ^ ulp_exp N D * k) by ring.
  by rewrite rne_scale.
Qed.

(** ** The operations as one rounding of the exact result *)
Definition srnd (N D : Z) : Z := Z.sgn N * rnd (Z.abs N) D.

(** Far from underflow and overflow, in units. *)
Definition in_range (v : Z) : Prop := v = 0 \/ 2 ^ (unit_exp - 1000) <= Z.abs v < 2 ^ (unit_exp + 900).

Lemma in_range_log2 v : in_range v -> v <> 0 ->
  unit_exp - 1000 <= Z.log2 (Z.abs v) < unit_exp + 900.
Proof.
  intros [->|[Hlo Hhi]] Hv; [done|]. split.
  - apply Z.log2_le_pow2; [lia|done].
  - apply Z.log2_lt_pow2; [lia|done].
Qed.

Lemma log2_scaled m j : 0 < m -> 0 <= j -> Z.log2 (m * 2 ^ j) = Z.log2 m + j.
Proof. intros. rewrite Z.log2_mul_pow2 by done. lia. Qed.

Lemma iter_xO m d : Z.pos (Pos.iter xO m d) = Z.pos m * 2 ^ Z.pos d.
Proof.
  induction d as [|d IH] using Pos.peano_ind; [change (Z.pos m~0 = Z.pos m * 2); lia|].
  rewrite Pos.iter_succ, Pos2Z.inj_xO, IH, Pos2Z.inj_succ, Z.pow_succ_r by lia. lia.
Qed.

Lemma shl_align_val m e e' : let '(m1, e1) := shl_align m e e' in
  (e1 = Z.min e e') /\ Z.pos m1 = Z.pos m * 2 ^ (e - e1).
Proof.
  unfold shl_align. destruct (e' - e) as [|d|d] eqn:Hd.
  - replace (Z.min e e') with e by lia. rewrite Z.sub_diag. lia.
  - replace (Z.min e e') with e by lia. rewrite Z.sub_diag. lia.
  - split; [lia|]. rewrite iter_xO. do 2 f_equal. lia.
Qed.

Lemma binary_round_val s m e :
  -1000 <= Z.log2 (Z.pos m) + e <= 900 -> -2000 <= e ->
  let x := binary_round prec emax s m e in
  normal x /\ val x = sign s * rnd (Z.pos m * 2 ^ (e + unit_exp)) 1.
Proof.
  intros Hr He x. unfold x, binary_round.
  change (Z.pos (digits2_pos m)) with (Zdigits2 (Z.pos m)). rewrite digits_log2 by lia.
  set (l := Z.log2 (Z.pos m)) in *. unfold fexp, emin.
  replace (Z.max _ _) with (l + e - 52) by (unfold prec, emax; lia).
  pose proof (shl_align_val m e (l + e - 52)) as H.
  destruct (shl_align m e (l + e - 52)) as [mz ez]. destruct H as [Hez Hmz].
  assert (Z.log2 (Z.pos mz) = l + (e - ez)) as Hlz.
  { rewrite Hmz, log2_scaled by lia. done. }
  pose proof (round_aux_val s (Z.pos mz) 1 ez ltac:(lia)) as H.
  rewrite Z.div_1_r, loc_1 in H. destruct H as [Hn Hv]; [|lia|lia|].
  { apply Z.log2_le_pow2; lia. }
  split; [done|]. rewrite Hv, Hmz, <-Z.mul_assoc, <-Z.pow_add_r by (unfold unit_exp; lia).
  do 4 f_equal. lia.
Qed.

Lemma binary_normalize_val m e :
  in_range (m * 2 ^ (e + unit_exp)) -> -2000 <= e ->
  let x := binary_normalize prec emax m e false in
  normal x /\ val x = srnd (m * 2 ^ (e + unit_exp)) 1.
Proof.
  intros Hr He x. assert (0 < 2 ^ (e + unit_exp)) as Hp
    by (apply Z.pow_pos_nonneg; unfold unit_exp; lia).
  unfold x, srnd. rewrite Z.sgn_mul, Z.abs_mul, (Z.sgn_pos (2 ^ _)), (Z.abs_eq (2 ^ _)), Z.mul_1_r by lia.
  assert (forall p, (m = Z.pos p \/ m = Z.neg p) -> -1000 <= Z.log2 (Z.pos p) + e <= 900) as Hl.
  { intros p Hm. apply in_range_log2 in Hr; [|nia].
    rewrite Z.abs_mul, (Z.abs_eq (2 ^ _)) in Hr by lia.
    replace (Z.abs m) with (Z.pos p) in Hr by lia. rewrite log2_scaled in Hr by (unfold unit_exp; lia). lia. }
  destruct m as [|p|p]; cbn [binary_normalize Z.sgn Z.abs].
  - done.
  - apply (binary_round_val false p e); [|done]. apply Hl. by left.
  - apply (binary_round_val true p e); [|done]. apply Hl. by right.
Qed.

Lemma of_int64_val z :
  Z.abs z < 2 ^ 64 -> normal (of_int64 z) /\ val (of_int64 z) = srnd (z * 2 ^ unit_exp) 1.
Proof.
  intros Hz. apply (binary_normalize_val z 0); [|lia]. cbn [Z.add].
  destruct (Z.eq_dec z 0) as [->|H0]; [by left|right].
  rewrite Z.abs_mul, (Z.abs_eq (2 ^ _)) by (by apply Z.pow_nonneg). split.
  - etrans; [apply (Z.pow_le_mono_r 2 _ unit_exp)|]; [lia|unfold unit_exp; lia|].
    rewrite <-(Z.mul_1_l (2 ^ unit_exp)) at 1. apply Z.mul_le_mono_nonneg_r; [by apply Z.pow_nonneg|lia].
  - replace (unit_exp + 900) with (900 + unit_exp) by lia.
    rewrite (Z.pow_add_r 2 900 unit_exp) by (unfold unit_exp; lia).
    apply Z.mul_lt_mono_pos_r; [by apply Z.pow_pos_nonneg|]. etrans; [exact Hz|]. apply Z.pow_lt_mono_r; lia.
Qed.

Lemma srnd_exact c j D : 0 < D -> Z.abs c <= 2 ^ 53 -> 52 <= j -> srnd (c * 2 ^ j * D) D = c * 2 ^ j.
Proof.
  intros HD Hc Hj. assert (2 ^ 52 <= 2 ^ j) as Hp by (apply Z.pow_le_mono_r; lia).
  destruct (Z.eq_dec c 0) as [->|H0]; [done|].
  unfold srnd. rewrite !Z.abs_mul, !Z.sgn_mul, (Z.abs_eq (2 ^ j)), (Z.abs_eq D), (Z.sgn_pos (2 ^ j)), (Z.sgn_pos D) by lia.
  rewrite rnd_exact; [|lia|lia|lia|].
  - transitivity (Z.abs c * Z.sgn c * 2 ^ j); [ring|by rewrite Z.abs_sgn].
  - split; [done|]. rewrite Z.div_mul by lia. nia.
Qed.

Lemma of_int64_exact z : Z.abs z <= 2 ^ 53 -> val (of_int64 z) = z * 2 ^ unit_exp.
Proof.
  intros Hz. rewrite (proj2 (of_int64_val z ltac:(lia))). rewrite <-(Z.mul_1_r (z * 2 ^ unit_exp)) at 1.
  apply srnd_exact; [lia|done|unfold unit_exp; lia].
Qed.

Lemma mantissa_bounds m : Z.log2 (Z.pos m) = 52 -> 2 ^ 52 <= Z.pos m < 2 ^ 53.
Proof.
  intros H. split; [apply Z.log2_le_pow2; lia|apply Z.log2_lt_pow2; lia].
Qed.

Lemma val_finite s m e : val (S754_finite s m e) = sign s * (Z.pos m * 2 ^ (e + unit_exp)).
Proof. unfold val. fold (sign s). lia. Qed.

Lemma normal_exact x : normal x -> srnd (val x) 1 = val x.
Proof.
  destruct x as [s|s| |s m e]; intros Hx; try done. destruct Hx as [Hm He].
  apply mantissa_bounds in Hm. rewrite val_finite.
  replace (sign s * (Z.pos m * 2 ^ (e + unit_exp))) with (sign s * Z.pos m * 2 ^ (e + unit_exp) * 1) at 1 by lia.
  rewrite srnd_exact; [lia|lia|destruct s; simpl sign; lia|unfold unit_exp; lia].
Qed.

Lemma val_zero x : normal x -> val x = 0 -> exists s, x = S754_zero s.
Proof.
  destruct x as [s|s| |s m e]; intros Hx H; [by exists s|done|done|].
  rewrite val_finite in H. assert (0 < 2 ^ (e + unit_exp)) by (apply Z.pow_pos_nonneg; unfold unit_exp; simpl in Hx; lia).
  destruct s; simpl sign in H; nia.
Qed.

Lemma Fsub_val x y :
  normal x -> normal y -> in_range (val x - val y) ->
  normal (Fsub x y) /\ val (Fsub x y) = srnd (val x - val y) 1.
Proof.
  intros Hx Hy Hr. unfold Fsub.
  destruct x as [sx|sx| |sx mx ex], y as [sy|sy| |sy my ey]; try done.
  - by destruct sx, sy.
  - cbn [SFsub]. split; [exact Hy|].
    assert (val (S754_zero sx) - val (S754_finite sy my ey) = val (S754_finite (negb sy) my ey)) as Hv
      by (rewrite !val_finite; destruct sy; simpl; lia).
    rewrite Hv. symmetry. by apply normal_exact.
  - cbn [SFsub]. split; [exact Hx|]. rewrite Z.sub_0_r. symmetry. by apply normal_exact.
  - destruct Hx as [_ Hex], Hy as [_ Hey]. cbn [SFsub]. set (ez := Z.min ex ey).
    pose proof (shl_align_val mx ex ez) as H1. pose proof (shl_align_val my ey ez) as H2.
    destruct (shl_align mx ex ez) as [m1 e1], (shl_align my ey ez) as [m2 e2]. cbn [fst].
    destruct H1 as [-> H1], H2 as [-> H2].
    replace (Z.min ex ez) with ez in H1 by lia. replace (Z.min ey ez) with ez in H2 by lia.
    assert ((cond_Zopp sx (Z.pos m1) - cond_Zopp sy (Z.pos m2)) * 2 ^ (ez + unit_exp) =
            val (S754_finite sx mx ex) - val (S754_finite sy my ey)) as Hv.
    { rewrite !val_finite.
      replace (ex + unit_exp) with ((ex - ez) + (ez + unit_exp)) by lia.
      replace (ey + unit_exp) with ((ey - ez) + (ez + unit_exp)) by lia.
      rewrite !(Z.pow_add_r 2 _ (ez + unit_exp)) by (unfold unit_exp; lia).
      rewrite H1, H2. destruct sx, sy; simpl cond_Zopp; simpl sign; ring. }
    rewrite <-Hv in *. apply binary_normalize_val; [done|lia].
Qed.

(** The product of two values, as a fraction of the unit. *)
Definition product_in_range (v : Z) : Prop :=
  2 ^ (unit_exp - 1000) * 2 ^ unit_exp <= Z.abs v < 2 ^ (unit_exp + 900) * 2 ^ unit_exp.

Lemma Fmul_val x y :
  normal x -> normal y -> val x * val y = 0 \/ product_in_range (val x * val y) ->
  normal (Fmul x y) /\ val (Fmul x y) = srnd (val x * val y) (2 ^ unit_exp).
Proof.
  intros Hx Hy Hr. unfold Fmul.
  destruct x as [sx|sx| |sx mx ex], y as [sy|sy| |sy my ey]; try done.
  - cbn [SFmul val]. by rewrite Z.mul_0_r.
  - destruct Hx as [Hmx Hex], Hy as [Hmy Hey].
    apply mantissa_bounds in Hmx, Hmy. cbn [SFmul].
    set (M := Z.pos mx * Z.pos my). change (Z.pos (mx * my)) with M.
    assert (2 ^ 104 <= M < 2 ^ 106) as HM by (unfold M; nia).
    assert (val (S754_finite sx mx ex) * val (S754_finite sy my ey) =
            sign (xorb sx sy) * (M * 2 ^ (ex + ey + unit_exp) * 2 ^ unit_exp)) as Hv.
    { assert (2 ^ (ex + ey + unit_exp) * 2 ^ unit_exp = 2 ^ (ex + unit_exp) * 2 ^ (ey + unit_exp)) as Hp.
      { rewrite <-!Z.pow_add_r by (unfold unit_exp; lia). f_equal. lia. }
      rewrite !val_finite, <-(Z.mul_assoc M), Hp. unfold M. destruct sx, sy; simpl sign; ring. }
    assert (0 < 2 ^ unit_exp) as Hu by (by apply Z.pow_pos_nonneg).
    assert (0 < 2 ^ (ex + ey + unit_exp)) as Hp by (apply Z.pow_pos_nonneg; unfold unit_exp; lia).
    assert (0 < M * 2 ^ (ex + ey + unit_exp) * 2 ^ unit_exp) as HX
      by (apply Z.mul_pos_pos; [apply Z.mul_pos_pos|]; lia).
    rewrite Hv in *. assert (Z.abs (sign (xorb sx sy)) = 1) as Hs by (by destruct (xorb sx sy)).
    unfold product_in_range in Hr. rewrite Z.abs_mul, Hs, Z.mul_1_l, (Z.abs_eq (M * _ * _)) in Hr by lia.
    assert (-1000 <= Z.log2 M + (ex + ey) < 900) as Hl.
    { destruct Hr as [Hr|[Hlo Hhi]]; [exfalso; destruct (xorb sx sy); simpl sign in Hr; lia|].
      apply Z.mul_le_mono_pos_r in Hlo; [|done]. apply Z.mul_lt_mono_pos_r in Hhi; [|done].
      apply Z.log2_le_pow2 in Hlo; [|by apply Z.mul_pos_pos; lia].
      apply Z.log2_lt_pow2 in Hhi; [|by apply Z.mul_pos_pos; lia].
      rewrite log2_scaled in Hlo, Hhi by (unfold unit_exp; lia). lia. }
    assert (Z.log2 M < 106) as HlM by (apply Z.log2_lt_pow2; lia).
    pose proof (round_aux_val (xorb sx sy) M 1 (ex + ey) ltac:(lia)) as H.
    rewrite Z.div_1_r, loc_1 in H. destruct H as [Hn Hval]; [lia|lia|lia|]. split; [exact Hn|].
    change (val (binary_round_aux prec emax (xorb sx sy) M (ex + ey) loc_Exact) = srnd
      (sign (xorb sx sy) * (M * 2 ^ (ex + ey + unit_exp) * 2 ^ unit_exp)) (2 ^ unit_exp)).
    rewrite Hval. unfold srnd. rewrite Z.sgn_mul, Z.abs_mul, Hs, Z.mul_1_l, Z.abs_eq by lia.
    rewrite (Z.sgn_pos (_ * _ * _)) by lia. rewrite Z.mul_1_r.
    rewrite <-(rnd_scale (M * 2 ^ (ex + ey + unit_exp)) 1 (2 ^ unit_exp)), Z.mul_1_l; [|split; [done|]|done].
    + f_equal. by destruct (xorb sx sy).
    + rewrite Z.div_1_r. apply (Z.le_trans _ (M * 1)); [lia|]. apply Z.mul_le_mono_nonneg_l; lia.
Qed.

Lemma new_location_loc N D : 0 < D -> new_location D (N mod D) = loc N D.
Proof.
  intros HD. unfold new_location, new_location_even, new_location_odd, loc.
  change (IntDef.Z.even D) with (Z.even D).
  destruct (Z.even D) eqn:He; [done|]. destruct (Z.eqb_spec (N mod D) 0); [done|]. f_equal.
  assert (Z.even (2 * (N mod D)) = true) as H2 by (by rewrite Z.even_mul).
  destruct (Z.compare_spec (2 * (N mod D) + 1) D), (Z.compare_spec (2 * (N mod D)) D); try done; try lia.
  exfalso. congruence.
Qed.

Lemma abs_val s m e :
  Z.abs (val (S754_finite s m e)) = Z.pos m * 2 ^ (e + unit_exp).
Proof.
  rewrite val_finite, Z.abs_mul, (Z.abs_eq (Z.pos m * _)); [by destruct s; simpl sign; lia|].
  apply Z.mul_nonneg_nonneg; [lia|]. by apply Z.pow_nonneg.
Qed.

Lemma exponent_bound m n e f k :
  2 ^ 52 <= Z.pos m -> Z.pos n < 2 ^ 53 -> 0 <= e -> 0 <= f -> 0 <= k ->
  Z.pos m * 2 ^ e <= Z.pos n * 2 ^ f * 2 ^ k -> e <= f + k.
Proof.
  intros Hm Hn He Hf Hk H. destruct (Z.le_gt_cases e (f + k)) as [|Hgt]; [done|exfalso].
  assert (2 ^ 52 * 2 ^ e < 2 ^ 53 * 2 ^ (f + k)) as Hc.
  { apply (Z.le_lt_trans _ (Z.pos m * 2 ^ e)); [apply Z.mul_le_mono_nonneg_r; [by apply Z.pow_nonneg|done]|].
    eapply Z.le_lt_trans; [exact H|]. rewrite <-Z.mul_assoc, <-Z.pow_add_r by lia.
    apply Z.mul_lt_mono_pos_r; [apply Z.pow_pos_nonneg; lia|done]. }
  assert (2 ^ 53 * 2 ^ (f + k) <= 2 ^ 52 * 2 ^ e) as Hc'; [|lia].
  rewrite <-!Z.pow_add_r by lia. apply Z.pow_le_mono_r; lia.
Qed.

(** The quotient of two values. *)
Lemma Fdiv_val x y :
  normal x -> normal y -> val y <> 0 ->
  Z.abs (val x) <= Z.abs (val y) * 2 ^ 800 -> val x = 0 \/ Z.abs (val y) <= Z.abs (val x) * 2 ^ 900 ->
  normal (Fdiv x y) /\
  val (Fdiv x y) = Z.sgn (val y) * srnd (val x * 2 ^ unit_exp) (Z.abs (val y)).
Proof.
  intros Hx Hy H0 Hhi Hlo. unfold Fdiv.
  destruct x as [sx|sx| |sx mx ex], y as [sy|sy| |sy my ey]; try done.
  { cbn [SFdiv val]. split; [done|]. rewrite Z.mul_0_l. unfold srnd. simpl. lia. }
  destruct Hx as [Hmx Hex], Hy as [Hmy Hey]. pose proof (mantissa_bounds _ Hmx) as Bx.
  pose proof (mantissa_bounds _ Hmy) as By.
  assert (0 < 2 ^ (ex + unit_exp)) as Hpx by (apply Z.pow_pos_nonneg; unfold unit_exp; lia).
  assert (0 < 2 ^ (ey + unit_exp)) as Hpy by (apply Z.pow_pos_nonneg; unfold unit_exp; lia).
  assert (-1000 <= ex - ey <= 1000) as Hr .
  { rewrite !abs_val in *. assert (ex + unit_exp <= ey + unit_exp + 800)
      by (apply (exponent_bound mx my); unfold unit_exp in *; lia).
    destruct Hlo as [Hlo|Hlo]; [exfalso; rewrite val_finite in Hlo; destruct sx; simpl sign in Hlo; nia|].
    assert (ey + unit_exp <= ex + unit_exp + 900)
      by (apply (exponent_bound my mx); unfold unit_exp in *; lia). lia. }
  set (N := Z.pos mx * 2 ^ 53). assert (0 < Z.pos my) as HD by done.
  assert (2 ^ 52 <= N / Z.pos my < 2 ^ 54) as HN.
  { unfold N. split; [apply Z.div_le_lower_bound|apply Z.div_lt_upper_bound]; lia. }
  pose proof (round_aux_val (xorb sx sy) N (Z.pos my) (ex - ey - 53) HD) as [Hn Hv].
  { lia. }
  { assert (52 <= Z.log2 (N / Z.pos my)) by (apply Z.log2_le_pow2; lia).
    assert (Z.log2 (N / Z.pos my) < 54) by (apply Z.log2_lt_pow2; lia). lia. }
  { lia. }
  assert (SFdiv prec emax (S754_finite sx mx ex) (S754_finite sy my ey) =
    binary_round_aux prec emax (xorb sx sy) (N / Z.pos my) (ex - ey - 53) (loc N (Z.pos my))) as ->.
  { cbn [SFdiv]. unfold SFdiv_core_binary. rewrite !digits_log2, Hmx, Hmy by lia. unfold fexp, emin.
    replace (Z.min _ (ex - ey)) with (ex - ey - 53) by (unfold prec, emax; lia).
    replace (ex - ey - (ex - ey - 53)) with 53 by lia. cbv iota. rewrite Z.shiftl_mul_pow2 by lia.
    fold N. pose proof (Z.div_eucl_eq N (Z.pos my) ltac:(lia)) as Heu.
    rewrite <-(new_location_loc N) by done. unfold Z.div, Z.modulo. by destruct (Z.div_eucl N (Z.pos my)). }
  split; [exact Hn|]. rewrite Hv. unfold srnd. set (j := ex - ey - 53 + unit_exp).
  assert (0 <= j) as Hj by (unfold j, unit_exp; lia).
  assert (Z.abs (val (S754_finite sx mx ex) * 2 ^ unit_exp) = N * 2 ^ j * 2 ^ (ey + unit_exp)) as Hax.
  { rewrite Z.abs_mul, abs_val, (Z.abs_eq (2 ^ unit_exp)) by (by apply Z.pow_nonneg). unfold N, j.
    rewrite <-!Z.mul_assoc, <-!Z.pow_add_r by (unfold unit_exp; lia). do 2 f_equal. lia. }
  rewrite Hax, abs_val, rnd_scale; [|split; [done|]|done].
  2:{ etrans; [apply (proj1 HN)|]. apply Z.div_le_mono; [done|].
      rewrite <-(Z.mul_1_r N) at 1. apply Z.mul_le_mono_nonneg_l; [unfold N; lia|].
      apply (Z.pow_le_mono_r 2 0); lia. }
  rewrite Z.sgn_mul, (Z.sgn_pos (2 ^ unit_exp)) by (by apply Z.pow_pos_nonneg).
  assert (forall s m e, 0 < 2 ^ (e + unit_exp) -> Z.sgn (val (S754_finite s m e)) = sign s) as Hsg.
  { intros s m e Hp. rewrite val_finite, Z.sgn_mul, (Z.sgn_pos (_ * _)) by nia. by destruct s. }
  rewrite !Hsg by done. destruct sx, sy; simpl sign; lia.
Qed.

(** Truncation and comparison with zero, in units. *)
Lemma truncate_val x : normal x -> truncate x = Z.quot (val x) (2 ^ unit_exp).
Proof.
  destruct x as [s|s| |s m e]; intros Hx; try done. destruct Hx as [Hm He].
  assert (0 < 2 ^ unit_exp) as Hu by (by apply Z.pow_pos_nonneg).
  assert ((if 0 <=? e then Z.pos m * 2 ^ e else Z.pos m / 2 ^ (- e)) =
          Z.pos m * 2 ^ (e + unit_exp) / 2 ^ unit_exp) as Hq.
  { destruct (Z.leb_spec 0 e).
    - by rewrite Z.pow_add_r, Z.mul_assoc, Z.div_mul by (unfold unit_exp; lia).
    - replace (2 ^ unit_exp) with (2 ^ (- e) * 2 ^ (e + unit_exp))
        by (rewrite <-Z.pow_add_r by (unfold unit_exp; lia); f_equal; lia).
      rewrite Z.div_mul_cancel_r; [done|..]; apply Z.pow_nonzero; unfold unit_exp; lia. }
  cbn [truncate]. rewrite Hq, val_finite.
  assert (0 <= Z.pos m * 2 ^ (e + unit_exp)) as Hp by (apply Z.mul_nonneg_nonneg; [lia|by apply Z.pow_nonneg]).
  rewrite <-Z.quot_div_nonneg by done. destruct s; simpl sign.
  - rewrite <-Z.quot_opp_l by lia. f_equal; lia.
  - f_equal; lia.
Qed.

Lemma to_int64_val {O : Overflow} x :
  normal x -> in_int64 (Z.quot (val x) (2 ^ unit_exp)) = true ->
  to_int64 x = Z.quot (val x) (2 ^ unit_exp).
Proof.
  intros Hx Hin. unfold to_int64. rewrite truncate_val, Hin by done.
  destruct x; done.
Qed.

Lemma Fltb_zero x : normal x -> SFltb x (S754_zero false) = (val x <? 0).
Proof.
  destruct x as [s|s| |s m e]; intros Hx; try done. destruct Hx as [_ He].
  rewrite val_finite. assert (0 < 2 ^ (e + unit_exp)) by (apply Z.pow_pos_nonneg; unfold unit_exp; lia).
  destruct s; simpl sign; cbn; symmetry; [apply Z.ltb_lt|apply Z.ltb_ge]; nia.
Qed.
