(* ===== verification/Currency.v ===== *)
(** * internal/service/currency.go: conversion and formatting of minor units *)
From S2P Require Import Prelude GoTime Float.

Definition CurrencyUSD : string := "USD".
Definition CurrencyINR : string := "INR".

Definition ErrUnsupportedCurrency : error := Sentinel "unsupported currency asset type".

(** The constant 83.50. *)
Definition usdToInrRateFloat : float64 := binary_normalize prec emax 167 (-1) false.

Definition ConvertMinorUnits {O : Overflow} (amountMinor : Z) (fromCurrency toCurrency : string) :
    res Z :=
  if bool_decide (fromCurrency = toCurrency) then Ok amountMinor
  else if bool_decide (fromCurrency = CurrencyUSD) && bool_decide (toCurrency = CurrencyINR) then
    Ok (to_int64 (Fmul (of_int64 amountMinor) usdToInrRateFloat))
  else if bool_decide (fromCurrency = CurrencyINR) && bool_decide (toCurrency = CurrencyUSD) then
    Ok (to_int64 (Fdiv (of_int64 amountMinor) usdToInrRateFloat))
  else Err (Wrapf "" ErrUnsupportedCurrency
              (": cannot convert from " +:+ fromCurrency +:+ " to " +:+ toCurrency)).

(** The [%.2f] verb: the exact value rounded to two decimals, ties to even. *)
Definition format_2f (x : float64) : string :=
  match x with
  | S754_zero s => (if s then "-" else "") +:+ "0.00"
  | S754_infinity s => (if s then "-Inf" else "+Inf")
  | S754_nan => "NaN"
  | S754_finite s m e =>
      let cents := rne (100 * Z.pos m * 2 ^ Z.max e 0) (2 ^ Z.max (- e) 0) in
      (if s then "-" else "") +:+ itoa (cents / 100) +:+ "." +:+ pad 2 (cents mod 100)
  end.

Definition FormatToMajorUnits (amountMinor : Z) : string :=
  format_2f (Fdiv (of_int64 amountMinor) (of_int64 100)).

Example format_price : FormatToMajorUnits (-1234505) = "-12345.05".
Proof. vm_compute. reflexivity. Qed.

(** ** Facts *)
Abbreviation U := (2 ^ unit_exp).

Lemma U_pos : 0 < U.
Proof. by apply Z.pow_pos_nonneg. Qed.

Lemma rate_val : normal usdToInrRateFloat /\ val usdToInrRateFloat = 167 * 2 ^ (unit_exp - 1).
Proof. split; [by vm_compute|]. reflexivity. Qed.

(** An integer times [U] is far from the ends of the range. *)
Lemma scaled_range z k : 1 <= Z.abs z < 2 ^ 200 -> 0 <= k <= 2 ->
  2 ^ (unit_exp - 1000) <= Z.abs z * 2 ^ (unit_exp - k) < 2 ^ (unit_exp + 900).
Proof.
  intros Hz Hk. assert (0 < 2 ^ (unit_exp - k)) as Hp by (apply Z.pow_pos_nonneg; unfold unit_exp; lia).
  split.
  - apply (Z.le_trans _ (1 * 2 ^ (unit_exp - k))).
    + rewrite Z.mul_1_l. apply Z.pow_le_mono_r; unfold unit_exp; lia.
    + apply Z.mul_le_mono_nonneg_r; lia.
  - apply (Z.lt_le_trans _ (2 ^ 200 * 2 ^ (unit_exp - k))).
    + apply Z.mul_lt_mono_pos_r; lia.
    + rewrite <-Z.pow_add_r by (unfold unit_exp; lia). apply Z.pow_le_mono_r; unfold unit_exp; lia.
Qed.

Lemma quot_div_sgn z d : 0 < d -> Z.quot z d = Z.sgn z * (Z.abs z / d).
Proof.
  intros Hd. destruct (Z.le_gt_cases 0 z) as [Hz|Hz].
  - rewrite Z.quot_div_nonneg, Z.abs_eq by lia. destruct (Z.eq_dec z 0) as [->|]; [done|].
    rewrite Z.sgn_pos by lia. lia.
  - rewrite <-(Z.opp_involutive z) at 1. rewrite Z.quot_opp_l, Z.quot_div_nonneg, Z.abs_neq, Z.sgn_neg by lia.
    lia.
Qed.

Lemma quot_in_int64 z d : 0 < d -> Z.abs z <= int64_max -> in_int64 (Z.quot z d) = true.
Proof.
  intros Hd Hz. apply in_int64_spec. rewrite quot_div_sgn by done.
  assert (Z.abs z / d <= int64_max) by (apply Z.div_le_upper_bound; unfold int64_max in *; nia).
  assert (0 <= Z.abs z / d) by (apply Z.div_pos; lia). unfold int64_min, int64_max in *.
  destruct (Z.sgn_spec z) as [[_ ->]|[[_ ->]|[_ ->]]]; lia.
Qed.

Section conversion.
Context {O : Overflow}.

Lemma usd_to_inr a : Z.abs (167 * a) <= 2 ^ 53 ->
  ConvertMinorUnits a "USD" "INR" = Ok (Z.quot (167 * a) 2).
Proof.
  intros Ha. change (Ok (to_int64 (Fmul (of_int64 a) usdToInrRateFloat)) = Ok (Z.quot (167 * a) 2)).
  f_equal.
  pose proof (of_int64_val a ltac:(lia)) as [Hn _]. pose proof (of_int64_exact a ltac:(lia)) as Hv.
  destruct rate_val as [Hrn Hrv].
  assert (val (of_int64 a) * val usdToInrRateFloat = 167 * a * 2 ^ (unit_exp - 1) * U) as Hp.
  { rewrite Hv, Hrv. ring. }
  destruct (Fmul_val (of_int64 a) usdToInrRateFloat Hn Hrn) as [Hm Hmv].
  { rewrite Hp. destruct (Z.eq_dec a 0) as [->|H0]; [by left|right]. unfold product_in_range.
    pose proof U_pos. rewrite !Z.abs_mul, (Z.abs_eq U), (Z.abs_eq (2 ^ _)), <-Z.abs_mul by (lia || by apply Z.pow_nonneg).
    pose proof (scaled_range (167 * a) 1 ltac:(lia) ltac:(lia)) as [H1 H2].
    split; [apply Z.mul_le_mono_nonneg_r; lia|apply Z.mul_lt_mono_pos_r; lia]. }
  rewrite Hp, srnd_exact in Hmv by (apply U_pos || done || (unfold unit_exp; lia)).
  assert (Z.quot (val (Fmul (of_int64 a) usdToInrRateFloat)) U = Z.quot (167 * a) 2) as Hq.
  { rewrite Hmv. change U with (2 ^ (1 + (unit_exp - 1))).
    rewrite (Z.pow_add_r 2 1) by (unfold unit_exp; lia). rewrite Z.quot_mul_cancel_r; [done|lia|].
    by apply Z.pow_nonzero. }
  rewrite to_int64_val; [exact Hq|exact Hm|]. rewrite Hq. apply quot_in_int64; unfold int64_max; lia.
Qed.

Lemma fine_scaled n d : 1 <= n -> 0 < d <= 2 ^ 64 -> fine (n * U) d.
Proof.
  intros Hn Hd. split; [lia|]. apply Z.div_le_lower_bound; [lia|].
  apply (Z.le_trans _ (2 ^ 64 * 2 ^ 52)); [lia|]. rewrite <-Z.pow_add_r by lia.
  apply (Z.le_trans _ (1 * U)).
  - rewrite Z.mul_1_l. apply Z.pow_le_mono_r; unfold unit_exp; lia.
  - apply Z.mul_le_mono_nonneg_r; [apply Z.lt_le_incl, U_pos|done].
Qed.

Lemma rnd_nonneg N D : fine N D -> 0 <= rnd N D.
Proof.
  intros HF. pose proof (rnd_bounds _ _ HF) as [Hb _].
  assert (0 < 2 ^ ulp_exp N D) by (apply Z.pow_pos_nonneg; [lia|by apply ulp_exp_nonneg]). lia.
Qed.

Lemma quot_sgn_mul a R d : a <> 0 -> 0 <= R -> 0 < d -> Z.quot (Z.sgn a * R) d = Z.sgn a * (R / d).
Proof.
  intros Ha HR Hd. rewrite <-Z.quot_div_nonneg by done.
  destruct (Z.sgn_spec a) as [[? ->]|[[? ->]|[? ->]]]; [by rewrite !Z.mul_1_l|lia|].
  replace (-1 * R) with (- R) by lia. rewrite Z.quot_opp_l by lia. lia.
Qed.

(** The truncation of a rounded quotient is the integer quotient. *)
Lemma trunc_rnd n d : 1 <= n < 2 ^ 53 -> 0 < d <= 2 ^ 64 -> rnd (n * U) d / U = n / d.
Proof.
  intros Hn Hd. pose proof U_pos as HU. pose proof (fine_scaled n d ltac:(lia) Hd) as HF.
  pose proof (rnd_error _ _ HF) as He. pose proof (Z.mul_div_le n d ltac:(lia)) as Hlo.
  pose proof (Z.mul_succ_div_gt n d ltac:(lia)) as Hhi.
  set (q := n / d) in *. set (R := rnd (n * U) d) in *.
  assert (q * U <= R) as H1.
  { destruct (Z.eq_dec q 0) as [->|Hq].
    - by apply rnd_nonneg.
    - assert (0 <= q) as Hq0 by (apply Z.div_pos; lia). assert (q <= n) as Hqn by nia.
      rewrite <-(rnd_exact q unit_exp 1), Z.mul_1_r; [|lia|lia|done|rewrite Z.mul_1_r; apply fine_scaled; lia].
      apply rnd_mono; [lia|apply fine_scaled; lia|].
      transitivity (d * q * U); [lia|]. rewrite Z.mul_1_r. apply Z.mul_le_mono_nonneg_r; lia. }
  assert (R < Z.succ q * U) as H2.
  { assert (n * U < 2 ^ 53 * U) by (apply Z.mul_lt_mono_pos_r; lia).
    assert (R * d < n * U + U) as Hr by lia.
    assert (n * U + U <= Z.succ q * U * d) as Hle.
    { transitivity ((n + 1) * U); [lia|]. transitivity (d * Z.succ q * U); [|lia].
      apply Z.mul_le_mono_nonneg_r; lia. }
    apply (Z.mul_lt_mono_pos_r d); lia. }
  symmetry. apply (Z.div_unique _ _ _ (R - q * U)); [left; lia|lia].
Qed.

Lemma inr_to_usd a : Z.abs (2 * a) < 2 ^ 53 ->
  ConvertMinorUnits a "INR" "USD" = Ok (Z.quot (2 * a) 167).
Proof.
  intros Ha. change (Ok (to_int64 (Fdiv (of_int64 a) usdToInrRateFloat)) = Ok (Z.quot (2 * a) 167)).
  f_equal. destruct (Z.eq_dec a 0) as [->|H0]; [reflexivity|].
  pose proof (of_int64_val a ltac:(lia)) as [Hn _]. pose proof (of_int64_exact a ltac:(lia)) as Hv.
  destruct rate_val as [Hrn Hrv]. pose proof U_pos as HU.
  assert (0 < 2 ^ (unit_exp - 1)) as Hh by (by apply Z.pow_pos_nonneg).
  assert (U = 2 * 2 ^ (unit_exp - 1)) as HUh by (by rewrite <-(Z.pow_add_r 2 1)).
  destruct (Fdiv_val (of_int64 a) usdToInrRateFloat Hn Hrn) as [Hm Hmv]; rewrite ?Hv, ?Hrv.
  { lia. }
  { rewrite !Z.abs_mul, (Z.abs_eq U), (Z.abs_eq (2 ^ _)) by lia. change (Z.abs 167) with 167.
    transitivity (2 ^ 53 * U); [apply Z.mul_le_mono_nonneg_r; lia|].
    transitivity (2 ^ (unit_exp - 1) * 2 ^ 800); [|apply Z.mul_le_mono_nonneg_r; [by apply Z.pow_nonneg|lia]].
    rewrite <-!Z.pow_add_r by (unfold unit_exp; lia). apply Z.pow_le_mono_r; unfold unit_exp; lia. }
  { right. rewrite !Z.abs_mul, (Z.abs_eq U), (Z.abs_eq (2 ^ _)) by lia. change (Z.abs 167) with 167.
    transitivity (1 * U * 2 ^ 900); [|apply Z.mul_le_mono_nonneg_r; [by apply Z.pow_nonneg|]; apply Z.mul_le_mono_nonneg_r; lia].
    rewrite HUh. assert (2 ^ 8 <= 2 ^ 900) by (apply Z.pow_le_mono_r; lia). nia. }
  assert (val (Fdiv (of_int64 a) usdToInrRateFloat) = Z.sgn a * rnd (2 * Z.abs a * U) 167) as Hx.
  { rewrite Hmv, Hrv, Hv. unfold srnd. rewrite !Z.sgn_mul, !Z.abs_mul, !(Z.sgn_pos U), !(Z.abs_eq U) by lia.
    rewrite (Z.sgn_pos (2 ^ _)), (Z.abs_eq (2 ^ _)) by lia. rewrite !Z.mul_1_r. change (Z.abs 167) with 167.
    replace (Z.abs a * U * U) with (2 * Z.abs a * U * 2 ^ (unit_exp - 1)) by (rewrite HUh; ring).
    rewrite rnd_scale; [change (Z.sgn 167) with 1; lia|apply fine_scaled; lia|done]. }
  assert (Z.quot (val (Fdiv (of_int64 a) usdToInrRateFloat)) U = Z.quot (2 * a) 167) as Hq.
  { rewrite Hx, quot_sgn_mul by (done || apply rnd_nonneg, fine_scaled; lia).
    rewrite trunc_rnd by lia. rewrite <-quot_sgn_mul by lia. f_equal.
    destruct (Z.sgn_spec a) as [[? ->]|[[? ->]|[? ->]]]; lia. }
  rewrite to_int64_val; [exact Hq|exact Hm|]. rewrite Hq. apply quot_in_int64; unfold int64_max; lia.
Qed.
End conversion.

(** C26: Conversion in floating point is exact integer arithmetic.  For amounts up to fifty-three
    bits after scaling, dollars to rupees is [167 a / 2] and rupees to dollars [2 a / 167], both
    cut towards zero; converting dollars to rupees and back returns the amount, less one unit when
    it is odd.  A currency converts to itself unchanged, any other pair is refused. *)
Theorem conversion_exact {O : Overflow} (a : Z) (from to : string) :
  (Z.abs (167 * a) <= 2 ^ 53 -> ConvertMinorUnits a "USD" "INR" = Ok (Z.quot (167 * a) 2)) /\
  (Z.abs (2 * a) < 2 ^ 53 -> ConvertMinorUnits a "INR" "USD" = Ok (Z.quot (2 * a) 167)) /\
  (0 <= a -> 167 * a < 2 ^ 53 ->
   exists b, ConvertMinorUnits a "USD" "INR" = Ok b /\
             ConvertMinorUnits b "INR" "USD" = Ok (a - a mod 2)) /\
  (from = to -> ConvertMinorUnits a from to = Ok a) /\
  (from <> to -> ~ (from = "USD" /\ to = "INR") -> ~ (from = "INR" /\ to = "USD") ->
   exists e, ConvertMinorUnits a from to = Err e /\ errors_Is e ErrUnsupportedCurrency = true).
Proof.
  split_and!.
  - apply usd_to_inr.
  - apply inr_to_usd.
  - intros H0 Hb. exists (Z.quot (167 * a) 2). split; [apply usd_to_inr; lia|].
    assert (0 <= 167 * a / 2 <= 167 * a) as Hq.
    { split; [apply Z.div_pos; lia|apply Z.div_le_upper_bound; lia]. }
    pose proof (Z.div_mod (167 * a) 2 ltac:(lia)) as Hm. pose proof (Z.mod_pos_bound (167 * a) 2 ltac:(lia)).
    rewrite Z.quot_div_nonneg by lia. rewrite inr_to_usd by lia.
    rewrite Z.quot_div_nonneg by lia. f_equal. symmetry.
    pose proof (Z.mod_pos_bound a 2 ltac:(lia)). pose proof (Z.div_mod a 2 ltac:(lia)).
    apply (Z.div_unique _ _ _ (166 * (a mod 2))); lia.
  - intros ->. unfold ConvertMinorUnits. by rewrite bool_decide_true.
  - intros Hne H1 H2. unfold ConvertMinorUnits. rewrite bool_decide_false by done.
    repeat case_bool_decide; try (exfalso; tauto); cbn [andb]; eexists; (split; [done|]);
      reflexivity.
Qed.

(** ** Formatting *)
Lemma price_val a : a <> 0 -> Z.abs a <= 2 ^ 53 ->
  normal (Fdiv (of_int64 a) (of_int64 100)) /\
  val (Fdiv (of_int64 a) (of_int64 100)) = Z.sgn a * rnd (Z.abs a * U) 100.
Proof.
  intros H0 Ha. pose proof (of_int64_val a ltac:(lia)) as [Hn _]. pose proof (of_int64_exact a Ha) as Hv.
  pose proof (of_int64_val 100 ltac:(lia)) as [Hn' _]. pose proof (of_int64_exact 100 ltac:(lia)) as Hv'.
  pose proof U_pos as HU.
  destruct (Fdiv_val (of_int64 a) (of_int64 100) Hn Hn') as [Hm Hmv]; rewrite ?Hv, ?Hv'.
  { lia. }
  { rewrite !Z.abs_mul, (Z.abs_eq U) by lia. change (Z.abs 100) with 100.
    rewrite (Z.mul_comm (100 * U)), Z.mul_assoc. apply Z.mul_le_mono_nonneg_r; [lia|].
    assert (2 ^ 53 <= 2 ^ 800) by (apply Z.pow_le_mono_r; lia). lia. }
  { right. rewrite !Z.abs_mul, (Z.abs_eq U) by lia. change (Z.abs 100) with 100.
    rewrite (Z.mul_comm (Z.abs a * U)), Z.mul_assoc. apply Z.mul_le_mono_nonneg_r; [lia|].
    assert (2 ^ 7 <= 2 ^ 900) by (apply Z.pow_le_mono_r; lia). nia. }
  split; [exact Hm|]. rewrite Hmv, Hv, Hv'. unfold srnd.
  rewrite !Z.sgn_mul, !Z.abs_mul, !(Z.sgn_pos U), !(Z.abs_eq U), !Z.mul_1_r by lia.
  change (Z.abs 100) with 100. rewrite rnd_scale; [change (Z.sgn 100) with 1; lia|apply fine_scaled; lia|done].
Qed.

Lemma rne_near N D c : 0 < D -> 2 * Z.abs (c * D - N) < D -> rne N D = c.
Proof.
  intros HD Hc. pose proof (rne_error N D HD) as He.
  assert (Z.abs (rne N D * D - c * D) < D) as Hd by lia.
  rewrite <-Z.mul_sub_distr_r, Z.abs_mul, (Z.abs_eq D) in Hd by lia. nia.
Qed.

Lemma cents_of_val m e : -1074 <= e <= 971 ->
  rne (100 * Z.pos m * 2 ^ Z.max e 0) (2 ^ Z.max (- e) 0) =
  rne (100 * (Z.pos m * 2 ^ (e + unit_exp))) U.
Proof.
  intros He. destruct (Z.le_gt_cases 0 e).
  - rewrite (Z.max_l e), (Z.max_r (- e)) by lia.
    rewrite <-(rne_scale _ (2 ^ 0) ltac:(done) U U_pos), Z.pow_0_r, Z.mul_1_l.
    rewrite (Z.pow_add_r 2 e) by (unfold unit_exp; lia). f_equal. ring.
  - rewrite (Z.max_r e), (Z.max_l (- e)) by lia.
    assert (0 < 2 ^ (e + unit_exp)) by (apply Z.pow_pos_nonneg; unfold unit_exp; lia).
    rewrite <-(rne_scale _ (2 ^ (- e)) ltac:(by apply Z.pow_pos_nonneg; lia) (2 ^ (e + unit_exp))) by done.
    rewrite <-Z.pow_add_r by (unfold unit_exp; lia).
    replace (- e + (e + unit_exp)) with unit_exp by lia. f_equal. ring.
Qed.

(** Formatting shows the exact amount: for fewer than [2 ^ 52] minor units the division by 100
    in floating point and the rounding to two decimals print the integer part and the two digits
    of the amount. *)
Theorem format_exact (a : Z) :
  Z.abs a < 2 ^ 52 ->
  FormatToMajorUnits a =
    (if a <? 0 then "-" else "") +:+ itoa (Z.abs a / 100) +:+ "." +:+ pad 2 (Z.abs a mod 100).
Proof.
  intros Ha. destruct (Z.eq_dec a 0) as [->|H0]; [by vm_compute|].
  destruct (price_val a H0 ltac:(lia)) as [Hn Hv]. unfold FormatToMajorUnits.
  pose proof (fine_scaled (Z.abs a) 100 ltac:(lia) ltac:(lia)) as HF.
  pose proof (rnd_error _ _ HF) as He. pose proof (rnd_nonneg _ _ HF) as Hp.
  set (R := rnd (Z.abs a * U) 100) in *. pose proof U_pos as HU.
  assert (0 < R) as HR. { assert (Z.abs a * U < 2 ^ 52 * U) by (apply Z.mul_lt_mono_pos_r; lia). nia. }
  destruct (Fdiv (of_int64 a) (of_int64 100)) as [s|s| |s m e]; try done; [simpl in Hv; nia|].
  destruct Hn as [_ Hex]. rewrite val_finite in Hv.
  assert (0 < Z.pos m * 2 ^ (e + unit_exp)) as Hm
    by (apply Z.mul_pos_pos; [done|apply Z.pow_pos_nonneg; unfold unit_exp; lia]).
  assert (Z.pos m * 2 ^ (e + unit_exp) = R /\ s = (a <? 0)) as [HmR ->].
  { destruct (Z.ltb_spec a 0), s; simpl sign in Hv;
      destruct (Z.sgn_spec a) as [[? Hs]|[[? Hs]|[? Hs]]]; rewrite Hs in Hv; lia || (split; [lia|done]). }
  cbn [format_2f]. rewrite (cents_of_val m e Hex), HmR, (rne_near _ _ (Z.abs a)); [done|exact HU|].
  assert (Z.abs a * U < 2 ^ 52 * U) by (apply Z.mul_lt_mono_pos_r; lia). lia.
Qed.

(** ** Witnesses *)
#[local] Instance amd64 : Overflow := {| overflow := fun _ => int64_min |}.

Lemma conversion_exact_witness :
  ConvertMinorUnits 12345 "USD" "INR" = Ok 1030807 /\ ConvertMinorUnits 1030807 "INR" "USD" = Ok 12344.
Proof.
  destruct (conversion_exact 12345 "USD" "INR") as (_ & _ & H & _).
  destruct (H ltac:(lia) ltac:(lia)) as (b & Hb & Hback).
  assert (b = 1030807) as -> by (injection Hb as <-; by vm_compute).
  split; [exact Hb|exact Hback].
Defined.

Lemma format_exact_witness : FormatToMajorUnits 1999 = "19.99".
Proof. rewrite (format_exact 1999) by lia. by vm_compute. Defined.
