(* ===== verification/Subscription.v ===== *)
(** * internal/service/subscription.go and internal/handler/subscription_handler.go

    The service keeps its subscriptions in a [sync.Map], one per identifier.  [CalculateProration]
    computes in binary64 (Float.v) over saturating durations.  Instants are wall-clock times; the
    monotonic reading that Go keeps beside them in the same process is taken to agree. *)
From S2P Require Import Prelude Json GoTime Database Hex Http Float Currency.

Definition ErrSubscriptionNotFound : error := Sentinel "subscription record not found".
Definition ErrInvalidBillingPeriod : error := Sentinel "billing period must be monthly or annual".

Record Subscription := mkSubscription {
  ID : string; UserID : string; PlanID : string; Amount : Z; BillingPeriod : string;
  CurrentPeriodStart : Z; CurrentPeriodEnd : Z }.

Definition Subscription_json (sub : Subscription) : option json :=
  period_start ← time_json (CurrentPeriodStart sub);
  period_end ← time_json (CurrentPeriodEnd sub);
  Some (JObj [("id", JStr (ID sub)); ("user_id", JStr (UserID sub)); ("plan_id", JStr (PlanID sub));
              ("amount", JInt (Amount sub)); ("billing_period", JStr (BillingPeriod sub));
              ("current_period_start", period_start); ("current_period_end", period_end)]).

(** The field [store]; [onceCheck] is never used. *)
Abbreviation SubscriptionStore := (gmap string Subscription).

Definition NewSubscriptionService : SubscriptionStore := ∅.

(** The end of the period that starts at an instant. *)
Definition period_end (period : string) (startTime : Z) : Z :=
  if bool_decide (period = "monthly") then AddDate 0 1 0 startTime else AddDate 1 0 0 startTime.

(** The charge for a change of plan at the instant [now]. *)
Definition prorate {O : Overflow} (sub : Subscription) (newAmount now : Z) : Z :=
  let totalDuration := Sub (CurrentPeriodEnd sub) (CurrentPeriodStart sub) in
  let remainingDuration := Sub (CurrentPeriodEnd sub) now in
  if remainingDuration <=? 0 then newAmount
  else
    let usedRatio :=
      Fdiv (of_int64 (Sub now (CurrentPeriodStart sub))) (of_int64 totalDuration) in
    let unusedRatio := Fsub (of_int64 1) usedRatio in
    let currentPlanUnusedCredit := Fmul (of_int64 (Amount sub)) unusedRatio in
    let newPlanRemainingCost := Fmul (of_int64 newAmount) unusedRatio in
    let proratedCharge := Fsub newPlanRemainingCost currentPlanUnusedCredit in
    if SFltb proratedCharge (S754_zero false) then 0 else to_int64 proratedCharge.

Record SubscriptionRequest := mkSubscriptionRequest {
  sr_UserID : string; sr_PlanID : string; sr_Amount : Z; sr_BillingPeriod : string }.

Definition subscription_fields : list (field SubscriptionRequest) :=
  [StringField "user_id" (fun v q =>
     mkSubscriptionRequest v (sr_PlanID q) (sr_Amount q) (sr_BillingPeriod q));
   StringField "plan_id" (fun v q =>
     mkSubscriptionRequest (sr_UserID q) v (sr_Amount q) (sr_BillingPeriod q));
   Int64Field "amount" (fun v q =>
     mkSubscriptionRequest (sr_UserID q) (sr_PlanID q) v (sr_BillingPeriod q));
   StringField "billing_period" (fun v q =>
     mkSubscriptionRequest (sr_UserID q) (sr_PlanID q) (sr_Amount q) v)].

Section service.
Context {kv : Type} (E : Env).
Context {S : Type} {W : Has (World kv) S} {D : Has SubscriptionStore S}.

Definition CreateSubscription (id userID planID : string) (amount : Z) (period : string) :
    M S Subscription := fun s =>
  if negb (bool_decide (period = "monthly")) && negb (bool_decide (period = "annual"))
  then (Err ErrInvalidBillingPeriod, s)
  else
    let '(startTime, s1) := read_clock E s in
    let endTime := period_end period startTime in
    let sub := mkSubscription id userID planID amount period startTime endTime in
    (Ok sub, with_part (<[id := sub]> (part s1)) s1).

Definition CalculateProration {O : Overflow} (subID : string) (newAmount : Z) : M S Z := fun s =>
  match part s !! subID with
  | None => (Err ErrSubscriptionNotFound, s)
  | Some sub => let '(now, s1) := read_clock E s in (Ok (prorate sub newAmount now), s1)
  end.

Definition CreateSubscriptionHandler : Handler S := fun r s =>
  match Decode subscription_fields (mkSubscriptionRequest "" "" 0 "") (r_Body r) with
  | Err _ =>
      (WriteProblemResponse (r_Path r) 400 "Malformed Request Payload"
         "The JSON syntax provided in the request body is invalid.", s)
  | Ok req =>
      let '(b, s1) := random_bytes E 8 s in
      let subID := "sub_" +:+ EncodeToString b in
      let '(res, s2) := CreateSubscription subID (sr_UserID req) (sr_PlanID req) (sr_Amount req)
                          (sr_BillingPeriod req) s1 in
      match res with
      | Err err =>
          (WriteProblemResponse (r_Path r) 422 "Subscription Processing Failed" (Error err), s2)
      | Ok sub => (json_answer 201 (Subscription_json sub), s2)
      end
  end.
End service.

Section tests.
#[local] Instance amd64 : Overflow := {| overflow := fun _ => int64_min |}.

(** Half of a month is left: half of the difference is charged. *)
Example prorate_half :
  prorate (mkSubscription "s" "u" "basic" 1000 "monthly" 0 (30 * day_ns)) 3000 (15 * day_ns) = 1000.
Proof. vm_compute. reflexivity. Qed.
Example prorate_downgrade :
  prorate (mkSubscription "s" "u" "pro" 3000 "monthly" 0 (30 * day_ns)) 1000 (15 * day_ns) = 0.
Proof. vm_compute. reflexivity. Qed.
Example prorate_expired :
  prorate (mkSubscription "s" "u" "pro" 3000 "monthly" 0 (30 * day_ns)) 1000 (30 * day_ns) = 1000.
Proof. vm_compute. reflexivity. Qed.
End tests.

(** ** Rounding facts *)
Lemma srnd_pos N D : 0 < N -> srnd N D = rnd N D.
Proof. intros H. unfold srnd. rewrite Z.sgn_pos, Z.abs_eq by lia. lia. Qed.

Lemma fine_1 N : 2 ^ 52 <= N -> fine N 1.
Proof. intros H. split; [done|]. by rewrite Z.div_1_r. Qed.

Lemma pow_le a b : 0 <= a <= b -> 2 ^ a <= 2 ^ b.
Proof. intros H. apply Z.pow_le_mono_r; lia. Qed.

(** Small multiples of a power of two are not rounded. *)
Lemma rnd_pow c j : 0 < c <= 2 ^ 53 -> 52 <= j -> rnd (c * 2 ^ j) 1 = c * 2 ^ j.
Proof.
  intros Hc Hj. rewrite <-(Z.mul_1_r (c * 2 ^ j)) at 1. apply rnd_exact; [lia|lia|lia|].
  rewrite Z.mul_1_r. apply fine_1. pose proof (pow_le 52 j ltac:(lia)). nia.
Qed.

Lemma srnd_int z : Z.abs z <= 2 ^ 53 -> srnd (z * U) 1 = z * U.
Proof.
  intros Hz. pose proof (srnd_exact z unit_exp 1 ltac:(lia) Hz ltac:(unfold unit_exp; lia)) as H.
  by rewrite Z.mul_1_r in H.
Qed.

(** A rounded number is a multiple of its unit in the last place. *)
Lemma rnd_grain N k : 52 <= k -> 2 ^ k <= N -> exists g, rnd N 1 = g * 2 ^ (k - 52).
Proof.
  intros Hk HN. apply Z.log2_le_pow2 in HN; [|pose proof (Z.pow_pos_nonneg 2 k); lia].
  assert (ulp_exp N 1 = Z.log2 N - 52) as Hf by (unfold ulp_exp; by rewrite Z.div_1_r).
  unfold rnd. cbv zeta. rewrite Hf.
  exists (rne N (1 * 2 ^ (Z.log2 N - 52)) * 2 ^ (Z.log2 N - k)).
  rewrite <-Z.mul_assoc, <-Z.pow_add_r by lia. do 2 f_equal. lia.
Qed.

(** A float that is at most one is one, or differs from it by the unit of its binade. *)
Lemma below_one N D : fine N D -> rnd N D <= U ->
  rnd N D = U \/ 2 ^ (unit_exp - 54) <= U - rnd N D.
Proof.
  intros HF HU. pose proof (rnd_bounds _ _ HF) as [Hlo Hhi]. pose proof (ulp_exp_nonneg _ _ HF) as Hf.
  set (f := ulp_exp N D) in *.
  assert (52 + f <= unit_exp) as Hfu.
  { apply (Z.pow_le_mono_r_iff 2); [lia|unfold unit_exp; lia|]. rewrite Z.pow_add_r; lia. }
  destruct (Z.le_gt_cases (unit_exp - 54) f) as [Hbig|Hsmall].
  - assert (exists g, U - rnd N D = g * 2 ^ f) as [g Hg].
    { exists (2 ^ (unit_exp - f) - rne N (D * 2 ^ f)).
      rewrite Z.mul_sub_distr_r, <-Z.pow_add_r by lia. unfold rnd. fold f. do 2 f_equal. lia. }
    pose proof (pow_le (unit_exp - 54) f ltac:(unfold unit_exp in *; lia)) as Hp.
    assert (0 < 2 ^ (unit_exp - 54)) by (by apply Z.pow_pos_nonneg).
    destruct (Z.eq_dec g 0) as [->|Hg0]; [left; lia|right].
    assert (0 < g) by nia. nia.
  - right. assert (2 ^ 53 * 2 ^ f <= 2 ^ (unit_exp - 1)).
    { rewrite <-Z.pow_add_r by lia. apply pow_le. unfold unit_exp in *. lia. }
    assert (U = 2 * 2 ^ (unit_exp - 1)) as HUh by (by rewrite <-(Z.pow_add_r 2 1)).
    assert (2 ^ (unit_exp - 54) <= 2 ^ (unit_exp - 1)) by (apply pow_le; unfold unit_exp; lia). lia.
Qed.

(** The product of two bounds. *)
Lemma abs_mul_le x y a b : Z.abs x <= a -> Z.abs y <= b -> Z.abs (x * y) <= a * b.
Proof. intros. rewrite Z.abs_mul. apply Z.mul_le_mono_nonneg; lia. Qed.

(** ** The steps of the computation *)
Section proration.
Context (d T : Z) (Hd : 0 <= d < T) (HT : T <= int64_max).

#[local] Abbreviation X := (val (of_int64 d)).
#[local] Abbreviation Y := (val (of_int64 T)).
#[local] Abbreviation q := (Fdiv (of_int64 d) (of_int64 T)).
#[local] Abbreviation w := (Fsub (of_int64 1) q).

Lemma int_val z : 0 < z <= int64_max ->
  normal (of_int64 z) /\ val (of_int64 z) = rnd (z * U) 1 /\ fine (z * U) 1 /\
  2 ^ 53 * Z.abs (val (of_int64 z) - z * U) <= z * U /\ U <= val (of_int64 z) <= 2 ^ 63 * U.
Proof using Type.
  intros Hz. unfold int64_max in Hz. pose proof U_pos as HU.
  destruct (of_int64_val z ltac:(lia)) as [Hn Hv].
  assert (fine (z * U) 1) as HF by (apply fine_scaled; lia). rewrite srnd_pos in Hv by nia.
  pose proof (rnd_error _ _ HF) as He. rewrite Z.mul_1_r in He. rewrite Hv.
  split_and!; [done|done|done|done| |].
  - transitivity (rnd (1 * U) 1); [rewrite rnd_pow; [lia|lia|unfold unit_exp; lia]|].
    apply rnd_mono; [done|apply fine_scaled; lia|nia].
  - transitivity (rnd (1 * 2 ^ (63 + unit_exp)) 1).
    + apply rnd_mono; [done|done|]. rewrite Z.pow_add_r by (unfold unit_exp; lia). nia.
    + rewrite rnd_pow by (unfold unit_exp; lia). rewrite Z.pow_add_r by (unfold unit_exp; lia). lia.
Qed.

(** The quotient of the durations lies between 0 and 1. *)
Lemma used_ratio :
  normal q /\ 0 <= val q <= U /\ 2 ^ 53 * Z.abs (val q * Y - X * U) <= X * U /\
  (val q = U \/ 2 ^ (unit_exp - 54) <= U - val q) /\ (d = 0 -> val q = 0).
Proof using Hd HT.
  pose proof U_pos as HU. destruct (int_val T ltac:(lia)) as (HnT & HYr & HFT & _ & HYb).
  assert (normal (of_int64 d)) as Hnd by (apply of_int64_val; unfold int64_max in HT; lia).
  destruct (Z.eq_dec d 0) as [->|H0].
  { destruct (Fdiv_val (of_int64 0) (of_int64 T) Hnd HnT) as [Hn Hv]; [lia| |by left|].
    { change (val (of_int64 0)) with 0. simpl Z.abs. apply Z.mul_nonneg_nonneg; [lia|by apply Z.pow_nonneg]. }
    change (val (of_int64 0)) with 0 in *. rewrite Z.mul_0_l in Hv.
    assert (val (Fdiv (of_int64 0) (of_int64 T)) = 0) as -> by (rewrite Hv; unfold srnd; simpl; lia).
    split_and!; [done|lia|lia|lia| |done]. right.
    rewrite Z.sub_0_r. apply pow_le. unfold unit_exp. lia. }
  destruct (int_val d ltac:(lia)) as (_ & HXr & HFd & _ & HXb).
  assert (X <= Y) as HXY by (rewrite HXr, HYr; apply rnd_mono; [done|done|nia]).
  assert (2 ^ 63 * U <= U * 2 ^ 900) as Hbig.
  { rewrite Z.mul_comm. apply Z.mul_le_mono_nonneg_l; [lia|]. apply pow_le. lia. }
  destruct (Fdiv_val (of_int64 d) (of_int64 T) Hnd HnT) as [Hn Hv]; [lia| | |].
  { rewrite !Z.abs_eq by lia. assert (1 <= 2 ^ 800) by (apply (pow_le 0); lia).
    generalize dependent (2 ^ 800). intros. nia. }
  { right. rewrite !Z.abs_eq by lia. assert (0 <= 2 ^ 900) by (by apply Z.pow_nonneg).
    transitivity (U * 2 ^ 900); [lia|]. apply Z.mul_le_mono_nonneg_r; lia. }
  assert (0 < X * U) as HXU by (apply Z.mul_pos_pos; lia).
  rewrite Z.sgn_pos, Z.abs_eq, Z.mul_1_l, srnd_pos in Hv by lia.
  assert (fine (X * U) Y) as HF.
  { split; [lia|]. apply Z.div_le_lower_bound; [lia|].
    transitivity (2 ^ 63 * U * 2 ^ 52); [nia|]. rewrite (Z.mul_comm X).
    assert (2 ^ 63 * 2 ^ 52 <= U) by (rewrite <-Z.pow_add_r by lia; apply pow_le; unfold unit_exp; lia).
    transitivity (U * U); [nia|]. apply Z.mul_le_mono_nonneg_l; lia. }
  assert (rnd (X * U) Y <= U) as Hle.
  { transitivity (rnd (1 * U) 1); [|rewrite rnd_pow; [lia|lia|unfold unit_exp; lia]].
    apply rnd_mono; [done|done|]. rewrite Z.mul_1_r, Z.mul_1_l, (Z.mul_comm U).
    apply Z.mul_le_mono_nonneg_r; lia. }
  pose proof (rnd_error _ _ HF). pose proof (rnd_nonneg _ _ HF). pose proof (below_one _ _ HF Hle).
  rewrite Hv. done.
Qed.

Lemma unused_ratio :
  normal w /\ 0 <= val w <= U /\ 2 ^ 53 * Z.abs (val w - (U - val q)) <= U - val q /\
  (val w = 0 \/ 2 ^ (unit_exp - 54) <= val w) /\ (d = 0 -> val w = U).
Proof using Hd HT.
  pose proof U_pos as HU. destruct used_ratio as (Hq & Hb & _ & Hg & H0).
  pose proof (of_int64_exact 1 ltac:(lia)) as H1. rewrite Z.mul_1_l in H1.
  destruct (of_int64_val 1 ltac:(lia)) as [Hn1 _].
  destruct (Fsub_val (of_int64 1) q Hn1 Hq) as [Hn Hv]; rewrite H1 in *.
  { destruct Hg as [->|Hg]; [left; lia|right]. rewrite Z.abs_eq by lia. split.
    - etrans; [|exact Hg]. apply pow_le. unfold unit_exp. lia.
    - apply (Z.le_lt_trans _ U); [lia|]. apply Z.pow_lt_mono_r; unfold unit_exp; lia. }
  destruct Hg as [Hg|Hg].
  { rewrite Hg, Z.sub_diag in *. change (srnd 0 1) with 0 in Hv. rewrite Hv.
    split_and!; [done|lia|lia|lia|by left|]. intros Hd0%H0. lia. }
  assert (0 < 2 ^ (unit_exp - 54)) as Hp by (by apply Z.pow_pos_nonneg).
  assert (fine (U - val q) 1) as HF.
  { apply fine_1. etrans; [|exact Hg]. apply pow_le. unfold unit_exp. lia. }
  rewrite srnd_pos in Hv by lia. rewrite Hv.
  pose proof (rnd_error _ _ HF) as He. rewrite Z.mul_1_r in He.
  assert (rnd (U - val q) 1 <= U) as HleU.
  { transitivity (rnd (1 * U) 1); [apply rnd_mono; [done|done|lia]|].
    rewrite rnd_pow; [lia|lia|unfold unit_exp; lia]. }
  assert (2 ^ (unit_exp - 54) <= rnd (U - val q) 1) as Hlow.
  { transitivity (rnd (1 * 2 ^ (unit_exp - 54)) 1); [rewrite rnd_pow; [lia|lia|unfold unit_exp; lia]|].
    apply rnd_mono; [done| |lia]. apply fine_1. rewrite Z.mul_1_l. apply pow_le. unfold unit_exp. lia. }
  split_and!; [done|lia|done|done|by right|]. intros ->%H0. rewrite Z.sub_0_r.
  rewrite <-(Z.mul_1_l U) at 1. rewrite rnd_pow; [lia|lia|unfold unit_exp; lia].
Qed.

(** The part of an amount that is unused. *)
Lemma share a : 0 <= a <= 2 ^ 50 ->
  let A := Fmul (of_int64 a) w in
  normal A /\ val A = srnd (a * val w) 1 /\ (a * val w = 0 \/ fine (a * val w) 1) /\
  0 <= val A <= a * U /\ 2 ^ 53 * Z.abs (val A - a * val w) <= a * val w /\
  exists g, val A = g * 2 ^ (unit_exp - 106).
Proof using Hd HT.
  intros Ha A. pose proof U_pos as HU. destruct unused_ratio as (Hw & Hb & _ & Hg & _).
  pose proof (of_int64_exact a ltac:(lia)) as Hv. destruct (of_int64_val a ltac:(lia)) as [Hn _].
  destruct (Z.eq_dec (a * val w) 0) as [H0|H0].
  { destruct (Fmul_val (of_int64 a) w Hn Hw) as [HnA HvA]; rewrite Hv in *.
    { left. rewrite <-Z.mul_assoc, (Z.mul_comm U), Z.mul_assoc, H0. done. }
    replace (a * U * val w) with (a * val w * U) in HvA by ring. rewrite H0 in *.
    change (srnd (0 * U) U) with 0 in HvA. unfold A. rewrite HvA.
    split_and!; [done|done|by left|lia|nia|lia|by exists 0]. }
  assert (1 <= a) as Ha1 by lia. destruct Hg as [Hg|Hg]; [rewrite Hg in H0; lia|].
  assert (0 < 2 ^ (unit_exp - 54)) as Hp by (by apply Z.pow_pos_nonneg).
  assert (2 ^ (unit_exp - 54) <= a * val w) as Hlow by nia.
  assert (a * val w <= a * U) as HaU by (apply Z.mul_le_mono_nonneg_l; lia).
  assert (fine (a * val w) 1) as HF.
  { apply fine_1. etrans; [|exact Hlow]. apply pow_le. unfold unit_exp. lia. }
  assert (val A = rnd (a * val w) 1 /\ normal A) as [HA HnA].
  { destruct (Fmul_val (of_int64 a) w Hn Hw) as [HnA HvA]; rewrite Hv in *.
    { right. unfold product_in_range. replace (a * U * val w) with (a * val w * U) by ring.
      rewrite Z.abs_eq by (apply Z.mul_nonneg_nonneg; lia). split.
      - apply Z.mul_le_mono_nonneg_r; [lia|]. etrans; [|exact Hlow]. apply pow_le. unfold unit_exp. lia.
      - apply Z.mul_lt_mono_pos_r; [done|]. eapply Z.le_lt_trans; [exact HaU|].
        apply (Z.le_lt_trans _ (2 ^ 50 * U)); [apply Z.mul_le_mono_nonneg_r; lia|].
        rewrite <-Z.pow_add_r by (unfold unit_exp; lia). apply Z.pow_lt_mono_r; unfold unit_exp; lia. }
    split; [|done]. unfold A. rewrite HvA, srnd_pos by (apply Z.mul_pos_pos; nia).
    rewrite <-(rnd_scale (a * val w) 1 U HF HU), Z.mul_1_l. f_equal. ring. }
  pose proof (rnd_error _ _ HF) as He. rewrite Z.mul_1_r in He.
  rewrite HA, srnd_pos by lia. split_and!; [done|done|by right|by apply rnd_nonneg| |done|].
  - transitivity (rnd (a * U) 1); [apply rnd_mono; [done|done|lia]|].
    rewrite rnd_pow; [lia|lia|unfold unit_exp; lia].
  - apply (rnd_grain _ (unit_exp - 54)); [unfold unit_exp; lia|done].
Qed.
End proration.

(** The difference of two shares. *)
Lemma share_difference d T a n :
  0 <= d < T -> T <= int64_max -> 0 <= a <= 2 ^ 50 -> 0 <= n <= 2 ^ 50 ->
  let w := Fsub (of_int64 1) (Fdiv (of_int64 d) (of_int64 T)) in
  let A := Fmul (of_int64 a) w in
  let B := Fmul (of_int64 n) w in
  normal (Fsub B A) /\ val (Fsub B A) = srnd (val B - val A) 1 /\
  (val B - val A = 0 \/ fine (Z.abs (val B - val A)) 1).
Proof.
  intros Hd HT Ha Hn w A B. pose proof U_pos as HU.
  destruct (share d T Hd HT a Ha) as (HnA & _ & _ & HA & _ & gA & HgA).
  destruct (share d T Hd HT n Hn) as (HnB & _ & _ & HB & _ & gB & HgB). fold w A B in HnA, HA, HgA, HnB, HB, HgB.
  assert (val B - val A = 0 \/ 2 ^ (unit_exp - 106) <= Z.abs (val B - val A)) as Hlow.
  { rewrite HgA, HgB, <-Z.mul_sub_distr_r, Z.abs_mul, (Z.abs_eq (2 ^ _)) by (by apply Z.pow_nonneg).
    assert (0 < 2 ^ (unit_exp - 106)) by (by apply Z.pow_pos_nonneg).
    destruct (Z.eq_dec (gB - gA) 0) as [->|]; [by left|right]. nia. }
  destruct (Fsub_val B A HnB HnA) as [Hn' Hv].
  { destruct Hlow as [->|Hlow]; [by left|right]. split.
    - etrans; [|exact Hlow]. apply pow_le. unfold unit_exp. lia.
    - assert (n * U <= 2 ^ 50 * U /\ a * U <= 2 ^ 50 * U) by (split; apply Z.mul_le_mono_nonneg_r; lia).
      apply (Z.le_lt_trans _ (2 ^ 50 * U)); [lia|].
      rewrite <-Z.pow_add_r by (unfold unit_exp; lia). apply Z.pow_lt_mono_r; unfold unit_exp; lia. }
  split_and!; [done|done|]. destruct Hlow as [?|Hlow]; [by left|right]. apply fine_1.
  etrans; [|exact Hlow]. apply pow_le. unfold unit_exp. lia.
Qed.

(** What the roundings can add up to: at most one unit in the result. *)
Lemma error_budget (U X Y Q W A B C d T a n : Z) :
  0 < U -> 0 <= d <= T -> 0 <= a <= 2 ^ 50 -> 0 <= n <= 2 ^ 50 ->
  0 <= Q <= U -> 0 <= W <= U -> 0 <= A <= a * U -> 0 <= B <= n * U ->
  2 ^ 53 * Z.abs (X - d * U) <= d * U -> 2 ^ 53 * Z.abs (Y - T * U) <= T * U ->
  2 ^ 53 * Z.abs (Q * Y - X * U) <= X * U -> 2 ^ 53 * Z.abs (W - (U - Q)) <= U - Q ->
  2 ^ 53 * Z.abs (A - a * W) <= a * W -> 2 ^ 53 * Z.abs (B - n * W) <= n * W ->
  2 ^ 53 * Z.abs (C - (B - A)) <= Z.abs (B - A) ->
  Z.abs (C * T - (n - a) * (T - d) * U) <= T * U.
Proof.
  intros HU Hd Ha Hn HQ HW HA HB EX EY EQ EW EA EB EC.
  assert (0 <= d * U <= T * U) as HdT
    by (split; [apply Z.mul_nonneg_nonneg; lia|apply Z.mul_le_mono_nonneg_r; lia]).
  assert (2 ^ 53 * Z.abs (Q * T - d * U) <= 4 * (T * U)) as E1.
  { assert (2 ^ 53 * Z.abs (Q * (T * U - Y)) <= U * (T * U)) as P1.
    { rewrite Z.abs_mul, (Z.abs_eq Q) by lia. assert (0 <= Z.abs (T * U - Y)) by lia.
      transitivity (Q * (2 ^ 53 * Z.abs (T * U - Y))); [lia|]. apply Z.mul_le_mono_nonneg; lia. }
    assert (2 ^ 53 * Z.abs ((X - d * U) * U) <= d * U * U) as P2.
    { rewrite Z.abs_mul, (Z.abs_eq U), Z.mul_assoc by lia. apply Z.mul_le_mono_nonneg_r; lia. }
    assert (X * U <= 2 * (d * U) * U) as P3 by (apply Z.mul_le_mono_nonneg_r; lia).
    assert (d * U * U <= T * U * U) as P4 by (apply Z.mul_le_mono_nonneg_r; lia).
    apply (Z.mul_le_mono_pos_r _ _ U HU). rewrite <-Z.mul_assoc.
    assert (forall e, Z.abs e * U = Z.abs (e * U)) as -> by (intros e; rewrite Z.abs_mul, (Z.abs_eq U); lia).
    replace ((Q * T - d * U) * U) with (Q * (T * U - Y) + (Q * Y - X * U) + (X - d * U) * U) by ring.
    lia. }
  assert (2 ^ 53 * Z.abs (W * T - (T - d) * U) <= 5 * (T * U)) as E2.
  { assert (2 ^ 53 * Z.abs ((W - (U - Q)) * T) <= U * T) as P1.
    { rewrite Z.abs_mul, (Z.abs_eq T), Z.mul_assoc by lia. apply Z.mul_le_mono_nonneg_r; lia. }
    replace (W * T - (T - d) * U) with ((W - (U - Q)) * T - (Q * T - d * U)) by ring. lia. }
  assert (forall x V, 0 <= x <= 2 ^ 50 -> 2 ^ 53 * Z.abs (V - x * W) <= x * W ->
            2 ^ 53 * Z.abs ((V - x * W) * T) <= 2 ^ 50 * (T * U)) as Hsh.
  { intros x V Hx Hv. rewrite Z.abs_mul, (Z.abs_eq T), Z.mul_assoc by lia.
    assert (x * W <= 2 ^ 50 * U) by (apply Z.mul_le_mono_nonneg; lia).
    transitivity (2 ^ 50 * U * T); [apply Z.mul_le_mono_nonneg_r; lia|lia]. }
  pose proof (Hsh a A Ha EA) as PA. pose proof (Hsh n B Hn EB) as PB.
  assert (Z.abs (n - a) <= 2 ^ 50) as Hna by lia.
  assert (0 <= T * U) as HTU by lia.
  assert (2 ^ 53 * Z.abs ((n - a) * (W * T - (T - d) * U)) <= 5 * 2 ^ 50 * (T * U)) as PD.
  { rewrite Z.abs_mul. clear - E2 Hna HTU. set (e := Z.abs (W * T - (T - d) * U)) in *.
    assert (0 <= e) by apply Z.abs_nonneg. set (v := T * U) in *. set (m := Z.abs (n - a)) in *.
    clearbody e v m. pose proof (Z.mul_le_mono_nonneg_r m (2 ^ 50) (2 ^ 53 * e) ltac:(lia) Hna). lia. }
  assert (2 ^ 53 * Z.abs ((C - (B - A)) * T) <= 2 ^ 50 * (T * U)) as PC.
  { assert (n * U <= 2 ^ 50 * U /\ a * U <= 2 ^ 50 * U) as [? ?] by (split; apply Z.mul_le_mono_nonneg_r; lia).
    assert (2 ^ 53 * Z.abs (C - (B - A)) <= 2 ^ 50 * U) as HC by lia.
    clear - HC HTU Hd HU. rewrite Z.abs_mul, (Z.abs_eq T), Z.mul_assoc by lia.
    transitivity (2 ^ 50 * U * T); [apply Z.mul_le_mono_nonneg_r; lia|lia]. }
  replace (C * T - (n - a) * (T - d) * U) with
    ((C - (B - A)) * T + (B - n * W) * T - (A - a * W) * T + (n - a) * (W * T - (T - d) * U)) by ring.
  clear - PA PB PC PD. generalize dependent ((C - (B - A)) * T). intros x Hx.
  generalize dependent ((B - n * W) * T). intros y Hy. generalize dependent ((A - a * W) * T). intros z Hz.
  generalize dependent ((n - a) * (W * T - (T - d) * U)). intros t Ht. lia.
Qed.

(** The charge before it is compared with zero and truncated. *)
Section charge.
Context (d T a n : Z).
Context (Hd : 0 <= d < T) (HT : T <= int64_max) (Ha : 0 <= a <= 2 ^ 50) (Hn : 0 <= n <= 2 ^ 50).

Definition unused : float64 := Fsub (of_int64 1) (Fdiv (of_int64 d) (of_int64 T)).
Definition charge : float64 := Fsub (Fmul (of_int64 n) unused) (Fmul (of_int64 a) unused).

Lemma charge_accuracy :
  Z.abs (val charge * T - (n - a) * (T - d) * U) <= T * U.
Proof using Hd HT Ha Hn.
  pose proof (share_difference d T a n Hd HT Ha Hn) as (_ & HC & HF).
  pose proof (used_ratio d T Hd HT) as (_ & HQ & EQ & _).
  pose proof (unused_ratio d T Hd HT) as (_ & HW & EW & _).
  pose proof (share d T Hd HT a Ha) as (_ & _ & _ & HA & EA & _).
  pose proof (share d T Hd HT n Hn) as (_ & _ & _ & HB & EB & _).
  destruct (int_val T ltac:(lia)) as (_ & _ & _ & EY & _).
  assert (2 ^ 53 * Z.abs (val (of_int64 d) - d * U) <= d * U) as EX.
  { destruct (Z.eq_dec d 0) as [->|]; [done|]. apply int_val. lia. }
  cbv zeta in *. fold unused in *. fold charge in *.
  assert (2 ^ 53 * Z.abs (val charge - (val (Fmul (of_int64 n) unused) - val (Fmul (of_int64 a) unused)))
          <= Z.abs (val (Fmul (of_int64 n) unused) - val (Fmul (of_int64 a) unused))) as EC.
  { rewrite HC. set (x := val (Fmul (of_int64 n) unused) - val (Fmul (of_int64 a) unused)) in *.
    destruct HF as [->|HF]; [done|]. pose proof (rnd_error _ _ HF) as He. rewrite Z.mul_1_r in He.
    pose proof (rnd_nonneg _ _ HF). unfold srnd. destruct (Z.sgn_spec x) as [[? ->]|[[? ->]|[? ->]]]; lia. }
  apply (error_budget U (val (of_int64 d)) (val (of_int64 T)) (val (Fdiv (of_int64 d) (of_int64 T)))
    (val unused) (val (Fmul (of_int64 a) unused)) (val (Fmul (of_int64 n) unused)));
    [apply U_pos|lia|assumption..].
Qed.

(** The sign of the charge is that of the difference of the amounts, which bounds it. *)
Lemma charge_bounds :
  normal charge /\ (n <= a -> val charge <= 0) /\
  (a <= n -> 0 <= val charge /\ 2 * val charge <= (2 * (n - a) + 1) * U) /\
  (d = 0 -> val charge = (n - a) * U).
Proof using Hd HT Ha Hn.
  pose proof U_pos as HU.
  pose proof (share_difference d T a n Hd HT Ha Hn) as (Hnorm & HC & HF).
  pose proof (share d T Hd HT a Ha) as (_ & HAv & HAf & HA & EA & _).
  pose proof (share d T Hd HT n Hn) as (_ & HBv & HBf & HB & EB & _).
  pose proof (unused_ratio d T Hd HT) as (_ & HW & _ & _ & H0).
  cbv zeta in *. fold unused in *. fold charge in *.
  set (A := val (Fmul (of_int64 a) unused)) in *. set (B := val (Fmul (of_int64 n) unused)) in *.
  set (w := val unused) in *.
  assert (forall x y, x <= y -> (x * w = 0 \/ fine (x * w) 1) -> 0 <= x ->
            (y * w = 0 \/ fine (y * w) 1) -> srnd (x * w) 1 <= srnd (y * w) 1) as Hmono.
  { intros x y Hxy Hx Hx0 Hy. assert (x * w <= y * w) as Hle by (apply Z.mul_le_mono_nonneg_r; lia).
    assert (0 <= x * w) by (apply Z.mul_nonneg_nonneg; lia).
    destruct (Z.eq_dec (x * w) 0) as [E|E].
    - rewrite E. change (srnd 0 1) with 0. destruct Hy as [->|Hy]; [done|].
      destruct (Z.eq_dec (y * w) 0) as [->|]; [done|]. rewrite srnd_pos by lia. by apply rnd_nonneg.
    - rewrite !srnd_pos by lia. destruct Hx; [lia|]. apply rnd_mono; [done|done|lia]. }
  assert (forall x y, 0 <= x -> x <= y -> (x = 0 \/ fine x 1) -> fine y 1 -> srnd x 1 <= rnd y 1) as Hup.
  { intros x y Hx Hxy [->|Hxf] Hyf; [by apply rnd_nonneg|].
    destruct (Z.eq_dec x 0) as [->|]; [by apply rnd_nonneg|]. rewrite srnd_pos by lia.
    apply rnd_mono; [done|done|lia]. }
  split_and!; [done| | |].
  - intros Hle. assert (B <= A) by (rewrite HAv, HBv; apply Hmono; auto; lia).
    rewrite HC. destruct HF as [->|HF]; [done|]. pose proof (rnd_nonneg _ _ HF).
    unfold srnd. destruct (Z.sgn_spec (B - A)) as [[? ->]|[[? ->]|[? ->]]]; lia.
  - intros Hle. assert (A <= B) as HAB by (rewrite HAv, HBv; apply Hmono; auto; lia).
    rewrite HC. split.
    { unfold srnd. destruct HF as [->|HF]; [done|]. pose proof (rnd_nonneg _ _ HF).
      destruct (Z.sgn_spec (B - A)) as [[? ->]|[[? ->]|[? ->]]]; lia. }
    assert (U = 2 * 2 ^ (unit_exp - 1)) as HUh by (by rewrite <-(Z.pow_add_r 2 1)).
    assert (0 < 2 ^ (unit_exp - 1)) by (by apply Z.pow_pos_nonneg).
    transitivity (2 * rnd ((2 * (n - a) + 1) * 2 ^ (unit_exp - 1)) 1).
    + apply Z.mul_le_mono_nonneg_l; [lia|]. apply Hup; [lia| | |].
      * assert (a * w <= 2 ^ 50 * U /\ n * w <= 2 ^ 50 * U) by (split; apply Z.mul_le_mono_nonneg; lia).
        assert ((n - a) * w <= (n - a) * U) by (apply Z.mul_le_mono_nonneg_l; lia). lia.
      * rewrite Z.abs_eq in HF by lia. done.
      * apply fine_1. pose proof (pow_le 52 (unit_exp - 1) ltac:(unfold unit_exp; lia)).
        transitivity (1 * 2 ^ (unit_exp - 1)); [lia|]. apply Z.mul_le_mono_nonneg_r; lia.
    + rewrite rnd_pow; [lia|lia|unfold unit_exp; lia].
  - intros Hd0%H0. rewrite HC, HAv, HBv, Hd0.
    rewrite (srnd_int n), (srnd_int a), <-Z.mul_sub_distr_r, srnd_int by lia. done.
Qed.
End charge.

(** The charge in the service's terms. *)
Lemma prorate_charge {O : Overflow} (sub : Subscription) (n now : Z) :
  CurrentPeriodStart sub <= now < CurrentPeriodEnd sub ->
  CurrentPeriodEnd sub - CurrentPeriodStart sub <= int64_max ->
  prorate sub n now =
    let c := charge (now - CurrentPeriodStart sub) (CurrentPeriodEnd sub - CurrentPeriodStart sub)
               (Amount sub) n in
    if SFltb c (S754_zero false) then 0 else to_int64 c.
Proof.
  intros Hnow HT. unfold prorate, GoTime.Sub, charge, unused.
  rewrite !Z.min_r, !Z.max_r by (unfold int64_min, int64_max in *; lia).
  by rewrite (proj2 (Z.leb_gt _ _)) by lia.
Qed.

Lemma prorate_value {O : Overflow} (sub : Subscription) (n now : Z) :
  let start := CurrentPeriodStart sub in
  let T := CurrentPeriodEnd sub - start in
  let a := Amount sub in
  start <= now < CurrentPeriodEnd sub -> T <= int64_max -> 0 <= a <= 2 ^ 50 -> 0 <= n <= 2 ^ 50 ->
  0 <= prorate sub n now <= Z.max 0 (n - a) /\
  (now = start -> prorate sub n now = Z.max 0 (n - a)) /\
  (a <= n -> Z.abs (prorate sub n now * T - (n - a) * (CurrentPeriodEnd sub - now)) < 2 * T).
Proof.
  intros start T a Hnow HT Ha Hn. pose proof U_pos as HU.
  set (d := now - start). assert (0 <= d < T) as Hd by lia.
  rewrite prorate_charge by done. fold start T a d. cbv zeta.
  destruct (charge_bounds d T a n Hd HT Ha Hn) as (Hnorm & Hneg & Hpos & H0).
  pose proof (charge_accuracy d T a n Hd HT Ha Hn) as Hacc.
  replace (CurrentPeriodEnd sub - now) with (T - d) by lia.
  rewrite Fltb_zero by done. set (c := charge d T a n) in *. clearbody c.
  destruct (Z.ltb_spec (val c) 0) as [Hc|Hc].
  { split_and!; [lia|lia| |].
    - intros Hs. rewrite H0 in Hc by lia. assert (n - a < 0) by nia. lia.
    - intros Hle. lia. }
  assert (0 <= Z.quot (val c) U <= Z.max 0 (n - a)) as Hq.
  { rewrite Z.quot_div_nonneg by lia. split; [apply Z.div_pos; lia|].
    destruct (Z.le_gt_cases a n) as [Hle|Hgt].
    - destruct (Hpos Hle) as [_ Hb]. assert (val c / U < n - a + 1); [|lia].
      apply Z.div_lt_upper_bound; lia.
    - assert (val c = 0) as -> by lia. rewrite Z.div_0_l by lia. lia. }
  rewrite to_int64_val; [|done|apply in_int64_spec; unfold int64_min, int64_max; lia].
  split_and!; [lia|lia| |].
  - intros Hs. rewrite H0 by lia. rewrite Z.quot_mul by lia.
    rewrite H0 in Hc by lia. assert (0 <= n - a) by nia. lia.
  - intros _. rewrite Z.quot_div_nonneg by lia.
    pose proof (Z.div_mod (val c) U ltac:(lia)) as Hdm. pose proof (Z.mod_pos_bound (val c) U HU) as Hm.
    set (k := val c / U) in *. set (r := val c mod U) in *. clearbody k r.
    assert (0 <= r * T < U * T) as Hr.
    { split; [apply Z.mul_nonneg_nonneg; lia|apply Z.mul_lt_mono_pos_r; lia]. }
    apply (Z.mul_lt_mono_pos_r U); [done|]. rewrite <-(Z.abs_eq U) at 1 by lia. rewrite <-Z.abs_mul.
    rewrite Hdm in Hacc. generalize dependent (2 ^ unit_exp). intros V. intros.
    replace ((k * T - (n - a) * (T - d)) * V) with ((V * k + r) * T - (n - a) * (T - d) * V - r * T) by ring.
    lia.
Qed.

Definition valid_period (period : string) : bool :=
  bool_decide (period = "monthly") || bool_decide (period = "annual").

(** C39: The subscription endpoint.  A malformed body is answered 400 and another period than
    "monthly" and "annual" 422, both without storing anything.  Otherwise the answer is 201 with
    the one subscription that was stored, under its own identifier, with the fields of the
    request; its period starts at the time of the request and lasts as many days as the month it
    starts in (so a period that starts on 31 January ends in March), or 365 or 366 days. *)
Theorem subscription_created {kv} (E : Env) {S} {W : Has (World kv) S}
    {D : Has SubscriptionStore S} (r : Request) (s : S) :
  HasLaws W -> HasLaws D -> Apart W D ->
  let '(cs, s') := CreateSubscriptionHandler E r s in
  match Decode subscription_fields (mkSubscriptionRequest "" "" 0 "") (r_Body r) with
  | Err _ => status (respond cs) = 400 /\ s' = s
  | Ok q =>
      if valid_period (sr_BillingPeriod q) then
        exists b start stop,
          let sub := mkSubscription ("sub_" +:+ EncodeToString b) (sr_UserID q) (sr_PlanID q)
                       (sr_Amount q) (sr_BillingPeriod q) start stop in
          status (respond cs) = 201 /\ cs = json_answer 201 (Subscription_json sub) /\
          part s' = <[ID sub := sub]> (part s) /\
          start = clock E (Datatypes.S (w_ticks (part (Has := W) s))) /\
          let '(y, m, _) := Date start in
          if bool_decide (sr_BillingPeriod q = "monthly")
          then stop = start + month_length y m * day_ns
          else stop = start + 365 * day_ns \/ stop = start + 366 * day_ns
      else status (respond cs) = 422 /\ part (Has := D) s' = part s
  end.
Proof.
  intros WL DL AP. unfold CreateSubscriptionHandler.
  destruct (Decode _ _ _) as [q|e]; [|by split].
  pose proof (random_bytes_apart (D := D) E 8 s) as Hsv.
  pose proof (random_bytes_ticks E 8 s) as Ht.
  destruct (random_bytes E 8 s) as [b s1]. cbn [snd] in Hsv, Ht.
  unfold CreateSubscription, valid_period. rewrite <-negb_orb.
  destruct (bool_decide (sr_BillingPeriod q = "monthly") || bool_decide (sr_BillingPeriod q = "annual"))
    eqn:Hp; cbn [negb]; [|by split]. unfold read_clock.
  exists b, (clock E (w_ticks (part (Has := W) s1))),
    (period_end (sr_BillingPeriod q) (clock E (w_ticks (part (Has := W) s1)))).
  split; [apply respond_json|]. split; [done|].
  split; [by rewrite part_with, (part_apart_r (HX := W) (HY := D)), Hsv|]. split; [by rewrite Ht|].
  unfold period_end. pose proof (AddDate_month (clock E (w_ticks (part (Has := W) s1)))) as Hm.
  pose proof (AddDate_year (clock E (w_ticks (part (Has := W) s1)))) as Hy.
  destruct (Date _) as [[y m] dd]. by case_bool_decide.
Qed.

(** C25: Proration.  For a subscription whose period is running and amounts up to [2 ^ 50], the
    charge for a change of plan lies between 0 and the difference of the amounts; it is the whole
    difference at the start of the period, nothing for a downgrade, and for an upgrade it differs by
    less than two minor units from the exact share of the difference that falls on the rest of the
    period.  When the period is over it is the whole new amount, and an unknown subscription is an
    error. *)
Theorem proration_correct {kv} (E : Env) {O : Overflow} {S} {W : Has (World kv) S}
    {D : Has SubscriptionStore S} (subID : string) (newAmount : Z) (s : S) :
  let now := clock E (w_ticks (part (Has := W) s)) in
  (part s !! subID = None ->
   CalculateProration E subID newAmount s = (Err ErrSubscriptionNotFound, s)) /\
  forall sub, part s !! subID = Some sub ->
  let start := CurrentPeriodStart sub in
  let T := CurrentPeriodEnd sub - start in
  exists c, (CalculateProration E subID newAmount s).1 = Ok c /\
    (CurrentPeriodEnd sub <= now -> c = newAmount) /\
    (start <= now < CurrentPeriodEnd sub -> T <= int64_max ->
     0 <= Amount sub <= 2 ^ 50 -> 0 <= newAmount <= 2 ^ 50 ->
     0 <= c <= Z.max 0 (newAmount - Amount sub) /\
     (now = start -> c = Z.max 0 (newAmount - Amount sub)) /\
     (Amount sub <= newAmount ->
      Z.abs (c * T - (newAmount - Amount sub) * (CurrentPeriodEnd sub - now)) < 2 * T)).
Proof.
  intros now. unfold CalculateProration. split; [by intros ->|]. intros sub ->.
  unfold read_clock. exists (prorate sub newAmount now). split; [done|]. split.
  - intros Hend. unfold prorate, GoTime.Sub.
    rewrite (proj2 (Z.leb_le _ _)); [done|]. unfold int64_min, int64_max. lia.
  - intros. by apply prorate_value.
Qed.

(** ** Witnesses *)
#[local] Instance intel : Overflow := {| overflow := fun _ => int64_min |}.

Definition subscribe (period : string) : Request :=
  mkRequest "POST" "/v1/subscriptions" ∅ "10.0.0.1:1"
    (Some (JObj [("user_id", JStr "u"); ("plan_id", JStr "pro"); ("amount", JInt 5000);
                 ("billing_period", JStr period)])).

Definition subscription_server (m : SubscriptionStore) : World unit * SubscriptionStore :=
  (new_world tt, m).

(** A plan of 50.00 started 15 days before the clock, upgraded to 80.00: half of the difference. *)
Definition half_used : Subscription :=
  mkSubscription "sub_1" "u" "pro" 5000 "monthly" (clock env0 0 - 15 * day_ns) (clock env0 0 + 15 * day_ns).
Lemma subscription_created_witness :
  let '(cs, _) := CreateSubscriptionHandler env0 (subscribe "monthly") (subscription_server ∅) in
  status (respond cs) = 201.
Proof.
  pose proof (subscription_created env0 (subscribe "monthly") (subscription_server ∅) _ _ _) as H.
  destruct (CreateSubscriptionHandler env0 _ _) as [cs s'].
  assert (Decode subscription_fields (mkSubscriptionRequest "" "" 0 "") (r_Body (subscribe "monthly")) =
    Ok (mkSubscriptionRequest "u" "pro" 5000 "monthly")) as Hd by (by vm_compute).
  rewrite Hd in H. change (valid_period _) with true in H. cbv iota in H.
  destruct H as (b & t & t' & H & _). exact H.
Defined.

Lemma proration_correct_witness :
  exists c, (CalculateProration env0 "sub_1" 8000 (subscription_server {[ "sub_1" := half_used ]})).1
              = Ok c /\ 0 <= c <= 3000 /\ Z.abs (c - 1500) < 2.
Proof.
  destruct (proration_correct env0 "sub_1" 8000 (subscription_server {[ "sub_1" := half_used ]}))
    as [_ H].
  destruct (H half_used eq_refl) as (c & Hc & _ & Hb). exists c. split; [exact Hc|].
  change (clock env0 (w_ticks _)) with (clock env0 0) in Hb. unfold half_used in Hb.
  cbn [CurrentPeriodStart CurrentPeriodEnd Amount] in Hb.
  set (t := clock env0 0) in *. clearbody t. unfold day_ns, Hour, Minute, Second, int64_max in Hb.
  destruct Hb as (H1 & _ & H2); [lia|lia|lia|lia|]. split; [exact H1|]. specialize (H2 ltac:(lia)). lia.
Defined.
