(* ===== verification/SubscriptionRepo.v ===== *)
(** * internal/repository/subscription.go and postgres_subscription.go

    The table of subscriptions.  No part of the server instantiates this repository: the
    subscription service keeps its records in memory (Subscription.v).  The server stores instants
    to the microsecond; its input function is the class [PgTimes]. *)
From S2P Require Import Prelude Json GoTime Database Hex EventLog.

(** The server's timestamptz input; [None] when the instant is out of range. *)
Class PgTimes := { timestamptz_in : Z -> option Z }.

(** Whole microseconds of four-digit years are stored as they are. *)
Class PgTimesLaws (P : PgTimes) : Prop :=
  timestamptz_micro : forall t, year_ok t = true -> t mod 1000 = 0 -> timestamptz_in t = Some t.

Record Subscription := mkSubscription {
  ID : string; MerchantID : string; PlanName : string; BillingPeriod : string; Status : string;
  CurrentPeriodStart : Z; CurrentPeriodEnd : Z; CreatedAt : Z; UpdatedAt : Z }.

Section repository.
Context {kv : Type} (E : Env) {P : PgValues} {T : PgTimes}.
Implicit Types (w : World kv).

Definition timestamptz (t : Z) : res Z :=
  match timestamptz_in t with
  | Some t' => Ok t'
  | None => Err (Errorf "pq: timestamp out of range")
  end.

Definition id_taken (u : uuid) (d : DB) : bool :=
  existsb (fun r => bool_decide (s_id r = u)) (subscriptions d).

(** [INSERT INTO subscriptions (merchant_id, plan_name, billing_period, status,
     current_period_start, current_period_end) VALUES ($1, $2, $3, $4, $5, $6)
     RETURNING id, created_at, updated_at] *)
Definition insert_subscription (sub : Subscription) : stmt (string * Z * Z) := fun q d =>
  m ← uuid_param E (MerchantID sub);
  plan ← varchar 50 (PlanName sub);
  period ← varchar 20 (BillingPeriod sub);
  st ← varchar 20 (Status sub);
  from ← timestamptz (CurrentPeriodStart sub);
  to ← timestamptz (CurrentPeriodEnd sub);
  if id_taken (sq_uuid q) d then
    Err (Errorf "pq: duplicate key value violates unique constraint subscriptions_pkey")
  else match users d !! m with
  | None => Err (Errorf "pq: insert on table subscriptions violates foreign key constraint")
  | Some _ =>
      mret (uuid_out E (sq_uuid q), sq_now q, sq_now q,
            set_subscriptions (subscriptions d ++
              [mkSubscriptionRow (sq_uuid q) m plan period st from to (sq_now q) (sq_now q)]) d)
  end.

(** The struct with the scanned columns. *)
Definition Create (sub : Subscription) : M (World kv) Subscription :=
  '(id, created, updated) ← master_stmt E (insert_subscription sub);
  mret (mkSubscription id (MerchantID sub) (PlanName sub) (BillingPeriod sub) (Status sub)
          (CurrentPeriodStart sub) (CurrentPeriodEnd sub) created updated).

Definition scan_subscription (r : SubscriptionRow) : Subscription :=
  mkSubscription (uuid_out E (s_id r)) (uuid_out E (s_merchant_id r)) (s_plan_name r)
    (s_billing_period r) (s_status r) (s_period_start r) (s_period_end r) (s_created_at r)
    (s_updated_at r).

(** [SELECT ... FROM subscriptions WHERE merchant_id = $1], of which [QueryRow] takes the first. *)
Definition select_subscription (merchantID : string) : stmt (option SubscriptionRow) := fun _ d =>
  m ← uuid_param E merchantID;
  mret (head (unordered (List.filter (fun r => bool_decide (s_merchant_id r = m)) (subscriptions d))), d).

Definition GetByMerchantID (merchantID : string) : M (World kv) (option Subscription) := fun w =>
  match (row ← master_stmt E (select_subscription merchantID); scan_row row) w with
  | (Ok r, w') => (Ok (Some (scan_subscription r)), w')
  | (Err e, w') => if errors_Is e ErrNoRows then (Ok None, w') else (Err e, w')
  end.

(** [UPDATE subscriptions SET plan_name = $1, billing_period = $2, status = $3,
     current_period_start = $4, current_period_end = $5, updated_at = NOW() WHERE id = $6] *)
Definition update_subscription (sub : Subscription) : stmt unit := fun q d =>
  u ← uuid_param E (ID sub);
  plan ← varchar 50 (PlanName sub);
  period ← varchar 20 (BillingPeriod sub);
  st ← varchar 20 (Status sub);
  from ← timestamptz (CurrentPeriodStart sub);
  to ← timestamptz (CurrentPeriodEnd sub);
  mret (tt, set_subscriptions (map (fun r =>
    if bool_decide (s_id r = u)
    then mkSubscriptionRow (s_id r) (s_merchant_id r) plan period st from to (s_created_at r) (sq_now q)
    else r) (subscriptions d)) d).

Definition Update (sub : Subscription) : M (World kv) unit := master_stmt E (update_subscription sub).
End repository.

(** ** Facts *)
Section facts.
Context {kv : Type} (E : Env) {UL : UuidLaws E} {P : PgValues} {PL : PgValuesLaws P} {T : PgTimes}
  {TL : PgTimesLaws T}.
Implicit Types (w : World kv) (d : DB).

(** The instants of a subscription that the table stores exactly. *)
Definition micro (sub : Subscription) : Prop :=
  year_ok (CurrentPeriodStart sub) = true /\ CurrentPeriodStart sub mod 1000 = 0 /\
  year_ok (CurrentPeriodEnd sub) = true /\ CurrentPeriodEnd sub mod 1000 = 0.

Definition subscriptions_of (m : uuid) d : list SubscriptionRow :=
  List.filter (fun r => bool_decide (s_merchant_id r = m)) (subscriptions d).

Lemma varchar_same n s v : varchar n s = Ok v -> v = s.
Proof. unfold varchar. destruct (_ <=? _)%nat; congruence. Qed.

Lemma timestamptz_ok t v : year_ok t = true -> t mod 1000 = 0 -> timestamptz t = Ok v -> v = t.
Proof. intros Hy Hm. unfold timestamptz. rewrite timestamptz_micro by done. congruence. Qed.

Lemma Get_none w m :
  calm E w -> subscriptions_of m (w_db w) = [] ->
  (GetByMerchantID E (uuid_out E m) w).1 = Ok None.
Proof.
  intros Hc Hr. unfold GetByMerchantID, mbind, M_bind. rewrite master_stmt_calm by done.
  unfold select_subscription, uuid_param. rewrite uuid_in_out. cbn. fold (subscriptions_of m (w_db w)).
  rewrite Hr. pose proof (unordered_perm _ (@nil SubscriptionRow)) as Hp.
  apply Permutation_nil_r in Hp as ->. done.
Qed.

Lemma subscriptions_of_insert m d d' r :
  s_merchant_id r = m -> subscriptions d' = subscriptions d ++ [r] ->
  subscriptions_of m d' = subscriptions_of m d ++ [r].
Proof.
  intros <- Hd. unfold subscriptions_of. rewrite Hd, List.filter_app. simpl.
  by rewrite bool_decide_true.
Qed.

Lemma subscriptions_of_map m d d' f :
  (forall r, s_merchant_id (f r) = s_merchant_id r) -> subscriptions d' = map f (subscriptions d) ->
  subscriptions_of m d' = map f (subscriptions_of m d).
Proof.
  intros Hf Hd. unfold subscriptions_of. rewrite Hd. clear Hd.
  induction (subscriptions d) as [|r l IH]; [done|]. simpl. rewrite Hf, IH. by case_bool_decide.
Qed.

(** A merchant's only subscription is what [GetByMerchantID] returns. *)
Lemma Get_only w m r :
  calm E w -> subscriptions_of m (w_db w) = [r] ->
  (GetByMerchantID E (uuid_out E m) w).1 = Ok (Some (scan_subscription E r)) /\
  w_db (GetByMerchantID E (uuid_out E m) w).2 = w_db w.
Proof.
  intros Hc Hr. unfold GetByMerchantID, mbind, M_bind. rewrite master_stmt_calm by done.
  unfold select_subscription, uuid_param. rewrite uuid_in_out. cbn. fold (subscriptions_of m (w_db w)).
  rewrite Hr. pose proof (unordered_perm _ [r]) as Hp.
  apply Permutation_singleton_r in Hp as ->. done.
Qed.

Lemma insert_ok sub q d id c u d' :
  micro sub -> insert_subscription E sub q d = Ok (id, c, u, d') ->
  exists m, uuid_in E (MerchantID sub) = Some m /\ id = uuid_out E (sq_uuid q) /\
    Forall (fun r => s_id r <> sq_uuid q) (subscriptions d) /\
    d' = set_subscriptions (subscriptions d ++
           [mkSubscriptionRow (sq_uuid q) m (PlanName sub) (BillingPeriod sub) (Status sub)
              (CurrentPeriodStart sub) (CurrentPeriodEnd sub) c u]) d.
Proof.
  intros (Hy & Hm & Hy' & Hm'). unfold insert_subscription, mbind, res_bind, uuid_param.
  destruct (uuid_in E (MerchantID sub)) as [m|] eqn:Hin; [|done].
  destruct (varchar 50 _) eqn:Hp; [apply varchar_same in Hp as ->|done].
  destruct (varchar 20 (BillingPeriod sub)) eqn:Hb; [apply varchar_same in Hb as ->|done].
  destruct (varchar 20 _) eqn:Hs; [apply varchar_same in Hs as ->|done].
  destruct (timestamptz (CurrentPeriodStart sub)) eqn:Hf; [apply timestamptz_ok in Hf as ->; [|done..]|done].
  destruct (timestamptz _) eqn:Ht; [apply timestamptz_ok in Ht as ->; [|done..]|done].
  unfold id_taken. destruct (existsb _ _) eqn:Hex; [done|].
  destruct (users d !! m); [|done]. intros [= <- <- <- <-]. exists m. split_and!; [done|done| |done].
  rewrite Forall_forall. intros r Hr%list_elem_of_In Heq.
  enough (existsb (fun r => bool_decide (s_id r = sq_uuid q)) (subscriptions d) = true) by congruence.
  apply existsb_exists. exists r. by rewrite bool_decide_true.
Qed.

Lemma update_ok sub q d d' :
  micro sub -> update_subscription E sub q d = Ok (tt, d') ->
  exists u, uuid_in E (ID sub) = Some u /\
    d' = set_subscriptions (map (fun r =>
      if bool_decide (s_id r = u)
      then mkSubscriptionRow (s_id r) (s_merchant_id r) (PlanName sub) (BillingPeriod sub) (Status sub)
             (CurrentPeriodStart sub) (CurrentPeriodEnd sub) (s_created_at r) (sq_now q)
      else r) (subscriptions d)) d.
Proof.
  intros (Hy & Hm & Hy' & Hm'). unfold update_subscription, mbind, res_bind, uuid_param.
  destruct (uuid_in E (ID sub)) as [u|] eqn:Hin; [|done].
  destruct (varchar 50 _) eqn:Hp; [apply varchar_same in Hp as ->|done].
  destruct (varchar 20 (BillingPeriod sub)) eqn:Hb; [apply varchar_same in Hb as ->|done].
  destruct (varchar 20 _) eqn:Hs; [apply varchar_same in Hs as ->|done].
  destruct (timestamptz (CurrentPeriodStart sub)) eqn:Hf; [apply timestamptz_ok in Hf as ->; [|done..]|done].
  destruct (timestamptz _) eqn:Ht; [apply timestamptz_ok in Ht as ->; [|done..]|done].
  intros [= <-]. by exists u.
Qed.

(** [Create] appends the row that scans to its result. *)
Lemma Create_row m sub sub' w w' :
  calm E w -> micro sub -> MerchantID sub = uuid_out E m -> Create E sub w = (Ok sub', w') ->
  calm E w' /\ exists r, subscriptions (w_db w') = subscriptions (w_db w) ++ [r] /\
    scan_subscription E r = sub' /\ s_merchant_id r = m.
Proof.
  intros Hc Hmic HM. unfold Create, mbind, M_bind. rewrite master_stmt_calm by done.
  destruct (insert_subscription E sub _ _) as [[[[id c] u] d']|e] eqn:Hi; [|done].
  destruct (insert_ok _ _ _ _ _ _ _ Hmic Hi) as (m' & Hm' & -> & Hnew & ->).
  rewrite HM, uuid_in_out in Hm'. injection Hm' as <-. intros [= <- <-].
  split; [intros n Hn; apply Hc; cbn in Hn; lia|].
  eexists. split; [reflexivity|]. split; [|done]. unfold scan_subscription. cbn. by rewrite HM.
Qed.

(** [Update] rewrites the row with the identifier. *)
Lemma Update_row sub w w' :
  calm E w -> micro sub -> Update E sub w = (Ok tt, w') ->
  calm E w' /\ exists u now, uuid_in E (ID sub) = Some u /\
    subscriptions (w_db w') = map (fun r =>
      if bool_decide (s_id r = u)
      then mkSubscriptionRow (s_id r) (s_merchant_id r) (PlanName sub) (BillingPeriod sub) (Status sub)
             (CurrentPeriodStart sub) (CurrentPeriodEnd sub) (s_created_at r) now
      else r) (subscriptions (w_db w)).
Proof.
  intros Hc Hmic. unfold Update. rewrite master_stmt_calm by done.
  destruct (update_subscription E sub _ _) as [[[] d']|e] eqn:Hu; [|done].
  destruct (update_ok _ _ _ _ Hmic Hu) as (u & Hu' & ->). intros [= <-].
  split; [intros n Hn; apply Hc; cbn in Hn; lia|]. by eexists u, _.
Qed.
End facts.

(** What is written is read back.  When a merchant without subscriptions gets one through
    [Create], [GetByMerchantID] returns it as [Create] did; after an [Update] of it, it returns the
    new plan, period, status and instants, with the creation time kept and the time of the update.
    (The instants are whole microseconds; the merchant's identifier is in the server's form.) *)
Theorem subscription_round_trip {kv} (E : Env) {P : PgValues} {T : PgTimes}
    (sub sub' upd : Subscription) (m : uuid) (w w' w'' : World kv) :
  UuidLaws E -> PgValuesLaws P -> PgTimesLaws T -> calm E w ->
  MerchantID sub = uuid_out E m -> subscriptions_of m (w_db w) = [] ->
  micro sub -> micro upd -> ID upd = ID sub' ->
  Create E sub w = (Ok sub', w') -> Update E upd w' = (Ok tt, w'') ->
  (GetByMerchantID E (uuid_out E m) w).1 = Ok None /\
  (GetByMerchantID E (uuid_out E m) w').1 = Ok (Some sub') /\
  exists now, (GetByMerchantID E (uuid_out E m) w'').1 =
    Ok (Some (mkSubscription (ID sub') (MerchantID sub) (PlanName upd) (BillingPeriod upd) (Status upd)
                (CurrentPeriodStart upd) (CurrentPeriodEnd upd) (CreatedAt sub') now)).
Proof.
  intros UL PL TL Hc HM Hnone Hmic Hmic' HID Hcreate Hupd.
  destruct (Create_row E m _ _ _ _ Hc Hmic HM Hcreate) as (Hc' & r & Hr & <- & Hrm).
  destruct (Update_row E _ _ _ Hc' Hmic' Hupd) as (Hc'' & u & now & Hu & Hr').
  rewrite HID in Hu. cbn [scan_subscription ID] in Hu. rewrite uuid_in_out in Hu. injection Hu as <-.
  assert (subscriptions_of m (w_db w') = [r]) as Hone
    by (by rewrite (subscriptions_of_insert m (w_db w) _ r Hrm Hr), Hnone).
  split; [by apply Get_none|]. split; [by apply Get_only|].
  unshelve epose proof (subscriptions_of_map m _ _ _ _ Hr') as Htwo; [intros x; cbv beta; by case_bool_decide|].
  rewrite Hone in Htwo. exists now. rewrite (proj1 (Get_only E _ m _ Hc'' Htwo)).
  unfold scan_subscription. cbn. rewrite bool_decide_true by done. cbn. by rewrite Hrm, HM.
Qed.

(** An identifier without a row is no error and changes nothing. *)
Theorem update_unknown_silent {kv} (E : Env) {T : PgTimes} (sub : Subscription) (u : uuid)
    (w w' : World kv) :
  calm E w -> uuid_in E (ID sub) = Some u -> Forall (fun r => s_id r <> u) (subscriptions (w_db w)) ->
  Update E sub w = (Ok tt, w') -> w_db w' = w_db w.
Proof.
  intros Hc Hu Hnone. unfold Update. rewrite master_stmt_calm by done.
  unfold update_subscription, mbind, res_bind, uuid_param. rewrite Hu.
  destruct (varchar 50 _); [|done]. destruct (varchar 20 (BillingPeriod sub)); [|done].
  destruct (varchar 20 _); [|done]. destruct (timestamptz (CurrentPeriodStart sub)); [|done].
  destruct (timestamptz _); [|done]. intros [= <-]. simpl. rewrite map_ext_Forall with (g := id).
  2:{ eapply Forall_impl; [exact Hnone|]. intros r Hr. cbn. by rewrite bool_decide_false. }
  rewrite map_id. by destruct (w_db w).
Qed.
