(* ===== verification/Config.v ===== *)
(** * internal/config/config.go and the cluster of internal/database/cluster.go

    Settings from the environment, the connection strings made of them, and the two connection
    pools.  Opening and pinging belong to database/sql and lib/pq: the class [SqlDriver], with what
    they answer at boot. *)
From S2P Require Import Prelude GoTime Breaker.

Record Config := mkConfig {
  DBHost : string; DBReplicaHost : string; DBPort : string; DBUser : string; DBPassword : string;
  DBName : string; RedisHost : string; RedisPort : string }.

(** The environment of the process; a variable may be set to the empty text. *)
Abbreviation environ := (gmap string string).

Definition getEnv (key fallback : string) (env : environ) : string :=
  match env !! key with Some value => value | None => fallback end.

Definition Load (env : environ) : res Config :=
  Ok (mkConfig (getEnv "DB_HOST" "localhost" env) (getEnv "DB_REPLICA_HOST" "localhost" env)
        (getEnv "DB_PORT" "5432" env) (getEnv "DB_USER" "postgres" env)
        (getEnv "DB_PASSWORD" "secretpassword" env) (getEnv "DB_NAME" "vaultpay" env)
        (getEnv "REDIS_HOST" "localhost" env) (getEnv "REDIS_PORT" "6379" env)).

Definition dsn (host : string) (c : Config) : string :=
  "host=" +:+ host +:+ " port=" +:+ DBPort c +:+ " user=" +:+ DBUser c +:+ " password=" +:+
  DBPassword c +:+ " dbname=" +:+ DBName c +:+ " sslmode=disable".

Definition GetDSN (c : Config) : string := dsn (DBHost c) c.

(** ** The cluster *)
Class SqlDriver := {
  sql_Open : string -> option error;     (* the error of sql.Open on a connection string *)
  sql_Ping : string -> option error }.

Record Pool := mkPool {
  pl_dsn : string; MaxOpenConns : Z; MaxIdleConns : Z; ConnMaxLifetime : Z }.

Definition configurePool (dsn : string) : Pool := mkPool dsn 25 25 (5 * Minute).

Record DatabaseCluster := mkCluster {
  Master : Pool; Replica : Pool; cl_ReplicaBreaker : CircuitBreaker }.

Definition or_fail (pre : string) (err : option error) : res unit :=
  match err with Some e => Err (Wrapf pre e "") | None => Ok tt end.

Definition InitCluster {D : SqlDriver} (cfg : Config) : res DatabaseCluster :=
  let masterDSN := dsn (DBHost cfg) cfg in
  let replicaDSN := dsn (DBReplicaHost cfg) cfg in
  match or_fail "failed to open master DB: " (sql_Open masterDSN) with
  | Err e => Err e
  | Ok _ =>
      match or_fail "failed to open replica DB: " (sql_Open replicaDSN) with
      | Err e => Err e
      | Ok _ =>
          match or_fail "master node unreachable: " (sql_Ping masterDSN) with
          | Err e => Err e
          | Ok _ =>
              match or_fail "replica node unreachable: " (sql_Ping replicaDSN) with
              | Err e => Err e
              | Ok _ => Ok (mkCluster (configurePool masterDSN) (configurePool replicaDSN) ReplicaBreaker)
              end
          end
      end
  end.

(** The cluster starts only when both nodes open and answer; without a setting for the replica
    both pools lead to the node of the defaults. *)
Theorem cluster_ready {D : SqlDriver} (env : environ) (cfg : Config) :
  Load env = Ok cfg ->
  (is_ok (InitCluster cfg) = true <->
   sql_Open (dsn (DBHost cfg) cfg) = None /\ sql_Open (dsn (DBReplicaHost cfg) cfg) = None /\
   sql_Ping (dsn (DBHost cfg) cfg) = None /\ sql_Ping (dsn (DBReplicaHost cfg) cfg) = None) /\
  (forall c, InitCluster cfg = Ok c ->
     pl_dsn (Master c) = GetDSN cfg /\ CanExecute_read (cl_ReplicaBreaker c) = true) /\
  (env !! "DB_HOST" = None -> env !! "DB_REPLICA_HOST" = None ->
   DBReplicaHost cfg = DBHost cfg).
Proof.
  intros [= <-]. unfold InitCluster, or_fail. cbv zeta. set (cfg := mkConfig _ _ _ _ _ _ _ _).
  split_and!.
  - destruct (sql_Open (dsn (DBHost cfg) cfg)); [split; [done|by intros (? & ? & ? & ?)]|].
    destruct (sql_Open (dsn (DBReplicaHost cfg) cfg)); [split; [done|by intros (? & ? & ? & ?)]|].
    destruct (sql_Ping (dsn (DBHost cfg) cfg)); [split; [done|by intros (? & ? & ? & ?)]|].
    destruct (sql_Ping (dsn (DBReplicaHost cfg) cfg)); [split; [done|by intros (? & ? & ? & ?)]|done].
  - intros c. destruct (sql_Open (dsn (DBHost cfg) cfg)); [done|].
    destruct (sql_Open (dsn (DBReplicaHost cfg) cfg)); [done|].
    destruct (sql_Ping (dsn (DBHost cfg) cfg)); [done|].
    destruct (sql_Ping (dsn (DBReplicaHost cfg) cfg)); [done|]. by intros [= <-].
  - cbn. unfold getEnv. by intros -> ->.
Qed.
