(* ===== verification/Tools.v ===== *)
(** * get_merchant_id.go and internal/logger

    A separate program that prints the labels of the enum of the payment states, and the set-up of
    the logger as the data handed to zap and lumberjack. *)
From S2P Require Import Prelude GoTime Database Http Breaker Config.

(** ** The enum tool *)

(** The labels that migration 000001 declares. *)
Definition statuses : list payment_status := [pending; processing; succeeded; failed; refunded].

(** [SELECT enumlabel FROM pg_enum JOIN pg_type .. WHERE typname = 'payment_status']; without an
    ORDER BY the server answers in an order of its own. *)
Definition enum_labels (order : list payment_status) : stmt (list string) := fun _ d =>
  Ok (status_text <$> order, d).

Definition label_line (label : string) : string := "- '" +:+ label +:+ "'" +:+ newline.

Definition enum_header : string :=
  newline +:+ "📋 ALLOWED PAYMENT STATUS ENUM VALUES IN DATABASE:" +:+ newline.

Section tool.
Context {kv : Type} (E : Env) {D : SqlDriver} (order : list payment_status).
Implicit Types (w : World kv).

(** What the program prints, or the message it dies with. *)
Definition inspect (vars : environ) : M (World kv) (list string) :=
  cfg ← wrap_err "Config load failed: " (lift (Load vars));
  _ ← wrap_err "Database connection failed: " (lift (InitCluster cfg));
  rows ← wrap_err "Failed to query enum values: " (master_stmt E (enum_labels order));
  labels ← rows_loop E rows;
  mret (enum_header :: (label_line <$> labels) ++ [newline]).

(** With the cluster up and no call lost, the states of a payment are printed, each once, and
    the tables stay. *)
Theorem inspect_complete (vars : environ) (cfg : Config) w :
  order ≡ₚ statuses -> Load vars = Ok cfg -> is_ok (InitCluster cfg) = true -> calm E w ->
  exists labels, (inspect vars w).1 = Ok (enum_header :: (label_line <$> labels) ++ [newline]) /\
    labels ≡ₚ status_text <$> statuses /\
    (forall l, l ∈ labels -> exists st, status_of_text l = Some st) /\
    w_db (inspect vars w).2 = w_db w.
Proof.
  intros Hord Hcfg Hup Hc. exists (status_text <$> order).
  unfold inspect, wrap_err, lift, mbind, M_bind. rewrite Hcfg.
  destruct (InitCluster cfg) as [cl|]; [|done]. rewrite (master_stmt_calm _ _ _ Hc). cbn.
  destruct (rows_loop_run E (status_text <$> order) (set_db (w_db w) (tick w))) as (w1 & -> & Hf).
  { intros n Hn. apply Hc. cbn in Hn. lia. }
  split; [done|]. split; [by rewrite Hord|]. split.
  - intros l (st & -> & _)%list_elem_of_fmap. exists st. by destruct st.
  - apply Hf.
Qed.
End tool.

(** ** internal/logger/logger.go *)
Inductive encoding := JSONEncoder | ConsoleEncoder.
Inductive level := DebugLevel | InfoLevel | FatalLevel.

(** Where a core writes: a file that lumberjack rotates, sizes in megabytes and ages in days, or
    the standard output. *)
Inductive sink :=
  | Rotated (Filename : string) (MaxSize MaxBackups MaxAge : Z) (Compress : bool)
  | Stdout.

Record EncoderConfig := mkEncoderConfig { TimeKey : string; EncodeTime : string }.

Record zapCore := mkZapCore {
  zc_encoder : encoding; zc_config : EncoderConfig; zc_sink : sink; zc_level : level }.

(** The cores of the tee, and whether the caller is noted. *)
Record zapLogger := mkZapLogger { zl_cores : list zapCore; zl_AddCaller : bool }.

Definition InitializeLogger : zapLogger :=
  let fileWriter := Rotated "logs/vaultpay.log" 10 5 30 true in
  let encoderConfig := mkEncoderConfig "timestamp" "ISO8601" in
  let fileCore := mkZapCore JSONEncoder encoderConfig fileWriter DebugLevel in
  let consoleCore := mkZapCore ConsoleEncoder encoderConfig Stdout DebugLevel in
  mkZapLogger [fileCore; consoleCore] true.
