(* ===== verification/Middleware.v ===== *)
(** * internal/middleware/metrics.go and logger.go: counting and logging requests

    Both wrap the writer to learn the status of the answer, in different ways: the metrics
    interceptor keeps the code of the last [WriteHeader] and starts from 200; the wrapper of chi
    used by the logger keeps what was sent, and 0 when nothing was.  Prometheus keeps one counter
    per combination of labels; durations are observed in nanoseconds here.  The request identifier
    that chi puts in the context is the class [RequestIDs]. *)
From S2P Require Import Prelude Json GoTime Database Hex Http.

Record Metrics := mkMetrics {
  httpRequestsTotal : gmap (string * string * string) Z;   (* path, method, status *)
  httpRequestDuration : list (string * string * Z) }.

Definition observe_request (path method statusStr : string) (duration : Z) (m : Metrics) : Metrics :=
  let labels := (path, method, statusStr) in
  mkMetrics (<[labels := default 0 (httpRequestsTotal m !! labels) + 1]> (httpRequestsTotal m))
    (httpRequestDuration m ++ [(path, method, duration)]).

Record LogLine := mkLogLine {
  l_method : string; l_path : string; l_status : Z; l_duration : Z; l_req_id : string }.

Class RequestIDs := { GetReqID : nat -> Request -> string }.

(** The status a sequence of calls sends. *)
Fixpoint sent_code (cs : list wcall) : option Z :=
  match cs with
  | [] => None
  | CWriteHeader code :: _ => Some code
  | CWrite _ :: _ => Some 200
  | _ :: cs' => sent_code cs'
  end.

Section middleware.
Context {kv : Type} (E : Env) {RID : RequestIDs}.
Context {S : Type} {W : Has (World kv) S} {MX : Has Metrics S} {LG : Has (list LogLine) S}.

Definition MetricsTracker (next : Handler S) : Handler S := fun r s =>
  let '(startTime, s1) := read_clock E s in
  let '(cs, s2) := next r s1 in
  let '(now, s3) := read_clock E s2 in
  let statusStr := itoa (last_code 200 cs) in
  (cs, with_part (observe_request (r_Path r) (r_Method r) statusStr (Sub now startTime) (part s3)) s3).

Definition StructuredLogger (next : Handler S) : Handler S := fun r s =>
  if bool_decide (r_Path r = "/metrics") then next r s
  else
    let '(startTime, s1) := read_clock E s in
    let '(cs, s2) := next r s1 in
    let '(now, s3) := read_clock E s2 in
    let line := mkLogLine (r_Method r) (r_Path r) (default 0 (sent_code cs)) (Sub now startTime)
                  (GetReqID (w_ticks (part s)) r) in
    (cs, with_part (part s3 ++ [line]) s3).
End middleware.

(** ** One status per answer *)

(** A status is sent, and the header is written at most once: all that look at the status of
    the answer see the same. *)
Definition tidy (cs : list wcall) : Prop := sent_code cs = Some (last_code 200 cs).

Lemma sent_code_foldl cs w :
  ws_sent w = None -> fst <$> ws_sent (foldl wstep w cs) = sent_code cs.
Proof.
  revert w. induction cs as [|c cs IH]; intros w Hw; simpl; [by rewrite Hw|].
  destruct c; simpl; [by apply IH..| |].
  - unfold send. rewrite Hw. by erewrite foldl_wstep_sent by reflexivity.
  - unfold send. rewrite Hw. by erewrite foldl_wstep_sent by reflexivity.
Qed.

Lemma status_sent cs : status (respond cs) = default 200 (sent_code cs).
Proof.
  pose proof (sent_code_foldl cs (mkWState ∅ None "") eq_refl) as H. unfold respond.
  set (w := foldl _ _ _) in *. unfold send. destruct (ws_sent w) as [[code h]|] eqn:Hs; simpl in H.
  - rewrite <-H. simpl. by rewrite Hs.
  - by rewrite <-H.
Qed.

Lemma tidy_status cs : tidy cs -> last_code 200 cs = status (respond cs).
Proof. unfold tidy. rewrite status_sent. by intros ->. Qed.

Lemma tidy_set k v cs : tidy cs -> tidy (CSet k v :: cs).
Proof. done. Qed.

Lemma tidy_error msg code : tidy (http_Error msg code).
Proof. done. Qed.

Lemma tidy_json code v : tidy (json_answer code v).
Proof. by destruct v. Qed.

Lemma tidy_problem instance code title detail : tidy (WriteProblemResponse instance code title detail).
Proof. done. Qed.

#[export] Hint Resolve tidy_set tidy_error tidy_json tidy_problem : vaultpay.
