(* ===== verification/Server.v ===== *)
(** * cmd/api/main.go: the server put together

    The state of one server process, the routes, the chain of middlewares around them, the
    merchants seeded at boot, and the events that move the process: requests, polls of the outbox
    worker, sweeps of the client map, other clients of Redis and replication.

    The routers of chi and the metrics page of Prometheus are the classes [Chi] and [Prometheus].
    [middleware.RequestID] only labels the log (class [RequestIDs]); [middleware.Recoverer] turns
    panics into answers, and no modelled handler panics, so it does not appear.  Requests are
    handled one after the other here; Concurrent.v, Pollers.v, Endpoints.v, Lock.v and Dispute.v have
    the interleavings, Lifecycle.v the goroutines and the shutdown. *)
From S2P Require Import Prelude Json GoTime Database Hex PaymentRepo OutboxRepo PaymentService.
From S2P Require Import OutboxWorker UserRepo Ledger Redis Lock Http Idempotency RateLimit.
From S2P Require Import ClientLimiter PaymentHandler Jwt Dispute EventLog Keys Subscription Middleware.

(** ** The state of the process *)
Record Server {kv lim : Type} := mkServer {
  sv_world : World kv; sv_clients : clients_map lim; sv_disputes : DisputeService;
  sv_subscriptions : SubscriptionStore; sv_metrics : Metrics; sv_log : list LogLine }.
Arguments Server kv lim : clear implicits.
Arguments mkServer {kv lim} _ _ _ _ _ _.

Section parts.
Context {kv lim : Type}.
Implicit Types (s : Server kv lim).

#[export] Instance server_world : Has (World kv) (Server kv lim) := {|
  part := sv_world;
  with_part w s := mkServer w (sv_clients s) (sv_disputes s) (sv_subscriptions s) (sv_metrics s) (sv_log s) |}.
#[export] Instance server_clients : Has (clients_map lim) (Server kv lim) := {|
  part := sv_clients;
  with_part c s := mkServer (sv_world s) c (sv_disputes s) (sv_subscriptions s) (sv_metrics s) (sv_log s) |}.
#[export] Instance server_disputes : Has DisputeService (Server kv lim) := {|
  part := sv_disputes;
  with_part d s := mkServer (sv_world s) (sv_clients s) d (sv_subscriptions s) (sv_metrics s) (sv_log s) |}.
#[export] Instance server_subscriptions : Has SubscriptionStore (Server kv lim) := {|
  part := sv_subscriptions;
  with_part m s := mkServer (sv_world s) (sv_clients s) (sv_disputes s) m (sv_metrics s) (sv_log s) |}.
#[export] Instance server_metrics : Has Metrics (Server kv lim) := {|
  part := sv_metrics;
  with_part m s := mkServer (sv_world s) (sv_clients s) (sv_disputes s) (sv_subscriptions s) m (sv_log s) |}.
#[export] Instance server_log : Has (list LogLine) (Server kv lim) := {|
  part := sv_log;
  with_part l s := mkServer (sv_world s) (sv_clients s) (sv_disputes s) (sv_subscriptions s) (sv_metrics s) l |}.

#[export] Instance server_world_laws : HasLaws server_world.
Proof. split; try done. by intros []. Qed.
#[export] Instance server_clients_laws : HasLaws server_clients.
Proof. split; try done. by intros []. Qed.
#[export] Instance server_disputes_laws : HasLaws server_disputes.
Proof. split; try done. by intros []. Qed.
#[export] Instance server_subscriptions_laws : HasLaws server_subscriptions.
Proof. split; try done. by intros []. Qed.
#[export] Instance world_clients_apart : Apart server_world server_clients.
Proof. by split. Qed.
#[export] Instance world_disputes_apart : Apart server_world server_disputes.
Proof. by split. Qed.
#[export] Instance world_subscriptions_apart : Apart server_world server_subscriptions.
Proof. by split. Qed.
End parts.

(** ** The router of chi, on a table of methods and patterns *)
Abbreviation table := (list (option string * string)).

Class Chi := {
  (** The matched entry and the URL parameters. *)
  find_route : table -> string -> string -> option (nat * gmap string string);
  (** The answer when nothing matches: 404 or 405. *)
  no_route : Request -> list wcall }.

Definition chi_methods : list string :=
  ["CONNECT"; "DELETE"; "GET"; "HEAD"; "OPTIONS"; "PATCH"; "POST"; "PUT"; "TRACE"].

(** [r.Handle] takes any method chi knows, [r.Post] and [r.Get] one. *)
Definition accepts (entry : option string) (method : string) : bool :=
  match entry with
  | Some m => bool_decide (m = method)
  | None => bool_decide (method ∈ chi_methods)
  end.

Definition static (pattern : string) : bool :=
  forallb (fun a => negb (existsb (Ascii.eqb a) (String.list_ascii_of_string "{}*")))
    (String.list_ascii_of_string pattern).

(** The entry is the only one that can take the request. *)
Definition only_entry (tbl : table) (i : nat) (method path : string) : Prop :=
  forall j om p, tbl !! j = Some (om, p) -> j <> i -> static p = true /\ ~ (p = path /\ accepts om method = true).

Class ChiLaws (C : Chi) : Prop := {
  (** A pattern without parameters matches its own text and comes before all others. *)
  chi_static : forall tbl i om path method,
    tbl !! i = Some (om, path) -> static path = true -> accepts om method = true ->
    (forall j om', tbl !! j = Some (om', path) -> accepts om' method = true -> j = i) ->
    find_route tbl method path = Some (i, ∅);
  (** A final [*] matches any rest. *)
  chi_wildcard : forall tbl i om prefix rest method,
    tbl !! i = Some (om, prefix +:+ "*") -> static prefix = true -> accepts om method = true ->
    only_entry tbl i method (prefix +:+ rest) ->
    find_route tbl method (prefix +:+ rest) = Some (i, {[ "*" := rest ]});
  chi_no_route : forall r, tidy (no_route r) }.

Class Prometheus := { promhttp_Handler : Metrics -> list wcall }.
Class PrometheusLaws (P : Prometheus) : Prop := prom_tidy : forall m, tidy (promhttp_Handler m).

(** ** Routes *)
Inductive root_route := RMetrics | RHealthcheck | RSubscriptions | RV1.
Inductive v1_route :=
  | VToken | VRevoke | VKeys | VCharges | VRefunds | VSubscriptions | VDisputes | VHistory.

(** [r.Route("/v1", ..)] mounts a second router on everything below. *)
Definition root_routes : list (option string * string * root_route) :=
  [(None, "/metrics", RMetrics);
   (None, "/v1/healthcheck", RHealthcheck);
   (Some "POST", "/v1/subscriptions", RSubscriptions);
   (None, "/v1/*", RV1)].

Definition v1_routes : list (option string * string * v1_route) :=
  [(Some "POST", "/auth/token", VToken);
   (Some "POST", "/auth/revoke", VRevoke);
   (Some "POST", "/auth/keys", VKeys);
   (Some "POST", "/charges", VCharges);
   (Some "POST", "/refunds", VRefunds);
   (Some "POST", "/subscriptions", VSubscriptions);
   (Some "POST", "/disputes", VDisputes);
   (Some "GET", "/payments/{id}/history", VHistory)].

Definition pick {C : Chi} {A} (routes : list (option string * string * A)) (method path : string) :
    option (A * gmap string string) :=
  match find_route (fst <$> routes) method path with
  | Some (i, params) => (fun '(_, a) => (a, params)) <$> routes !! i
  | None => None
  end.

(** ** Handlers of main.go *)
Definition tab : string := String (Ascii.ascii_of_nat 9) EmptyString.

Definition health_body : string :=
  let q s := dquote +:+ s +:+ dquote in
  "{" +:+ newline +:+
  tab +:+ tab +:+ q "status" +:+ ": " +:+ q "available" +:+ "," +:+ newline +:+
  tab +:+ tab +:+ q "system_info" +:+ ": {" +:+ newline +:+
  tab +:+ tab +:+ tab +:+ q "environment" +:+ ": " +:+ q "production" +:+ "," +:+ newline +:+
  tab +:+ tab +:+ tab +:+ q "version" +:+ ": " +:+ q "1.0.0" +:+ newline +:+
  tab +:+ tab +:+ "}" +:+ newline +:+
  tab +:+ "}".

Definition healthcheckHandler {S} : Handler S := fun r s =>
  ([CSet "Content-Type" "application/json"; CWriteHeader 200; CWrite health_body], s).

(** A nil slice is the JSON null. *)
Definition history_json (analysis : list StateTransitionAnalysis) : json :=
  match analysis with [] => JNull | _ => JArr (Analysis_json <$> analysis) end.

(** The inline middleware for the dashboard. *)
Definition DashboardCORS {S} (next : Handler S) : Handler S := fun r s =>
  let cors := [CSet "Access-Control-Allow-Origin" "http://localhost:8081";
               CSet "Access-Control-Allow-Methods" "POST, GET, OPTIONS, PUT, DELETE";
               CSet "Access-Control-Allow-Headers"
                 "Accept, Content-Type, Content-Length, Accept-Encoding, X-CSRF-Token, Authorization"] in
  if bool_decide (r_Method r = "OPTIONS") then (cors ++ [CWriteHeader 200], s)
  else let '(cs, s') := next r s in (cors ++ cs, s').

Section server.
Context {kv lim : Type} (E : Env) {R : Redis kv} {L : Limiter lim} {J : JWT} (privateKey : PrivateKey)
  {B : Bcrypt} {P : PgValues} {C : Chi} {PM : Prometheus} {RID : RequestIDs}.
#[local] Abbreviation S := (Server kv lim).

Definition HistoryHandler (paymentID : string) : Handler S := fun r s =>
  let '(analysis, s1) := zoom (AnalyzeTransitions E paymentID) s in
  match analysis with
  | Err err => (http_Error (Error err) 500, s1)
  | Ok analysis =>
      (CSet "Content-Type" "application/json" :: Encode (Some (history_json analysis)), s1)
  end.

Definition MetricsHandler : Handler S := fun r s => (promhttp_Handler (sv_metrics s), s).

Definition v1_handler (route : v1_route) (params : gmap string string) : Handler S :=
  match route with
  | VToken => IssueTokenHandler E privateKey
  | VRevoke => RevokeTokenHandler E
  | VKeys => CreateAPIKeyHandler E
  | VCharges => Handle E (@CreateChargeHandler _ E (sqlPaymentRepository E kv) (sqlOutboxRepository E kv) _ _ _)
  | VRefunds => @CreateRefundHandler _ (sqlPaymentRepository E kv) _ _
  | VSubscriptions => CreateSubscriptionHandler E
  | VDisputes => CreateDisputeHandler E
  | VHistory => HistoryHandler (default "" (params !! "id"))
  end.

(** The mounted router, on the path below the mount point. *)
Definition v1_router (path : string) : Handler S :=
  Limit E (fun r s =>
    match pick v1_routes (r_Method r) path with
    | Some (route, params) => v1_handler route params r s
    | None => (no_route r, s)
    end).

Definition router : Handler S := fun r s =>
  match pick root_routes (r_Method r) (r_Path r) with
  | Some (RMetrics, _) => MetricsHandler r s
  | Some (RHealthcheck, _) => healthcheckHandler r s
  | Some (RSubscriptions, _) => CreateSubscriptionHandler E r s
  | Some (RV1, params) => v1_router ("/" +:+ default "" (params !! "*")) r s
  | None => (no_route r, s)
  end.

(** The middlewares, outermost first. *)
Definition ServeHTTP : Handler S :=
  MetricsTracker E (StructuredLogger E (CORSSecurityMiddleware (RateLimitMiddleware E
    (DashboardCORS router)))).

(** The test merchant, created before the routes are set up and again after. *)
Definition standby_merchant : M (World kv) User := CreateUser E "merchant_india@gmail.com" 1000000.

Definition seed : World kv -> res User * World kv := fun w =>
  let '(_, w1) := standby_merchant w in
  CreateUser E "merchant_india@gmail.com" 10000000 w1.

(** ** The process *)
Inductive event :=
  | Request_ (r : Request)
  | Poll                     (* the ticker of the outbox worker *)
  | Sweep                    (* the ticker of the client map *)
  | Elsewhere (s : kv)       (* another client of Redis *)
  | Replicate (d : DB).      (* the replica catches up, or lags *)

Definition on_world (f : World kv -> World kv) (s : S) : S := with_part (f (sv_world s)) s.

Definition event_step (ev : event) (s : S) : S :=
  match ev with
  | Request_ r => (ServeHTTP r s).2
  | Poll => on_world (fun w => (@ProcessPendingEvents kv E (ext_queue E kv) w).2) s
  | Sweep => BackgroundCleaner E s
  | Elsewhere k => on_world (set_kv k) s
  | Replicate d =>
      on_world (fun w => mkWorld (w_db w) d (w_tx w) (w_kv w) (w_queue w) (w_ticks w)) s
  end.

Definition run (evs : list event) (s : S) : S := foldl (fun s ev => event_step ev s) s evs.
End server.

(** ** Invariants of the tables *)

(** What a request or poll may do to the tables: a step of the ledger that creates no merchant, or
    a new API key. *)
Inductive table_step (E : Env) (d : DB) : DB -> Prop :=
  | table_ledger d' : db_step E 0 d d' -> table_step E d d'
  | table_key userID hash label d' : key_added E d userID hash label d' -> table_step E d d'.

Section invariant.
Context {kv lim : Type} (E : Env) {UL : UuidLaws E} {R : Redis kv} {L : Limiter lim} {J : JWT}
  (privateKey : PrivateKey) {B : Bcrypt} {BL : BcryptLaws B} {P : PgValues} {C : Chi} {PM : Prometheus}
  {RID : RequestIDs}.
Context (I : DB -> Prop) (I_step : forall d d', I d -> table_step E d d' -> I d')
  (I_ids : forall d, I d -> NoDup (o_id <$> outbox_events d)).
#[local] Abbreviation S := (Server kv lim).

(** No transaction is open and the invariant holds. *)
Definition sound (s : S) : Prop := w_tx (sv_world s) = TxNone /\ I (w_db (sv_world s)).

Definition preserves (h : Handler S) : Prop := forall r s, sound s -> sound (h r s).2.

(** A computation that touches neither the tables nor a transaction. *)
Lemma sound_frame (s : S) (w : World kv) :
  w_db w = w_db (sv_world s) -> w_tx w = w_tx (sv_world s) -> sound s -> sound (with_part w s).
Proof. intros Hdb Htx [H1 H2]. split; cbn; congruence. Qed.

Lemma sound_only_kv (s : S) (w : World kv) : only_kv (sv_world s) w -> sound s -> sound (with_part w s).
Proof. intros (Hdb & _ & Htx & _). by apply sound_frame. Qed.

Lemma sound_clock (s : S) : sound s -> sound (read_clock E s).2.
Proof. by apply sound_frame. Qed.

Lemma sound_bytes n (s : S) : sound s -> sound (random_bytes E n s).2.
Proof.
  unfold random_bytes, zoom, RandRead, ext.
  destruct (faults E (w_ticks (part s))) as [[e|e]|]; cbn; by apply sound_frame.
Qed.

Lemma sound_settles {A} (eff : A -> DB -> Prop) (s : S) r (w : World kv) :
  settles E eff (sv_world s) r w ->
  (forall a d', eff a d' -> table_step E (w_db (sv_world s)) d') ->
  sound s -> sound (with_part w s).
Proof using I_step.
  intros (_ & Htx & Hr) Heff [H1 H2]. split; cbn; [auto|].
  destruct r as [a|e]; [eauto|]. destruct Hr as [->|[_ [a Ha]]]; eauto.
Qed.

Lemma preserves_charge :
  preserves (@CreateChargeHandler _ E (sqlPaymentRepository E kv) (sqlOutboxRepository E kv) _ _ _).
Proof using UL I_step.
  intros r s [H1 H2]. destruct (CreateChargeHandler E r s) as [cs s'] eqn:Hrun.
  destruct (CreateChargeHandler_truthful (PR := sqlPaymentRepository E kv)
    (OR := sqlOutboxRepository E kv) E r s cs s' Hrun H1) as [Htx Hd].
  split; [exact Htx|].
  assert (forall p, charge_done E r (w_db (sv_world s)) p (w_db (sv_world s')) -> I (w_db (sv_world s')))
    as Hdone.
  { intros p (q & _ & (_ & Hpos & _) & Heff). eapply I_step; [exact H2|].
    apply table_ledger. by eapply step_charge. }
  destruct Hd as [(p & _ & _ & Hp)|[_ [Heq|[_ [p Hp]]]]]; [by eapply Hdone| |by eapply Hdone].
  cbn in Heq |- *. by rewrite Heq.
Qed.

Lemma preserves_refund : preserves (@CreateRefundHandler _ (sqlPaymentRepository E kv) _ _).
Proof using UL I_step.
  intros r s [H1 H2]. destruct (CreateRefundHandler r s) as [cs s'] eqn:Hrun.
  destruct (CreateRefundHandler_truthful (PR := sqlPaymentRepository E kv) E r s cs s' Hrun H1) as [Htx Hd].
  split; [exact Htx|]. cbn in Hd |- *.
  destruct Hd as [(p & _ & _ & q & t & _ & Hp)|[_ [->|[_ (p & q & t & _ & Hp)]]]];
    [|exact H2|]; (eapply I_step; [exact H2|]; apply table_ledger; by eapply step_refund).
Qed.

Lemma preserves_keys : preserves (CreateAPIKeyHandler E).
Proof using BL I_step.
  intros r s Hs. unfold CreateAPIKeyHandler. destruct (Decode _ _ _) as [q|e]; [|done].
  case_bool_decide; [done|]. unfold zoom.
  pose proof (GenerateAPIKey_wp E (kr_UserID q) (kr_Label q) (sv_world s)) as Hw. unfold wp in Hw.
  change (part s) with (sv_world s). destruct (GenerateAPIKey E _ _ _) as [res w]. cbn [fst snd] in Hw.
  assert (sound (with_part w s)) as Hs1.
  { eapply sound_settles; [exact Hw| |done]. intros key d' (? & hash & _ & _ & Hadd & _).
    by eapply table_key. }
  by destruct res.
Qed.

Lemma preserves_history id : preserves (HistoryHandler E id).
Proof.
  intros r s Hs. unfold HistoryHandler, zoom. change (part s) with (sv_world s).
  assert (w_db (AnalyzeTransitions E id (sv_world s)).2 = w_db (sv_world s) /\
          w_tx (AnalyzeTransitions E id (sv_world s)).2 = w_tx (sv_world s)) as [Hdb Htx].
  { apply (wp_run (AnalyzeTransitions E id)
      (fun _ w => w_db w = w_db (sv_world s) /\ w_tx w = w_tx (sv_world s)) (sv_world s)
      (AnalyzeTransitions E id (sv_world s)).1); [|by destruct (AnalyzeTransitions E id _)].
    unfold AnalyzeTransitions. apply wp_bind, wp_replica_query; [|done].
    intros env rows d' _. apply wp_rows_loop. intros l w' _ Hf Htx. split; [apply Hf|exact Htx]. }
  destruct (AnalyzeTransitions E id _) as [res w]. cbn in Hdb, Htx.
  assert (sound (with_part w s)) by (by apply sound_frame). by destruct res.
Qed.

Lemma preserves_token : preserves (IssueTokenHandler E privateKey).
Proof.
  intros r s Hs. unfold IssueTokenHandler. destruct (Decode _ _ _) as [q|e]; [|done].
  unfold zoom, GenerateAccessToken, mbind, M_bind, Now, lift. cbn.
  destruct (SignedString _ _) as [t|e]; cbn; by apply sound_frame.
Qed.

Lemma preserves_revoke : preserves (RevokeTokenHandler E).
Proof.
  intros r s Hs. unfold RevokeTokenHandler. destruct (bearer_token _) as [tok|msg]; [|done].
  rewrite zoom_run. pose proof (Set_only_kv E (blacklist_key tok) "true" (15 * Minute) (sv_world s)) as Hk.
  change (part s) with (sv_world s). unfold RevokeToken.
  destruct (Set_ E _ _ _ (sv_world s)) as [[u|e] w]; by apply sound_only_kv.
Qed.

Lemma preserves_subscription : preserves (CreateSubscriptionHandler E).
Proof.
  intros r s Hs. unfold CreateSubscriptionHandler. destruct (Decode _ _ _) as [q|e]; [|done].
  pose proof (sound_bytes 8 s Hs) as Hb. destruct (random_bytes E 8 s) as [b s1]. cbn [snd] in Hb.
  unfold CreateSubscription. destruct (_ && _); [done|].
  pose proof (sound_clock s1 Hb) as Hc. by destruct (read_clock E s1) as [t s2].
Qed.

Lemma preserves_dispute : preserves (CreateDisputeHandler E).
Proof.
  intros r s Hs. unfold CreateDisputeHandler. destruct (Decode _ _ _) as [q|e]; [|done].
  pose proof (sound_bytes 8 s Hs) as Hb. destruct (random_bytes E 8 s) as [b s1]. cbn [snd] in Hb.
  unfold CreateDispute. destruct (check_payment _) as [u|e]; [|done].
  pose proof (sound_clock (with_part (store_payment (dr_PaymentID q) "DISPUTED" (part s1)) s1) Hb) as Hc.
  by destruct (read_clock E _) as [t s2].
Qed.

(** ** The middlewares pass the invariant on *)
Lemma preserves_Handle next : preserves next -> preserves (Handle E next).
Proof.
  intros Hn r s Hs. unfold Handle. destruct (negb _); [by apply Hn|].
  case_bool_decide; [by apply Hn|]. rewrite zoom_run.
  pose proof (Get_only_kv E (idem_key (Header_Get "Idempotency-Key" r)) (sv_world s)) as Hg.
  change (part s) with (sv_world s). destruct (Get E _ (sv_world s)) as [[v|e] w]; cbn [fst snd] in *;
    [by apply (sound_only_kv s)|].
  pose proof (Hn r (with_part w s) ltac:(by apply sound_only_kv)) as Hn1.
  destruct (next r _) as [cs s2]. cbn [snd] in Hn1. destruct (_ || _); [|done]. rewrite zoom_run.
  cbn [snd]. apply (sound_only_kv s2 _); [apply Set_only_kv|done].
Qed.

Lemma preserves_Limit next : preserves next -> preserves (Limit E next).
Proof.
  intros Hn r s Hs. unfold Limit. cbv zeta. rewrite zoom_run.
  set (m := _ ≫= _). assert (only_kv (sv_world s) (m (sv_world s)).2) as Hk.
  { apply only_kv_bind; [intros; apply only_kv_tick|intros; apply Eval_only_kv]. }
  change (part s) with (sv_world s). destruct (m (sv_world s)) as [[n|e] w]; cbn [fst snd] in *;
    [|by apply (sound_only_kv s)].
  destruct (n =? 0); [by apply (sound_only_kv s)|]. apply Hn. by apply sound_only_kv.
Qed.

Lemma preserves_RateLimit next : preserves next -> preserves (RateLimitMiddleware E next).
Proof.
  intros Hn r s Hs. unfold RateLimitMiddleware. destruct (SplitHostPort _) as [[ip port]|]; [|done].
  unfold zoom, mbind, M_bind, Now, mret, M_ret. cbn. destruct (allow_ip _ _ _ _) as [ok cl].
  destruct Hs as [H1 H2]. destruct ok; [apply Hn|]; by split.
Qed.

Lemma preserves_cors next : preserves next -> preserves (CORSSecurityMiddleware next).
Proof.
  intros Hn r s Hs. unfold CORSSecurityMiddleware. case_bool_decide; [done|].
  specialize (Hn r s Hs). by destruct (next r s).
Qed.

Lemma preserves_dashboard next : preserves next -> preserves (DashboardCORS next).
Proof.
  intros Hn r s Hs. unfold DashboardCORS. case_bool_decide; [done|].
  specialize (Hn r s Hs). by destruct (next r s).
Qed.

Lemma preserves_logger next : preserves next -> preserves (StructuredLogger E next).
Proof.
  intros Hn r s Hs. unfold StructuredLogger. case_bool_decide; [by apply Hn|].
  unfold read_clock. specialize (Hn r (with_part (tick (part s)) s) ltac:(by apply sound_frame)).
  by destruct (next r _).
Qed.

Lemma preserves_metrics next : preserves next -> preserves (MetricsTracker E next).
Proof.
  intros Hn r s Hs. unfold MetricsTracker, read_clock.
  specialize (Hn r (with_part (tick (part s)) s) ltac:(by apply sound_frame)).
  by destruct (next r _).
Qed.

(** ** The whole server *)
Lemma preserves_v1 route params : preserves (v1_handler E privateKey route params).
Proof using UL BL I_step.
  destruct route; cbn; auto using preserves_token, preserves_revoke, preserves_keys,
    preserves_Handle, preserves_charge, preserves_refund, preserves_subscription, preserves_dispute,
    preserves_history.
Qed.

Lemma preserves_router : preserves (router E privateKey).
Proof using UL BL I_step.
  intros r s Hs. unfold router. destruct (pick root_routes _ _) as [[[] params]|]; try done.
  - by apply preserves_subscription.
  - apply preserves_Limit; [|done]. intros r' s' Hs'.
    destruct (pick v1_routes _ _) as [[route params']|]; [by apply preserves_v1|done].
Qed.

Lemma preserves_ServeHTTP : preserves (ServeHTTP E privateKey).
Proof using UL BL I_step.
  apply preserves_metrics, preserves_logger, preserves_cors, preserves_RateLimit, preserves_dashboard,
    preserves_router.
Qed.

Lemma event_sound ev s : sound s -> sound (event_step E privateKey ev s).
Proof using UL BL I_step I_ids.
  intros Hs. destruct ev as [r| | |k|d]; cbn [event_step].
  - by apply preserves_ServeHTTP.
  - destruct Hs as [H1 H2].
    destruct (ProcessPendingEvents_wp (TQ := ext_queue E kv) E (sv_world s) (I_ids _ H2))
      as [(_ & _ & ts & _ & _ & Hm) Ht].
    split; [by apply Ht|]. eapply I_step; [exact H2|]. apply table_ledger. by eapply step_poll.
  - by apply sound_frame.
  - by apply sound_frame.
  - by apply sound_frame.
Qed.

Lemma run_sound evs s : sound s -> sound (run E privateKey evs s).
Proof using UL BL I_step I_ids.
  unfold run. revert s. induction evs as [|ev evs IH]; intros s Hs; [done|]. cbn.
  apply IH. by apply event_sound.
Qed.
End invariant.
