(* ===== verification/System.v ===== *)
(** * The whole server: theorems about [Server.run] and [Server.ServeHTTP]

    Whatever requests arrive on whatever routes, whatever calls are lost, and whatever the outbox
    worker, the other clients of Redis and replication do in between: the books balance and the
    tables keep every constraint of the schema.  The chain of middlewares reports one status per
    request; the Redis limiter stands before the mounted routes only. *)
From S2P Require Import Prelude Json GoTime Database Hex PaymentRepo OutboxRepo PaymentService.
From S2P Require Import OutboxWorker UserRepo Ledger Concurrent Redis Lock Http Idempotency RateLimit.
From S2P Require Import ClientLimiter PaymentHandler Jwt Dispute EventLog Keys Subscription Middleware.
From S2P Require Import Server.

(** ** What the theorems observe *)

(** The abstract ledger behind a server. *)
Definition ledger_at {kv lim} (s : Server kv lim) : ledger := ledger_of (w_db (sv_world s)).

(** The labels of the counter for an answer, from what the client receives. *)
Definition labels (r : Request) (cs : list wcall) : string * string * string :=
  (r_Path r, r_Method r, itoa (status (respond cs))).

(** A path below /v1 that only the mounted router knows. *)
Definition mounted (method rest : string) : Prop :=
  rest <> "healthcheck" /\ ~ (method = "POST" /\ rest = "subscriptions").

(** The merchant that main creates at boot, with the first of its two balances. *)
Definition test_merchant (now : Z) : UserRow := mkUserRow "merchant_india@gmail.com" 1000000 "INR" now.

(** ** The constraints of the schema *)

(** A row of the outbox fits its columns. *)
Definition outbox_typed (r : OutboxRow) : Prop :=
  (char_length (o_aggregate_type r) <= 50)%nat /\ (char_length (o_aggregate_id r) <= 100)%nat /\
  (char_length (o_event_type r) <= 50)%nat /\ o_status r ∈ ["PENDING"; "PROCESSED"; "FAILED"].

(** Ranges of the columns, primary keys, UNIQUE and REFERENCES of the migrations. *)
Record schema_ok (d : DB) : Prop := mkSchemaOk {
  sc_balance : forall u r, users d !! u = Some r -> in_int64 (u_balance r) = true;
  sc_email : forall u v r q, users d !! u = Some r -> users d !! v = Some q ->
             u_email r = u_email q -> u = v;
  sc_amount : forall pid pr, payments d !! pid = Some pr -> in_int64 (pr_amount pr) = true;
  sc_owner : forall pid pr, payments d !! pid = Some pr -> is_Some (users d !! pr_user_id pr);
  sc_key_owner : Forall (fun k => is_Some (users d !! k_user_id k)) (api_keys d);
  sc_key_id : NoDup (k_id <$> api_keys d);
  sc_key_hash : NoDup (k_hash <$> api_keys d);
  sc_outbox_id : NoDup (o_id <$> outbox_events d);
  sc_outbox : Forall outbox_typed (outbox_events d) }.

Lemma schema_empty : schema_ok empty_db.
Proof.
  constructor; cbn; try (intros * H; by rewrite lookup_empty in H); by constructor.
Qed.

Lemma NoDup_snoc {A B} (f : A -> B) (l : list A) x :
  NoDup (f <$> l) -> Forall (fun y => f y <> f x) l -> NoDup (f <$> l ++ [x]).
Proof.
  intros Hnd Hx. rewrite fmap_app. apply NoDup_app. split_and!; [done| |apply NoDup_singleton].
  intros z (y & -> & Hy)%list_elem_of_fmap. cbn. rewrite list_elem_of_singleton.
  rewrite Forall_forall in Hx. by apply Hx.
Qed.

Section schema.
Context (E : Env) {UL : UuidLaws E}.

(** Balances may change and rows may be added: what refers to a merchant still does. *)
Lemma schema_users d d' :
  schema_ok d -> api_keys d' = api_keys d -> outbox_events d' = outbox_events d ->
  (forall u, is_Some (users d !! u) -> is_Some (users d' !! u)) ->
  (forall u r, users d' !! u = Some r -> in_int64 (u_balance r) = true) ->
  (forall u v r q, users d' !! u = Some r -> users d' !! v = Some q -> u_email r = u_email q -> u = v) ->
  (forall pid pr, payments d' !! pid = Some pr ->
     in_int64 (pr_amount pr) = true /\ is_Some (users d !! pr_user_id pr)) ->
  schema_ok d'.
Proof.
  intros [] Hk Ho Hdom Hbal Hem Hpay. constructor; rewrite ?Hk, ?Ho; try done.
  - intros pid pr Hpr. by apply (Hpay pid pr).
  - intros pid pr Hpr. by apply Hdom, (Hpay pid pr).
  - eapply Forall_impl; [done|]. intros k. apply Hdom.
Qed.

(** An update of a balance keeps the addresses apart. *)
Lemma emails_with_balance (m : gmap uuid UserRow) u r b :
  m !! u = Some r ->
  (forall v w x y, m !! v = Some x -> m !! w = Some y -> u_email x = u_email y -> v = w) ->
  forall v w x y, <[u := Sql.with_balance b r]> m !! v = Some x ->
    <[u := Sql.with_balance b r]> m !! w = Some y -> u_email x = u_email y -> v = w.
Proof.
  intros Hu Hm v w x y [[<- <-]|[Hv Hx]]%lookup_insert_Some [[<- <-]|[Hw Hy]]%lookup_insert_Some He;
    [done|by eapply Hm|by eapply Hm|by eapply Hm].
Qed.

Lemma schema_charge d userID amount currency p d' :
  charge_effect E d userID amount currency p d' -> schema_ok d -> schema_ok d'.
Proof using UL.
  intros (t & now & d1 & Hch & Hstg) Hok. destruct Hch as [u r pid Hu Hr Hle Hb Ha Hpid].
  assert (schema_ok (charge_db u r pid amount currency t d)) as Hok1.
  { eapply schema_users; [exact Hok|done|done|..]; cbn.
    - intros v Hv. apply lookup_insert_is_Some. destruct (decide (u = v)); auto.
    - intros v q [[<- <-]|[_ Hq]]%lookup_insert_Some; [done|by eapply sc_balance].
    - apply emails_with_balance; [done|]. by apply sc_email.
    - intros v q [[<- <-]|[_ Hq]]%lookup_insert_Some; [by eauto|].
      split; [by eapply sc_amount|by eapply sc_owner]. }
  destruct Hstg as [oid Hfresh]. destruct Hok1. constructor; cbn in *; try done.
  - by apply NoDup_snoc.
  - apply Forall_app. split; [done|]. apply Forall_singleton.
    split_and!; [by apply Nat.leb_le| |by apply Nat.leb_le|cbn; set_solver].
    cbn. rewrite uuid_out_length. lia.
Qed.

Lemma schema_refund d t paymentID p d' : refunds E t d paymentID p d' -> schema_ok d -> schema_ok d'.
Proof.
  intros [i pr Hi Hpr Hs Hb] Hok. destruct (sc_owner _ Hok i pr Hpr) as [r Hr].
  eapply schema_users; [exact Hok|..]; rewrite ?users_refund_db, ?payments_refund_db, ?outbox_refund_db;
    unfold credit_db; rewrite ?Hr; cbn.
  - unfold refund_db, credit_db. by rewrite Hr.
  - done.
  - intros v Hv. apply lookup_insert_is_Some. destruct (decide (pr_user_id pr = v)); auto.
  - intros v q [[<- <-]|[_ Hq]]%lookup_insert_Some; [by apply Hb|by eapply sc_balance].
  - apply emails_with_balance; [done|]. by apply sc_email.
  - intros v q [[<- <-]|[_ Hq]]%lookup_insert_Some; cbn; eauto using sc_amount, sc_owner.
Qed.

Lemma schema_poll d ts d' : outbox_moved ts d d' -> schema_ok d -> schema_ok d'.
Proof.
  intros (l & Hl & ->) []. constructor; cbn; try done.
  - by rewrite (outbox_moved_fmap o_id ts _ _ ltac:(done) Hl).
  - apply Forall_forall. intros x' Hx'. apply list_elem_of_lookup in Hx' as [k Hk].
    destruct (Forall2_lookup_r _ _ _ _ _ Hl Hk) as (x & Hx & Hmv).
    assert (outbox_typed x) as (H1 & H2 & H3 & H4)
      by (eapply Forall_forall; [exact sc_outbox0|by eapply list_elem_of_lookup_2]).
    destruct Hmv as [|t Hp|t Hp Hin]; [done|..]; (split_and!; cbn; [done..|]);
      rewrite !elem_of_cons; auto.
Qed.

Lemma schema_user d email b d' : user_created d email b d' -> schema_ok d -> schema_ok d'.
Proof.
  intros [u now Hu Hb Hem] Hok. eapply schema_users; [exact Hok|done|done|..]; cbn.
  - intros v Hv. apply lookup_insert_is_Some. destruct (decide (u = v)); auto.
  - intros v q [[<- <-]|[_ Hq]]%lookup_insert_Some; [done|by eapply sc_balance].
  - intros v w x y [[<- <-]|[Hv Hx]]%lookup_insert_Some [[<- <-]|[Hw Hy]]%lookup_insert_Some He; cbn in He.
    + done.
    + by destruct (Hem w y Hy).
    + by destruct (Hem v x Hx).
    + by eapply sc_email.
  - intros pid pr Hpr. split; [by eapply sc_amount|by eapply sc_owner].
Qed.

Lemma schema_key d userID hash label d' :
  key_added E d userID hash label d' -> schema_ok d -> schema_ok d'.
Proof.
  intros [u id now Hu Hex Hnew] []. apply Forall_and in Hnew as [Hh Hi].
  constructor; cbn; try done.
  - apply Forall_app. split; [done|]. by apply Forall_singleton.
  - by apply NoDup_snoc.
  - by apply NoDup_snoc.
Qed.

Lemma schema_step d d' : schema_ok d -> table_step E d d' -> schema_ok d'.
Proof using UL.
  intros Hok [d1 Hs|userID hash label d1 Hk]; [|by eapply schema_key].
  destruct Hs as [d0 userID amount currency p d2 _ Hc|d0 t pid p d2 Hr|d0 ts d2 Hm|d0 email b d2 Hu|d0];
    eauto using schema_charge, schema_refund, schema_poll, schema_user.
Qed.
End schema.

(** ** The books *)
Definition books (E : Env) (d0 d : DB) : Prop :=
  wf E d /\ rtc (ledger_step 0) (ledger_of d0) (ledger_of d).

Lemma wf_key E d userID hash label d' :
  key_added E d userID hash label d' -> wf E d -> wf E d' /\ ledger_of d' = ledger_of d.
Proof.
  intros [u id now Hu Hex Hnew] []. split; [|done]. constructor; try done.
  eapply Forall_impl; [done|]. intros x. apply event_for_mono. eauto.
Qed.

Lemma books_step E `{!UuidLaws E} d0 d d' : books E d0 d -> table_step E d d' -> books E d0 d'.
Proof.
  intros [Hwf Hl] [d1 Hs|userID hash label d1 Hk].
  - split; [by eapply wf_step|]. eapply rtc_r; [exact Hl|]. by eapply ledger_of_step.
  - destruct (wf_key _ _ _ _ _ _ Hk Hwf) as [Hwf' Heq]. split; [done|]. by rewrite Heq.
Qed.

Lemma ledger_steps_total l l' : rtc (ledger_step 0) l l' -> total l' = total l.
Proof.
  induction 1 as [|l1 l2 l3 Hs _ IH]; [done|]. rewrite IH. apply total_step in Hs. lia.
Qed.

(** ** One status per request *)

(** The answer has one status, and metrics and log are left alone. *)
Definition decent {kv lim} (h : Handler (Server kv lim)) : Prop := forall r s,
  let '(cs, s') := h r s in tidy cs /\ sv_metrics s' = sv_metrics s /\ sv_log s' = sv_log s.

Section answers.
Context {kv lim : Type} (E : Env) {R : Redis kv} {L : Limiter lim} {J : JWT}
  (privateKey : PrivateKey) {B : Bcrypt} {P : PgValues} {C : Chi} {CL : ChiLaws C} {PM : Prometheus}
  {PML : PrometheusLaws PM} {RID : RequestIDs}.
#[local] Abbreviation S := (Server kv lim).
Implicit Types (s : S).

Lemma decent_charge :
  decent (kv := kv) (lim := lim) (@CreateChargeHandler _ E (sqlPaymentRepository E kv) (sqlOutboxRepository E kv) _ _ _).
Proof.
  intros r s. destruct (CreateChargeHandler_cases (PR := sqlPaymentRepository E kv)
    (OR := sqlOutboxRepository E kv) E r s) as [(code & msg & _ & -> & _)|(q & _ & _ & ->)]; [done|].
  rewrite zoom_run. destruct (AcquireLock E _ _ (part s)) as [[tok|e] w]; cbn [fst snd].
  - rewrite zoom_run. destruct (ProcessCharge E _ _ _ _) as [[p|e] w1]; cbn [fst snd]; rewrite zoom_run;
      (split; [|done]); auto with vaultpay.
  - split; [|done]. by destruct (errors_Is e ErrLockHeld).
Qed.

Lemma decent_refund : decent (kv := kv) (lim := lim) (@CreateRefundHandler _ (sqlPaymentRepository E kv) _ _).
Proof.
  intros r s. unfold CreateRefundHandler. destruct (Decode _ _ _) as [q|e]; [|done].
  case_bool_decide; [done|]. rewrite zoom_run.
  destruct (ProcessRefund _ _) as [[p|e] w]; (split; [|done]); auto with vaultpay.
Qed.

Lemma decent_keys : decent (kv := kv) (lim := lim) (CreateAPIKeyHandler E).
Proof.
  intros r s. unfold CreateAPIKeyHandler. destruct (Decode _ _ _) as [q|e]; [|done].
  case_bool_decide; [done|]. rewrite zoom_run. by destruct (GenerateAPIKey E _ _ _) as [[p|e] w].
Qed.

Lemma decent_token : decent (kv := kv) (lim := lim) (IssueTokenHandler E privateKey).
Proof.
  intros r s. unfold IssueTokenHandler. destruct (Decode _ _ _) as [q|e]; [|done].
  rewrite zoom_run. by destruct (GenerateAccessToken E _ _ _ _) as [[p|e] w].
Qed.

Lemma decent_revoke : decent (kv := kv) (lim := lim) (RevokeTokenHandler E).
Proof.
  intros r s. unfold RevokeTokenHandler. destruct (bearer_token _) as [tok|msg]; [|done].
  rewrite zoom_run. by destruct (RevokeToken E _ _ _) as [[u|e] w].
Qed.

Lemma decent_bytes n s :
  let '(_, s') := random_bytes E n s in sv_metrics s' = sv_metrics s /\ sv_log s' = sv_log s.
Proof. unfold random_bytes. rewrite zoom_run. by destruct (RandRead E n (part s)) as [[b|e] w]. Qed.

Lemma decent_subscription : decent (kv := kv) (lim := lim) (CreateSubscriptionHandler E).
Proof.
  intros r s. unfold CreateSubscriptionHandler. destruct (Decode _ _ _) as [q|e]; [|done].
  pose proof (decent_bytes 8 s) as Hb. destruct (random_bytes E 8 s) as [b s1].
  unfold CreateSubscription. destruct (_ && _); [done|]. unfold read_clock.
  split; [|done]. auto with vaultpay.
Qed.

Lemma decent_dispute : decent (kv := kv) (lim := lim) (CreateDisputeHandler E).
Proof.
  intros r s. unfold CreateDisputeHandler. destruct (Decode _ _ _) as [q|e]; [|done].
  pose proof (decent_bytes 8 s) as Hb. destruct (random_bytes E 8 s) as [b s1].
  unfold CreateDispute. destruct (check_payment _) as [u|e]; [|done]. unfold read_clock.
  split; [|done]. auto with vaultpay.
Qed.

Lemma decent_history id : decent (kv := kv) (lim := lim) (HistoryHandler E id).
Proof.
  intros r s. unfold HistoryHandler. rewrite zoom_run.
  by destruct (AnalyzeTransitions E id _) as [[a|e] w].
Qed.

Lemma decent_Handle (next : Handler S) : decent next -> decent (Handle E next).
Proof.
  intros Hn r s. unfold Handle. destruct (negb _); [by apply Hn|]. case_bool_decide; [by apply Hn|].
  rewrite zoom_run. destruct (Get E _ _) as [[v|e] w]; cbn [fst snd]; [done|].
  specialize (Hn r (with_part w s)). destruct (next r _) as [cs s2]. destruct (_ || _); [|done].
  by rewrite zoom_run.
Qed.

Lemma decent_Limit (next : Handler S) : decent next -> decent (Limit E next).
Proof.
  intros Hn r s. unfold Limit. cbv zeta. rewrite zoom_run. set (m := _ ≫= _).
  destruct (m (part s)) as [[n|e] w]; cbn [fst snd]; [|done]. destruct (n =? 0); [done|].
  exact (Hn r (with_part w s)).
Qed.

Lemma decent_RateLimit (next : Handler S) : decent next -> decent (RateLimitMiddleware E next).
Proof.
  intros Hn r s. unfold RateLimitMiddleware. destruct (SplitHostPort _) as [[ip port]|]; [|done].
  unfold zoom, mbind, M_bind, Now, mret, M_ret. cbn. destruct (allow_ip _ _ _ _) as [ok cl].
  destruct ok; [|done]. exact (Hn r (with_part (Has := server_clients) cl (with_part (tick (tick (sv_world s))) s))).
Qed.

Lemma decent_cors (next : Handler S) : decent next -> decent (CORSSecurityMiddleware next).
Proof.
  intros Hn r s. unfold CORSSecurityMiddleware. case_bool_decide; [done|].
  specialize (Hn r s). by destruct (next r s).
Qed.

Lemma decent_dashboard (next : Handler S) : decent next -> decent (DashboardCORS next).
Proof.
  intros Hn r s. unfold DashboardCORS. case_bool_decide; [done|].
  specialize (Hn r s). by destruct (next r s).
Qed.

Lemma decent_router : decent (router (lim := lim) E privateKey).
Proof using CL PML.
  intros r s. unfold router. destruct (pick root_routes _ _) as [[[] params]|].
  - split; [apply prom_tidy|done].
  - done.
  - apply decent_subscription.
  - apply decent_Limit. intros r' s'.
    destruct (pick v1_routes _ _) as [[route params']|]; [|split; [apply chi_no_route|done]].
    destruct route; cbn [v1_handler]; [apply decent_token|apply decent_revoke|apply decent_keys|
      apply decent_Handle, decent_charge|apply decent_refund|apply decent_subscription|
      apply decent_dispute|apply decent_history].
  - split; [apply chi_no_route|done].
Qed.

(** The metrics and the log after a request. *)
Lemma observed (next : Handler S) r s :
  decent next ->
  let '(cs, s') := MetricsTracker E (StructuredLogger E next) r s in
  let key := labels r cs in
  httpRequestsTotal (sv_metrics s') =
    <[key := default 0 (httpRequestsTotal (sv_metrics s) !! key) + 1]> (httpRequestsTotal (sv_metrics s)) /\
  if bool_decide (r_Path r = "/metrics") then sv_log s' = sv_log s
  else exists line, sv_log s' = sv_log s ++ [line] /\ l_status line = status (respond cs) /\
    l_method line = r_Method r /\ l_path line = r_Path r.
Proof.
  intros Hn. unfold MetricsTracker, read_clock. set (s1 := with_part _ s).
  assert (let '(cs, s') := StructuredLogger E next r s1 in
    tidy cs /\ sv_metrics s' = sv_metrics s /\
    if bool_decide (r_Path r = "/metrics") then sv_log s' = sv_log s
    else exists line, sv_log s' = sv_log s ++ [line] /\ l_status line = status (respond cs) /\
      l_method line = r_Method r /\ l_path line = r_Path r) as H.
  { unfold StructuredLogger. case_bool_decide as Hp; [|unfold read_clock].
    { specialize (Hn r s1). by destruct (next r s1). }
    set (s2 := with_part _ s1). specialize (Hn r s2). destruct (next r s2) as [cs s3].
    destruct Hn as (Ht & Hm & Hl). split; [done|]. split; [done|]. cbn. eexists. rewrite Hl.
    split; [done|]. cbn. by rewrite status_sent, Ht. }
  destruct (StructuredLogger E next r s1) as [cs s2]. destruct H as (Ht & Hm & Hl).
  unfold labels. cbn. rewrite Hm, (tidy_status _ Ht). split; [done|]. by case_bool_decide.
Qed.
End answers.

(** ** The routes as chi resolves them *)
Section routing.
Context {C : Chi} {CL : ChiLaws C}.

(** The direct registration of the subscription endpoint comes before the mounted router. *)
Lemma pick_subscriptions : pick root_routes "POST" "/v1/subscriptions" = Some (RSubscriptions, ∅).
Proof using CL.
  unfold pick. erewrite (chi_static _ 2 (Some "POST")); [done|done|done|done|].
  intros j om Hj _. by destruct j as [|[|[|[|j]]]]; cbn in Hj; try congruence.
Qed.

(** Everything else below /v1 but the health check goes through it. *)
Lemma pick_v1 method rest :
  method ∈ chi_methods -> rest <> "healthcheck" -> ~ (method = "POST" /\ rest = "subscriptions") ->
  pick root_routes method ("/v1/" +:+ rest) = Some (RV1, {[ "*" := rest ]}).
Proof using CL.
  intros Hm Hh Hs. unfold pick. erewrite (chi_wildcard _ 3 None "/v1/"); [done|done|done| |].
  - by apply bool_decide_true.
  - intros j om p Hj Hne. destruct j as [|[|[|[|j]]]]; cbn in Hj; [..|done|done];
      injection Hj as <- <-; (split; [done|]); intros [Hp Ha].
    + done.
    + injection Hp as Hp. by apply Hh.
    + injection Hp as Hp. apply Hs. split; [|done]. symmetry. by apply bool_decide_eq_true in Ha.
Qed.
End routing.

(** C1: The server refines the ledger.  Over any sequence of requests on any routes, polls, sweeps,
    foreign traffic on Redis and replication, with any calls lost: the tables move by steps of the
    abstract ledger that bring in no money, so the sum of wallets and unrefunded charges is the
    same, and the tables stay well formed with no transaction open. *)
Theorem server_refines_ledger {kv lim} (E : Env) `{!UuidLaws E} {R : Redis kv} {L : Limiter lim}
    {J : JWT} (privateKey : PrivateKey) {B : Bcrypt} `{!BcryptLaws B} {P : PgValues} {C : Chi}
    {PM : Prometheus} {RID : RequestIDs} (evs : list event) (s : Server kv lim) :
  wf E (w_db (sv_world s)) -> w_tx (sv_world s) = TxNone ->
  let s' := run E privateKey evs s in
  rtc (ledger_step 0) (ledger_at s) (ledger_at s') /\
  total (ledger_at s') = total (ledger_at s) /\
  wf E (w_db (sv_world s')) /\ w_tx (sv_world s') = TxNone.
Proof.
  intros Hwf Htx s'.
  destruct (run_sound E privateKey (books E (w_db (sv_world s))) (books_step E (w_db (sv_world s)))
    (fun d H => wf_outbox_ids _ _ (proj1 H)) evs s) as [Htx' [Hwf' Hl]].
  - split; [done|]. split; [done|]. apply rtc_refl.
  - split; [exact Hl|]. split; [by apply ledger_steps_total|]. by split.
Qed.


(** C40: One status per request.  Every request on the server, whatever its route and outcome,
    increments exactly one counter, the one of its path, its method and the status on the wire,
    and writes exactly one log line with the same three, unless its path is /metrics. *)
Theorem metrics_truthful {kv lim} (E : Env) {R : Redis kv} {L : Limiter lim} {J : JWT}
    (privateKey : PrivateKey) {B : Bcrypt} {P : PgValues} {C : Chi} {PM : Prometheus}
    {RID : RequestIDs} (r : Request) (s : Server kv lim) :
  ChiLaws C -> PrometheusLaws PM ->
  let '(cs, s') := ServeHTTP E privateKey r s in
  let key := labels r cs in
  httpRequestsTotal (sv_metrics s') =
    <[key := default 0 (httpRequestsTotal (sv_metrics s) !! key) + 1]> (httpRequestsTotal (sv_metrics s)) /\
  if bool_decide (r_Path r = "/metrics") then sv_log s' = sv_log s
  else exists line, sv_log s' = sv_log s ++ [line] /\ l_status line = status (respond cs) /\
    l_method line = r_Method r /\ l_path line = r_Path r.
Proof.
  intros CL PML. apply (observed E).
  apply decent_cors, decent_RateLimit, decent_dashboard, (decent_router E privateKey).
Qed.


(** The seed at boot.  On a database without the test merchant (and no call lost) the first
    creation inserts it with 1000000 minor units and the second, with 10000000, is refused: the
    server starts with the smaller balance.  When the address is taken, both change nothing. *)
Theorem seed_once {kv} (E : Env) (w : World kv) :
  let email := u_email (test_merchant 0) in
  let u := gen_random_uuid E (Datatypes.S (w_ticks w)) in
  calm E w -> users (w_db w) !! u = None ->
  let '(r, w') := seed E w in
  is_ok r = false /\
  if email_taken email (w_db w) then w_db w' = w_db w
  else exists now,
    w_db w' = set_users (<[u := test_merchant now]> (users (w_db w))) (w_db w).
Proof.
  intros email u Hc Hu. unfold seed, standby_merchant. change "merchant_india@gmail.com" with email.
  assert (forall t, test_merchant t = mkUserRow email 1000000 "INR" t) as Hm by done. clearbody email.
  assert (forall b (w0 : World kv), calm E w0 -> email_taken email (w_db w0) = true ->
    exists e, CreateUser E email b w0 = (Err e, tick w0)) as Hrefused.
  { intros b w0 Hc0 Ht. unfold CreateUser, wrap_err. rewrite master_stmt_calm by done.
    unfold insert_user, mbind, res_bind. destruct (bigint b); [|by eexists].
    case_bool_decide; [by eexists|]. rewrite Ht. by eexists. }
  destruct (email_taken email (w_db w)) eqn:Ht.
  - destruct (Hrefused 1000000 w Hc Ht) as [e ->].
    destruct (Hrefused 10000000 (tick w)) as [e' ->]; [|done..].
    by eapply calm_frame; [apply frame_tick|].
  - unfold CreateUser at 1, wrap_err. rewrite master_stmt_calm by done. unfold insert_user at 1.
    unfold mbind, res_bind, bigint. cbn [in_int64]. change (in_int64 1000000) with true. cbv iota.
    cbn [sq_uuid stmt_env tick w_ticks]. rewrite bool_decide_false; [|by apply eq_None_not_Some].
    rewrite Ht. unfold mret, res_ret. set (w1 := set_db _ _).
    destruct (Hrefused 10000000 w1) as [e ->].
    + intros n Hn. apply Hc. cbn in Hn. lia.
    + apply bool_decide_true. eexists u, _. cbn. split; [apply lookup_insert_eq|done].
    + split; [done|]. eexists. by rewrite Hm.
Qed.

(** ** Witnesses: a router that compares texts *)

(** The rest of a path after a pattern that ends with a star. *)
Fixpoint wild (pattern path : string) : option string :=
  match pattern, path with
  | String a EmptyString, _ => if Ascii.eqb a (Ascii.ascii_of_nat 42) then Some path else None
  | String a pattern', String b path' => if Ascii.eqb a b then wild pattern' path' else None
  | _, _ => None
  end.

Definition exact_match (method path : string) (x : option string * string) : Prop :=
  x.2 = path /\ static x.2 = true /\ accepts x.1 method = true.
Definition star_match (method path : string) (x : option string * string) : Prop :=
  is_Some (wild x.2 path) /\ accepts x.1 method = true.
#[local] Instance exact_dec m p x : Decision (exact_match m p x).
Proof. unfold exact_match. apply _. Defined.
#[local] Instance star_dec m p x : Decision (star_match m p x).
Proof. unfold star_match. apply _. Defined.

#[export] Instance plain_chi : Chi := {|
  find_route := fun tbl method path =>
    match list_find (exact_match method path) tbl with
    | Some (i, _) => Some (i, ∅)
    | None =>
        match list_find (star_match method path) tbl with
        | Some (i, x) => Some (i, {[ "*" := default "" (wild x.2 path) ]})
        | None => None
        end
    end;
  no_route := fun _ => http_Error "404 page not found" 404 |}.

Lemma wild_app prefix rest : static prefix = true -> wild (prefix +:+ "*") (prefix +:+ rest) = Some rest.
Proof.
  induction prefix as [|a p IH]; intros Hs; [by destruct rest|].
  change (String a p +:+ "*") with (String a (p +:+ "*")).
  change (String a p +:+ rest) with (String a (p +:+ rest)).
  cbn in Hs. apply andb_true_iff in Hs as [_ Hs].
  assert (wild (String a (p +:+ "*")) (String a (p +:+ rest)) =
    if Ascii.eqb a a then wild (p +:+ "*") (p +:+ rest) else None) as -> by (by destruct p).
  rewrite Ascii.eqb_refl. by apply IH.
Qed.

Lemma wild_static pattern path : static pattern = true -> wild pattern path = None.
Proof.
  revert path. induction pattern as [|a p IH]; intros path Hs; [done|].
  cbn in Hs. apply andb_true_iff in Hs as [Ha Hs]. destruct p as [|b p].
  - cbn. destruct (Ascii.eqb_spec a (Ascii.ascii_of_nat 42)) as [->|]; [done|done].
  - destruct path as [|c path]; [done|]. change (wild (String a (String b p)) (String c path)) with
      (if Ascii.eqb a c then wild (String b p) path else None).
    destruct (Ascii.eqb a c); [|done]. by apply IH.
Qed.

Lemma star_not_static prefix : static (prefix +:+ "*") = false.
Proof.
  induction prefix as [|a p IH]; [done|].
  change (static (String a p +:+ "*")) with
    (negb (existsb (Ascii.eqb a) (String.list_ascii_of_string "{}*")) && static (p +:+ "*")).
  rewrite IH. apply andb_false_r.
Qed.

#[local] Instance plain_chi_laws : ChiLaws plain_chi.
Proof.
  split.
  - intros tbl i om path method Hi Hs Ha Honly. cbn.
    assert (list_find (exact_match method path) tbl = Some (i, (om, path))) as ->; [|done].
    apply list_find_Some. split; [done|]. split; [done|].
    intros j [om' p'] Hj Hlt (Hp & _ & Ha'). cbn in Hp, Ha'. subst p'.
    assert (j = i) by (by eapply Honly). lia.
  - intros tbl i om prefix rest method Hi Hs Ha Honly. cbn.
    assert (list_find (exact_match method (prefix +:+ rest)) tbl = None) as ->.
    { apply list_find_None. apply Forall_lookup. intros j [om' p'] Hj (Hp & Hst & Ha').
      cbn [fst snd] in Hp, Hst, Ha'. destruct (decide (j = i)) as [->|Hne].
      - assert (p' = prefix +:+ "*") as Hp' by congruence. rewrite Hp', star_not_static in Hst. done.
      - destruct (Honly j om' p' Hj Hne) as [_ Hno]. by apply Hno. }
    assert (list_find (star_match method (prefix +:+ rest)) tbl = Some (i, (om, prefix +:+ "*"))) as ->.
    2:{ cbn. by rewrite wild_app. }
    apply list_find_Some. split; [done|]. split; [split; [cbn; by rewrite wild_app|done]|].
    intros j [om' p'] Hj Hlt [Hw _]. cbn in Hw. destruct (Honly j om' p' Hj ltac:(lia)) as [Hst _].
    rewrite wild_static in Hw by done. by destruct Hw.
  - done.
Qed.

#[export] Instance plain_prometheus : Prometheus := {| promhttp_Handler := fun _ => [CWrite "# HELP"] |}.
#[local] Instance plain_prometheus_laws : PrometheusLaws plain_prometheus.
Proof. by intros m. Qed.
#[export] Instance plain_ids : RequestIDs := {| GetReqID := fun n _ => itoa (Z.of_nat n) |}.

Lemma shop_schema : schema_ok shop_db.
Proof.
  unfold shop_db. constructor; cbn; try (intros * H; by rewrite lookup_empty in H); try (by constructor).
  - intros u r [<- <-]%lookup_singleton_Some. done.
  - intros u v r q [<- <-]%lookup_singleton_Some [<- <-]%lookup_singleton_Some _. done.
Qed.

Definition shop : Server mem bucket :=
  mkServer (mkWorld shop_db shop_db TxNone ∅ [] 10) ∅ NewDisputeService NewSubscriptionService (mkMetrics ∅ []) [].

(** A day at the shop: a charge with an idempotency key and its repetition, an overdraft, a
    refund of nothing, a subscription, a key, a poll of the outbox. *)
Definition keyed (r : Request) : Request :=
  mkRequest (r_Method r) (r_Path r) {[ "Idempotency-Key" := "k1" ]} (r_RemoteAddr r) (r_Body r).
Definition day : list (event (kv := mem)) :=
  [Request_ (keyed (charge_post 300)); Request_ (keyed (charge_post 300)); Request_ (charge_post 5000);
   Request_ (refund_post "nonsense"); Poll; Request_ (subscribe "monthly"); Request_ key_post; Sweep].

Definition after : Server mem bucket := run env0 7%N day shop.

(** The day ends with one charge booked, the repeated one answered from the cache. *)
Lemma server_refines_ledger_witness :
  total (ledger_at after) = 700 /\
  wallets (ledger_at after) !! u0 = Some 400 /\
  rtc (ledger_step 0) (ledger_at shop) (ledger_at after).
Proof.
  assert (wallets (ledger_at after) !! u0 = Some 400) as Hw by (by vm_compute).
  assert (total (ledger_at shop) = 700) as Ht by (by vm_compute).
  destruct (server_refines_ledger env0 (J := plain_jwt) 7%N day shop shop_db_wf eq_refl) as (Hl & Htot & _).
  change (run env0 (J := plain_jwt) 7%N day shop) with after in *.
  split; [by rewrite Htot|]. split; [exact Hw|exact Hl].
Defined.


Lemma metrics_truthful_witness :
  let '(cs, s') := ServeHTTP env0 (J := plain_jwt) 7%N (refund_post "nonsense") shop in
  httpRequestsTotal (sv_metrics s') !! ("/v1/refunds", "POST", "422") = Some 1 /\
  length (sv_log s') = 1%nat.
Proof.
  pose proof (metrics_truthful env0 (J := plain_jwt) 7%N (refund_post "nonsense") shop _ _) as H.
  assert (status (respond (ServeHTTP env0 (J := plain_jwt) 7%N (refund_post "nonsense") shop).1) = 422) as Hs
    by (by vm_compute).
  destruct (ServeHTTP env0 (J := plain_jwt) 7%N (refund_post "nonsense") shop) as [cs s']. cbn [fst] in Hs.
  unfold labels in H. rewrite Hs in H. destruct H as [Hm (line & Hl & _)].
  change (r_Path _, r_Method _, itoa 422) with ("/v1/refunds", "POST", itoa 422) in Hm.
  change (itoa 422) with "422" in Hm. split; [|by rewrite Hl].
  rewrite Hm, lookup_insert_eq. reflexivity.
Defined.

(** Redis is down; a subscription is still created. *)
Definition env_down : Env :=
  ref_env count_uuid (fun n => if decide (n = 11)%nat then Some (Lost_before (Errorf "dial tcp")) else None).


Lemma seed_once_witness :
  exists now, w_db (seed env0 (new_world tt)).2 =
    set_users {[ count_uuid 1 := test_merchant now ]} empty_db.
Proof.
  pose proof (seed_once env0 (new_world tt) (calm_env0 _) ltac:(done)) as H.
  destruct (seed env0 (new_world tt)) as [r w']. destruct H as [_ H]. exact H.
Defined.
