(* ===== verification/Boot.v ===== *)
(** * cmd/api/main.go before the server listens, and internal/database/migrations.go

    [main] loads the settings, opens the cluster, runs the migrations, asks Redis for a sign of
    life, loads the keys and creates the test merchant twice ([seed]); every failure but those of the two
    creations ends the process ([log.Fatalf]).  golang-migrate is the class [Migrate]; the tables
    of the model are those after the migrations.  Goroutines (profiler, task server, poller) start
    in between and show as events of the running server (Server.v) and in Lifecycle.v; what the task
    server is told at its start is [asynqServer]. *)
From S2P Require Import Prelude Json GoTime Database Hex PaymentRepo OutboxRepo PaymentService.
From S2P Require Import OutboxWorker UserRepo Ledger Redis Http ClientLimiter Jwt Dispute EventLog.
From S2P Require Import Keys Subscription Config Middleware Server System.

(** ** Migrations *)
Class Migrate := {
  migrate_New : string -> string -> option error;   (* the source and the database *)
  migrate_Up : option error }.

Definition ErrNoChange : error := Sentinel "no change".

(** An error is a [log.Fatalf]. *)
Definition RunMigrations {G : Migrate} (migrationURL : string) : res unit :=
  match migrate_New "file://migrations" migrationURL with
  | Some err => Err (Wrapf "CRITICAL: Failed to initialize migration driver engine: " err "")
  | None =>
      match migrate_Up with
      | Some err =>
          if errors_Is err ErrNoChange then Ok tt
          else Err (Wrapf "CRITICAL: Database migration processing execution failed: " err "")
      | None => Ok tt
      end
  end.

Definition migrationURL (cfg : Config) : string :=
  "postgres://" +:+ DBUser cfg +:+ ":" +:+ DBPassword cfg +:+ "@" +:+ DBHost cfg +:+ ":" +:+
  DBPort cfg +:+ "/" +:+ DBName cfg +:+ "?sslmode=disable".

(** ** The task server and its client, as the data handed to asynq *)
Record RedisClientOpt := mkRedisClientOpt { Addr : string; Password : string }.

(** How many tasks run at once, and the weights of the queues that are served. *)
Record TaskServer := mkTaskServer {
  ts_Redis : RedisClientOpt; Concurrency : Z; Queues : gmap string Z }.

Definition redis_options (cfg : Config) (vars : environ) : RedisClientOpt :=
  mkRedisClientOpt (RedisHost cfg +:+ ":" +:+ RedisPort cfg) (getEnv "REDIS_PASSWORD" "" vars).

Definition asynqServer (cfg : Config) (vars : environ) : TaskServer :=
  mkTaskServer (redis_options cfg vars) 5 {[ "critical" := 6; "default" := 3 ]}.

Definition asynqClient (cfg : Config) (vars : environ) : RedisClientOpt := redis_options cfg vars.

(** asynq puts a task into the queue named "default" unless the call names one, and the outbox
    worker names none: in every environment the server reads that queue, on the Redis instance
    that the client writes to. *)
Theorem queue_served (vars : environ) (cfg : Config) :
  Load vars = Ok cfg ->
  ts_Redis (asynqServer cfg vars) = asynqClient cfg vars /\
  (exists weight, Queues (asynqServer cfg vars) !! "default" = Some weight /\ 0 < weight) /\
  (vars !! "REDIS_HOST" = None -> vars !! "REDIS_PORT" = None ->
   Addr (asynqClient cfg vars) = "localhost:6379").
Proof.
  intros [= <-]. split; [done|]. split; [by exists 3|]. cbn. unfold getEnv. by intros -> ->.
Qed.

(** ** The start *)
Section boot.
Context {kv lim : Type} (E : Env) {R : Redis kv} {L : Limiter lim} {D : SqlDriver} {G : Migrate}
  {J : JWT} {F : KeyFiles J}.

(** [rdb.Ping] changes nothing; its answer may be lost. *)
Definition Ping : M (World kv) unit := ext E (fun w => (Ok tt, w)).

(** Up to the routes: the cluster and the keys, or the message the process dies with. *)
Definition boot (vars : environ) : M (World kv) (DatabaseCluster * (PrivateKey * PublicKey)) :=
  cfg ← wrap_err "Failed to initialize configuration settings: " (lift (Load vars));
  dbCluster ← wrap_err "Critical boot failure: Database Cluster unreachable" (lift (InitCluster cfg));
  _ ← lift (RunMigrations (migrationURL cfg));
  _ ← wrap_err "CRITICAL: Failed to connect to Redis cache: " Ping;
  keys ← wrap_err "Critical boot failure: Failed to seed RSA Cryptographic Keys"
           (lift (NewJWTAuthService "private_key.pem" "public_key.pem"));
  _ ← observe (seed E);
  mret (dbCluster, keys).

(** The state of the process when it starts to listen. *)
Definition listening (w : World kv) : Server kv lim :=
  mkServer w ∅ NewDisputeService NewSubscriptionService (mkMetrics ∅ []) [].
End boot.

Section facts.
Context {kv lim : Type} (E : Env) {UL : UuidLaws E} {R : Redis kv} {L : Limiter lim} {D : SqlDriver}
  {G : Migrate} {J : JWT} {F : KeyFiles J}.

(** An address is given away once. *)
Lemma created_once d email b b' d1 d2 : user_created d email b d1 -> ~ user_created d1 email b' d2.
Proof.
  intros [u now Hu Hb Hno] H. inversion H as [v now' _ _ Hno']. by eapply (Hno' u); [apply lookup_insert_eq|].
Qed.

(** The two creations give the merchant one of the two balances, or none. *)
Lemma seed_step (w : World kv) :
  exists b, b ∈ [0; 1000000; 10000000] /\ db_step E b (w_db w) (w_db (seed E w).2) /\
    w_tx (seed E w).2 = w_tx w.
Proof.
  unfold seed, standby_merchant. pose proof (CreateUser_wp E "merchant_india@gmail.com" 1000000 w) as H1.
  unfold wp in H1. destruct (CreateUser E _ 1000000 w) as [r1 w1]. cbn [fst snd] in H1.
  pose proof (CreateUser_wp E "merchant_india@gmail.com" 10000000 w1) as H2.
  unfold wp in H2. destruct (CreateUser E _ 10000000 w1) as [r2 w2]. cbn [fst snd] in *.
  destruct H1 as (_ & Ht1 & [Hd1|Hd1] & _), H2 as (_ & Ht2 & [Hd2|Hd2] & _); rewrite Ht2, Ht1.
  - exists 0. rewrite Hd2, Hd1. split; [by left|]. split; [constructor|done].
  - exists 10000000. rewrite <- Hd1. split; [set_solver|]. split; [by eapply step_user|done].
  - exists 1000000. rewrite Hd2. split; [set_solver|]. split; [by eapply step_user|done].
  - by destruct (created_once _ _ _ _ _ _ Hd1 Hd2).
Qed.

Lemma boot_step vars (w : World kv) :
  match boot E vars w with
  | (Err _, w1) => w_db w1 = w_db w /\ w_tx w1 = w_tx w
  | (Ok _, w1) => exists b, b ∈ [0; 1000000; 10000000] /\ db_step E b (w_db w) (w_db w1) /\
      w_tx w1 = w_tx w
  end.
Proof.
  unfold boot, lift, wrap_err, observe, mbind, M_bind, mret, M_ret. destruct (Load vars) as [cfg|e]; [|done].
  destruct (InitCluster cfg) as [cl|e]; [|done]. destruct (RunMigrations _) as [[]|e]; [|done].
  unfold Ping, ext. destruct (faults E (w_ticks w)) as [[e|e]|]; [done|done|].
  destruct (NewJWTAuthService _ _) as [keys|e]; [|done].
  pose proof (seed_step (tick w)) as Hs. destruct (seed E (tick w)) as [r w1]. exact Hs.
Qed.
End facts.

(** C10: From boot to the last request.  A process that dies at boot leaves the tables as they were.
    One that starts to listen, on well-formed tables, serves any sequence of requests, polls and
    foreign traffic, with any calls lost, so that the tables stay well formed and the money in
    wallets and unrefunded charges is what was there before boot plus the balance of the test
    merchant, if the merchant was created: 1000000, or 10000000 when the call that creates it
    first was lost. *)
Theorem boot_then_serve {kv lim} (E : Env) `{!UuidLaws E} {R : Redis kv} {L : Limiter lim}
    {D : SqlDriver} {G : Migrate} {J : JWT} {F : KeyFiles J} {B : Bcrypt} `{!BcryptLaws B}
    {P : PgValues} {C : Chi} {PM : Prometheus} {RID : RequestIDs} (vars : environ) (w : World kv) :
  wf E (w_db w) -> w_tx w = TxNone ->
  match boot E vars w with
  | (Err _, w1) => w_db w1 = w_db w
  | (Ok (cluster, (privateKey, publicKey)), w1) =>
      exists b, b ∈ [0; 1000000; 10000000] /\
      forall evs : list event, let s := run E privateKey evs (listening w1 : Server kv lim) in
        wf E (w_db (sv_world s)) /\ w_tx (sv_world s) = TxNone /\
        total (ledger_at s) = total (ledger_of (w_db w)) + b
  end.
Proof.
  intros Hwf Htx. pose proof (boot_step E vars w) as Hb.
  destruct (boot E vars w) as [[[cl [priv pub]]|e] w1]; [|apply Hb].
  destruct Hb as (b & Hb & Hstep & Ht). exists b. split; [done|]. intros evs s.
  assert (wf E (w_db w1)) as Hwf1 by (by eapply wf_step).
  destruct (run_sound E priv (books E (w_db w1)) (books_step E (w_db w1))
    (fun d H => wf_outbox_ids _ _ (proj1 H)) evs (listening w1)) as [Htx' [Hwf' Hl]].
  - split; [by rewrite <- Htx|]. split; [done|apply rtc_refl].
  - split; [done|]. split; [done|]. etrans; [exact (ledger_steps_total _ _ Hl)|].
    by apply total_step, (ledger_of_step E).
Qed.

(** ** Witness: a boot on an empty database and a day of requests *)
#[local] Instance all_up : SqlDriver := {| sql_Open := fun _ => None; sql_Ping := fun _ => None |}.
#[local] Instance migrated : Migrate :=
  {| migrate_New := fun _ _ => None; migrate_Up := Some ErrNoChange |}.
#[local] Instance key_files : KeyFiles plain_jwt := {|
  ReadFile := fun path => Ok path;
  ParseRSAPrivateKeyFromPEM := fun _ => Ok 7%N : res (@PrivateKey plain_jwt);
  ParseRSAPublicKeyFromPEM := fun _ => Ok 7%N : res (@PublicKey plain_jwt) |}.

Definition blank : World mem := mkWorld empty_db empty_db TxNone ∅ [] 0.
Definition boot0 := boot env0 ∅ blank.

Lemma boot_then_serve_witness :
  total (ledger_at (run env0 (J := plain_jwt) 7%N day (listening boot0.2 : Server mem bucket))) = 1000000.
Proof.
  assert ((fun x => x.2.1) <$> match boot0.1 with Ok x => Some x | _ => None end = Some 7%N) as Hk by (by vm_compute).
  assert (total (ledger_of (w_db boot0.2)) = 1000000) as Ht by (by vm_compute).
  revert Hk Ht. pose proof (boot_then_serve (lim := bucket) env0 ∅ blank (wf_empty env0) eq_refl) as H.
  revert H. unfold boot0. generalize (boot env0 ∅ blank). intros [[[cl [priv pub]]|e] w1] H Hk Ht; [|done].
  cbn [fst snd] in *. injection Hk as ->. destruct H as (b & _ & H). destruct (H []) as (_ & _ & Hb).
  destruct (H day) as (_ & _ & Hd). change (total (ledger_of (w_db w1)) = 0 + b) in Hb.
  rewrite Hd. change (total (ledger_of (w_db blank))) with 0. lia.
Defined.
